(** * RESPB protocol benchmark: a shallow embedding and its verification

    The development follows the C sources of [protocol-bench]:

    - [include/respb.h], [src/respb_parser.c], [src/respb_serializer.c]:
      the binary RESPB codec (module [Respb]);
    - [include/benchmark.h], [src/metrics.c]: the latency metrics
      (module [Metrics]);
    - [include/valkey_resp_parser.h], [src/valkey_resp_parser.c]: the
      reference RESP multibulk parser (module [Resp]).

    Integers are modelled in [Z] with the wrap-around of their C type
    written out ([size_t], [unsigned long long] and [uint64_t] are 64 bits
    wide, [int] is 32 bits wide, as on the LP64 platforms the benchmark
    targets).  Memory is modelled by byte lists; a pointer is a byte object
    together with an offset into it, and an access outside the object is
    the distinguished outcome [Fault]. *)

From Stdlib Require Import ZArith Lia Bool List.
From Stdlib Require Import Strings.Byte.
From Stdlib Require Import Sorting.Sorted Sorting.Permutation.
From stdpp Require Import base tactics list sorting.

Local Open Scope Z_scope.

(** ** Machine integers and bytes *)

Module CInt.

Definition wrap (bits : Z) (z : Z) : Z := z mod 2 ^ bits.

Definition u8 (z : Z) : Z := wrap 8 z.
Definition u16 (z : Z) : Z := wrap 16 z.
Definition u32 (z : Z) : Z := wrap 32 z.
Definition u64 (z : Z) : Z := wrap 64 z.

(** [size_t] and [unsigned long long] are both 64-bit unsigned. *)
Definition size_t (z : Z) : Z := u64 z.

(** Conversion of a 64-bit pattern to the signed type of the same width
    ([ssize_t], [long], [long long]). *)
Definition s64 (z : Z) : Z :=
  let w := u64 z in if w <? 2 ^ 63 then w else w - 2 ^ 64.

Definition UINT64_MAX : Z := 2 ^ 64 - 1.
Definition ULLONG_MAX : Z := 2 ^ 64 - 1.
Definition LLONG_MAX : Z := 2 ^ 63 - 1.
Definition LLONG_MIN : Z := - 2 ^ 63.
Definition INT_MAX : Z := 2 ^ 31 - 1.
Definition PTRDIFF_MAX : Z := 2 ^ 63 - 1.

Definition byte_to_Z (b : byte) : Z := Z.of_N (Byte.to_N b).

(** Storing an integer into a [uint8_t] keeps its low eight bits. *)
Definition byte_of_Z (z : Z) : byte :=
  match Byte.of_N (Z.to_N (u8 z)) with
  | Some b => b
  | None => x00
  end.

(** Byte strings written as integers. *)
Definition bytes (l : list Z) : list byte := map byte_of_Z l.

End CInt.

(** ** Pointers into byte objects *)

Module Mem.
Import CInt.

(** A pointer designates a byte object (its contents) and an offset. *)
Record ptr : Type := mk_ptr { base : list byte; off : Z }.

Definition ptr_add (p : ptr) (n : Z) : ptr :=
  {| base := base p; off := off p + n |}.

(** [p[i]]: [None] when the access is outside the object. *)
Definition load (p : ptr) (i : Z) : option Z :=
  if off p + i <? 0 then None
  else byte_to_Z <$> base p !! Z.to_nat (off p + i).

(** The [n] bytes starting at [p]; [None] when they are not all inside the
    object. *)
Definition load_bytes (p : ptr) (n : Z) : option (list byte) :=
  if (off p <? 0) || (n <? 0) || (Z.of_nat (length (base p)) <? off p + n)
  then None
  else Some (take (Z.to_nat n) (drop (Z.to_nat (off p)) (base p))).

End Mem.

(** ** The RESPB codec: [respb.h] and [respb_parser.c] *)

Module Respb.
Import CInt Mem.

(** *** Opcodes and constants of [respb.h] *)

Definition RESPB_OP_GET : Z := 0x0000.
Definition RESPB_OP_SET : Z := 0x0001.
Definition RESPB_OP_APPEND : Z := 0x0002.
Definition RESPB_OP_DECR : Z := 0x0003.
Definition RESPB_OP_DECRBY : Z := 0x0004.
Definition RESPB_OP_GETDEL : Z := 0x0005.
Definition RESPB_OP_GETEX : Z := 0x0006.
Definition RESPB_OP_GETRANGE : Z := 0x0007.
Definition RESPB_OP_GETSET : Z := 0x0008.
Definition RESPB_OP_INCR : Z := 0x0009.
Definition RESPB_OP_INCRBY : Z := 0x000A.
Definition RESPB_OP_INCRBYFLOAT : Z := 0x000B.
Definition RESPB_OP_MGET : Z := 0x000C.
Definition RESPB_OP_MSET : Z := 0x000D.
Definition RESPB_OP_MSETNX : Z := 0x000E.
Definition RESPB_OP_PSETEX : Z := 0x000F.
Definition RESPB_OP_SETEX : Z := 0x0010.
Definition RESPB_OP_SETNX : Z := 0x0011.
Definition RESPB_OP_SETRANGE : Z := 0x0012.
Definition RESPB_OP_STRLEN : Z := 0x0013.
Definition RESPB_OP_SUBSTR : Z := 0x0014.
Definition RESPB_OP_LCS : Z := 0x0015.
Definition RESPB_OP_DELIFEQ : Z := 0x0016.
Definition RESPB_OP_LPUSH : Z := 0x0040.
Definition RESPB_OP_RPUSH : Z := 0x0041.
Definition RESPB_OP_LPOP : Z := 0x0042.
Definition RESPB_OP_RPOP : Z := 0x0043.
Definition RESPB_OP_LLEN : Z := 0x0044.
Definition RESPB_OP_LRANGE : Z := 0x0045.
Definition RESPB_OP_LINDEX : Z := 0x0046.
Definition RESPB_OP_LSET : Z := 0x0047.
Definition RESPB_OP_LREM : Z := 0x0048.
Definition RESPB_OP_LTRIM : Z := 0x0049.
Definition RESPB_OP_LINSERT : Z := 0x004A.
Definition RESPB_OP_LPUSHX : Z := 0x004B.
Definition RESPB_OP_RPUSHX : Z := 0x004C.
Definition RESPB_OP_RPOPLPUSH : Z := 0x004D.
Definition RESPB_OP_LMOVE : Z := 0x004E.
Definition RESPB_OP_LMPOP : Z := 0x004F.
Definition RESPB_OP_LPOS : Z := 0x0050.
Definition RESPB_OP_BLPOP : Z := 0x0051.
Definition RESPB_OP_BRPOP : Z := 0x0052.
Definition RESPB_OP_BRPOPLPUSH : Z := 0x0053.
Definition RESPB_OP_BLMOVE : Z := 0x0054.
Definition RESPB_OP_BLMPOP : Z := 0x0055.
Definition RESPB_OP_SADD : Z := 0x0080.
Definition RESPB_OP_SREM : Z := 0x0081.
Definition RESPB_OP_SMEMBERS : Z := 0x0082.
Definition RESPB_OP_SISMEMBER : Z := 0x0083.
Definition RESPB_OP_SCARD : Z := 0x0084.
Definition RESPB_OP_SPOP : Z := 0x0085.
Definition RESPB_OP_SRANDMEMBER : Z := 0x0086.
Definition RESPB_OP_SINTER : Z := 0x0087.
Definition RESPB_OP_SINTERSTORE : Z := 0x0088.
Definition RESPB_OP_SUNION : Z := 0x0089.
Definition RESPB_OP_SUNIONSTORE : Z := 0x008A.
Definition RESPB_OP_SDIFF : Z := 0x008B.
Definition RESPB_OP_SDIFFSTORE : Z := 0x008C.
Definition RESPB_OP_SMOVE : Z := 0x008D.
Definition RESPB_OP_SSCAN : Z := 0x008E.
Definition RESPB_OP_SINTERCARD : Z := 0x008F.
Definition RESPB_OP_SMISMEMBER : Z := 0x0090.
Definition RESPB_OP_ZADD : Z := 0x00C0.
Definition RESPB_OP_ZREM : Z := 0x00C1.
Definition RESPB_OP_ZCARD : Z := 0x00C2.
Definition RESPB_OP_ZCOUNT : Z := 0x00C3.
Definition RESPB_OP_ZINCRBY : Z := 0x00C4.
Definition RESPB_OP_ZRANGE : Z := 0x00C5.
Definition RESPB_OP_ZRANGEBYSCORE : Z := 0x00C6.
Definition RESPB_OP_ZRANGEBYLEX : Z := 0x00C7.
Definition RESPB_OP_ZREVRANGE : Z := 0x00C8.
Definition RESPB_OP_ZREVRANGEBYSCORE : Z := 0x00C9.
Definition RESPB_OP_ZREVRANGEBYLEX : Z := 0x00CA.
Definition RESPB_OP_ZRANK : Z := 0x00CB.
Definition RESPB_OP_ZREVRANK : Z := 0x00CC.
Definition RESPB_OP_ZSCORE : Z := 0x00CD.
Definition RESPB_OP_ZMSCORE : Z := 0x00CE.
Definition RESPB_OP_ZREMRANGEBYRANK : Z := 0x00CF.
Definition RESPB_OP_ZREMRANGEBYSCORE : Z := 0x00D0.
Definition RESPB_OP_ZREMRANGEBYLEX : Z := 0x00D1.
Definition RESPB_OP_ZLEXCOUNT : Z := 0x00D2.
Definition RESPB_OP_ZPOPMIN : Z := 0x00D3.
Definition RESPB_OP_ZPOPMAX : Z := 0x00D4.
Definition RESPB_OP_BZPOPMIN : Z := 0x00D5.
Definition RESPB_OP_BZPOPMAX : Z := 0x00D6.
Definition RESPB_OP_ZRANDMEMBER : Z := 0x00D7.
Definition RESPB_OP_ZDIFF : Z := 0x00D8.
Definition RESPB_OP_ZDIFFSTORE : Z := 0x00D9.
Definition RESPB_OP_ZINTER : Z := 0x00DA.
Definition RESPB_OP_ZINTERSTORE : Z := 0x00DB.
Definition RESPB_OP_ZINTERCARD : Z := 0x00DC.
Definition RESPB_OP_ZUNION : Z := 0x00DD.
Definition RESPB_OP_ZUNIONSTORE : Z := 0x00DE.
Definition RESPB_OP_ZSCAN : Z := 0x00DF.
Definition RESPB_OP_ZMPOP : Z := 0x00E0.
Definition RESPB_OP_BZMPOP : Z := 0x00E1.
Definition RESPB_OP_ZRANGESTORE : Z := 0x00E2.
Definition RESPB_OP_HSET : Z := 0x0100.
Definition RESPB_OP_HGET : Z := 0x0101.
Definition RESPB_OP_HMSET : Z := 0x0102.
Definition RESPB_OP_HMGET : Z := 0x0103.
Definition RESPB_OP_HGETALL : Z := 0x0104.
Definition RESPB_OP_HDEL : Z := 0x0105.
Definition RESPB_OP_HEXISTS : Z := 0x0106.
Definition RESPB_OP_HINCRBY : Z := 0x0107.
Definition RESPB_OP_HINCRBYFLOAT : Z := 0x0108.
Definition RESPB_OP_HKEYS : Z := 0x0109.
Definition RESPB_OP_HVALS : Z := 0x010A.
Definition RESPB_OP_HLEN : Z := 0x010B.
Definition RESPB_OP_HSETNX : Z := 0x010C.
Definition RESPB_OP_HSTRLEN : Z := 0x010D.
Definition RESPB_OP_HSCAN : Z := 0x010E.
Definition RESPB_OP_HRANDFIELD : Z := 0x010F.
Definition RESPB_OP_HEXPIRE : Z := 0x0110.
Definition RESPB_OP_HEXPIREAT : Z := 0x0111.
Definition RESPB_OP_HEXPIRETIME : Z := 0x0112.
Definition RESPB_OP_HPEXPIRE : Z := 0x0113.
Definition RESPB_OP_HPEXPIREAT : Z := 0x0114.
Definition RESPB_OP_HPEXPIRETIME : Z := 0x0115.
Definition RESPB_OP_HPTTL : Z := 0x0116.
Definition RESPB_OP_HTTL : Z := 0x0117.
Definition RESPB_OP_HPERSIST : Z := 0x0118.
Definition RESPB_OP_HGETEX : Z := 0x0119.
Definition RESPB_OP_HSETEX : Z := 0x011A.
Definition RESPB_OP_SETBIT : Z := 0x0140.
Definition RESPB_OP_GETBIT : Z := 0x0141.
Definition RESPB_OP_BITCOUNT : Z := 0x0142.
Definition RESPB_OP_BITPOS : Z := 0x0143.
Definition RESPB_OP_BITOP : Z := 0x0144.
Definition RESPB_OP_BITFIELD : Z := 0x0145.
Definition RESPB_OP_BITFIELD_RO : Z := 0x0146.
Definition RESPB_OP_PFADD : Z := 0x0160.
Definition RESPB_OP_PFCOUNT : Z := 0x0161.
Definition RESPB_OP_PFMERGE : Z := 0x0162.
Definition RESPB_OP_PFDEBUG : Z := 0x0163.
Definition RESPB_OP_PFSELFTEST : Z := 0x0164.
Definition RESPB_OP_GEOADD : Z := 0x0180.
Definition RESPB_OP_GEODIST : Z := 0x0181.
Definition RESPB_OP_GEOHASH : Z := 0x0182.
Definition RESPB_OP_GEOPOS : Z := 0x0183.
Definition RESPB_OP_GEORADIUS : Z := 0x0184.
Definition RESPB_OP_GEORADIUSBYMEMBER : Z := 0x0185.
Definition RESPB_OP_GEORADIUS_RO : Z := 0x0186.
Definition RESPB_OP_GEORADIUSBYMEMBER_RO : Z := 0x0187.
Definition RESPB_OP_GEOSEARCH : Z := 0x0188.
Definition RESPB_OP_GEOSEARCHSTORE : Z := 0x0189.
Definition RESPB_OP_XADD : Z := 0x01C0.
Definition RESPB_OP_XLEN : Z := 0x01C1.
Definition RESPB_OP_XRANGE : Z := 0x01C2.
Definition RESPB_OP_XREVRANGE : Z := 0x01C3.
Definition RESPB_OP_XREAD : Z := 0x01C4.
Definition RESPB_OP_XREADGROUP : Z := 0x01C5.
Definition RESPB_OP_XDEL : Z := 0x01C6.
Definition RESPB_OP_XTRIM : Z := 0x01C7.
Definition RESPB_OP_XACK : Z := 0x01C8.
Definition RESPB_OP_XPENDING : Z := 0x01C9.
Definition RESPB_OP_XCLAIM : Z := 0x01CA.
Definition RESPB_OP_XAUTOCLAIM : Z := 0x01CB.
Definition RESPB_OP_XINFO : Z := 0x01CC.
Definition RESPB_OP_XGROUP : Z := 0x01CD.
Definition RESPB_OP_XSETID : Z := 0x01CE.
Definition RESPB_OP_DEL : Z := 0x02C0.
Definition RESPB_OP_UNLINK : Z := 0x02C1.
Definition RESPB_OP_EXISTS : Z := 0x02C2.
Definition RESPB_OP_EXPIRE : Z := 0x02C3.
Definition RESPB_OP_EXPIREAT : Z := 0x02C4.
Definition RESPB_OP_EXPIRETIME : Z := 0x02C5.
Definition RESPB_OP_PEXPIRE : Z := 0x02C6.
Definition RESPB_OP_PEXPIREAT : Z := 0x02C7.
Definition RESPB_OP_PEXPIRETIME : Z := 0x02C8.
Definition RESPB_OP_TTL : Z := 0x02C9.
Definition RESPB_OP_PTTL : Z := 0x02CA.
Definition RESPB_OP_PERSIST : Z := 0x02CB.
Definition RESPB_OP_KEYS : Z := 0x02CC.
Definition RESPB_OP_SCAN : Z := 0x02CD.
Definition RESPB_OP_RANDOMKEY : Z := 0x02CE.
Definition RESPB_OP_RENAME : Z := 0x02CF.
Definition RESPB_OP_RENAMENX : Z := 0x02D0.
Definition RESPB_OP_TYPE : Z := 0x02D1.
Definition RESPB_OP_DUMP : Z := 0x02D2.
Definition RESPB_OP_RESTORE : Z := 0x02D3.
Definition RESPB_OP_MIGRATE : Z := 0x02D4.
Definition RESPB_OP_MOVE : Z := 0x02D5.
Definition RESPB_OP_COPY : Z := 0x02D6.
Definition RESPB_OP_SORT : Z := 0x02D7.
Definition RESPB_OP_SORT_RO : Z := 0x02D8.
Definition RESPB_OP_TOUCH : Z := 0x02D9.
Definition RESPB_OP_OBJECT : Z := 0x02DA.
Definition RESPB_OP_WAIT : Z := 0x02DB.
Definition RESPB_OP_WAITAOF : Z := 0x02DC.
Definition RESPB_OP_PING : Z := 0x0300.
Definition RESPB_OP_ECHO : Z := 0x0301.
Definition RESPB_OP_AUTH : Z := 0x0302.
Definition RESPB_OP_SELECT : Z := 0x0303.
Definition RESPB_OP_QUIT : Z := 0x0304.
Definition RESPB_OP_HELLO : Z := 0x0305.
Definition RESPB_OP_RESET : Z := 0x0306.
Definition RESPB_OP_CLIENT : Z := 0x0307.
Definition RESPB_OP_MULTI : Z := 0x0240.
Definition RESPB_OP_EXEC : Z := 0x0241.
Definition RESPB_OP_DISCARD : Z := 0x0242.
Definition RESPB_OP_WATCH : Z := 0x0243.
Definition RESPB_OP_UNWATCH : Z := 0x0244.
Definition RESPB_OP_EVAL : Z := 0x0260.
Definition RESPB_OP_EVALSHA : Z := 0x0261.
Definition RESPB_OP_EVAL_RO : Z := 0x0262.
Definition RESPB_OP_EVALSHA_RO : Z := 0x0263.
Definition RESPB_OP_SCRIPT : Z := 0x0264.
Definition RESPB_OP_FCALL : Z := 0x0265.
Definition RESPB_OP_FCALL_RO : Z := 0x0266.
Definition RESPB_OP_FUNCTION : Z := 0x0267.
Definition RESPB_OP_CLUSTER : Z := 0x0340.
Definition RESPB_OP_READONLY : Z := 0x0341.
Definition RESPB_OP_READWRITE : Z := 0x0342.
Definition RESPB_OP_ASKING : Z := 0x0343.
Definition RESPB_OP_DBSIZE : Z := 0x03C0.
Definition RESPB_OP_FLUSHDB : Z := 0x03C1.
Definition RESPB_OP_FLUSHALL : Z := 0x03C2.
Definition RESPB_OP_SAVE : Z := 0x03C3.
Definition RESPB_OP_BGSAVE : Z := 0x03C4.
Definition RESPB_OP_BGREWRITEAOF : Z := 0x03C5.
Definition RESPB_OP_LASTSAVE : Z := 0x03C6.
Definition RESPB_OP_SHUTDOWN : Z := 0x03C7.
Definition RESPB_OP_INFO : Z := 0x03C8.
Definition RESPB_OP_CONFIG : Z := 0x03C9.
Definition RESPB_OP_COMMAND : Z := 0x03CA.
Definition RESPB_OP_TIME : Z := 0x03CB.
Definition RESPB_OP_ROLE : Z := 0x03CC.
Definition RESPB_OP_REPLICAOF : Z := 0x03CD.
Definition RESPB_OP_SLAVEOF : Z := 0x03CE.
Definition RESPB_OP_MONITOR : Z := 0x03CF.
Definition RESPB_OP_DEBUG : Z := 0x03D0.
Definition RESPB_OP_SYNC : Z := 0x03D1.
Definition RESPB_OP_PSYNC : Z := 0x03D2.
Definition RESPB_OP_REPLCONF : Z := 0x03D3.
Definition RESPB_OP_SLOWLOG : Z := 0x03D4.
Definition RESPB_OP_LATENCY : Z := 0x03D5.
Definition RESPB_OP_MEMORY : Z := 0x03D6.
Definition RESPB_OP_MODULE_CMD : Z := 0x03D7.
Definition RESPB_OP_ACL : Z := 0x03D8.
Definition RESPB_OP_FAILOVER : Z := 0x03D9.
Definition RESPB_OP_SWAPDB : Z := 0x03DA.
Definition RESPB_OP_LOLWUT : Z := 0x03DB.
Definition RESPB_OP_RESTORE_ASKING : Z := 0x03DC.
Definition RESPB_OP_COMMANDLOG : Z := 0x03DD.
Definition RESPB_OP_PUBLISH : Z := 0x0200.
Definition RESPB_OP_SUBSCRIBE : Z := 0x0201.
Definition RESPB_OP_UNSUBSCRIBE : Z := 0x0202.
Definition RESPB_OP_PSUBSCRIBE : Z := 0x0203.
Definition RESPB_OP_PUNSUBSCRIBE : Z := 0x0204.
Definition RESPB_OP_PUBSUB : Z := 0x0205.
Definition RESPB_OP_SPUBLISH : Z := 0x0206.
Definition RESPB_OP_SSUBSCRIBE : Z := 0x0207.
Definition RESPB_OP_SUNSUBSCRIBE : Z := 0x0208.
Definition RESPB_OP_MODULE : Z := 0xF000.
Definition RESPB_OP_RESP_PASSTHROUGH : Z := 0xFFFF.
Definition RESPB_MODULE_JSON : Z := 0x0000.
Definition RESPB_MODULE_BF : Z := 0x0001.
Definition RESPB_MODULE_FT : Z := 0x0002.
Definition RESPB_RESP_OK : Z := 0x8000.
Definition RESPB_RESP_ERROR : Z := 0x8001.
Definition RESPB_RESP_NULL : Z := 0x8002.
Definition RESPB_RESP_INT : Z := 0x8003.
Definition RESPB_RESP_BULK : Z := 0x8004.
Definition RESPB_RESP_ARRAY : Z := 0x8005.
Definition RESPB_MAX_ARGS : Z := 64.

(** *** Data types of [respb.h] *)

(** [respb_arg_t]: a borrowed slice, [data] pointing at its first byte. *)
Record respb_arg_t : Type := mk_arg { data : ptr; len : Z }.

(** [respb_command_t].  [args] is the array of [RESPB_MAX_ARGS] slots. *)
Record respb_command_t : Type := mk_cmd {
  opcode : Z;
  mux_id : Z;
  argc : Z;
  args : list respb_arg_t;
  raw_payload : ptr;
  raw_payload_len : Z;
  module_subcommand : Z;
  module_id : Z;
  command_id : Z;
  resp_length : Z;
  resp_data : ptr
}.

(** [respb_parser_t]: the borrowed input buffer and the cursor. *)
Record respb_parser_t : Type := mk_parser {
  buffer : list byte;
  buffer_len : Z;
  pos : Z
}.

(** [respb_parser_init]. *)
Definition respb_parser_init (buf : list byte) (len : Z) : respb_parser_t :=
  {| buffer := buf; buffer_len := len; pos := 0 |}.

(** The bytes an argument designates ([None] if it leaves its object). *)
Definition arg_bytes (a : respb_arg_t) : option (list byte) :=
  load_bytes (data a) (len a).

(** *** The parsing monad

    A call of [respb_parse_command] threads the parser cursor and the
    command record under construction.  A statement either falls through
    to the next one, returns from the function with a code (keeping the
    state reached so far), or faults on an out-of-bounds access. *)

Record pstate : Type := mk_pstate {
  parser : respb_parser_t;
  cmd : respb_command_t
}.

Inductive step (A : Type) : Type :=
| Next (a : A)
| Ret (code : Z)
| Fault.
Arguments Next {A} a.
Arguments Ret {A} code.
Arguments Fault {A}.

Definition M (A : Type) : Type := pstate -> step A * pstate.

Definition ret {A} (a : A) : M A := fun s => (Next a, s).

Definition bind {A B} (m : M A) (k : A -> M B) : M B :=
  fun s =>
    match m s with
    | (Next a, s') => k a s'
    | (Ret c, s') => (Ret c, s')
    | (Fault, s') => (Fault, s')
    end.

Definition return_ {A} (code : Z) : M A := fun s => (Ret code, s).
Definition fault {A} : M A := fun s => (Fault, s).
Definition get : M pstate := fun s => (Next s, s).
Definition put (s : pstate) : M unit := fun _ => (Next tt, s).

Declare Scope parse_scope.
Delimit Scope parse_scope with parse.
Bind Scope parse_scope with M.
Notation "x <- m ;; k" := (bind m (fun x => k))
  (at level 100, m at next level, k at level 200, right associativity)
  : parse_scope.
Notation "m ;; k" := (bind m (fun _ => k))
  (at level 100, k at level 200, right associativity) : parse_scope.
Local Open Scope parse_scope.

Definition set_pos (s : pstate) (p : Z) : pstate :=
  {| parser := {| buffer := buffer (parser s);
                  buffer_len := buffer_len (parser s);
                  pos := p |};
     cmd := cmd s |}.

Definition set_cmd (s : pstate) (c : respb_command_t) : pstate :=
  {| parser := parser s; cmd := c |}.

(** [parser->buffer + parser->pos + d]. *)
Definition cursor (s : pstate) (d : Z) : ptr :=
  {| base := buffer (parser s); off := pos (parser s) + d |}.

(** [static inline] readers of [respb_parser.c]. *)
Definition read_u8 (p : ptr) : M Z :=
  fun s => match load p 0 with
           | Some b => (Next b, s)
           | None => (Fault, s)
           end.

Definition read_u16_be (p : ptr) : M Z :=
  b0 <- read_u8 p;;
  b1 <- read_u8 (ptr_add p 1);;
  ret (u16 (Z.lor (Z.shiftl (u16 b0) 8) b1)).

Definition read_u32_be (p : ptr) : M Z :=
  b0 <- read_u8 p;;
  b1 <- read_u8 (ptr_add p 1);;
  b2 <- read_u8 (ptr_add p 2);;
  b3 <- read_u8 (ptr_add p 3);;
  ret (u32 (Z.lor (Z.lor (Z.lor (u32 (Z.shiftl (u32 b0) 24))
                                (u32 (Z.shiftl (u32 b1) 16)))
                         (u32 (Z.shiftl (u32 b2) 8)))
                  b3)).

(** [#define CHECK_AVAIL(parser, n)
      if ((parser)->pos + (n) > (parser)->buffer_len) return 0]
    The sum is computed in [size_t]. *)
Definition CHECK_AVAIL (n : Z) : M unit :=
  fun s =>
    if size_t (pos (parser s) + n) >? buffer_len (parser s)
    then (Ret 0, s)
    else (Next tt, s).

(** [parser->pos += n]. *)
Definition pos_add (n : Z) : M unit :=
  fun s => (Next tt, set_pos s (size_t (pos (parser s) + n))).

(** [read_u16_be(parser->buffer + parser->pos)] and its siblings. *)
Definition read_u16_be_pos : M Z :=
  s <- get;; read_u16_be (cursor s 0).
Definition read_u32_be_pos : M Z :=
  s <- get;; read_u32_be (cursor s 0).
Definition read_u8_pos : M Z :=
  s <- get;; read_u8 (cursor s 0).

(** Field updates of the command record. *)
Definition with_opcode (c : respb_command_t) (v : Z) : respb_command_t :=
  {| opcode := v;
     mux_id := mux_id c;
     argc := argc c;
     args := args c;
     raw_payload := raw_payload c;
     raw_payload_len := raw_payload_len c;
     module_subcommand := module_subcommand c;
     module_id := module_id c;
     command_id := command_id c;
     resp_length := resp_length c;
     resp_data := resp_data c |}.
Definition with_mux_id (c : respb_command_t) (v : Z) : respb_command_t :=
  {| opcode := opcode c;
     mux_id := v;
     argc := argc c;
     args := args c;
     raw_payload := raw_payload c;
     raw_payload_len := raw_payload_len c;
     module_subcommand := module_subcommand c;
     module_id := module_id c;
     command_id := command_id c;
     resp_length := resp_length c;
     resp_data := resp_data c |}.
Definition with_argc (c : respb_command_t) (v : Z) : respb_command_t :=
  {| opcode := opcode c;
     mux_id := mux_id c;
     argc := v;
     args := args c;
     raw_payload := raw_payload c;
     raw_payload_len := raw_payload_len c;
     module_subcommand := module_subcommand c;
     module_id := module_id c;
     command_id := command_id c;
     resp_length := resp_length c;
     resp_data := resp_data c |}.
Definition with_args (c : respb_command_t) (v : list respb_arg_t) : respb_command_t :=
  {| opcode := opcode c;
     mux_id := mux_id c;
     argc := argc c;
     args := v;
     raw_payload := raw_payload c;
     raw_payload_len := raw_payload_len c;
     module_subcommand := module_subcommand c;
     module_id := module_id c;
     command_id := command_id c;
     resp_length := resp_length c;
     resp_data := resp_data c |}.
Definition with_raw_payload (c : respb_command_t) (v : ptr) : respb_command_t :=
  {| opcode := opcode c;
     mux_id := mux_id c;
     argc := argc c;
     args := args c;
     raw_payload := v;
     raw_payload_len := raw_payload_len c;
     module_subcommand := module_subcommand c;
     module_id := module_id c;
     command_id := command_id c;
     resp_length := resp_length c;
     resp_data := resp_data c |}.
Definition with_raw_payload_len (c : respb_command_t) (v : Z) : respb_command_t :=
  {| opcode := opcode c;
     mux_id := mux_id c;
     argc := argc c;
     args := args c;
     raw_payload := raw_payload c;
     raw_payload_len := v;
     module_subcommand := module_subcommand c;
     module_id := module_id c;
     command_id := command_id c;
     resp_length := resp_length c;
     resp_data := resp_data c |}.
Definition with_module_subcommand (c : respb_command_t) (v : Z) : respb_command_t :=
  {| opcode := opcode c;
     mux_id := mux_id c;
     argc := argc c;
     args := args c;
     raw_payload := raw_payload c;
     raw_payload_len := raw_payload_len c;
     module_subcommand := v;
     module_id := module_id c;
     command_id := command_id c;
     resp_length := resp_length c;
     resp_data := resp_data c |}.
Definition with_module_id (c : respb_command_t) (v : Z) : respb_command_t :=
  {| opcode := opcode c;
     mux_id := mux_id c;
     argc := argc c;
     args := args c;
     raw_payload := raw_payload c;
     raw_payload_len := raw_payload_len c;
     module_subcommand := module_subcommand c;
     module_id := v;
     command_id := command_id c;
     resp_length := resp_length c;
     resp_data := resp_data c |}.
Definition with_command_id (c : respb_command_t) (v : Z) : respb_command_t :=
  {| opcode := opcode c;
     mux_id := mux_id c;
     argc := argc c;
     args := args c;
     raw_payload := raw_payload c;
     raw_payload_len := raw_payload_len c;
     module_subcommand := module_subcommand c;
     module_id := module_id c;
     command_id := v;
     resp_length := resp_length c;
     resp_data := resp_data c |}.
Definition with_resp_length (c : respb_command_t) (v : Z) : respb_command_t :=
  {| opcode := opcode c;
     mux_id := mux_id c;
     argc := argc c;
     args := args c;
     raw_payload := raw_payload c;
     raw_payload_len := raw_payload_len c;
     module_subcommand := module_subcommand c;
     module_id := module_id c;
     command_id := command_id c;
     resp_length := v;
     resp_data := resp_data c |}.
Definition with_resp_data (c : respb_command_t) (v : ptr) : respb_command_t :=
  {| opcode := opcode c;
     mux_id := mux_id c;
     argc := argc c;
     args := args c;
     raw_payload := raw_payload c;
     raw_payload_len := raw_payload_len c;
     module_subcommand := module_subcommand c;
     module_id := module_id c;
     command_id := command_id c;
     resp_length := resp_length c;
     resp_data := v |}.

Definition modify_cmd (f : respb_command_t -> respb_command_t) : M unit :=
  fun s => (Next tt, set_cmd s (f (cmd s))).

(** [cmd->args[i] = a].  The array has [RESPB_MAX_ARGS] slots; a store
    outside it is a fault. *)
Definition set_arg (i : Z) (a : respb_arg_t) : M unit :=
  fun s =>
    if (0 <=? i) && (i <? RESPB_MAX_ARGS)
    then (Next tt,
          set_cmd s (with_args (cmd s) (<[Z.to_nat i := a]> (args (cmd s)))))
    else (Fault, s).

(** [cmd->argc = n] ([argc] is a [size_t]). *)
Definition set_argc (n : Z) : M unit :=
  modify_cmd (fun c => with_argc c (size_t n)).

(** [#define READ_STRING_2B(parser, arg_ptr)]. *)
Definition READ_STRING_2B (i : Z) : M unit :=
  CHECK_AVAIL 2;;
  len <- read_u16_be_pos;;
  pos_add 2;;
  CHECK_AVAIL len;;
  s <- get;;
  set_arg i {| data := cursor s 0; len := len |};;
  pos_add len.

(** [#define READ_STRING_4B(parser, arg_ptr)]. *)
Definition READ_STRING_4B (i : Z) : M unit :=
  CHECK_AVAIL 4;;
  len <- read_u32_be_pos;;
  pos_add 4;;
  CHECK_AVAIL len;;
  s <- get;;
  set_arg i {| data := cursor s 0; len := len |};;
  pos_add len.

(** [for (uint16_t i = 0; i < count && cond(i); i++) body(i)].
    [count] is a [uint16_t], so the loop runs at most [count] times and
    that many units of fuel never run out. *)
Fixpoint for_u16_from (fuel : nat) (i count : Z) (cond : Z -> bool)
  (body : Z -> M unit) : M unit :=
  match fuel with
  | O => ret tt
  | S fuel' =>
      if (i <? count) && cond i
      then body i;; for_u16_from fuel' (u16 (i + 1)) count cond body
      else ret tt
  end.

Definition for_u16 (count : Z) (cond : Z -> bool) (body : Z -> M unit)
  : M unit :=
  for_u16_from (Z.to_nat count) 0 count cond body.

(** [if (b) { m }]. *)
Definition when_ (b : bool) (m : M unit) : M unit :=
  if b then m else ret tt.

(** A group of [case] labels sharing one body. *)
Definition case_of (op : Z) (labels : list Z) : bool :=
  existsb (Z.eqb op) labels.

(** *** The cases of [switch (cmd->opcode)] in [respb_parse_command]

    Counts read from the stream are [uint16_t] values promoted to [int];
    the arithmetic on them below cannot overflow an [int]. *)

(** [case RESPB_OP_GET:
    case RESPB_OP_DECR:
    case RESPB_OP_GETDEL:
    case RESPB_OP_INCR:
    case RESPB_OP_STRLEN:] *)
Definition case_GET : M unit :=
  READ_STRING_2B 0;;
  set_argc 1.

(** [case RESPB_OP_SET:] *)
Definition case_SET : M unit :=
  READ_STRING_2B 0;;
  READ_STRING_4B 1;;
  CHECK_AVAIL 9;;
  pos_add 9;;
  set_argc 2.

(** [case RESPB_OP_APPEND: case RESPB_OP_SETNX:] *)
Definition case_APPEND : M unit :=
  READ_STRING_2B 0;;
  READ_STRING_4B 1;;
  set_argc 2.

(** [case RESPB_OP_INCRBY: case RESPB_OP_DECRBY:] *)
Definition case_INCRBY : M unit :=
  READ_STRING_2B 0;;
  CHECK_AVAIL 8;;
  pos_add 8;;
  set_argc 1.

(** [case RESPB_OP_GETEX:] *)
Definition case_GETEX : M unit :=
  READ_STRING_2B 0;;
  CHECK_AVAIL 1;;
  flags <- read_u8_pos;;
  pos_add 1;;
  when_ (negb (Z.land flags 0x01 =? 0)) (
    CHECK_AVAIL 8;;
    pos_add 8);;
  set_argc 1.

(** [case RESPB_OP_GETRANGE: case RESPB_OP_SUBSTR:] *)
Definition case_GETRANGE : M unit :=
  READ_STRING_2B 0;;
  CHECK_AVAIL 16;;
  pos_add 16;;
  set_argc 1.

(** [case RESPB_OP_GETSET:] *)
Definition case_GETSET : M unit :=
  READ_STRING_2B 0;;
  READ_STRING_4B 1;;
  set_argc 2.

(** [case RESPB_OP_INCRBYFLOAT:] *)
Definition case_INCRBYFLOAT : M unit :=
  READ_STRING_2B 0;;
  CHECK_AVAIL 8;;
  pos_add 8;;
  set_argc 1.

(** [case RESPB_OP_MSETNX:] *)
Definition case_MSETNX : M unit :=
  CHECK_AVAIL 2;;
  count <- read_u16_be_pos;;
  pos_add 2;;
  for_u16 count (fun i => (i * 2 + 1 <? RESPB_MAX_ARGS)) (fun i =>
    READ_STRING_2B (i * 2);;
    READ_STRING_4B (i * 2 + 1));;
  set_argc (if (count <? Z.quot RESPB_MAX_ARGS 2) then count * 2 else RESPB_MAX_ARGS).

(** [case RESPB_OP_PSETEX: case RESPB_OP_SETEX:] *)
Definition case_PSETEX : M unit :=
  READ_STRING_2B 0;;
  CHECK_AVAIL 8;;
  pos_add 8;;
  READ_STRING_4B 1;;
  set_argc 2.

(** [case RESPB_OP_SETRANGE:] *)
Definition case_SETRANGE : M unit :=
  READ_STRING_2B 0;;
  CHECK_AVAIL 8;;
  pos_add 8;;
  READ_STRING_4B 1;;
  set_argc 2.

(** [case RESPB_OP_LCS:] *)
Definition case_LCS : M unit :=
  READ_STRING_2B 0;;
  READ_STRING_2B 1;;
  CHECK_AVAIL 1;;
  pos_add 1;;
  set_argc 2.

(** [case RESPB_OP_DELIFEQ:] *)
Definition case_DELIFEQ : M unit :=
  READ_STRING_2B 0;;
  READ_STRING_4B 1;;
  set_argc 2.

(** [case RESPB_OP_EXPIRE:] *)
Definition case_EXPIRE : M unit :=
  READ_STRING_2B 0;;
  CHECK_AVAIL 9;;
  pos_add 9;;
  set_argc 1.

(** [case RESPB_OP_MGET:
    case RESPB_OP_DEL:
    case RESPB_OP_EXISTS:
    case RESPB_OP_UNLINK:] *)
Definition case_MGET : M unit :=
  CHECK_AVAIL 2;;
  count <- read_u16_be_pos;;
  pos_add 2;;
  for_u16 count (fun i => (i <? RESPB_MAX_ARGS)) (fun i =>
    READ_STRING_2B i);;
  set_argc ((if (count <? RESPB_MAX_ARGS) then count else RESPB_MAX_ARGS)).

(** [case RESPB_OP_MSET:] *)
Definition case_MSET : M unit :=
  CHECK_AVAIL 2;;
  count <- read_u16_be_pos;;
  pos_add 2;;
  for_u16 count (fun i => (i * 2 + 1 <? RESPB_MAX_ARGS)) (fun i =>
    READ_STRING_2B (i * 2);;
    READ_STRING_4B (i * 2 + 1));;
  set_argc (if (count <? Z.quot RESPB_MAX_ARGS 2) then count * 2 else RESPB_MAX_ARGS).

(** [case RESPB_OP_LPUSH: case RESPB_OP_RPUSH:] *)
Definition case_LPUSH : M unit :=
  READ_STRING_2B 0;;
  CHECK_AVAIL 2;;
  count <- read_u16_be_pos;;
  pos_add 2;;
  for_u16 count (fun i => (i + 1 <? RESPB_MAX_ARGS)) (fun i =>
    READ_STRING_2B (i + 1));;
  set_argc (1 + (if (count <? RESPB_MAX_ARGS - 1) then count else RESPB_MAX_ARGS - 1)).

(** [case RESPB_OP_LPOP: case RESPB_OP_RPOP:] *)
Definition case_LPOP : M unit :=
  READ_STRING_2B 0;;
  set_argc 1.

(** [case RESPB_OP_LLEN:] *)
Definition case_LLEN : M unit :=
  READ_STRING_2B 0;;
  set_argc 1.

(** [case RESPB_OP_LRANGE:] *)
Definition case_LRANGE : M unit :=
  READ_STRING_2B 0;;
  CHECK_AVAIL 16;;
  pos_add 16;;
  set_argc 1.

(** [case RESPB_OP_LINDEX:] *)
Definition case_LINDEX : M unit :=
  READ_STRING_2B 0;;
  CHECK_AVAIL 8;;
  pos_add 8;;
  set_argc 1.

(** [case RESPB_OP_LSET:] *)
Definition case_LSET : M unit :=
  READ_STRING_2B 0;;
  CHECK_AVAIL 8;;
  pos_add 8;;
  READ_STRING_2B 1;;
  set_argc 2.

(** [case RESPB_OP_LREM:] *)
Definition case_LREM : M unit :=
  READ_STRING_2B 0;;
  CHECK_AVAIL 8;;
  pos_add 8;;
  READ_STRING_2B 1;;
  set_argc 2.

(** [case RESPB_OP_LTRIM:] *)
Definition case_LTRIM : M unit :=
  READ_STRING_2B 0;;
  CHECK_AVAIL 16;;
  pos_add 16;;
  set_argc 1.

(** [case RESPB_OP_LINSERT:] *)
Definition case_LINSERT : M unit :=
  READ_STRING_2B 0;;
  CHECK_AVAIL 1;;
  pos_add 1;;
  READ_STRING_2B 1;;
  READ_STRING_2B 2;;
  set_argc 3.

(** [case RESPB_OP_LPUSHX: case RESPB_OP_RPUSHX:] *)
Definition case_LPUSHX : M unit :=
  READ_STRING_2B 0;;
  CHECK_AVAIL 2;;
  count <- read_u16_be_pos;;
  pos_add 2;;
  for_u16 count (fun i => (i + 1 <? RESPB_MAX_ARGS)) (fun i =>
    READ_STRING_2B (i + 1));;
  set_argc (1 + (if (count <? RESPB_MAX_ARGS - 1) then count else RESPB_MAX_ARGS - 1)).

(** [case RESPB_OP_RPOPLPUSH:] *)
Definition case_RPOPLPUSH : M unit :=
  READ_STRING_2B 0;;
  READ_STRING_2B 1;;
  set_argc 2.

(** [case RESPB_OP_LMOVE:] *)
Definition case_LMOVE : M unit :=
  READ_STRING_2B 0;;
  READ_STRING_2B 1;;
  CHECK_AVAIL 2;;
  pos_add 2;;
  set_argc 2.

(** [case RESPB_OP_BRPOPLPUSH:] *)
Definition case_BRPOPLPUSH : M unit :=
  READ_STRING_2B 0;;
  READ_STRING_2B 1;;
  CHECK_AVAIL 8;;
  pos_add 8;;
  set_argc 2.

(** [case RESPB_OP_BLMOVE:] *)
Definition case_BLMOVE : M unit :=
  READ_STRING_2B 0;;
  READ_STRING_2B 1;;
  CHECK_AVAIL 10;;
  pos_add 10;;
  set_argc 2.

(** [case RESPB_OP_BLMPOP:] *)
Definition case_BLMPOP : M unit :=
  CHECK_AVAIL 8;;
  pos_add 8;;
  CHECK_AVAIL 2;;
  count <- read_u16_be_pos;;
  pos_add 2;;
  for_u16 count (fun i => (i <? RESPB_MAX_ARGS)) (fun i =>
    READ_STRING_2B i);;
  CHECK_AVAIL 1;;
  pos_add 1;;
  set_argc ((if (count <? RESPB_MAX_ARGS) then count else RESPB_MAX_ARGS)).

(** [case RESPB_OP_LMPOP:] *)
Definition case_LMPOP : M unit :=
  CHECK_AVAIL 2;;
  count <- read_u16_be_pos;;
  pos_add 2;;
  for_u16 count (fun i => (i <? RESPB_MAX_ARGS)) (fun i =>
    READ_STRING_2B i);;
  CHECK_AVAIL 1;;
  pos_add 1;;
  set_argc ((if (count <? RESPB_MAX_ARGS) then count else RESPB_MAX_ARGS)).

(** [case RESPB_OP_LPOS:] *)
Definition case_LPOS : M unit :=
  READ_STRING_2B 0;;
  READ_STRING_2B 1;;
  set_argc 2.

(** [case RESPB_OP_BLPOP: case RESPB_OP_BRPOP:] *)
Definition case_BLPOP : M unit :=
  CHECK_AVAIL 2;;
  count <- read_u16_be_pos;;
  pos_add 2;;
  for_u16 count (fun i => (i <? RESPB_MAX_ARGS)) (fun i =>
    READ_STRING_2B i);;
  CHECK_AVAIL 8;;
  pos_add 8;;
  set_argc ((if (count <? RESPB_MAX_ARGS) then count else RESPB_MAX_ARGS)).

(** [case RESPB_OP_SADD:] *)
Definition case_SADD : M unit :=
  READ_STRING_2B 0;;
  CHECK_AVAIL 2;;
  count <- read_u16_be_pos;;
  pos_add 2;;
  for_u16 count (fun i => (i + 1 <? RESPB_MAX_ARGS)) (fun i =>
    READ_STRING_2B (i + 1));;
  set_argc (1 + (if (count <? RESPB_MAX_ARGS - 1) then count else RESPB_MAX_ARGS - 1)).

(** [case RESPB_OP_SREM:] *)
Definition case_SREM : M unit :=
  READ_STRING_2B 0;;
  CHECK_AVAIL 2;;
  count <- read_u16_be_pos;;
  pos_add 2;;
  for_u16 count (fun i => (i + 1 <? RESPB_MAX_ARGS)) (fun i =>
    READ_STRING_2B (i + 1));;
  set_argc (1 + (if (count <? RESPB_MAX_ARGS - 1) then count else RESPB_MAX_ARGS - 1)).

(** [case RESPB_OP_SMEMBERS: case RESPB_OP_SCARD: case RESPB_OP_SPOP:] *)
Definition case_SMEMBERS : M unit :=
  READ_STRING_2B 0;;
  set_argc 1.

(** [case RESPB_OP_SISMEMBER:] *)
Definition case_SISMEMBER : M unit :=
  READ_STRING_2B 0;;
  READ_STRING_2B 1;;
  set_argc 2.

(** [case RESPB_OP_SRANDMEMBER:] *)
Definition case_SRANDMEMBER : M unit :=
  READ_STRING_2B 0;;
  set_argc 1.

(** [case RESPB_OP_SINTER:
    case RESPB_OP_SUNION:
    case RESPB_OP_SDIFF:
    case RESPB_OP_SINTERCARD:] *)
Definition case_SINTER : M unit :=
  CHECK_AVAIL 2;;
  count <- read_u16_be_pos;;
  pos_add 2;;
  for_u16 count (fun i => (i <? RESPB_MAX_ARGS)) (fun i =>
    READ_STRING_2B i);;
  set_argc ((if (count <? RESPB_MAX_ARGS) then count else RESPB_MAX_ARGS)).

(** [case RESPB_OP_SINTERSTORE: case RESPB_OP_SUNIONSTORE: case RESPB_OP_SDIFFSTORE:] *)
Definition case_SINTERSTORE : M unit :=
  READ_STRING_2B 0;;
  CHECK_AVAIL 2;;
  count <- read_u16_be_pos;;
  pos_add 2;;
  for_u16 count (fun i => (i + 1 <? RESPB_MAX_ARGS)) (fun i =>
    READ_STRING_2B (i + 1));;
  set_argc (1 + (if (count <? RESPB_MAX_ARGS - 1) then count else RESPB_MAX_ARGS - 1)).

(** [case RESPB_OP_SMOVE:] *)
Definition case_SMOVE : M unit :=
  READ_STRING_2B 0;;
  READ_STRING_2B 1;;
  READ_STRING_2B 2;;
  set_argc 3.

(** [case RESPB_OP_SSCAN:] *)
Definition case_SSCAN : M unit :=
  READ_STRING_2B 0;;
  CHECK_AVAIL 8;;
  pos_add 8;;
  set_argc 1.

(** [case RESPB_OP_SMISMEMBER:] *)
Definition case_SMISMEMBER : M unit :=
  READ_STRING_2B 0;;
  CHECK_AVAIL 2;;
  count <- read_u16_be_pos;;
  pos_add 2;;
  for_u16 count (fun i => (i + 1 <? RESPB_MAX_ARGS)) (fun i =>
    READ_STRING_2B (i + 1));;
  set_argc (1 + (if (count <? RESPB_MAX_ARGS - 1) then count else RESPB_MAX_ARGS - 1)).

(** [case RESPB_OP_HSET:] *)
Definition case_HSET : M unit :=
  READ_STRING_2B 0;;
  CHECK_AVAIL 2;;
  npairs <- read_u16_be_pos;;
  pos_add 2;;
  for_u16 npairs (fun i => (i * 2 + 2 <? RESPB_MAX_ARGS)) (fun i =>
    READ_STRING_2B (i * 2 + 1);;
    READ_STRING_4B (i * 2 + 2));;
  set_argc (1 + (if (npairs <? Z.quot (RESPB_MAX_ARGS - 1) 2) then npairs * 2 else RESPB_MAX_ARGS - 1)).

(** [case RESPB_OP_HGET:] *)
Definition case_HGET : M unit :=
  READ_STRING_2B 0;;
  READ_STRING_2B 1;;
  set_argc 2.

(** [case RESPB_OP_HMSET:] *)
Definition case_HMSET : M unit :=
  READ_STRING_2B 0;;
  CHECK_AVAIL 2;;
  npairs <- read_u16_be_pos;;
  pos_add 2;;
  for_u16 npairs (fun i => (i * 2 + 2 <? RESPB_MAX_ARGS)) (fun i =>
    READ_STRING_2B (i * 2 + 1);;
    READ_STRING_4B (i * 2 + 2));;
  set_argc (1 + (if (npairs <? Z.quot (RESPB_MAX_ARGS - 1) 2) then npairs * 2 else RESPB_MAX_ARGS - 1)).

(** [case RESPB_OP_HMGET:] *)
Definition case_HMGET : M unit :=
  READ_STRING_2B 0;;
  CHECK_AVAIL 2;;
  count <- read_u16_be_pos;;
  pos_add 2;;
  for_u16 count (fun i => (i + 1 <? RESPB_MAX_ARGS)) (fun i =>
    READ_STRING_2B (i + 1));;
  set_argc (1 + (if (count <? RESPB_MAX_ARGS - 1) then count else RESPB_MAX_ARGS - 1)).

(** [case RESPB_OP_HDEL:] *)
Definition case_HDEL : M unit :=
  READ_STRING_2B 0;;
  CHECK_AVAIL 2;;
  count <- read_u16_be_pos;;
  pos_add 2;;
  for_u16 count (fun i => (i + 1 <? RESPB_MAX_ARGS)) (fun i =>
    READ_STRING_2B (i + 1));;
  set_argc (1 + (if (count <? RESPB_MAX_ARGS - 1) then count else RESPB_MAX_ARGS - 1)).

(** [case RESPB_OP_HGETALL:
    case RESPB_OP_HKEYS:
    case RESPB_OP_HVALS:
    case RESPB_OP_HLEN:] *)
Definition case_HGETALL : M unit :=
  READ_STRING_2B 0;;
  set_argc 1.

(** [case RESPB_OP_HRANDFIELD:] *)
Definition case_HRANDFIELD : M unit :=
  READ_STRING_2B 0;;
  set_argc 1.

(** [case RESPB_OP_HEXPIRE:
    case RESPB_OP_HEXPIREAT:
    case RESPB_OP_HPEXPIRE:
    case RESPB_OP_HPEXPIREAT:] *)
Definition case_HEXPIRE : M unit :=
  READ_STRING_2B 0;;
  CHECK_AVAIL 11;;
  pos_add 11;;
  s <- get;;
  when_ (pos (parser s) <? buffer_len (parser s)) (
    READ_STRING_2B 1);;
  set_argc 2.

(** [case RESPB_OP_HEXPIRETIME:
    case RESPB_OP_HPEXPIRETIME:
    case RESPB_OP_HPTTL:
    case RESPB_OP_HTTL:
    case RESPB_OP_HPERSIST:] *)
Definition case_HEXPIRETIME : M unit :=
  READ_STRING_2B 0;;
  CHECK_AVAIL 2;;
  numfields <- read_u16_be_pos;;
  pos_add 2;;
  when_ ((numfields >? 0) && (numfields <? RESPB_MAX_ARGS)) (
    READ_STRING_2B 1);;
  set_argc ((if (numfields >? 0) then 2 else 1)).

(** [case RESPB_OP_HGETEX:] *)
Definition case_HGETEX : M unit :=
  READ_STRING_2B 0;;
  CHECK_AVAIL 1;;
  pos_add 1;;
  CHECK_AVAIL 2;;
  numfields2 <- read_u16_be_pos;;
  pos_add 2;;
  when_ ((numfields2 >? 0) && (numfields2 <? RESPB_MAX_ARGS)) (
    READ_STRING_2B 1);;
  set_argc ((if (numfields2 >? 0) then 2 else 1)).

(** [case RESPB_OP_HSETEX:] *)
Definition case_HSETEX : M unit :=
  READ_STRING_2B 0;;
  CHECK_AVAIL 1;;
  pos_add 1;;
  CHECK_AVAIL 2;;
  numfields3 <- read_u16_be_pos;;
  pos_add 2;;
  when_ ((numfields3 >? 0) && (numfields3 <? RESPB_MAX_ARGS)) (
    READ_STRING_2B 1;;
    READ_STRING_4B 2);;
  set_argc ((if (numfields3 >? 0) then 3 else 1)).

(** [case RESPB_OP_HEXISTS: case RESPB_OP_HSTRLEN:] *)
Definition case_HEXISTS : M unit :=
  READ_STRING_2B 0;;
  READ_STRING_2B 1;;
  set_argc 2.

(** [case RESPB_OP_HINCRBY:] *)
Definition case_HINCRBY : M unit :=
  READ_STRING_2B 0;;
  READ_STRING_2B 1;;
  CHECK_AVAIL 8;;
  pos_add 8;;
  set_argc 2.

(** [case RESPB_OP_HINCRBYFLOAT:] *)
Definition case_HINCRBYFLOAT : M unit :=
  READ_STRING_2B 0;;
  READ_STRING_2B 1;;
  CHECK_AVAIL 8;;
  pos_add 8;;
  set_argc 2.

(** [case RESPB_OP_HSETNX:] *)
Definition case_HSETNX : M unit :=
  READ_STRING_2B 0;;
  READ_STRING_2B 1;;
  READ_STRING_4B 2;;
  set_argc 3.

(** [case RESPB_OP_HSCAN:] *)
Definition case_HSCAN : M unit :=
  READ_STRING_2B 0;;
  CHECK_AVAIL 8;;
  pos_add 8;;
  set_argc 1.

(** [case RESPB_OP_ZADD:] *)
Definition case_ZADD : M unit :=
  READ_STRING_2B 0;;
  CHECK_AVAIL 3;;
  pos_add 3;;
  set_argc 1.

(** [case RESPB_OP_ZREM:] *)
Definition case_ZREM : M unit :=
  READ_STRING_2B 0;;
  CHECK_AVAIL 2;;
  count <- read_u16_be_pos;;
  pos_add 2;;
  for_u16 count (fun i => (i + 1 <? RESPB_MAX_ARGS)) (fun i =>
    READ_STRING_2B (i + 1));;
  set_argc (1 + (if (count <? RESPB_MAX_ARGS - 1) then count else RESPB_MAX_ARGS - 1)).

(** [case RESPB_OP_ZSCORE:] *)
Definition case_ZSCORE : M unit :=
  READ_STRING_2B 0;;
  READ_STRING_2B 1;;
  set_argc 2.

(** [case RESPB_OP_ZRANGE: case RESPB_OP_ZREVRANGE:] *)
Definition case_ZRANGE : M unit :=
  READ_STRING_2B 0;;
  CHECK_AVAIL 17;;
  pos_add 17;;
  set_argc 1.

(** [case RESPB_OP_ZRANGEBYSCORE: case RESPB_OP_ZREVRANGEBYSCORE:] *)
Definition case_ZRANGEBYSCORE : M unit :=
  READ_STRING_2B 0;;
  CHECK_AVAIL 17;;
  pos_add 17;;
  set_argc 1.

(** [case RESPB_OP_ZRANGEBYLEX: case RESPB_OP_ZREVRANGEBYLEX:] *)
Definition case_ZRANGEBYLEX : M unit :=
  READ_STRING_2B 0;;
  READ_STRING_2B 1;;
  READ_STRING_2B 2;;
  set_argc 3.

(** [case RESPB_OP_ZREMRANGEBYLEX: case RESPB_OP_ZLEXCOUNT:] *)
Definition case_ZREMRANGEBYLEX : M unit :=
  READ_STRING_2B 0;;
  READ_STRING_2B 1;;
  READ_STRING_2B 2;;
  set_argc 3.

(** [case RESPB_OP_BZPOPMIN: case RESPB_OP_BZPOPMAX:] *)
Definition case_BZPOPMIN : M unit :=
  CHECK_AVAIL 2;;
  count <- read_u16_be_pos;;
  pos_add 2;;
  for_u16 count (fun i => (i <? RESPB_MAX_ARGS)) (fun i =>
    READ_STRING_2B i);;
  CHECK_AVAIL 8;;
  pos_add 8;;
  set_argc ((if (count <? RESPB_MAX_ARGS) then count else RESPB_MAX_ARGS)).

(** [case RESPB_OP_ZRANDMEMBER:] *)
Definition case_ZRANDMEMBER : M unit :=
  READ_STRING_2B 0;;
  set_argc 1.

(** [case RESPB_OP_ZDIFF:] *)
Definition case_ZDIFF : M unit :=
  CHECK_AVAIL 2;;
  count <- read_u16_be_pos;;
  pos_add 2;;
  for_u16 count (fun i => (i <? RESPB_MAX_ARGS)) (fun i =>
    READ_STRING_2B i);;
  CHECK_AVAIL 1;;
  pos_add 1;;
  set_argc ((if (count <? RESPB_MAX_ARGS) then count else RESPB_MAX_ARGS)).

(** [case RESPB_OP_ZDIFFSTORE:] *)
Definition case_ZDIFFSTORE : M unit :=
  READ_STRING_2B 0;;
  CHECK_AVAIL 2;;
  count <- read_u16_be_pos;;
  pos_add 2;;
  for_u16 count (fun i => (i + 1 <? RESPB_MAX_ARGS)) (fun i =>
    READ_STRING_2B (i + 1));;
  set_argc (1 + (if (count <? RESPB_MAX_ARGS - 1) then count else RESPB_MAX_ARGS - 1)).

(** [case RESPB_OP_ZINTER: case RESPB_OP_ZUNION:] *)
Definition case_ZINTER : M unit :=
  CHECK_AVAIL 2;;
  count <- read_u16_be_pos;;
  pos_add 2;;
  for_u16 count (fun i => (i <? RESPB_MAX_ARGS)) (fun i =>
    READ_STRING_2B i);;
  CHECK_AVAIL 1;;
  pos_add 1;;
  set_argc ((if (count <? RESPB_MAX_ARGS) then count else RESPB_MAX_ARGS)).

(** [case RESPB_OP_ZINTERSTORE: case RESPB_OP_ZUNIONSTORE:] *)
Definition case_ZINTERSTORE : M unit :=
  READ_STRING_2B 0;;
  CHECK_AVAIL 2;;
  count <- read_u16_be_pos;;
  pos_add 2;;
  for_u16 count (fun i => (i + 1 <? RESPB_MAX_ARGS)) (fun i =>
    READ_STRING_2B (i + 1));;
  CHECK_AVAIL 1;;
  pos_add 1;;
  set_argc (1 + (if (count <? RESPB_MAX_ARGS - 1) then count else RESPB_MAX_ARGS - 1)).

(** [case RESPB_OP_ZSCAN:] *)
Definition case_ZSCAN : M unit :=
  READ_STRING_2B 0;;
  CHECK_AVAIL 8;;
  pos_add 8;;
  set_argc 1.

(** [case RESPB_OP_ZMPOP:] *)
Definition case_ZMPOP : M unit :=
  CHECK_AVAIL 2;;
  count <- read_u16_be_pos;;
  pos_add 2;;
  for_u16 count (fun i => (i <? RESPB_MAX_ARGS)) (fun i =>
    READ_STRING_2B i);;
  CHECK_AVAIL 1;;
  pos_add 1;;
  set_argc ((if (count <? RESPB_MAX_ARGS) then count else RESPB_MAX_ARGS)).

(** [case RESPB_OP_BZMPOP:] *)
Definition case_BZMPOP : M unit :=
  CHECK_AVAIL 8;;
  pos_add 8;;
  CHECK_AVAIL 2;;
  count <- read_u16_be_pos;;
  pos_add 2;;
  for_u16 count (fun i => (i <? RESPB_MAX_ARGS)) (fun i =>
    READ_STRING_2B i);;
  CHECK_AVAIL 1;;
  pos_add 1;;
  set_argc ((if (count <? RESPB_MAX_ARGS) then count else RESPB_MAX_ARGS)).

(** [case RESPB_OP_ZRANGESTORE:] *)
Definition case_ZRANGESTORE : M unit :=
  READ_STRING_2B 0;;
  READ_STRING_2B 1;;
  CHECK_AVAIL 17;;
  pos_add 17;;
  set_argc 2.

(** [case RESPB_OP_ZINTERCARD:] *)
Definition case_ZINTERCARD : M unit :=
  CHECK_AVAIL 2;;
  count <- read_u16_be_pos;;
  pos_add 2;;
  for_u16 count (fun i => (i <? RESPB_MAX_ARGS)) (fun i =>
    READ_STRING_2B i);;
  set_argc ((if (count <? RESPB_MAX_ARGS) then count else RESPB_MAX_ARGS)).

(** [case RESPB_OP_ZCARD: case RESPB_OP_ZPOPMIN: case RESPB_OP_ZPOPMAX:] *)
Definition case_ZCARD : M unit :=
  READ_STRING_2B 0;;
  set_argc 1.

(** [case RESPB_OP_ZCOUNT: case RESPB_OP_ZREMRANGEBYRANK:] *)
Definition case_ZCOUNT : M unit :=
  READ_STRING_2B 0;;
  CHECK_AVAIL 16;;
  pos_add 16;;
  set_argc 1.

(** [case RESPB_OP_ZINCRBY:] *)
Definition case_ZINCRBY : M unit :=
  READ_STRING_2B 0;;
  CHECK_AVAIL 8;;
  pos_add 8;;
  READ_STRING_2B 1;;
  set_argc 2.

(** [case RESPB_OP_ZRANK: case RESPB_OP_ZREVRANK:] *)
Definition case_ZRANK : M unit :=
  READ_STRING_2B 0;;
  READ_STRING_2B 1;;
  CHECK_AVAIL 1;;
  pos_add 1;;
  set_argc 2.

(** [case RESPB_OP_ZMSCORE:] *)
Definition case_ZMSCORE : M unit :=
  READ_STRING_2B 0;;
  CHECK_AVAIL 2;;
  count <- read_u16_be_pos;;
  pos_add 2;;
  for_u16 count (fun i => (i + 1 <? RESPB_MAX_ARGS)) (fun i =>
    READ_STRING_2B (i + 1));;
  set_argc (1 + (if (count <? RESPB_MAX_ARGS - 1) then count else RESPB_MAX_ARGS - 1)).

(** [case RESPB_OP_ZREMRANGEBYSCORE:] *)
Definition case_ZREMRANGEBYSCORE : M unit :=
  READ_STRING_2B 0;;
  CHECK_AVAIL 16;;
  pos_add 16;;
  set_argc 1.

(** [case RESPB_OP_PING:] *)
Definition case_PING : M unit :=
  set_argc 0.

(** [case RESPB_OP_ECHO:] *)
Definition case_ECHO : M unit :=
  READ_STRING_2B 0;;
  set_argc 1.

(** [case RESPB_OP_AUTH:] *)
Definition case_AUTH : M unit :=
  READ_STRING_2B 0;;
  set_argc 1.

(** [case RESPB_OP_SELECT:] *)
Definition case_SELECT : M unit :=
  CHECK_AVAIL 2;;
  pos_add 2;;
  set_argc 0.

(** [case RESPB_OP_QUIT: case RESPB_OP_RESET:] *)
Definition case_QUIT : M unit :=
  set_argc 0.

(** [case RESPB_OP_HELLO:] *)
Definition case_HELLO : M unit :=
  CHECK_AVAIL 1;;
  pos_add 1;;
  set_argc 0.

(** [case RESPB_OP_CLIENT:] *)
Definition case_CLIENT : M unit :=
  CHECK_AVAIL 1;;
  pos_add 1;;
  set_argc 0.

(** [case RESPB_OP_CLUSTER:] *)
Definition case_CLUSTER : M unit :=
  CHECK_AVAIL 1;;
  pos_add 1;;
  set_argc 0.

(** [case RESPB_OP_READONLY: case RESPB_OP_READWRITE: case RESPB_OP_ASKING:] *)
Definition case_READONLY : M unit :=
  set_argc 0.

(** [case RESPB_OP_DBSIZE:
    case RESPB_OP_SAVE:
    case RESPB_OP_BGREWRITEAOF:
    case RESPB_OP_LASTSAVE:
    case RESPB_OP_TIME:
    case RESPB_OP_ROLE:
    case RESPB_OP_MONITOR:
    case RESPB_OP_SYNC:] *)
Definition case_DBSIZE : M unit :=
  set_argc 0.

(** [case RESPB_OP_FLUSHDB: case RESPB_OP_FLUSHALL:] *)
Definition case_FLUSHDB : M unit :=
  CHECK_AVAIL 1;;
  pos_add 1;;
  set_argc 0.

(** [case RESPB_OP_BGSAVE: case RESPB_OP_SHUTDOWN:] *)
Definition case_BGSAVE : M unit :=
  CHECK_AVAIL 1;;
  pos_add 1;;
  set_argc 0.

(** [case RESPB_OP_INFO:] *)
Definition case_INFO : M unit :=
  CHECK_AVAIL 2;;
  count <- read_u16_be_pos;;
  pos_add 2;;
  when_ ((count >? 0) && (count <? RESPB_MAX_ARGS)) (
    READ_STRING_2B 0);;
  set_argc ((if (count >? 0) then 1 else 0)).

(** [case RESPB_OP_CONFIG:
    case RESPB_OP_COMMAND:
    case RESPB_OP_DEBUG:
    case RESPB_OP_SLOWLOG:
    case RESPB_OP_LATENCY:
    case RESPB_OP_MEMORY:
    case RESPB_OP_MODULE_CMD:
    case RESPB_OP_ACL:
    case RESPB_OP_COMMANDLOG:] *)
Definition case_CONFIG : M unit :=
  CHECK_AVAIL 1;;
  pos_add 1;;
  set_argc 0.

(** [case RESPB_OP_REPLICAOF: case RESPB_OP_SLAVEOF:] *)
Definition case_REPLICAOF : M unit :=
  READ_STRING_2B 0;;
  CHECK_AVAIL 2;;
  pos_add 2;;
  set_argc 1.

(** [case RESPB_OP_PSYNC:] *)
Definition case_PSYNC : M unit :=
  READ_STRING_2B 0;;
  CHECK_AVAIL 8;;
  pos_add 8;;
  set_argc 1.

(** [case RESPB_OP_REPLCONF:] *)
Definition case_REPLCONF : M unit :=
  CHECK_AVAIL 2;;
  count <- read_u16_be_pos;;
  pos_add 2;;
  when_ ((count >? 0) && (count <? RESPB_MAX_ARGS)) (
    READ_STRING_2B 0);;
  set_argc ((if (count >? 0) then 1 else 0)).

(** [case RESPB_OP_FAILOVER:] *)
Definition case_FAILOVER : M unit :=
  CHECK_AVAIL 1;;
  pos_add 1;;
  set_argc 0.

(** [case RESPB_OP_SWAPDB:] *)
Definition case_SWAPDB : M unit :=
  CHECK_AVAIL 4;;
  pos_add 4;;
  set_argc 0.

(** [case RESPB_OP_LOLWUT:] *)
Definition case_LOLWUT : M unit :=
  CHECK_AVAIL 2;;
  count <- read_u16_be_pos;;
  pos_add 2;;
  when_ ((count >? 0) && (count <? RESPB_MAX_ARGS)) (
    READ_STRING_2B 0);;
  set_argc ((if (count >? 0) then 1 else 0)).

(** [case RESPB_OP_RESTORE_ASKING:] *)
Definition case_RESTORE_ASKING : M unit :=
  READ_STRING_2B 0;;
  CHECK_AVAIL 8;;
  pos_add 8;;
  READ_STRING_4B 1;;
  CHECK_AVAIL 1;;
  pos_add 1;;
  set_argc 2.

(** [case RESPB_OP_MULTI:
    case RESPB_OP_EXEC:
    case RESPB_OP_DISCARD:
    case RESPB_OP_UNWATCH:] *)
Definition case_MULTI : M unit :=
  set_argc 0.

(** [case RESPB_OP_WATCH:] *)
Definition case_WATCH : M unit :=
  CHECK_AVAIL 2;;
  count <- read_u16_be_pos;;
  pos_add 2;;
  for_u16 count (fun i => (i <? RESPB_MAX_ARGS)) (fun i =>
    READ_STRING_2B i);;
  set_argc ((if (count <? RESPB_MAX_ARGS) then count else RESPB_MAX_ARGS)).

(** [case RESPB_OP_EVAL:] *)
Definition case_EVAL : M unit :=
  READ_STRING_4B 0;;
  CHECK_AVAIL 2;;
  numkeys <- read_u16_be_pos;;
  pos_add 2;;
  for_u16 numkeys (fun i => (i + 1 <? RESPB_MAX_ARGS)) (fun i =>
    READ_STRING_2B (i + 1));;
  CHECK_AVAIL 2;;
  numargs <- read_u16_be_pos;;
  pos_add 2;;
  when_ ((numargs >? 0) && (numkeys + 1 <? RESPB_MAX_ARGS)) (
    READ_STRING_2B (numkeys + 1));;
  set_argc ((if ((numkeys + (if (numargs >? 0) then 1 else 0) + 1) <? RESPB_MAX_ARGS) then (numkeys + (if (numargs >? 0) then 1 else 0) + 1) else RESPB_MAX_ARGS)).

(** [case RESPB_OP_EVALSHA:] *)
Definition case_EVALSHA : M unit :=
  READ_STRING_2B 0;;
  CHECK_AVAIL 2;;
  numkeys <- read_u16_be_pos;;
  pos_add 2;;
  for_u16 numkeys (fun i => (i + 1 <? RESPB_MAX_ARGS)) (fun i =>
    READ_STRING_2B (i + 1));;
  CHECK_AVAIL 2;;
  numargs <- read_u16_be_pos;;
  pos_add 2;;
  when_ ((numargs >? 0) && (numkeys + 1 <? RESPB_MAX_ARGS)) (
    READ_STRING_2B (numkeys + 1));;
  set_argc ((if ((numkeys + (if (numargs >? 0) then 1 else 0) + 1) <? RESPB_MAX_ARGS) then (numkeys + (if (numargs >? 0) then 1 else 0) + 1) else RESPB_MAX_ARGS)).

(** [case RESPB_OP_EVAL_RO:] *)
Definition case_EVAL_RO : M unit :=
  READ_STRING_4B 0;;
  CHECK_AVAIL 2;;
  numkeys <- read_u16_be_pos;;
  pos_add 2;;
  for_u16 numkeys (fun i => (i + 1 <? RESPB_MAX_ARGS)) (fun i =>
    READ_STRING_2B (i + 1));;
  CHECK_AVAIL 2;;
  numargs <- read_u16_be_pos;;
  pos_add 2;;
  when_ ((numargs >? 0) && (numkeys + 1 <? RESPB_MAX_ARGS)) (
    READ_STRING_2B (numkeys + 1));;
  set_argc ((if ((numkeys + (if (numargs >? 0) then 1 else 0) + 1) <? RESPB_MAX_ARGS) then (numkeys + (if (numargs >? 0) then 1 else 0) + 1) else RESPB_MAX_ARGS)).

(** [case RESPB_OP_EVALSHA_RO:] *)
Definition case_EVALSHA_RO : M unit :=
  READ_STRING_2B 0;;
  CHECK_AVAIL 2;;
  numkeys <- read_u16_be_pos;;
  pos_add 2;;
  for_u16 numkeys (fun i => (i + 1 <? RESPB_MAX_ARGS)) (fun i =>
    READ_STRING_2B (i + 1));;
  CHECK_AVAIL 2;;
  numargs <- read_u16_be_pos;;
  pos_add 2;;
  when_ ((numargs >? 0) && (numkeys + 1 <? RESPB_MAX_ARGS)) (
    READ_STRING_2B (numkeys + 1));;
  set_argc ((if ((numkeys + (if (numargs >? 0) then 1 else 0) + 1) <? RESPB_MAX_ARGS) then (numkeys + (if (numargs >? 0) then 1 else 0) + 1) else RESPB_MAX_ARGS)).

(** [case RESPB_OP_SCRIPT:] *)
Definition case_SCRIPT : M unit :=
  CHECK_AVAIL 1;;
  pos_add 1;;
  set_argc 0.

(** [case RESPB_OP_FCALL:] *)
Definition case_FCALL : M unit :=
  READ_STRING_2B 0;;
  CHECK_AVAIL 2;;
  numkeys <- read_u16_be_pos;;
  pos_add 2;;
  for_u16 numkeys (fun i => (i + 1 <? RESPB_MAX_ARGS)) (fun i =>
    READ_STRING_2B (i + 1));;
  CHECK_AVAIL 2;;
  numargs <- read_u16_be_pos;;
  pos_add 2;;
  when_ ((numargs >? 0) && (numkeys + 1 <? RESPB_MAX_ARGS)) (
    READ_STRING_2B (numkeys + 1));;
  set_argc ((if ((numkeys + (if (numargs >? 0) then 1 else 0) + 1) <? RESPB_MAX_ARGS) then (numkeys + (if (numargs >? 0) then 1 else 0) + 1) else RESPB_MAX_ARGS)).

(** [case RESPB_OP_FCALL_RO:] *)
Definition case_FCALL_RO : M unit :=
  READ_STRING_2B 0;;
  CHECK_AVAIL 2;;
  numkeys <- read_u16_be_pos;;
  pos_add 2;;
  for_u16 numkeys (fun i => (i + 1 <? RESPB_MAX_ARGS)) (fun i =>
    READ_STRING_2B (i + 1));;
  CHECK_AVAIL 2;;
  numargs <- read_u16_be_pos;;
  pos_add 2;;
  when_ ((numargs >? 0) && (numkeys + 1 <? RESPB_MAX_ARGS)) (
    READ_STRING_2B (numkeys + 1));;
  set_argc ((if ((numkeys + (if (numargs >? 0) then 1 else 0) + 1) <? RESPB_MAX_ARGS) then (numkeys + (if (numargs >? 0) then 1 else 0) + 1) else RESPB_MAX_ARGS)).

(** [case RESPB_OP_FUNCTION:] *)
Definition case_FUNCTION : M unit :=
  CHECK_AVAIL 1;;
  pos_add 1;;
  set_argc 0.

(** [case RESPB_OP_TTL:
    case RESPB_OP_PERSIST:
    case RESPB_OP_PTTL:
    case RESPB_OP_TYPE:
    case RESPB_OP_EXPIRETIME:
    case RESPB_OP_PEXPIRETIME:
    case RESPB_OP_KEYS:
    case RESPB_OP_DUMP:] *)
Definition case_TTL : M unit :=
  READ_STRING_2B 0;;
  set_argc 1.

(** [case RESPB_OP_EXPIREAT: case RESPB_OP_PEXPIRE: case RESPB_OP_PEXPIREAT:] *)
Definition case_EXPIREAT : M unit :=
  READ_STRING_2B 0;;
  CHECK_AVAIL 9;;
  pos_add 9;;
  set_argc 1.

(** [case RESPB_OP_RENAME: case RESPB_OP_RENAMENX:] *)
Definition case_RENAME : M unit :=
  READ_STRING_2B 0;;
  READ_STRING_2B 1;;
  set_argc 2.

(** [case RESPB_OP_RANDOMKEY:] *)
Definition case_RANDOMKEY : M unit :=
  set_argc 0.

(** [case RESPB_OP_SCAN:] *)
Definition case_SCAN : M unit :=
  CHECK_AVAIL 8;;
  pos_add 8;;
  set_argc 0.

(** [case RESPB_OP_RESTORE:] *)
Definition case_RESTORE : M unit :=
  READ_STRING_2B 0;;
  CHECK_AVAIL 8;;
  pos_add 8;;
  READ_STRING_4B 1;;
  CHECK_AVAIL 1;;
  pos_add 1;;
  set_argc 2.

(** [case RESPB_OP_MIGRATE:] *)
Definition case_MIGRATE : M unit :=
  READ_STRING_2B 0;;
  CHECK_AVAIL 2;;
  pos_add 2;;
  READ_STRING_2B 1;;
  CHECK_AVAIL 2;;
  pos_add 2;;
  CHECK_AVAIL 9;;
  pos_add 9;;
  set_argc 2.

(** [case RESPB_OP_MOVE:] *)
Definition case_MOVE : M unit :=
  READ_STRING_2B 0;;
  CHECK_AVAIL 2;;
  pos_add 2;;
  set_argc 1.

(** [case RESPB_OP_COPY:] *)
Definition case_COPY : M unit :=
  READ_STRING_2B 0;;
  READ_STRING_2B 1;;
  CHECK_AVAIL 3;;
  pos_add 3;;
  set_argc 2.

(** [case RESPB_OP_SORT: case RESPB_OP_SORT_RO:] *)
Definition case_SORT : M unit :=
  READ_STRING_2B 0;;
  set_argc 1.

(** [case RESPB_OP_TOUCH:] *)
Definition case_TOUCH : M unit :=
  CHECK_AVAIL 2;;
  count <- read_u16_be_pos;;
  pos_add 2;;
  for_u16 count (fun i => (i <? RESPB_MAX_ARGS)) (fun i =>
    READ_STRING_2B i);;
  set_argc ((if (count <? RESPB_MAX_ARGS) then count else RESPB_MAX_ARGS)).

(** [case RESPB_OP_OBJECT:] *)
Definition case_OBJECT : M unit :=
  CHECK_AVAIL 1;;
  pos_add 1;;
  READ_STRING_2B 0;;
  set_argc 1.

(** [case RESPB_OP_WAIT:] *)
Definition case_WAIT : M unit :=
  CHECK_AVAIL 16;;
  pos_add 16;;
  set_argc 0.

(** [case RESPB_OP_WAITAOF:] *)
Definition case_WAITAOF : M unit :=
  CHECK_AVAIL 24;;
  pos_add 24;;
  set_argc 0.

(** [case RESPB_OP_SETBIT:] *)
Definition case_SETBIT : M unit :=
  READ_STRING_2B 0;;
  CHECK_AVAIL 9;;
  pos_add 9;;
  set_argc 1.

(** [case RESPB_OP_GETBIT:] *)
Definition case_GETBIT : M unit :=
  READ_STRING_2B 0;;
  CHECK_AVAIL 8;;
  pos_add 8;;
  set_argc 1.

(** [case RESPB_OP_BITCOUNT:] *)
Definition case_BITCOUNT : M unit :=
  READ_STRING_2B 0;;
  set_argc 1.

(** [case RESPB_OP_BITPOS:] *)
Definition case_BITPOS : M unit :=
  READ_STRING_2B 0;;
  CHECK_AVAIL 1;;
  pos_add 1;;
  set_argc 1.

(** [case RESPB_OP_BITOP:] *)
Definition case_BITOP : M unit :=
  CHECK_AVAIL 1;;
  pos_add 1;;
  READ_STRING_2B 0;;
  CHECK_AVAIL 2;;
  count <- read_u16_be_pos;;
  pos_add 2;;
  for_u16 count (fun i => (i + 1 <? RESPB_MAX_ARGS)) (fun i =>
    READ_STRING_2B (i + 1));;
  set_argc (1 + (if (count <? RESPB_MAX_ARGS - 1) then count else RESPB_MAX_ARGS - 1)).

(** [case RESPB_OP_BITFIELD: case RESPB_OP_BITFIELD_RO:] *)
Definition case_BITFIELD : M unit :=
  READ_STRING_2B 0;;
  set_argc 1.

(** [case RESPB_OP_PFADD:] *)
Definition case_PFADD : M unit :=
  READ_STRING_2B 0;;
  CHECK_AVAIL 2;;
  count <- read_u16_be_pos;;
  pos_add 2;;
  for_u16 count (fun i => (i + 1 <? RESPB_MAX_ARGS)) (fun i =>
    READ_STRING_2B (i + 1));;
  set_argc (1 + (if (count <? RESPB_MAX_ARGS - 1) then count else RESPB_MAX_ARGS - 1)).

(** [case RESPB_OP_PFCOUNT:] *)
Definition case_PFCOUNT : M unit :=
  CHECK_AVAIL 2;;
  count <- read_u16_be_pos;;
  pos_add 2;;
  for_u16 count (fun i => (i <? RESPB_MAX_ARGS)) (fun i =>
    READ_STRING_2B i);;
  set_argc ((if (count <? RESPB_MAX_ARGS) then count else RESPB_MAX_ARGS)).

(** [case RESPB_OP_PFMERGE:] *)
Definition case_PFMERGE : M unit :=
  READ_STRING_2B 0;;
  CHECK_AVAIL 2;;
  count <- read_u16_be_pos;;
  pos_add 2;;
  for_u16 count (fun i => (i + 1 <? RESPB_MAX_ARGS)) (fun i =>
    READ_STRING_2B (i + 1));;
  set_argc (1 + (if (count <? RESPB_MAX_ARGS - 1) then count else RESPB_MAX_ARGS - 1)).

(** [case RESPB_OP_PFDEBUG:] *)
Definition case_PFDEBUG : M unit :=
  READ_STRING_2B 0;;
  READ_STRING_2B 1;;
  set_argc 2.

(** [case RESPB_OP_PFSELFTEST:] *)
Definition case_PFSELFTEST : M unit :=
  set_argc 0.

(** [case RESPB_OP_GEOADD:] *)
Definition case_GEOADD : M unit :=
  READ_STRING_2B 0;;
  CHECK_AVAIL 3;;
  pos_add 3;;
  set_argc 1.

(** [case RESPB_OP_GEODIST:] *)
Definition case_GEODIST : M unit :=
  READ_STRING_2B 0;;
  READ_STRING_2B 1;;
  READ_STRING_2B 2;;
  CHECK_AVAIL 1;;
  pos_add 1;;
  set_argc 3.

(** [case RESPB_OP_GEOHASH: case RESPB_OP_GEOPOS:] *)
Definition case_GEOHASH : M unit :=
  READ_STRING_2B 0;;
  CHECK_AVAIL 2;;
  count <- read_u16_be_pos;;
  pos_add 2;;
  for_u16 count (fun i => (i + 1 <? RESPB_MAX_ARGS)) (fun i =>
    READ_STRING_2B (i + 1));;
  set_argc (1 + (if (count <? RESPB_MAX_ARGS - 1) then count else RESPB_MAX_ARGS - 1)).

(** [case RESPB_OP_GEORADIUS: case RESPB_OP_GEORADIUS_RO:] *)
Definition case_GEORADIUS : M unit :=
  READ_STRING_2B 0;;
  CHECK_AVAIL 18;;
  pos_add 18;;
  set_argc 1.

(** [case RESPB_OP_GEORADIUSBYMEMBER: case RESPB_OP_GEORADIUSBYMEMBER_RO:] *)
Definition case_GEORADIUSBYMEMBER : M unit :=
  READ_STRING_2B 0;;
  READ_STRING_2B 1;;
  CHECK_AVAIL 10;;
  pos_add 10;;
  set_argc 2.

(** [case RESPB_OP_GEOSEARCH:] *)
Definition case_GEOSEARCH : M unit :=
  READ_STRING_2B 0;;
  CHECK_AVAIL 1;;
  pos_add 1;;
  set_argc 1.

(** [case RESPB_OP_GEOSEARCHSTORE:] *)
Definition case_GEOSEARCHSTORE : M unit :=
  READ_STRING_2B 0;;
  READ_STRING_2B 1;;
  CHECK_AVAIL 1;;
  pos_add 1;;
  set_argc 2.

(** [case RESPB_OP_XADD:] *)
Definition case_XADD : M unit :=
  READ_STRING_2B 0;;
  READ_STRING_2B 1;;
  CHECK_AVAIL 2;;
  count <- read_u16_be_pos;;
  pos_add 2;;
  when_ (count >? 0) (
    READ_STRING_2B 2);;
  set_argc ((if (count >? 0) then 3 else 2)).

(** [case RESPB_OP_XLEN:] *)
Definition case_XLEN : M unit :=
  READ_STRING_2B 0;;
  set_argc 1.

(** [case RESPB_OP_XRANGE: case RESPB_OP_XREVRANGE:] *)
Definition case_XRANGE : M unit :=
  READ_STRING_2B 0;;
  READ_STRING_2B 1;;
  READ_STRING_2B 2;;
  set_argc 3.

(** [case RESPB_OP_XREAD:] *)
Definition case_XREAD : M unit :=
  CHECK_AVAIL 2;;
  numkeys <- read_u16_be_pos;;
  pos_add 2;;
  for_u16 numkeys (fun i => (i * 2 + 1 <? RESPB_MAX_ARGS)) (fun i =>
    READ_STRING_2B (i * 2);;
    READ_STRING_2B (i * 2 + 1));;
  set_argc ((if (numkeys * 2 <? RESPB_MAX_ARGS) then numkeys * 2 else RESPB_MAX_ARGS)).

(** [case RESPB_OP_XREADGROUP:] *)
Definition case_XREADGROUP : M unit :=
  READ_STRING_2B 0;;
  READ_STRING_2B 1;;
  CHECK_AVAIL 2;;
  numkeys <- read_u16_be_pos;;
  pos_add 2;;
  for_u16 numkeys (fun i => (i * 2 + 2 <? RESPB_MAX_ARGS)) (fun i =>
    READ_STRING_2B (i * 2 + 2);;
    READ_STRING_2B (i * 2 + 3));;
  set_argc (2 + (if (numkeys * 2 <? RESPB_MAX_ARGS - 2) then numkeys * 2 else RESPB_MAX_ARGS - 2)).

(** [case RESPB_OP_XDEL:] *)
Definition case_XDEL : M unit :=
  READ_STRING_2B 0;;
  CHECK_AVAIL 2;;
  count <- read_u16_be_pos;;
  pos_add 2;;
  when_ (count >? 0) (
    READ_STRING_2B 1);;
  set_argc ((if (count >? 0) then 2 else 1)).

(** [case RESPB_OP_XTRIM:] *)
Definition case_XTRIM : M unit :=
  READ_STRING_2B 0;;
  CHECK_AVAIL 10;;
  pos_add 10;;
  set_argc 1.

(** [case RESPB_OP_XACK:] *)
Definition case_XACK : M unit :=
  READ_STRING_2B 0;;
  READ_STRING_2B 1;;
  CHECK_AVAIL 2;;
  count <- read_u16_be_pos;;
  pos_add 2;;
  when_ (count >? 0) (
    READ_STRING_2B 2);;
  set_argc ((if (count >? 0) then 3 else 2)).

(** [case RESPB_OP_XPENDING:] *)
Definition case_XPENDING : M unit :=
  READ_STRING_2B 0;;
  READ_STRING_2B 1;;
  set_argc 2.

(** [case RESPB_OP_XCLAIM:] *)
Definition case_XCLAIM : M unit :=
  READ_STRING_2B 0;;
  READ_STRING_2B 1;;
  READ_STRING_2B 2;;
  CHECK_AVAIL 8;;
  pos_add 8;;
  CHECK_AVAIL 2;;
  count <- read_u16_be_pos;;
  pos_add 2;;
  when_ (count >? 0) (
    READ_STRING_2B 3);;
  CHECK_AVAIL 1;;
  pos_add 1;;
  set_argc ((if (count >? 0) then 4 else 3)).

(** [case RESPB_OP_XAUTOCLAIM:] *)
Definition case_XAUTOCLAIM : M unit :=
  READ_STRING_2B 0;;
  READ_STRING_2B 1;;
  READ_STRING_2B 2;;
  CHECK_AVAIL 8;;
  pos_add 8;;
  READ_STRING_2B 3;;
  set_argc 4.

(** [case RESPB_OP_XINFO:] *)
Definition case_XINFO : M unit :=
  CHECK_AVAIL 1;;
  pos_add 1;;
  READ_STRING_2B 0;;
  set_argc 1.

(** [case RESPB_OP_XGROUP:] *)
Definition case_XGROUP : M unit :=
  CHECK_AVAIL 1;;
  pos_add 1;;
  READ_STRING_2B 0;;
  set_argc 1.

(** [case RESPB_OP_XSETID:] *)
Definition case_XSETID : M unit :=
  READ_STRING_2B 0;;
  READ_STRING_2B 1;;
  set_argc 2.

(** [case RESPB_OP_PUBLISH:] *)
Definition case_PUBLISH : M unit :=
  READ_STRING_2B 0;;
  READ_STRING_4B 1;;
  set_argc 2.

(** [case RESPB_OP_SPUBLISH:] *)
Definition case_SPUBLISH : M unit :=
  READ_STRING_2B 0;;
  READ_STRING_4B 1;;
  set_argc 2.

(** [case RESPB_OP_SUBSCRIBE:
    case RESPB_OP_UNSUBSCRIBE:
    case RESPB_OP_SSUBSCRIBE:
    case RESPB_OP_SUNSUBSCRIBE:] *)
Definition case_SUBSCRIBE : M unit :=
  CHECK_AVAIL 2;;
  count <- read_u16_be_pos;;
  pos_add 2;;
  for_u16 count (fun i => (i <? RESPB_MAX_ARGS)) (fun i =>
    READ_STRING_2B i);;
  set_argc ((if (count <? RESPB_MAX_ARGS) then count else RESPB_MAX_ARGS)).

(** [case RESPB_OP_PSUBSCRIBE: case RESPB_OP_PUNSUBSCRIBE:] *)
Definition case_PSUBSCRIBE : M unit :=
  CHECK_AVAIL 2;;
  count <- read_u16_be_pos;;
  pos_add 2;;
  for_u16 count (fun i => (i <? RESPB_MAX_ARGS)) (fun i =>
    READ_STRING_2B i);;
  set_argc ((if (count <? RESPB_MAX_ARGS) then count else RESPB_MAX_ARGS)).

(** [case RESPB_OP_PUBSUB:] *)
Definition case_PUBSUB : M unit :=
  CHECK_AVAIL 1;;
  pos_add 1;;
  set_argc 0.

(** [case RESPB_OP_MODULE:] *)
Definition case_MODULE : M unit :=
  CHECK_AVAIL 4;;
  sub <- read_u32_be_pos;;
  modify_cmd (fun c => with_module_subcommand c sub);;
  pos_add 4;;
  modify_cmd (fun c =>
    with_module_id c
      (u16 (Z.land (Z.shiftr (module_subcommand c) 16) 0xFFFF)));;
  modify_cmd (fun c =>
    with_command_id c (u16 (Z.land (module_subcommand c) 0xFFFF)));;
  s <- get;;
  if module_id (cmd s) =? RESPB_MODULE_JSON then
    if command_id (cmd s) =? 0x0000 then
      READ_STRING_2B 0;;
      READ_STRING_2B 1;;
      READ_STRING_4B 2;;
      CHECK_AVAIL 1;;
      pos_add 1;;
      set_argc 3
    else if command_id (cmd s) =? 0x0001 then
      READ_STRING_2B 0;;
      CHECK_AVAIL 2;;
      numpaths <- read_u16_be_pos;;
      pos_add 2;;
      for_u16 numpaths (fun i => (i + 1 <? RESPB_MAX_ARGS)) (fun i =>
        READ_STRING_2B (i + 1));;
      set_argc (1 + (if (numpaths <? RESPB_MAX_ARGS - 1) then numpaths else RESPB_MAX_ARGS - 1))
    else
      READ_STRING_2B 0;;
      set_argc 1
  else if module_id (cmd s) =? RESPB_MODULE_BF then
    if command_id (cmd s) =? 0x0000 then
      READ_STRING_2B 0;;
      READ_STRING_2B 1;;
      set_argc 2
    else if command_id (cmd s) =? 0x0002 then
      READ_STRING_2B 0;;
      READ_STRING_2B 1;;
      set_argc 2
    else
      READ_STRING_2B 0;;
      set_argc 1
  else if module_id (cmd s) =? RESPB_MODULE_FT then
    if command_id (cmd s) =? 0x0001 then
      READ_STRING_2B 0;;
      READ_STRING_2B 1;;
      set_argc 2
    else
      READ_STRING_2B 0;;
      set_argc 1
  else
    READ_STRING_2B 0;;
    set_argc 1.

(** [case RESPB_OP_RESP_PASSTHROUGH:] *)
Definition case_RESP_PASSTHROUGH : M unit :=
  CHECK_AVAIL 4;;
  n <- read_u32_be_pos;;
  modify_cmd (fun c => with_resp_length c n);;
  pos_add 4;;
  s <- get;;
  CHECK_AVAIL (resp_length (cmd s));;
  s <- get;;
  modify_cmd (fun c => with_resp_data c (cursor s 0));;
  s <- get;;
  pos_add (resp_length (cmd s));;
  set_argc 0.

(** [default:] the diagnostic written to [stderr] is not modelled. *)
Definition case_default : M unit :=
  return_ (-1).

(** A [switch] statement: the first group of labels containing the
    scrutinee selects the body (labels are pairwise distinct in C, so at
    most one group can), otherwise the [default] body runs. *)
Fixpoint switch_on (op : Z) (cases : list (list Z * M unit))
  (default : M unit) : M unit :=
  match cases with
  | [] => default
  | (labels, body) :: rest =>
      if case_of op labels then body else switch_on op rest default
  end.

(** The case groups of [switch (cmd->opcode)], in source order. *)
Definition respb_cases : list (list Z * M unit) :=
  [([RESPB_OP_GET; RESPB_OP_DECR; RESPB_OP_GETDEL; RESPB_OP_INCR;
     RESPB_OP_STRLEN], case_GET);
   ([RESPB_OP_SET], case_SET);
   ([RESPB_OP_APPEND; RESPB_OP_SETNX], case_APPEND);
   ([RESPB_OP_INCRBY; RESPB_OP_DECRBY], case_INCRBY);
   ([RESPB_OP_GETEX], case_GETEX);
   ([RESPB_OP_GETRANGE; RESPB_OP_SUBSTR], case_GETRANGE);
   ([RESPB_OP_GETSET], case_GETSET);
   ([RESPB_OP_INCRBYFLOAT], case_INCRBYFLOAT);
   ([RESPB_OP_MSETNX], case_MSETNX);
   ([RESPB_OP_PSETEX; RESPB_OP_SETEX], case_PSETEX);
   ([RESPB_OP_SETRANGE], case_SETRANGE);
   ([RESPB_OP_LCS], case_LCS);
   ([RESPB_OP_DELIFEQ], case_DELIFEQ);
   ([RESPB_OP_EXPIRE], case_EXPIRE);
   ([RESPB_OP_MGET; RESPB_OP_DEL; RESPB_OP_EXISTS; RESPB_OP_UNLINK],
     case_MGET);
   ([RESPB_OP_MSET], case_MSET);
   ([RESPB_OP_LPUSH; RESPB_OP_RPUSH], case_LPUSH);
   ([RESPB_OP_LPOP; RESPB_OP_RPOP], case_LPOP);
   ([RESPB_OP_LLEN], case_LLEN);
   ([RESPB_OP_LRANGE], case_LRANGE);
   ([RESPB_OP_LINDEX], case_LINDEX);
   ([RESPB_OP_LSET], case_LSET);
   ([RESPB_OP_LREM], case_LREM);
   ([RESPB_OP_LTRIM], case_LTRIM);
   ([RESPB_OP_LINSERT], case_LINSERT);
   ([RESPB_OP_LPUSHX; RESPB_OP_RPUSHX], case_LPUSHX);
   ([RESPB_OP_RPOPLPUSH], case_RPOPLPUSH);
   ([RESPB_OP_LMOVE], case_LMOVE);
   ([RESPB_OP_BRPOPLPUSH], case_BRPOPLPUSH);
   ([RESPB_OP_BLMOVE], case_BLMOVE);
   ([RESPB_OP_BLMPOP], case_BLMPOP);
   ([RESPB_OP_LMPOP], case_LMPOP);
   ([RESPB_OP_LPOS], case_LPOS);
   ([RESPB_OP_BLPOP; RESPB_OP_BRPOP], case_BLPOP);
   ([RESPB_OP_SADD], case_SADD);
   ([RESPB_OP_SREM], case_SREM);
   ([RESPB_OP_SMEMBERS; RESPB_OP_SCARD; RESPB_OP_SPOP], case_SMEMBERS);
   ([RESPB_OP_SISMEMBER], case_SISMEMBER);
   ([RESPB_OP_SRANDMEMBER], case_SRANDMEMBER);
   ([RESPB_OP_SINTER; RESPB_OP_SUNION; RESPB_OP_SDIFF;
     RESPB_OP_SINTERCARD], case_SINTER);
   ([RESPB_OP_SINTERSTORE; RESPB_OP_SUNIONSTORE; RESPB_OP_SDIFFSTORE],
     case_SINTERSTORE);
   ([RESPB_OP_SMOVE], case_SMOVE);
   ([RESPB_OP_SSCAN], case_SSCAN);
   ([RESPB_OP_SMISMEMBER], case_SMISMEMBER);
   ([RESPB_OP_HSET], case_HSET);
   ([RESPB_OP_HGET], case_HGET);
   ([RESPB_OP_HMSET], case_HMSET);
   ([RESPB_OP_HMGET], case_HMGET);
   ([RESPB_OP_HDEL], case_HDEL);
   ([RESPB_OP_HGETALL; RESPB_OP_HKEYS; RESPB_OP_HVALS; RESPB_OP_HLEN],
     case_HGETALL);
   ([RESPB_OP_HRANDFIELD], case_HRANDFIELD);
   ([RESPB_OP_HEXPIRE; RESPB_OP_HEXPIREAT; RESPB_OP_HPEXPIRE;
     RESPB_OP_HPEXPIREAT], case_HEXPIRE);
   ([RESPB_OP_HEXPIRETIME; RESPB_OP_HPEXPIRETIME; RESPB_OP_HPTTL;
     RESPB_OP_HTTL; RESPB_OP_HPERSIST], case_HEXPIRETIME);
   ([RESPB_OP_HGETEX], case_HGETEX);
   ([RESPB_OP_HSETEX], case_HSETEX);
   ([RESPB_OP_HEXISTS; RESPB_OP_HSTRLEN], case_HEXISTS);
   ([RESPB_OP_HINCRBY], case_HINCRBY);
   ([RESPB_OP_HINCRBYFLOAT], case_HINCRBYFLOAT);
   ([RESPB_OP_HSETNX], case_HSETNX);
   ([RESPB_OP_HSCAN], case_HSCAN);
   ([RESPB_OP_ZADD], case_ZADD);
   ([RESPB_OP_ZREM], case_ZREM);
   ([RESPB_OP_ZSCORE], case_ZSCORE);
   ([RESPB_OP_ZRANGE; RESPB_OP_ZREVRANGE], case_ZRANGE);
   ([RESPB_OP_ZRANGEBYSCORE; RESPB_OP_ZREVRANGEBYSCORE], case_ZRANGEBYSCORE);
   ([RESPB_OP_ZRANGEBYLEX; RESPB_OP_ZREVRANGEBYLEX], case_ZRANGEBYLEX);
   ([RESPB_OP_ZREMRANGEBYLEX; RESPB_OP_ZLEXCOUNT], case_ZREMRANGEBYLEX);
   ([RESPB_OP_BZPOPMIN; RESPB_OP_BZPOPMAX], case_BZPOPMIN);
   ([RESPB_OP_ZRANDMEMBER], case_ZRANDMEMBER);
   ([RESPB_OP_ZDIFF], case_ZDIFF);
   ([RESPB_OP_ZDIFFSTORE], case_ZDIFFSTORE);
   ([RESPB_OP_ZINTER; RESPB_OP_ZUNION], case_ZINTER);
   ([RESPB_OP_ZINTERSTORE; RESPB_OP_ZUNIONSTORE], case_ZINTERSTORE);
   ([RESPB_OP_ZSCAN], case_ZSCAN);
   ([RESPB_OP_ZMPOP], case_ZMPOP);
   ([RESPB_OP_BZMPOP], case_BZMPOP);
   ([RESPB_OP_ZRANGESTORE], case_ZRANGESTORE);
   ([RESPB_OP_ZINTERCARD], case_ZINTERCARD);
   ([RESPB_OP_ZCARD; RESPB_OP_ZPOPMIN; RESPB_OP_ZPOPMAX], case_ZCARD);
   ([RESPB_OP_ZCOUNT; RESPB_OP_ZREMRANGEBYRANK], case_ZCOUNT);
   ([RESPB_OP_ZINCRBY], case_ZINCRBY);
   ([RESPB_OP_ZRANK; RESPB_OP_ZREVRANK], case_ZRANK);
   ([RESPB_OP_ZMSCORE], case_ZMSCORE);
   ([RESPB_OP_ZREMRANGEBYSCORE], case_ZREMRANGEBYSCORE);
   ([RESPB_OP_PING], case_PING);
   ([RESPB_OP_ECHO], case_ECHO);
   ([RESPB_OP_AUTH], case_AUTH);
   ([RESPB_OP_SELECT], case_SELECT);
   ([RESPB_OP_QUIT; RESPB_OP_RESET], case_QUIT);
   ([RESPB_OP_HELLO], case_HELLO);
   ([RESPB_OP_CLIENT], case_CLIENT);
   ([RESPB_OP_CLUSTER], case_CLUSTER);
   ([RESPB_OP_READONLY; RESPB_OP_READWRITE; RESPB_OP_ASKING], case_READONLY);
   ([RESPB_OP_DBSIZE; RESPB_OP_SAVE; RESPB_OP_BGREWRITEAOF;
     RESPB_OP_LASTSAVE; RESPB_OP_TIME; RESPB_OP_ROLE; RESPB_OP_MONITOR;
     RESPB_OP_SYNC], case_DBSIZE);
   ([RESPB_OP_FLUSHDB; RESPB_OP_FLUSHALL], case_FLUSHDB);
   ([RESPB_OP_BGSAVE; RESPB_OP_SHUTDOWN], case_BGSAVE);
   ([RESPB_OP_INFO], case_INFO);
   ([RESPB_OP_CONFIG; RESPB_OP_COMMAND; RESPB_OP_DEBUG; RESPB_OP_SLOWLOG;
     RESPB_OP_LATENCY; RESPB_OP_MEMORY; RESPB_OP_MODULE_CMD; RESPB_OP_ACL;
     RESPB_OP_COMMANDLOG], case_CONFIG);
   ([RESPB_OP_REPLICAOF; RESPB_OP_SLAVEOF], case_REPLICAOF);
   ([RESPB_OP_PSYNC], case_PSYNC);
   ([RESPB_OP_REPLCONF], case_REPLCONF);
   ([RESPB_OP_FAILOVER], case_FAILOVER);
   ([RESPB_OP_SWAPDB], case_SWAPDB);
   ([RESPB_OP_LOLWUT], case_LOLWUT);
   ([RESPB_OP_RESTORE_ASKING], case_RESTORE_ASKING);
   ([RESPB_OP_MULTI; RESPB_OP_EXEC; RESPB_OP_DISCARD; RESPB_OP_UNWATCH],
     case_MULTI);
   ([RESPB_OP_WATCH], case_WATCH);
   ([RESPB_OP_EVAL], case_EVAL);
   ([RESPB_OP_EVALSHA], case_EVALSHA);
   ([RESPB_OP_EVAL_RO], case_EVAL_RO);
   ([RESPB_OP_EVALSHA_RO], case_EVALSHA_RO);
   ([RESPB_OP_SCRIPT], case_SCRIPT);
   ([RESPB_OP_FCALL], case_FCALL);
   ([RESPB_OP_FCALL_RO], case_FCALL_RO);
   ([RESPB_OP_FUNCTION], case_FUNCTION);
   ([RESPB_OP_TTL; RESPB_OP_PERSIST; RESPB_OP_PTTL; RESPB_OP_TYPE;
     RESPB_OP_EXPIRETIME; RESPB_OP_PEXPIRETIME; RESPB_OP_KEYS;
     RESPB_OP_DUMP], case_TTL);
   ([RESPB_OP_EXPIREAT; RESPB_OP_PEXPIRE; RESPB_OP_PEXPIREAT], case_EXPIREAT);
   ([RESPB_OP_RENAME; RESPB_OP_RENAMENX], case_RENAME);
   ([RESPB_OP_RANDOMKEY], case_RANDOMKEY);
   ([RESPB_OP_SCAN], case_SCAN);
   ([RESPB_OP_RESTORE], case_RESTORE);
   ([RESPB_OP_MIGRATE], case_MIGRATE);
   ([RESPB_OP_MOVE], case_MOVE);
   ([RESPB_OP_COPY], case_COPY);
   ([RESPB_OP_SORT; RESPB_OP_SORT_RO], case_SORT);
   ([RESPB_OP_TOUCH], case_TOUCH);
   ([RESPB_OP_OBJECT], case_OBJECT);
   ([RESPB_OP_WAIT], case_WAIT);
   ([RESPB_OP_WAITAOF], case_WAITAOF);
   ([RESPB_OP_SETBIT], case_SETBIT);
   ([RESPB_OP_GETBIT], case_GETBIT);
   ([RESPB_OP_BITCOUNT], case_BITCOUNT);
   ([RESPB_OP_BITPOS], case_BITPOS);
   ([RESPB_OP_BITOP], case_BITOP);
   ([RESPB_OP_BITFIELD; RESPB_OP_BITFIELD_RO], case_BITFIELD);
   ([RESPB_OP_PFADD], case_PFADD);
   ([RESPB_OP_PFCOUNT], case_PFCOUNT);
   ([RESPB_OP_PFMERGE], case_PFMERGE);
   ([RESPB_OP_PFDEBUG], case_PFDEBUG);
   ([RESPB_OP_PFSELFTEST], case_PFSELFTEST);
   ([RESPB_OP_GEOADD], case_GEOADD);
   ([RESPB_OP_GEODIST], case_GEODIST);
   ([RESPB_OP_GEOHASH; RESPB_OP_GEOPOS], case_GEOHASH);
   ([RESPB_OP_GEORADIUS; RESPB_OP_GEORADIUS_RO], case_GEORADIUS);
   ([RESPB_OP_GEORADIUSBYMEMBER; RESPB_OP_GEORADIUSBYMEMBER_RO],
     case_GEORADIUSBYMEMBER);
   ([RESPB_OP_GEOSEARCH], case_GEOSEARCH);
   ([RESPB_OP_GEOSEARCHSTORE], case_GEOSEARCHSTORE);
   ([RESPB_OP_XADD], case_XADD);
   ([RESPB_OP_XLEN], case_XLEN);
   ([RESPB_OP_XRANGE; RESPB_OP_XREVRANGE], case_XRANGE);
   ([RESPB_OP_XREAD], case_XREAD);
   ([RESPB_OP_XREADGROUP], case_XREADGROUP);
   ([RESPB_OP_XDEL], case_XDEL);
   ([RESPB_OP_XTRIM], case_XTRIM);
   ([RESPB_OP_XACK], case_XACK);
   ([RESPB_OP_XPENDING], case_XPENDING);
   ([RESPB_OP_XCLAIM], case_XCLAIM);
   ([RESPB_OP_XAUTOCLAIM], case_XAUTOCLAIM);
   ([RESPB_OP_XINFO], case_XINFO);
   ([RESPB_OP_XGROUP], case_XGROUP);
   ([RESPB_OP_XSETID], case_XSETID);
   ([RESPB_OP_PUBLISH], case_PUBLISH);
   ([RESPB_OP_SPUBLISH], case_SPUBLISH);
   ([RESPB_OP_SUBSCRIBE; RESPB_OP_UNSUBSCRIBE; RESPB_OP_SSUBSCRIBE;
     RESPB_OP_SUNSUBSCRIBE], case_SUBSCRIBE);
   ([RESPB_OP_PSUBSCRIBE; RESPB_OP_PUNSUBSCRIBE], case_PSUBSCRIBE);
   ([RESPB_OP_PUBSUB], case_PUBSUB);
   ([RESPB_OP_MODULE], case_MODULE);
   ([RESPB_OP_RESP_PASSTHROUGH], case_RESP_PASSTHROUGH)].

(** [switch (cmd->opcode)]. *)
Definition respb_switch (op : Z) : M unit :=
  switch_on op respb_cases case_default.

(** [int respb_parse_command(respb_parser_t *parser, respb_command_t *cmd)]
    as a statement sequence. *)
Definition respb_parse_command_body : M unit :=
  CHECK_AVAIL 4;;
  s <- get;;
  op <- read_u16_be (cursor s 0);;
  modify_cmd (fun c => with_opcode c op);;
  mux <- read_u16_be (cursor s 2);;
  modify_cmd (fun c => with_mux_id c mux);;
  pos_add 4;;
  set_argc 0;;
  s <- get;;
  modify_cmd (fun c => with_raw_payload c (cursor s 0));;
  let payload_start := pos (parser s) in
  s <- get;;
  respb_switch (opcode (cmd s));;
  s <- get;;
  modify_cmd (fun c =>
    with_raw_payload_len c (size_t (pos (parser s) - payload_start)));;
  return_ 1.

(** What a call yields: the returned [int], or undefined behaviour (an
    access outside an object). *)
Inductive outcome : Type :=
| Returned (code : Z)
| Undefined.

Definition respb_parse_command (p : respb_parser_t) (c : respb_command_t)
  : outcome * respb_parser_t * respb_command_t :=
  match respb_parse_command_body {| parser := p; cmd := c |} with
  | (Ret code, s) => (Returned code, parser s, cmd s)
  | (Next _, s) => (Undefined, parser s, cmd s)
  | (Fault, s) => (Undefined, parser s, cmd s)
  end.

(** A zero-initialised command record, as [memset(&cmd, 0, sizeof cmd)]
    leaves it. *)
Definition null : ptr := {| base := []; off := 0 |}.

Definition zero_command : respb_command_t :=
  {| opcode := 0; mux_id := 0; argc := 0;
     args := repeat {| data := null; len := 0 |} (Z.to_nat RESPB_MAX_ARGS);
     raw_payload := null; raw_payload_len := 0;
     module_subcommand := 0; module_id := 0; command_id := 0;
     resp_length := 0; resp_data := null |}.

(** [respb_parse_header]: the opcode and the channel of the header at the
    cursor.  The parser is only read; the two out-parameters are written
    when the header is there and keep their values otherwise. *)
Definition respb_parse_header (p : respb_parser_t) (opcode mux_id : Z)
  : outcome * respb_parser_t * Z * Z :=
  let body : M (Z * Z) :=
    CHECK_AVAIL 4;;
    s <- get;;
    op <- read_u16_be (cursor s 0);;
    mux <- read_u16_be (cursor s 2);;
    ret (op, mux) in
  match body {| parser := p; cmd := zero_command |} with
  | (Next (op, mux), s) => (Returned 1, parser s, op, mux)
  | (Ret code, s) => (Returned code, parser s, opcode, mux_id)
  | (Fault, s) => (Undefined, parser s, opcode, mux_id)
  end.

(** *** Specification vocabulary for the parser *)

(** A parser state is valid when [buffer_len] is the size of the buffer
    object (no object exceeds [PTRDIFF_MAX] bytes) and the cursor lies
    inside it. *)
Definition valid (s : pstate) : Prop :=
  buffer_len (parser s) = Z.of_nat (length (buffer (parser s))) /\
  buffer_len (parser s) <= PTRDIFF_MAX /\
  0 <= pos (parser s) <= buffer_len (parser s).

(** [ext s s']: [s'] is reached from [s] by parsing steps: same buffer,
    the cursor only moved forward inside it, the header fields are kept. *)
Definition ext (s s' : pstate) : Prop :=
  buffer (parser s') = buffer (parser s) /\
  buffer_len (parser s') = buffer_len (parser s) /\
  pos (parser s) <= pos (parser s') <= buffer_len (parser s) /\
  opcode (cmd s') = opcode (cmd s) /\
  mux_id (cmd s') = mux_id (cmd s) /\
  raw_payload (cmd s') = raw_payload (cmd s).

Definition post {A} (s : pstate) (Q : A -> pstate -> Prop)
  (r : step A * pstate) : Prop :=
  match r with
  | (Next a, s') => ext s s' /\ Q a s'
  | (Ret c, s') => c = 0 /\ ext s s'
  | (Fault, _) => False
  end.

(** [hoare a m Q]: started in a valid state with [a] bytes known to be
    available at the cursor, [m] does not fault; it either falls through
    in an extension of the state satisfying [Q], or returns 0. *)
Definition hoare {A} (a : Z) (m : M A) (Q : A -> pstate -> Prop) : Prop :=
  forall s, valid s -> pos (parser s) + a <= buffer_len (parser s) ->
            post s Q (m s).

Definition any {A} : A -> pstate -> Prop := fun _ _ => True.

Definition argc_ok : unit -> pstate -> Prop :=
  fun _ s => 0 <= argc (cmd s) <= RESPB_MAX_ARGS.

(** *** The opcode catalogue *)

(** The opcodes [respb.h] defines: the catalogue is closed. *)
Definition catalogue : list Z :=
  [RESPB_OP_GET; RESPB_OP_SET; RESPB_OP_APPEND; RESPB_OP_DECR;
   RESPB_OP_DECRBY; RESPB_OP_GETDEL; RESPB_OP_GETEX; RESPB_OP_GETRANGE;
   RESPB_OP_GETSET; RESPB_OP_INCR; RESPB_OP_INCRBY; RESPB_OP_INCRBYFLOAT;
   RESPB_OP_MGET; RESPB_OP_MSET; RESPB_OP_MSETNX; RESPB_OP_PSETEX;
   RESPB_OP_SETEX; RESPB_OP_SETNX; RESPB_OP_SETRANGE; RESPB_OP_STRLEN;
   RESPB_OP_SUBSTR; RESPB_OP_LCS; RESPB_OP_DELIFEQ; RESPB_OP_LPUSH;
   RESPB_OP_RPUSH; RESPB_OP_LPOP; RESPB_OP_RPOP; RESPB_OP_LLEN;
   RESPB_OP_LRANGE; RESPB_OP_LINDEX; RESPB_OP_LSET; RESPB_OP_LREM;
   RESPB_OP_LTRIM; RESPB_OP_LINSERT; RESPB_OP_LPUSHX; RESPB_OP_RPUSHX;
   RESPB_OP_RPOPLPUSH; RESPB_OP_LMOVE; RESPB_OP_LMPOP; RESPB_OP_LPOS;
   RESPB_OP_BLPOP; RESPB_OP_BRPOP; RESPB_OP_BRPOPLPUSH; RESPB_OP_BLMOVE;
   RESPB_OP_BLMPOP; RESPB_OP_SADD; RESPB_OP_SREM; RESPB_OP_SMEMBERS;
   RESPB_OP_SISMEMBER; RESPB_OP_SCARD; RESPB_OP_SPOP; RESPB_OP_SRANDMEMBER;
   RESPB_OP_SINTER; RESPB_OP_SINTERSTORE; RESPB_OP_SUNION;
   RESPB_OP_SUNIONSTORE; RESPB_OP_SDIFF; RESPB_OP_SDIFFSTORE; RESPB_OP_SMOVE;
   RESPB_OP_SSCAN; RESPB_OP_SINTERCARD; RESPB_OP_SMISMEMBER; RESPB_OP_ZADD;
   RESPB_OP_ZREM; RESPB_OP_ZCARD; RESPB_OP_ZCOUNT; RESPB_OP_ZINCRBY;
   RESPB_OP_ZRANGE; RESPB_OP_ZRANGEBYSCORE; RESPB_OP_ZRANGEBYLEX;
   RESPB_OP_ZREVRANGE; RESPB_OP_ZREVRANGEBYSCORE; RESPB_OP_ZREVRANGEBYLEX;
   RESPB_OP_ZRANK; RESPB_OP_ZREVRANK; RESPB_OP_ZSCORE; RESPB_OP_ZMSCORE;
   RESPB_OP_ZREMRANGEBYRANK; RESPB_OP_ZREMRANGEBYSCORE;
   RESPB_OP_ZREMRANGEBYLEX; RESPB_OP_ZLEXCOUNT; RESPB_OP_ZPOPMIN;
   RESPB_OP_ZPOPMAX; RESPB_OP_BZPOPMIN; RESPB_OP_BZPOPMAX;
   RESPB_OP_ZRANDMEMBER; RESPB_OP_ZDIFF; RESPB_OP_ZDIFFSTORE;
   RESPB_OP_ZINTER; RESPB_OP_ZINTERSTORE; RESPB_OP_ZINTERCARD;
   RESPB_OP_ZUNION; RESPB_OP_ZUNIONSTORE; RESPB_OP_ZSCAN; RESPB_OP_ZMPOP;
   RESPB_OP_BZMPOP; RESPB_OP_ZRANGESTORE; RESPB_OP_HSET; RESPB_OP_HGET;
   RESPB_OP_HMSET; RESPB_OP_HMGET; RESPB_OP_HGETALL; RESPB_OP_HDEL;
   RESPB_OP_HEXISTS; RESPB_OP_HINCRBY; RESPB_OP_HINCRBYFLOAT; RESPB_OP_HKEYS;
   RESPB_OP_HVALS; RESPB_OP_HLEN; RESPB_OP_HSETNX; RESPB_OP_HSTRLEN;
   RESPB_OP_HSCAN; RESPB_OP_HRANDFIELD; RESPB_OP_HEXPIRE; RESPB_OP_HEXPIREAT;
   RESPB_OP_HEXPIRETIME; RESPB_OP_HPEXPIRE; RESPB_OP_HPEXPIREAT;
   RESPB_OP_HPEXPIRETIME; RESPB_OP_HPTTL; RESPB_OP_HTTL; RESPB_OP_HPERSIST;
   RESPB_OP_HGETEX; RESPB_OP_HSETEX; RESPB_OP_SETBIT; RESPB_OP_GETBIT;
   RESPB_OP_BITCOUNT; RESPB_OP_BITPOS; RESPB_OP_BITOP; RESPB_OP_BITFIELD;
   RESPB_OP_BITFIELD_RO; RESPB_OP_PFADD; RESPB_OP_PFCOUNT; RESPB_OP_PFMERGE;
   RESPB_OP_PFDEBUG; RESPB_OP_PFSELFTEST; RESPB_OP_GEOADD; RESPB_OP_GEODIST;
   RESPB_OP_GEOHASH; RESPB_OP_GEOPOS; RESPB_OP_GEORADIUS;
   RESPB_OP_GEORADIUSBYMEMBER; RESPB_OP_GEORADIUS_RO;
   RESPB_OP_GEORADIUSBYMEMBER_RO; RESPB_OP_GEOSEARCH;
   RESPB_OP_GEOSEARCHSTORE; RESPB_OP_XADD; RESPB_OP_XLEN; RESPB_OP_XRANGE;
   RESPB_OP_XREVRANGE; RESPB_OP_XREAD; RESPB_OP_XREADGROUP; RESPB_OP_XDEL;
   RESPB_OP_XTRIM; RESPB_OP_XACK; RESPB_OP_XPENDING; RESPB_OP_XCLAIM;
   RESPB_OP_XAUTOCLAIM; RESPB_OP_XINFO; RESPB_OP_XGROUP; RESPB_OP_XSETID;
   RESPB_OP_DEL; RESPB_OP_UNLINK; RESPB_OP_EXISTS; RESPB_OP_EXPIRE;
   RESPB_OP_EXPIREAT; RESPB_OP_EXPIRETIME; RESPB_OP_PEXPIRE;
   RESPB_OP_PEXPIREAT; RESPB_OP_PEXPIRETIME; RESPB_OP_TTL; RESPB_OP_PTTL;
   RESPB_OP_PERSIST; RESPB_OP_KEYS; RESPB_OP_SCAN; RESPB_OP_RANDOMKEY;
   RESPB_OP_RENAME; RESPB_OP_RENAMENX; RESPB_OP_TYPE; RESPB_OP_DUMP;
   RESPB_OP_RESTORE; RESPB_OP_MIGRATE; RESPB_OP_MOVE; RESPB_OP_COPY;
   RESPB_OP_SORT; RESPB_OP_SORT_RO; RESPB_OP_TOUCH; RESPB_OP_OBJECT;
   RESPB_OP_WAIT; RESPB_OP_WAITAOF; RESPB_OP_PING; RESPB_OP_ECHO;
   RESPB_OP_AUTH; RESPB_OP_SELECT; RESPB_OP_QUIT; RESPB_OP_HELLO;
   RESPB_OP_RESET; RESPB_OP_CLIENT; RESPB_OP_MULTI; RESPB_OP_EXEC;
   RESPB_OP_DISCARD; RESPB_OP_WATCH; RESPB_OP_UNWATCH; RESPB_OP_EVAL;
   RESPB_OP_EVALSHA; RESPB_OP_EVAL_RO; RESPB_OP_EVALSHA_RO; RESPB_OP_SCRIPT;
   RESPB_OP_FCALL; RESPB_OP_FCALL_RO; RESPB_OP_FUNCTION; RESPB_OP_CLUSTER;
   RESPB_OP_READONLY; RESPB_OP_READWRITE; RESPB_OP_ASKING; RESPB_OP_DBSIZE;
   RESPB_OP_FLUSHDB; RESPB_OP_FLUSHALL; RESPB_OP_SAVE; RESPB_OP_BGSAVE;
   RESPB_OP_BGREWRITEAOF; RESPB_OP_LASTSAVE; RESPB_OP_SHUTDOWN;
   RESPB_OP_INFO; RESPB_OP_CONFIG; RESPB_OP_COMMAND; RESPB_OP_TIME;
   RESPB_OP_ROLE; RESPB_OP_REPLICAOF; RESPB_OP_SLAVEOF; RESPB_OP_MONITOR;
   RESPB_OP_DEBUG; RESPB_OP_SYNC; RESPB_OP_PSYNC; RESPB_OP_REPLCONF;
   RESPB_OP_SLOWLOG; RESPB_OP_LATENCY; RESPB_OP_MEMORY; RESPB_OP_MODULE_CMD;
   RESPB_OP_ACL; RESPB_OP_FAILOVER; RESPB_OP_SWAPDB; RESPB_OP_LOLWUT;
   RESPB_OP_RESTORE_ASKING; RESPB_OP_COMMANDLOG; RESPB_OP_PUBLISH;
   RESPB_OP_SUBSCRIBE; RESPB_OP_UNSUBSCRIBE; RESPB_OP_PSUBSCRIBE;
   RESPB_OP_PUNSUBSCRIBE; RESPB_OP_PUBSUB; RESPB_OP_SPUBLISH;
   RESPB_OP_SSUBSCRIBE; RESPB_OP_SUNSUBSCRIBE; RESPB_OP_MODULE;
   RESPB_OP_RESP_PASSTHROUGH].

Definition in_catalogue (op : Z) : bool := case_of op catalogue.

(** The labels a [switch] handles. *)
Definition switch_labels (cases : list (list Z * M unit)) : list Z :=
  concat (map fst cases).

(** *** What a call of [respb_parse_command] does *)

(** What one call does, by return code.  [s] is the state before the call
    and [s'] the state after it. *)
Definition call_spec (s : pstate) (code : Z) (s' : pstate) : Prop :=
  buffer (parser s') = buffer (parser s) /\
  buffer_len (parser s') = buffer_len (parser s) /\
  ((code = 0 /\ buffer_len (parser s) < pos (parser s) + 4 /\ s' = s) \/
   (pos (parser s) + 4 <= buffer_len (parser s) /\
    raw_payload (cmd s') = cursor s 4 /\
    ((code = 0 /\ in_catalogue (opcode (cmd s')) = true /\
      pos (parser s) + 4 <= pos (parser s') <= buffer_len (parser s)) \/
     (code = -1 /\ in_catalogue (opcode (cmd s')) = false /\
      pos (parser s') = pos (parser s) + 4) \/
     (code = 1 /\ in_catalogue (opcode (cmd s')) = true /\
      pos (parser s) + 4 <= pos (parser s') <= buffer_len (parser s) /\
      raw_payload_len (cmd s') = pos (parser s') - (pos (parser s) + 4) /\
      0 <= argc (cmd s') <= RESPB_MAX_ARGS)))).

(** *** The layout of repeated-group payloads *)

(** The byte at offset [o] of [b] (0 outside it) and the big-endian
    fields the length prefixes and counts are. *)
Definition byte_at (b : list byte) (o : Z) : Z :=
  match load {| base := b; off := o |} 0 with
  | Some v => v
  | None => 0
  end.

Definition be16_at (b : list byte) (o : Z) : Z :=
  byte_at b o * 2 ^ 8 + byte_at b (o + 1).

Definition be32_at (b : list byte) (o : Z) : Z :=
  byte_at b o * 2 ^ 24 + byte_at b (o + 1) * 2 ^ 16 +
  byte_at b (o + 2) * 2 ^ 8 + byte_at b (o + 3).

(** The value of a length prefix of [w] bytes (2 or 4). *)
Definition len_at (w : Z) (b : list byte) (o : Z) : Z :=
  if w =? 2 then be16_at b o else be32_at b o.

(** A payload is a sequence of fields: [Skip n] is a fixed-width field of
    [n] bytes the parser steps over, [Str w] a string with a length
    prefix of [w] bytes, which the parser stores in the next slot of
    [args]. *)
Inductive field : Type :=
| Skip (n : Z)
| Str (w : Z).

(** Where a sequence of fields laid out from offset [o] ends. *)
Fixpoint layout_end (b : list byte) (fs : list field) (o : Z) : Z :=
  match fs with
  | [] => o
  | Skip n :: fs' => layout_end b fs' (o + n)
  | Str w :: fs' => layout_end b fs' (o + w + len_at w b o)
  end.

(** The slices its strings are, in order. *)
Fixpoint layout_args (b : list byte) (fs : list field) (o : Z)
  : list respb_arg_t :=
  match fs with
  | [] => []
  | Skip n :: fs' => layout_args b fs' (o + n)
  | Str w :: fs' =>
      {| data := {| base := b; off := o + w |}; len := len_at w b o |}
      :: layout_args b fs' (o + w + len_at w b o)
  end.

(** The number of strings of a layout and its least size in bytes. *)
Fixpoint strings (fs : list field) : nat :=
  match fs with
  | [] => O
  | Skip _ :: fs' => strings fs'
  | Str _ :: fs' => S (strings fs')
  end.

Fixpoint least_size (fs : list field) : Z :=
  match fs with
  | [] => 0
  | Skip n :: fs' => n + least_size fs'
  | Str w :: fs' => w + least_size fs'
  end.

(** A repeated-group payload: the fields before the 2-byte count, the
    length-prefix widths of the strings of one element, and the number of
    bytes of the fixed fields the parser steps over after the group. *)
Record group_shape : Type := mk_shape {
  g_pre : list field;
  g_elem : list Z;
  g_trail : Z
}.

(** The loop guards stop at the last element that fits in [args] after
    the leading arguments. *)
Definition g_cap (sh : group_shape) : Z :=
  Z.quot (RESPB_MAX_ARGS - Z.of_nat (strings (g_pre sh)))
         (Z.of_nat (length (g_elem sh))).

(** The payload with [n] elements in its group. *)
Definition group_layout (sh : group_shape) (n : Z) : list field :=
  g_pre sh ++ Skip 2 ::
  concat (repeat (map Str (g_elem sh)) (Z.to_nat n)) ++ [Skip (g_trail sh)].

(** The count a payload starting at offset [o] declares. *)
Definition declared_count (b : list byte) (sh : group_shape) (o : Z) : Z :=
  be16_at b (layout_end b (g_pre sh) o).

(** The repeated-group commands of [respb_parse_command], by [case]
    group.  For the [EVAL] family the trailing field is the 2-byte
    [numargs]. *)
Definition repeated_groups : list (list Z * group_shape) :=
  [([RESPB_OP_MSETNX],
     mk_shape [] [2; 4] 0);
   ([RESPB_OP_MGET; RESPB_OP_DEL; RESPB_OP_EXISTS; RESPB_OP_UNLINK],
     mk_shape [] [2] 0);
   ([RESPB_OP_MSET],
     mk_shape [] [2; 4] 0);
   ([RESPB_OP_LPUSH; RESPB_OP_RPUSH],
     mk_shape [Str 2] [2] 0);
   ([RESPB_OP_LPUSHX; RESPB_OP_RPUSHX],
     mk_shape [Str 2] [2] 0);
   ([RESPB_OP_BLMPOP],
     mk_shape [Skip 8] [2] 1);
   ([RESPB_OP_LMPOP],
     mk_shape [] [2] 1);
   ([RESPB_OP_BLPOP; RESPB_OP_BRPOP],
     mk_shape [] [2] 8);
   ([RESPB_OP_SADD],
     mk_shape [Str 2] [2] 0);
   ([RESPB_OP_SREM],
     mk_shape [Str 2] [2] 0);
   ([RESPB_OP_SINTER; RESPB_OP_SUNION; RESPB_OP_SDIFF; RESPB_OP_SINTERCARD],
     mk_shape [] [2] 0);
   ([RESPB_OP_SINTERSTORE; RESPB_OP_SUNIONSTORE; RESPB_OP_SDIFFSTORE],
     mk_shape [Str 2] [2] 0);
   ([RESPB_OP_SMISMEMBER],
     mk_shape [Str 2] [2] 0);
   ([RESPB_OP_HSET],
     mk_shape [Str 2] [2; 4] 0);
   ([RESPB_OP_HMSET],
     mk_shape [Str 2] [2; 4] 0);
   ([RESPB_OP_HMGET],
     mk_shape [Str 2] [2] 0);
   ([RESPB_OP_HDEL],
     mk_shape [Str 2] [2] 0);
   ([RESPB_OP_ZREM],
     mk_shape [Str 2] [2] 0);
   ([RESPB_OP_BZPOPMIN; RESPB_OP_BZPOPMAX],
     mk_shape [] [2] 8);
   ([RESPB_OP_ZDIFF],
     mk_shape [] [2] 1);
   ([RESPB_OP_ZDIFFSTORE],
     mk_shape [Str 2] [2] 0);
   ([RESPB_OP_ZINTER; RESPB_OP_ZUNION],
     mk_shape [] [2] 1);
   ([RESPB_OP_ZINTERSTORE; RESPB_OP_ZUNIONSTORE],
     mk_shape [Str 2] [2] 1);
   ([RESPB_OP_ZMPOP],
     mk_shape [] [2] 1);
   ([RESPB_OP_BZMPOP],
     mk_shape [Skip 8] [2] 1);
   ([RESPB_OP_ZINTERCARD],
     mk_shape [] [2] 0);
   ([RESPB_OP_ZMSCORE],
     mk_shape [Str 2] [2] 0);
   ([RESPB_OP_WATCH],
     mk_shape [] [2] 0);
   ([RESPB_OP_EVAL],
     mk_shape [Str 4] [2] 2);
   ([RESPB_OP_EVALSHA],
     mk_shape [Str 2] [2] 2);
   ([RESPB_OP_EVAL_RO],
     mk_shape [Str 4] [2] 2);
   ([RESPB_OP_EVALSHA_RO],
     mk_shape [Str 2] [2] 2);
   ([RESPB_OP_FCALL],
     mk_shape [Str 2] [2] 2);
   ([RESPB_OP_FCALL_RO],
     mk_shape [Str 2] [2] 2);
   ([RESPB_OP_TOUCH],
     mk_shape [] [2] 0);
   ([RESPB_OP_BITOP],
     mk_shape [Skip 1; Str 2] [2] 0);
   ([RESPB_OP_PFADD],
     mk_shape [Str 2] [2] 0);
   ([RESPB_OP_PFCOUNT],
     mk_shape [] [2] 0);
   ([RESPB_OP_PFMERGE],
     mk_shape [Str 2] [2] 0);
   ([RESPB_OP_GEOHASH; RESPB_OP_GEOPOS],
     mk_shape [Str 2] [2] 0);
   ([RESPB_OP_XREAD],
     mk_shape [] [2; 2] 0);
   ([RESPB_OP_XREADGROUP],
     mk_shape [Str 2; Str 2] [2; 2] 0);
   ([RESPB_OP_SUBSCRIBE; RESPB_OP_UNSUBSCRIBE; RESPB_OP_SSUBSCRIBE;
     RESPB_OP_SUNSUBSCRIBE],
     mk_shape [] [2] 0);
   ([RESPB_OP_PSUBSCRIBE; RESPB_OP_PUNSUBSCRIBE],
     mk_shape [] [2] 0)].

(** [JSON.GET] of the module opcode: the 4-byte subcommand word, the key,
    then the group of paths. *)
Definition json_get_shape : group_shape := mk_shape [Skip 4; Str 2] [2] 0.

(** The shape of the command encoded at offset [o] of [b], if it is a
    repeated-group command: the opcode is the first field of the header
    and, for the module opcode, the subcommand word follows the header;
    its high half is the module id and its low half the command id. *)
Definition group_at (b : list byte) (o : Z) : option group_shape :=
  let op := be16_at b o in
  if op =? RESPB_OP_MODULE then
    let sub := be32_at b (o + 4) in
    if (u16 (Z.land (Z.shiftr sub 16) 0xFFFF) =? RESPB_MODULE_JSON)
       && (u16 (Z.land sub 0xFFFF) =? 0x0001)
    then Some json_get_shape else None
  else
    snd <$> find (fun g => case_of op (fst g)) repeated_groups.

(** [at_layout b o fs s]: the parser has read the fields [fs] laid out
    from offset [o] of [b]: the cursor is where they end and their
    strings fill the first slots of [args]. *)
Definition at_layout (b : list byte) (o : Z) (fs : list field) (s : pstate)
  : Prop :=
  valid s /\
  buffer (parser s) = b /\
  length (args (cmd s)) = Z.to_nat RESPB_MAX_ARGS /\
  pos (parser s) = layout_end b fs o /\
  take (strings fs) (args (cmd s)) = layout_args b fs o.

(** What a [case] body reading a repeated group does when the declared
    count exceeds the cap. *)
Definition group_spec (sh : group_shape) (m : M unit) : Prop :=
  forall s s',
    at_layout (buffer (parser s)) (pos (parser s)) [] s ->
    m s = (Next tt, s') ->
    g_cap sh < declared_count (buffer (parser s)) sh (pos (parser s)) ->
    at_layout (buffer (parser s)) (pos (parser s))
              (group_layout sh (g_cap sh)) s' /\
    argc (cmd s') = RESPB_MAX_ARGS.

(** [reads b o fs m Q]: started right after the fields [fs] of the
    payload at offset [o] of [b], whenever [m] falls through it does so
    with a result and in a state that satisfy [Q]. *)
Definition reads {A} (b : list byte) (o : Z) (fs : list field) (m : M A)
  (Q : A -> pstate -> Prop) : Prop :=
  forall s, at_layout b o fs s ->
    match m s with
    | (Next a, s') => Q a s'
    | (Ret _, _) => True
    | (Fault, _) => True
    end.

(** *** Commands with a fixed sequence of fields *)

(** The straight-line reader of a sequence of fields: every string goes
    to the next slot of [args], and [argc] is their number. *)
Fixpoint read_fields (fs : list field) (k : Z) : M unit :=
  match fs with
  | [] => set_argc k
  | Skip n :: fs' => CHECK_AVAIL n;; pos_add n;; read_fields fs' k
  | Str w :: fs' =>
      (if w =? 2 then READ_STRING_2B k else READ_STRING_4B k);;
      read_fields fs' (k + 1)
  end.

(** The fields this development considers: fixed fields of fewer than
    [2 ^ 32] bytes, strings with a 2- or 4-byte length prefix. *)
Definition field_ok (f : field) : Prop :=
  match f with
  | Skip n => 0 <= n < 2 ^ 32
  | Str w => w = 2 \/ w = 4
  end.

(** The opcodes of [respb_parse_command] whose case reads a fixed
    sequence of fields, by [case] group, with that sequence. *)
Definition fixed_layouts : list (list Z * list field) :=
  [([RESPB_OP_GET; RESPB_OP_DECR; RESPB_OP_GETDEL; RESPB_OP_INCR;
     RESPB_OP_STRLEN],
     [Str 2]);
   ([RESPB_OP_SET],
     [Str 2; Str 4; Skip 9]);
   ([RESPB_OP_APPEND; RESPB_OP_SETNX],
     [Str 2; Str 4]);
   ([RESPB_OP_INCRBY; RESPB_OP_DECRBY],
     [Str 2; Skip 8]);
   ([RESPB_OP_GETRANGE; RESPB_OP_SUBSTR],
     [Str 2; Skip 16]);
   ([RESPB_OP_GETSET],
     [Str 2; Str 4]);
   ([RESPB_OP_INCRBYFLOAT],
     [Str 2; Skip 8]);
   ([RESPB_OP_PSETEX; RESPB_OP_SETEX],
     [Str 2; Skip 8; Str 4]);
   ([RESPB_OP_SETRANGE],
     [Str 2; Skip 8; Str 4]);
   ([RESPB_OP_LCS],
     [Str 2; Str 2; Skip 1]);
   ([RESPB_OP_DELIFEQ],
     [Str 2; Str 4]);
   ([RESPB_OP_EXPIRE],
     [Str 2; Skip 9]);
   ([RESPB_OP_LPOP; RESPB_OP_RPOP],
     [Str 2]);
   ([RESPB_OP_LLEN],
     [Str 2]);
   ([RESPB_OP_LRANGE],
     [Str 2; Skip 16]);
   ([RESPB_OP_LINDEX],
     [Str 2; Skip 8]);
   ([RESPB_OP_LSET],
     [Str 2; Skip 8; Str 2]);
   ([RESPB_OP_LREM],
     [Str 2; Skip 8; Str 2]);
   ([RESPB_OP_LTRIM],
     [Str 2; Skip 16]);
   ([RESPB_OP_LINSERT],
     [Str 2; Skip 1; Str 2; Str 2]);
   ([RESPB_OP_RPOPLPUSH],
     [Str 2; Str 2]);
   ([RESPB_OP_LMOVE],
     [Str 2; Str 2; Skip 2]);
   ([RESPB_OP_BRPOPLPUSH],
     [Str 2; Str 2; Skip 8]);
   ([RESPB_OP_BLMOVE],
     [Str 2; Str 2; Skip 10]);
   ([RESPB_OP_LPOS],
     [Str 2; Str 2]);
   ([RESPB_OP_SMEMBERS; RESPB_OP_SCARD; RESPB_OP_SPOP],
     [Str 2]);
   ([RESPB_OP_SISMEMBER],
     [Str 2; Str 2]);
   ([RESPB_OP_SRANDMEMBER],
     [Str 2]);
   ([RESPB_OP_SMOVE],
     [Str 2; Str 2; Str 2]);
   ([RESPB_OP_SSCAN],
     [Str 2; Skip 8]);
   ([RESPB_OP_HGET],
     [Str 2; Str 2]);
   ([RESPB_OP_HGETALL; RESPB_OP_HKEYS; RESPB_OP_HVALS; RESPB_OP_HLEN],
     [Str 2]);
   ([RESPB_OP_HRANDFIELD],
     [Str 2]);
   ([RESPB_OP_HEXISTS; RESPB_OP_HSTRLEN],
     [Str 2; Str 2]);
   ([RESPB_OP_HINCRBY],
     [Str 2; Str 2; Skip 8]);
   ([RESPB_OP_HINCRBYFLOAT],
     [Str 2; Str 2; Skip 8]);
   ([RESPB_OP_HSETNX],
     [Str 2; Str 2; Str 4]);
   ([RESPB_OP_HSCAN],
     [Str 2; Skip 8]);
   ([RESPB_OP_ZADD],
     [Str 2; Skip 3]);
   ([RESPB_OP_ZSCORE],
     [Str 2; Str 2]);
   ([RESPB_OP_ZRANGE; RESPB_OP_ZREVRANGE],
     [Str 2; Skip 17]);
   ([RESPB_OP_ZRANGEBYSCORE; RESPB_OP_ZREVRANGEBYSCORE],
     [Str 2; Skip 17]);
   ([RESPB_OP_ZRANGEBYLEX; RESPB_OP_ZREVRANGEBYLEX],
     [Str 2; Str 2; Str 2]);
   ([RESPB_OP_ZREMRANGEBYLEX; RESPB_OP_ZLEXCOUNT],
     [Str 2; Str 2; Str 2]);
   ([RESPB_OP_ZRANDMEMBER],
     [Str 2]);
   ([RESPB_OP_ZSCAN],
     [Str 2; Skip 8]);
   ([RESPB_OP_ZRANGESTORE],
     [Str 2; Str 2; Skip 17]);
   ([RESPB_OP_ZCARD; RESPB_OP_ZPOPMIN; RESPB_OP_ZPOPMAX],
     [Str 2]);
   ([RESPB_OP_ZCOUNT; RESPB_OP_ZREMRANGEBYRANK],
     [Str 2; Skip 16]);
   ([RESPB_OP_ZINCRBY],
     [Str 2; Skip 8; Str 2]);
   ([RESPB_OP_ZRANK; RESPB_OP_ZREVRANK],
     [Str 2; Str 2; Skip 1]);
   ([RESPB_OP_ZREMRANGEBYSCORE],
     [Str 2; Skip 16]);
   ([RESPB_OP_PING],
     []);
   ([RESPB_OP_ECHO],
     [Str 2]);
   ([RESPB_OP_AUTH],
     [Str 2]);
   ([RESPB_OP_SELECT],
     [Skip 2]);
   ([RESPB_OP_QUIT; RESPB_OP_RESET],
     []);
   ([RESPB_OP_HELLO],
     [Skip 1]);
   ([RESPB_OP_CLIENT],
     [Skip 1]);
   ([RESPB_OP_CLUSTER],
     [Skip 1]);
   ([RESPB_OP_READONLY; RESPB_OP_READWRITE; RESPB_OP_ASKING],
     []);
   ([RESPB_OP_DBSIZE; RESPB_OP_SAVE; RESPB_OP_BGREWRITEAOF;
     RESPB_OP_LASTSAVE; RESPB_OP_TIME; RESPB_OP_ROLE; RESPB_OP_MONITOR;
     RESPB_OP_SYNC],
     []);
   ([RESPB_OP_FLUSHDB; RESPB_OP_FLUSHALL],
     [Skip 1]);
   ([RESPB_OP_BGSAVE; RESPB_OP_SHUTDOWN],
     [Skip 1]);
   ([RESPB_OP_CONFIG; RESPB_OP_COMMAND; RESPB_OP_DEBUG; RESPB_OP_SLOWLOG;
     RESPB_OP_LATENCY; RESPB_OP_MEMORY; RESPB_OP_MODULE_CMD; RESPB_OP_ACL;
     RESPB_OP_COMMANDLOG],
     [Skip 1]);
   ([RESPB_OP_REPLICAOF; RESPB_OP_SLAVEOF],
     [Str 2; Skip 2]);
   ([RESPB_OP_PSYNC],
     [Str 2; Skip 8]);
   ([RESPB_OP_FAILOVER],
     [Skip 1]);
   ([RESPB_OP_SWAPDB],
     [Skip 4]);
   ([RESPB_OP_RESTORE_ASKING],
     [Str 2; Skip 8; Str 4; Skip 1]);
   ([RESPB_OP_MULTI; RESPB_OP_EXEC; RESPB_OP_DISCARD; RESPB_OP_UNWATCH],
     []);
   ([RESPB_OP_SCRIPT],
     [Skip 1]);
   ([RESPB_OP_FUNCTION],
     [Skip 1]);
   ([RESPB_OP_TTL; RESPB_OP_PERSIST; RESPB_OP_PTTL; RESPB_OP_TYPE;
     RESPB_OP_EXPIRETIME; RESPB_OP_PEXPIRETIME; RESPB_OP_KEYS;
     RESPB_OP_DUMP],
     [Str 2]);
   ([RESPB_OP_EXPIREAT; RESPB_OP_PEXPIRE; RESPB_OP_PEXPIREAT],
     [Str 2; Skip 9]);
   ([RESPB_OP_RENAME; RESPB_OP_RENAMENX],
     [Str 2; Str 2]);
   ([RESPB_OP_RANDOMKEY],
     []);
   ([RESPB_OP_SCAN],
     [Skip 8]);
   ([RESPB_OP_RESTORE],
     [Str 2; Skip 8; Str 4; Skip 1]);
   ([RESPB_OP_MIGRATE],
     [Str 2; Skip 2; Str 2; Skip 2; Skip 9]);
   ([RESPB_OP_MOVE],
     [Str 2; Skip 2]);
   ([RESPB_OP_COPY],
     [Str 2; Str 2; Skip 3]);
   ([RESPB_OP_SORT; RESPB_OP_SORT_RO],
     [Str 2]);
   ([RESPB_OP_OBJECT],
     [Skip 1; Str 2]);
   ([RESPB_OP_WAIT],
     [Skip 16]);
   ([RESPB_OP_WAITAOF],
     [Skip 24]);
   ([RESPB_OP_SETBIT],
     [Str 2; Skip 9]);
   ([RESPB_OP_GETBIT],
     [Str 2; Skip 8]);
   ([RESPB_OP_BITCOUNT],
     [Str 2]);
   ([RESPB_OP_BITPOS],
     [Str 2; Skip 1]);
   ([RESPB_OP_BITFIELD; RESPB_OP_BITFIELD_RO],
     [Str 2]);
   ([RESPB_OP_PFDEBUG],
     [Str 2; Str 2]);
   ([RESPB_OP_PFSELFTEST],
     []);
   ([RESPB_OP_GEOADD],
     [Str 2; Skip 3]);
   ([RESPB_OP_GEODIST],
     [Str 2; Str 2; Str 2; Skip 1]);
   ([RESPB_OP_GEORADIUS; RESPB_OP_GEORADIUS_RO],
     [Str 2; Skip 18]);
   ([RESPB_OP_GEORADIUSBYMEMBER; RESPB_OP_GEORADIUSBYMEMBER_RO],
     [Str 2; Str 2; Skip 10]);
   ([RESPB_OP_GEOSEARCH],
     [Str 2; Skip 1]);
   ([RESPB_OP_GEOSEARCHSTORE],
     [Str 2; Str 2; Skip 1]);
   ([RESPB_OP_XLEN],
     [Str 2]);
   ([RESPB_OP_XRANGE; RESPB_OP_XREVRANGE],
     [Str 2; Str 2; Str 2]);
   ([RESPB_OP_XTRIM],
     [Str 2; Skip 10]);
   ([RESPB_OP_XPENDING],
     [Str 2; Str 2]);
   ([RESPB_OP_XAUTOCLAIM],
     [Str 2; Str 2; Str 2; Skip 8; Str 2]);
   ([RESPB_OP_XINFO],
     [Skip 1; Str 2]);
   ([RESPB_OP_XGROUP],
     [Skip 1; Str 2]);
   ([RESPB_OP_XSETID],
     [Str 2; Str 2]);
   ([RESPB_OP_PUBLISH],
     [Str 2; Str 4]);
   ([RESPB_OP_SPUBLISH],
     [Str 2; Str 4]);
   ([RESPB_OP_PUBSUB],
     [Skip 1])].

(** The layout of the command encoded at offset [o] of [b], if its opcode
    is one of them. *)
Definition fixed_layout_at (b : list byte) (o : Z) : option (list field) :=
  snd <$> find (fun g => case_of (be16_at b o) (fst g)) fixed_layouts.

(** [decodes b o fs gs m Q]: started right after the fields [fs] of the
    payload at offset [o] of [b], [m] falls through exactly when the
    remaining fields [gs] lie inside the buffer, and then with [Q];
    otherwise it returns 0. *)
Definition decodes {A} (b : list byte) (o : Z) (fs gs : list field)
  (m : M A) (Q : A -> pstate -> Prop) : Prop :=
  forall s, at_layout b o fs s ->
    (layout_end b (fs ++ gs) o <= buffer_len (parser s) ->
     exists a s', m s = (Next a, s') /\ Q a s') /\
    (buffer_len (parser s) < layout_end b (fs ++ gs) o ->
     exists s', m s = (Ret 0, s')).

(** The state in which the [switch] of [respb_parse_command] starts when
    the 4-byte header is there: the opcode and the channel are decoded,
    [argc] is reset, [raw_payload] and the cursor are right after the
    header. *)
Definition after_header (p : respb_parser_t) (c : respb_command_t) : pstate :=
  {| parser := {| buffer := buffer p; buffer_len := buffer_len p;
                  pos := pos p + 4 |};
     cmd := with_raw_payload
              (with_argc
                 (with_mux_id
                    (with_opcode c (be16_at (buffer p) (pos p)))
                    (be16_at (buffer p) (pos p + 2)))
                 0)
              {| base := buffer p; off := pos p + 4 |} |}.

(** What a [case] body reading a repeated group does when the declared
    count is within the cap: it decodes the payload with all the declared
    elements. *)
Definition group_exact (sh : group_shape) (m : M unit) : Prop :=
  forall b o,
    declared_count b sh o <= g_cap sh ->
    decodes b o [] (group_layout sh (declared_count b sh o)) m
      (fun _ s' =>
         at_layout b o (group_layout sh (declared_count b sh o)) s' /\
         (declared_count b sh o < g_cap sh ->
          argc (cmd s') =
          Z.of_nat (strings (group_layout sh (declared_count b sh o)))) /\
         (declared_count b sh o = g_cap sh ->
          argc (cmd s') = RESPB_MAX_ARGS)).

(** The repeated-group commands whose group is followed by fixed fields
    only: all but the [EVAL] family, where an optional argument blob
    follows [numargs]. *)
Definition plain_groups : list (list Z * group_shape) :=
  filter (fun g => negb (g_trail (snd g) =? 2)) repeated_groups.

Definition plain_group_at (b : list byte) (o : Z) : option group_shape :=
  snd <$> find (fun g => case_of (be16_at b o) (fst g)) plain_groups.

(** A parser as [respb_parser_init] sets it up and [respb_parse_command]
    keeps it: [buffer_len] is the size of the buffer object and the cursor
    lies inside it. *)
Definition parser_ok (p : respb_parser_t) : Prop :=
  buffer_len p = Z.of_nat (length (buffer p)) /\
  buffer_len p <= PTRDIFF_MAX /\
  0 <= pos p <= buffer_len p.

End Respb.

(** ** The RESPB serializer: [respb_serializer.c] *)

Module Serializer.
Import CInt Mem Respb.

(** A call of [respb_serialize_command] threads the contents of the output
    object [buf] and the local [size_t pos].  A statement falls through,
    returns from the function with the number of bytes written (0 on
    failure), or faults on an access outside an object. *)
Record sstate : Type := mk_sstate {
  out : list byte;
  wpos : Z
}.

Definition W (A : Type) : Type := sstate -> step A * sstate.

Definition wret {A} (a : A) : W A := fun s => (Next a, s).

Definition wbind {A B} (m : W A) (k : A -> W B) : W B :=
  fun s =>
    match m s with
    | (Next a, s') => k a s'
    | (Ret c, s') => (Ret c, s')
    | (Fault, s') => (Fault, s')
    end.

Definition wreturn {A} (n : Z) : W A := fun s => (Ret n, s).
Definition wget : W sstate := fun s => (Next s, s).

Declare Scope ser_scope.
Delimit Scope ser_scope with ser.
Bind Scope ser_scope with W.
Notation "x <- m ;; k" := (wbind m (fun x => k))
  (at level 100, m at next level, k at level 200, right associativity)
  : ser_scope.
Notation "m ;; k" := (wbind m (fun _ => k))
  (at level 100, k at level 200, right associativity) : ser_scope.
Local Open Scope ser_scope.

(** [pos = n] and [pos += n]. *)
Definition set_wpos (n : Z) : W unit :=
  fun s => (Next tt, {| out := out s; wpos := n |}).
Definition wpos_add (n : Z) : W unit :=
  fun s => (Next tt, {| out := out s; wpos := size_t (wpos s + n) |}).

(** [buf[i] = v]: the store of one [uint8_t]. *)
Definition store (i : Z) (v : Z) : W unit :=
  fun s =>
    if (0 <=? i) && (i <? Z.of_nat (length (out s)))
    then (Next tt, {| out := <[Z.to_nat i := byte_of_Z v]> (out s);
                      wpos := wpos s |})
    else (Fault, s).

(** [memcpy(buf + dst, src, n)].  The source is an object of its own. *)
Definition memcpy (dst : Z) (src : ptr) (n : Z) : W unit :=
  fun s =>
    match load_bytes src n with
    | Some bs =>
        if (0 <=? dst) && (dst + n <=? Z.of_nat (length (out s)))
        then (Next tt,
              {| out := take (Z.to_nat dst) (out s) ++ bs ++
                        drop (Z.to_nat (dst + n)) (out s);
                 wpos := wpos s |})
        else (Fault, s)
    | None => (Fault, s)
    end.

(** [cmd->args[i]]: the array has [RESPB_MAX_ARGS] slots. *)
Definition arg_at (cmd : respb_command_t) (i : Z) : W respb_arg_t :=
  fun s =>
    if (0 <=? i) && (i <? RESPB_MAX_ARGS)
    then match args cmd !! Z.to_nat i with
         | Some a => (Next a, s)
         | None => (Fault, s)
         end
    else (Fault, s).

(** [respb_write_u16(buf + at, val)]: [val] is converted to [uint16_t]. *)
Definition respb_write_u16 (at_ : Z) (val : Z) : W unit :=
  let val := u16 val in
  store at_ (Z.land (Z.shiftr val 8) 0xFF);;
  store (at_ + 1) (Z.land val 0xFF).

Definition respb_write_u32 (at_ : Z) (val : Z) : W unit :=
  let val := u32 val in
  store at_ (Z.land (Z.shiftr val 24) 0xFF);;
  store (at_ + 1) (Z.land (Z.shiftr val 16) 0xFF);;
  store (at_ + 2) (Z.land (Z.shiftr val 8) 0xFF);;
  store (at_ + 3) (Z.land val 0xFF).

Definition respb_write_u64 (at_ : Z) (val : Z) : W unit :=
  let val := u64 val in
  store at_ (Z.land (Z.shiftr val 56) 0xFF);;
  store (at_ + 1) (Z.land (Z.shiftr val 48) 0xFF);;
  store (at_ + 2) (Z.land (Z.shiftr val 40) 0xFF);;
  store (at_ + 3) (Z.land (Z.shiftr val 32) 0xFF);;
  store (at_ + 4) (Z.land (Z.shiftr val 24) 0xFF);;
  store (at_ + 5) (Z.land (Z.shiftr val 16) 0xFF);;
  store (at_ + 6) (Z.land (Z.shiftr val 8) 0xFF);;
  store (at_ + 7) (Z.land val 0xFF).

(** [respb_serialize_header(buf + at, opcode, mux_id)]. *)
Definition respb_serialize_header (at_ : Z) (op mux : Z) : W Z :=
  respb_write_u16 at_ op;;
  respb_write_u16 (at_ + 2) mux;;
  wret 4.

(** [respb_serialize_module_header(buf + at, mux_id, subcommand)]. *)
Definition respb_serialize_module_header (at_ : Z) (mux sub : Z) : W Z :=
  respb_write_u16 at_ RESPB_OP_MODULE;;
  respb_write_u16 (at_ + 2) mux;;
  respb_write_u32 (at_ + 4) sub;;
  wret 8.

(** [if (pos + n > buf_len) return 0;] with the sum computed in
    [size_t]. *)
Definition check_room (buf_len : Z) (n : Z) : W unit :=
  fun s =>
    if size_t (wpos s + n) >? buf_len then (Ret 0, s) else (Next tt, s).

(** The four statements the source repeats for every string it emits:
    [respb_write_u16(buf + pos, cmd->args[i].len); pos += 2;
     memcpy(buf + pos, cmd->args[i].data, cmd->args[i].len);
     pos += cmd->args[i].len;] *)
Definition emit_string_2B (cmd : respb_command_t) (i : Z) : W unit :=
  a <- arg_at cmd i;;
  s <- wget;;
  respb_write_u16 (wpos s) (len a);;
  wpos_add 2;;
  s <- wget;;
  memcpy (wpos s) (data a) (len a);;
  wpos_add (len a).

(** The same with [respb_write_u32] and [pos += 4]. *)
Definition emit_string_4B (cmd : respb_command_t) (i : Z) : W unit :=
  a <- arg_at cmd i;;
  s <- wget;;
  respb_write_u32 (wpos s) (len a);;
  wpos_add 4;;
  s <- wget;;
  memcpy (wpos s) (data a) (len a);;
  wpos_add (len a).

(** [cmd->args[i].len]. *)
Definition arg_len (cmd : respb_command_t) (i : Z) : W Z :=
  a <- arg_at cmd i;; wret (len a).

(** [for (size_t i = i0; i < n; i += stp) body(i)].  The body reads
    [cmd->args[i]], so the loop faults before [n] units of fuel are
    used up whenever it would run more than [n] times. *)
Fixpoint for_size_t_from (fuel : nat) (i n stp : Z) (body : Z -> W unit)
  : W unit :=
  match fuel with
  | O => wret tt
  | S fuel' =>
      if i <? n
      then body i;; for_size_t_from fuel' (size_t (i + stp)) n stp body
      else wret tt
  end.

Definition for_size_t (i0 n stp : Z) (body : Z -> W unit) : W unit :=
  for_size_t_from (Z.to_nat n) i0 n stp body.

(** [respb_write_u16(buf + pos, v); pos += 2;] *)
Definition emit_u16 (v : Z) : W unit :=
  s <- wget;;
  respb_write_u16 (wpos s) v;;
  wpos_add 2.

(** The loop of the generic serialisation:
    [for (size_t i = i0; i < cmd->argc; i++)
       { if (pos + 2 + cmd->args[i].len > buf_len) return 0; ... }] *)
Definition emit_strings_from (buf_len : Z) (cmd : respb_command_t) (i0 : Z)
  : W unit :=
  for_size_t i0 (argc cmd) 1 (fun i =>
    l <- arg_len cmd i;;
    check_room buf_len (2 + l);;
    emit_string_2B cmd i).

(** The loop over pairs:
    [for (size_t i = i0; i < cmd->argc; i += 2)
       { if (pos + 2 + cmd->args[i].len + 4 + cmd->args[i + 1].len
             > buf_len) return 0; ... }] *)
Definition emit_pairs_from (buf_len : Z) (cmd : respb_command_t) (i0 : Z)
  : W unit :=
  for_size_t i0 (argc cmd) 2 (fun i =>
    l0 <- arg_len cmd i;;
    l1 <- arg_len cmd (size_t (i + 1));;
    check_room buf_len (2 + l0 + 4 + l1);;
    emit_string_2B cmd i;;
    emit_string_4B cmd (size_t (i + 1))).

(** [if (b) return 0;] *)
Definition fail_if (b : bool) : W unit :=
  if b then wreturn 0 else wret tt.

(** The [RESPB_OP_MODULE] case. *)
Definition serialize_MODULE (buf_len : Z) (cmd : respb_command_t) : W unit :=
  fail_if (buf_len <? 8);;
  set_wpos 0;;
  s <- wget;;
  n <- respb_serialize_module_header (wpos s) (mux_id cmd)
         (module_subcommand cmd);;
  wpos_add n;;
  if module_id cmd =? RESPB_MODULE_JSON then
    if (command_id cmd =? 0x0000) && (argc cmd >=? 3) then
      l0 <- arg_len cmd 0;;
      l1 <- arg_len cmd 1;;
      l2 <- arg_len cmd 2;;
      check_room buf_len (2 + l0 + 2 + l1 + 4 + l2 + 1);;
      emit_string_2B cmd 0;;
      emit_string_2B cmd 1;;
      emit_string_4B cmd 2;;
      s <- wget;;
      store (wpos s) 0;;
      wpos_add 1
    else
      emit_strings_from buf_len cmd 0
  else if module_id cmd =? RESPB_MODULE_BF then
    if (command_id cmd =? 0x0000) && (argc cmd >=? 2) then
      l0 <- arg_len cmd 0;;
      l1 <- arg_len cmd 1;;
      check_room buf_len (2 + l0 + 2 + l1);;
      emit_string_2B cmd 0;;
      emit_string_2B cmd 1
    else
      emit_strings_from buf_len cmd 0
  else if module_id cmd =? RESPB_MODULE_FT then
    if (command_id cmd =? 0x0001) && (argc cmd >=? 2) then
      l0 <- arg_len cmd 0;;
      l1 <- arg_len cmd 1;;
      check_room buf_len (2 + l0 + 2 + l1);;
      emit_string_2B cmd 0;;
      emit_string_2B cmd 1
    else
      emit_strings_from buf_len cmd 0
  else
    emit_strings_from buf_len cmd 0.

(** The [RESPB_OP_RESP_PASSTHROUGH] case. *)
Definition serialize_RESP_PASSTHROUGH (buf_len : Z) (cmd : respb_command_t)
  : W unit :=
  fail_if (buf_len <? 8);;
  set_wpos 0;;
  emit_u16 RESPB_OP_RESP_PASSTHROUGH;;
  emit_u16 (mux_id cmd);;
  s <- wget;;
  respb_write_u32 (wpos s) (resp_length cmd);;
  wpos_add 4;;
  check_room buf_len (resp_length cmd);;
  s <- wget;;
  memcpy (wpos s) (resp_data cmd) (resp_length cmd);;
  wpos_add (resp_length cmd).

(** [switch (cmd->opcode)] of [respb_serialize_command]. *)
Definition serialize_switch (buf_len : Z) (cmd : respb_command_t) : W unit :=
  let op := opcode cmd in
  if case_of op [RESPB_OP_GET; RESPB_OP_INCR; RESPB_OP_DECR; RESPB_OP_TTL;
                 RESPB_OP_LLEN; RESPB_OP_SCARD] then
    fail_if (argc cmd <? 1);;
    l0 <- arg_len cmd 0;;
    check_room buf_len (2 + l0);;
    emit_string_2B cmd 0
  else if case_of op [RESPB_OP_SET] then
    fail_if (argc cmd <? 2);;
    l0 <- arg_len cmd 0;;
    l1 <- arg_len cmd 1;;
    check_room buf_len (2 + l0 + 4 + l1 + 9);;
    emit_string_2B cmd 0;;
    emit_string_4B cmd 1;;
    s <- wget;;
    store (wpos s) 0;;
    wpos_add 1;;
    s <- wget;;
    respb_write_u64 (wpos s) 0;;
    wpos_add 8
  else if case_of op [RESPB_OP_APPEND] then
    fail_if (argc cmd <? 2);;
    l0 <- arg_len cmd 0;;
    l1 <- arg_len cmd 1;;
    check_room buf_len (2 + l0 + 4 + l1);;
    emit_string_2B cmd 0;;
    emit_string_4B cmd 1
  else if case_of op [RESPB_OP_INCRBY; RESPB_OP_DECRBY] then
    fail_if (argc cmd <? 1);;
    l0 <- arg_len cmd 0;;
    check_room buf_len (2 + l0 + 8);;
    emit_string_2B cmd 0;;
    s <- wget;;
    respb_write_u64 (wpos s) 1;;
    wpos_add 8
  else if case_of op [RESPB_OP_MGET; RESPB_OP_DEL; RESPB_OP_EXISTS] then
    check_room buf_len 2;;
    emit_u16 (argc cmd);;
    emit_strings_from buf_len cmd 0
  else if case_of op [RESPB_OP_MSET] then
    fail_if ((argc cmd <? 2) || negb (argc cmd mod 2 =? 0));;
    check_room buf_len 2;;
    emit_u16 (argc cmd / 2);;
    emit_pairs_from buf_len cmd 0
  else if case_of op [RESPB_OP_LPUSH; RESPB_OP_RPUSH] then
    fail_if (argc cmd <? 1);;
    l0 <- arg_len cmd 0;;
    check_room buf_len (2 + l0 + 2);;
    emit_string_2B cmd 0;;
    emit_u16 (size_t (argc cmd - 1));;
    emit_strings_from buf_len cmd 1
  else if case_of op [RESPB_OP_SADD] then
    fail_if (argc cmd <? 1);;
    l0 <- arg_len cmd 0;;
    check_room buf_len (2 + l0 + 2);;
    emit_string_2B cmd 0;;
    emit_u16 (size_t (argc cmd - 1));;
    emit_strings_from buf_len cmd 1
  else if case_of op [RESPB_OP_HSET] then
    fail_if ((argc cmd <? 1) || negb (size_t (argc cmd - 1) mod 2 =? 0));;
    l0 <- arg_len cmd 0;;
    check_room buf_len (2 + l0 + 2);;
    emit_string_2B cmd 0;;
    emit_u16 (size_t (argc cmd - 1) / 2);;
    emit_pairs_from buf_len cmd 1
  else if case_of op [RESPB_OP_HGET] then
    fail_if (argc cmd <? 2);;
    l0 <- arg_len cmd 0;;
    l1 <- arg_len cmd 1;;
    check_room buf_len (2 + l0 + 2 + l1);;
    emit_string_2B cmd 0;;
    emit_string_2B cmd 1
  else if case_of op [RESPB_OP_PING; RESPB_OP_MULTI; RESPB_OP_EXEC] then
    wret tt
  else if case_of op [RESPB_OP_MODULE] then
    serialize_MODULE buf_len cmd
  else if case_of op [RESPB_OP_RESP_PASSTHROUGH] then
    serialize_RESP_PASSTHROUGH buf_len cmd
  else
    check_room buf_len 2;;
    emit_u16 (argc cmd);;
    emit_strings_from buf_len cmd 0.

Definition respb_serialize_command_body (buf_len : Z)
  (cmd : respb_command_t) : W unit :=
  fail_if (buf_len <? 4);;
  set_wpos 0;;
  s <- wget;;
  n <- respb_serialize_header (wpos s) (opcode cmd) (mux_id cmd);;
  wpos_add n;;
  serialize_switch buf_len cmd;;
  s <- wget;;
  wreturn (wpos s).

(** [respb_serialize_command(buf, buf_len, cmd)]: the value returned and
    the contents of [buf] after the call. *)
Definition respb_serialize_command (buf : list byte) (buf_len : Z)
  (cmd : respb_command_t) : outcome * list byte :=
  match respb_serialize_command_body buf_len cmd {| out := buf; wpos := 0 |}
  with
  | (Ret n, s) => (Returned n, out s)
  | (Next _, s) => (Undefined, out s)
  | (Fault, s) => (Undefined, out s)
  end.

(** *** Command records for the round trip *)

(** An argument slice designating a byte string of its own. *)
Definition arg_of (b : list byte) : respb_arg_t :=
  {| data := {| base := b; off := 0 |}; len := Z.of_nat (length b) |}.

(** A command record with the given arguments in its first slots. *)
Definition command_of (op mux : Z) (l : list (list byte)) : respb_command_t :=
  {| opcode := op; mux_id := mux; argc := Z.of_nat (length l);
     args := map arg_of l ++
             repeat {| data := null; len := 0 |}
                    (Z.to_nat RESPB_MAX_ARGS - length l)%nat;
     raw_payload := null; raw_payload_len := 0;
     module_subcommand := 0; module_id := 0; command_id := 0;
     resp_length := 0; resp_data := null |}.

(** A record of a module command: the subcommand word holds the module
    id in its high half and the command id in its low half. *)
Definition module_command_of (mux modid cmdid : Z) (l : list (list byte))
  : respb_command_t :=
  let c := command_of RESPB_OP_MODULE mux l in
  with_command_id
    (with_module_id
       (with_module_subcommand c (Z.lor (Z.shiftl modid 16) cmdid))
       modid)
    cmdid.

(** The byte strings the first [argc] slots of a record designate. *)
Definition arg_strings (c : respb_command_t) : list (option (list byte)) :=
  map arg_bytes (take (Z.to_nat (argc c)) (args c)).

(** Serialise into a zeroed buffer of [n] bytes, then parse what was
    written. *)
Definition round_trip (n : Z) (c : respb_command_t)
  : outcome * outcome * respb_command_t :=
  match respb_serialize_command (repeat x00 (Z.to_nat n)) n c with
  | (Returned w, b) =>
      let '(r, _, c') :=
        respb_parse_command (respb_parser_init (take (Z.to_nat w) b) w)
                            zero_command in
      (Returned w, r, c')
  | (Undefined, _) => (Undefined, Undefined, zero_command)
  end.

(** [JSON.GET profile .name]: the key and one path, as the parser leaves
    the record of that command. *)
Definition json_get_profile : respb_command_t :=
  module_command_of 0 RESPB_MODULE_JSON 0x0001
    [bytes [112; 114; 111; 102; 105; 108; 101];
     bytes [46; 110; 97; 109; 101]].

(** The same command in the layout [respb_parse_command] reads: the
    key, the 2-byte number of paths, the paths. *)
Definition json_get_profile_wire : list byte :=
  bytes [240; 0; 0; 0; 0; 0; 0; 1;
         0; 7; 112; 114; 111; 102; 105; 108; 101;
         0; 1;
         0; 5; 46; 110; 97; 109; 101].

(** *** The wire format of what the serializer writes *)

(** The big-endian bytes of an unsigned value. *)
Definition be16_bytes (v : Z) : list byte :=
  [byte_of_Z (v / 2 ^ 8); byte_of_Z v].

Definition be32_bytes (v : Z) : list byte :=
  [byte_of_Z (v / 2 ^ 24); byte_of_Z (v / 2 ^ 16);
   byte_of_Z (v / 2 ^ 8); byte_of_Z v].

Definition be64_bytes (v : Z) : list byte :=
  [byte_of_Z (v / 2 ^ 56); byte_of_Z (v / 2 ^ 48);
   byte_of_Z (v / 2 ^ 40); byte_of_Z (v / 2 ^ 32);
   byte_of_Z (v / 2 ^ 24); byte_of_Z (v / 2 ^ 16);
   byte_of_Z (v / 2 ^ 8); byte_of_Z v].

(** A field of a payload with its contents: [Raw l] is the bytes [l] as
    they are, [Pre w d] the string [d] after its length in [w] bytes. *)
Inductive wfield : Type :=
| Raw (l : list byte)
| Pre (w : Z) (d : list byte).

Definition len_bytes (w n : Z) : list byte :=
  if w =? 2 then be16_bytes n else be32_bytes n.

Definition encode_field (f : wfield) : list byte :=
  match f with
  | Raw l => l
  | Pre w d => len_bytes w (Z.of_nat (length d)) ++ d
  end.

Definition encode_fields (ws : list wfield) : list byte :=
  concat (map encode_field ws).

(** The field of the parser's vocabulary a written field is read as. *)
Definition shape (f : wfield) : field :=
  match f with
  | Raw l => Skip (Z.of_nat (length l))
  | Pre w _ => Str w
  end.

(** The strings a payload carries, in order. *)
Fixpoint wire_strings (ws : list wfield) : list (list byte) :=
  match ws with
  | [] => []
  | Raw _ :: ws' => wire_strings ws'
  | Pre _ d :: ws' => d :: wire_strings ws'
  end.

(** The length of a string fits its prefix. *)
Definition prefix_fits (f : wfield) : Prop :=
  match f with
  | Raw _ => True
  | Pre w d => Z.of_nat (length d) < 2 ^ (8 * w)
  end.

(** Key/value pairs: a 2-byte prefix for the key, a 4-byte prefix for
    the value. *)
Fixpoint pair_fields (ds : list (list byte)) : list wfield :=
  match ds with
  | k :: v :: ds' => Pre 2 k :: Pre 4 v :: pair_fields ds'
  | _ => []
  end.

(** The payload [respb_serialize_command] writes after the header for a
    command with the argument strings [ds], by [case] group of its
    [switch]; [None] where the case returns 0 for that number of
    arguments, and for the module and passthrough opcodes, which have
    headers of their own. *)
Definition payload_fields (op : Z) (ds : list (list byte))
  : option (list wfield) :=
  if case_of op [RESPB_OP_GET; RESPB_OP_INCR; RESPB_OP_DECR; RESPB_OP_TTL;
                 RESPB_OP_LLEN; RESPB_OP_SCARD] then
    match ds with
    | k :: _ => Some [Pre 2 k]
    | _ => None
    end
  else if case_of op [RESPB_OP_SET] then
    match ds with
    | k :: v :: _ => Some [Pre 2 k; Pre 4 v; Raw (repeat x00 9)]
    | _ => None
    end
  else if case_of op [RESPB_OP_APPEND] then
    match ds with
    | k :: v :: _ => Some [Pre 2 k; Pre 4 v]
    | _ => None
    end
  else if case_of op [RESPB_OP_INCRBY; RESPB_OP_DECRBY] then
    match ds with
    | k :: _ => Some [Pre 2 k; Raw (be64_bytes 1)]
    | _ => None
    end
  else if case_of op [RESPB_OP_MGET; RESPB_OP_DEL; RESPB_OP_EXISTS] then
    Some (Raw (be16_bytes (Z.of_nat (length ds))) :: map (Pre 2) ds)
  else if case_of op [RESPB_OP_MSET] then
    if (2 <=? length ds)%nat && Nat.even (length ds)
    then Some (Raw (be16_bytes (Z.of_nat (length ds) / 2)) :: pair_fields ds)
    else None
  else if case_of op [RESPB_OP_LPUSH; RESPB_OP_RPUSH] then
    match ds with
    | k :: ds' =>
        Some (Pre 2 k :: Raw (be16_bytes (Z.of_nat (length ds')))
                :: map (Pre 2) ds')
    | _ => None
    end
  else if case_of op [RESPB_OP_SADD] then
    match ds with
    | k :: ds' =>
        Some (Pre 2 k :: Raw (be16_bytes (Z.of_nat (length ds')))
                :: map (Pre 2) ds')
    | _ => None
    end
  else if case_of op [RESPB_OP_HSET] then
    match ds with
    | k :: ds' =>
        if Nat.even (length ds')
        then Some (Pre 2 k :: Raw (be16_bytes (Z.of_nat (length ds') / 2))
                     :: pair_fields ds')
        else None
    | _ => None
    end
  else if case_of op [RESPB_OP_HGET] then
    match ds with
    | k :: f :: _ => Some [Pre 2 k; Pre 2 f]
    | _ => None
    end
  else if case_of op [RESPB_OP_PING; RESPB_OP_MULTI; RESPB_OP_EXEC] then
    Some []
  else if case_of op [RESPB_OP_MODULE] then
    None
  else if case_of op [RESPB_OP_RESP_PASSTHROUGH] then
    None
  else
    Some (Raw (be16_bytes (Z.of_nat (length ds))) :: map (Pre 2) ds).

(** The opcodes [respb_serialize_command] has a case of their own for
    (the module and passthrough opcodes apart). *)
Definition native_opcodes : list Z :=
  [RESPB_OP_GET; RESPB_OP_INCR; RESPB_OP_DECR; RESPB_OP_TTL;
   RESPB_OP_LLEN; RESPB_OP_SCARD; RESPB_OP_SET; RESPB_OP_APPEND;
   RESPB_OP_INCRBY; RESPB_OP_DECRBY; RESPB_OP_MGET; RESPB_OP_DEL;
   RESPB_OP_EXISTS; RESPB_OP_MSET; RESPB_OP_LPUSH; RESPB_OP_RPUSH;
   RESPB_OP_SADD; RESPB_OP_HSET; RESPB_OP_HGET; RESPB_OP_PING;
   RESPB_OP_MULTI; RESPB_OP_EXEC].

(** A frame: the 4-byte header, then the payload. *)
Definition frame (op mux : Z) (ws : list wfield) : list byte :=
  be16_bytes op ++ be16_bytes mux ++ encode_fields ws.

(** The record [c] holds [argc] arguments whose slices designate the
    strings [ds], and its header fields are 16-bit values. *)
Definition designates (c : respb_command_t) (ds : list (list byte)) : Prop :=
  length (args c) = Z.to_nat RESPB_MAX_ARGS /\
  argc c = Z.of_nat (length ds) /\
  Forall2 (fun a d => arg_bytes a = Some d) (take (length ds) (args c)) ds /\
  0 <= opcode c < 2 ^ 16 /\ 0 <= mux_id c < 2 ^ 16.

(** The widths of length prefixes the format has. *)
Definition width_ok (f : wfield) : Prop :=
  match f with
  | Raw _ => True
  | Pre w _ => w = 2 \/ w = 4
  end.

(** The serializer has written [w] so far: [w] is at the start of the
    output object, the rest of the object is as the caller passed it, and
    [pos] is the length of [w]. *)
Definition wrote (buf w : list byte) (s : sstate) : Prop :=
  out s = w ++ drop (length w) buf /\
  wpos s = Z.of_nat (length w) /\
  (length w <= length buf)%nat.

(** [emits buf r w ws m Q]: started after [w] has been written, with room
    for [r] more bytes already checked, [m] falls through exactly when the
    fields [ws] fit in what is left of the object, and then with [Q];
    otherwise it returns 0, the object keeping its size. *)
Definition emits {A} (buf : list byte) (r : Z) (w : list byte)
  (ws : list wfield) (m : W A) (Q : A -> sstate -> Prop) : Prop :=
  forall s, wrote buf w s ->
    Z.of_nat (length w) + r <= Z.of_nat (length buf) ->
    (Z.of_nat (length w) + Z.of_nat (length (encode_fields ws))
       <= Z.of_nat (length buf) ->
     exists a s', m s = (Next a, s') /\ Q a s') /\
    (Z.of_nat (length buf)
       < Z.of_nat (length w) + Z.of_nat (length (encode_fields ws)) ->
     exists s', m s = (Ret 0, s') /\ length (out s') = length buf).

(** How the parser reads the frame of an opcode, whatever follows it in
    the buffer, and the [argc] it reports: as a fixed sequence of fields,
    or as a repeated group, where [argc] is [RESPB_MAX_ARGS] once the
    count reaches the cap of the loop. *)
Definition read_as (op mux : Z) (ws : list wfield) (a : Z) : Prop :=
  forall post : list byte,
  let b := frame op mux ws ++ post in
  (fixed_layout_at b 0 = Some (map shape ws) /\
   a = Z.of_nat (length (wire_strings ws))) \/
  exists sh,
    plain_group_at b 0 = Some sh /\
    declared_count b sh 4 <= g_cap sh /\
    group_layout sh (declared_count b sh 4) = map shape ws ++ [Skip 0] /\
    (declared_count b sh 4 < g_cap sh ->
     a = Z.of_nat (length (wire_strings ws))) /\
    (declared_count b sh 4 = g_cap sh -> a = RESPB_MAX_ARGS).

(** The [argc] the parser reports for the frame of an opcode: the number
    of strings of the frame, except for [HSET] with 31 pairs, where the
    case sets [argc] to 64 after storing 63 strings. *)
Definition parsed_argc (op : Z) (ws : list wfield) : Z :=
  if (op =? RESPB_OP_HSET) && (length (wire_strings ws) =? 63)%nat
  then RESPB_MAX_ARGS
  else Z.of_nat (length (wire_strings ws)).

End Serializer.

(** ** The latency metrics: [benchmark.h] and [metrics.c] *)

Module Metrics.
Import CInt.

Definition MAX_LATENCY_SAMPLES : Z := 10000.

(** [benchmark_metrics_t].  [latency_samples] is the whole array of
    [MAX_LATENCY_SAMPLES] slots. *)
Record benchmark_metrics_t : Type := mk_metrics {
  commands_processed : Z;
  bytes_processed : Z;
  total_time_ns : Z;
  cpu_time_us : Z;
  peak_memory_kb : Z;
  latency_samples : list Z;
  latency_sample_count : Z;
  total_latency_ns : Z;
  min_latency_ns : Z;
  max_latency_ns : Z;
  avg_latency_ns : Z;
  p50_latency_ns : Z;
  p90_latency_ns : Z;
  p99_latency_ns : Z
}.

(** [benchmark_metrics_init]: [memset] to zero, then
    [min_latency_ns = UINT64_MAX]. *)
Definition benchmark_metrics_init : benchmark_metrics_t :=
  {| commands_processed := 0; bytes_processed := 0; total_time_ns := 0;
     cpu_time_us := 0; peak_memory_kb := 0;
     latency_samples := repeat 0 (Z.to_nat MAX_LATENCY_SAMPLES);
     latency_sample_count := 0;
     total_latency_ns := 0;
     min_latency_ns := UINT64_MAX;
     max_latency_ns := 0;
     avg_latency_ns := 0; p50_latency_ns := 0; p90_latency_ns := 0;
     p99_latency_ns := 0 |}.

(** [benchmark_record_latency]. *)
Definition benchmark_record_latency (metrics : benchmark_metrics_t)
  (latency_ns : Z) : benchmark_metrics_t :=
  let stored := latency_sample_count metrics <? MAX_LATENCY_SAMPLES in
  let samples :=
    if stored
    then <[Z.to_nat (latency_sample_count metrics) := latency_ns]>
           (latency_samples metrics)
    else latency_samples metrics in
  let count :=
    if stored then size_t (latency_sample_count metrics + 1)
    else latency_sample_count metrics in
  {| commands_processed := commands_processed metrics;
     bytes_processed := bytes_processed metrics;
     total_time_ns := total_time_ns metrics;
     cpu_time_us := cpu_time_us metrics;
     peak_memory_kb := peak_memory_kb metrics;
     latency_samples := samples;
     latency_sample_count := count;
     total_latency_ns := u64 (total_latency_ns metrics + latency_ns);
     min_latency_ns :=
       if latency_ns <? min_latency_ns metrics then latency_ns
       else min_latency_ns metrics;
     max_latency_ns :=
       if latency_ns >? max_latency_ns metrics then latency_ns
       else max_latency_ns metrics;
     avg_latency_ns := avg_latency_ns metrics;
     p50_latency_ns := p50_latency_ns metrics;
     p90_latency_ns := p90_latency_ns metrics;
     p99_latency_ns := p99_latency_ns metrics |}.

(** [compare_uint64]. *)
Definition compare_uint64 (va vb : Z) : Z :=
  if va <? vb then -1 else if va >? vb then 1 else 0.

(** [qsort] of the C library, by its contract: the array is rearranged
    into ascending order of the comparison function.  A merge sort is the
    executable model. *)
Definition ordered_by (compar : Z -> Z -> Z) : relation Z :=
  fun x y => compar x y <= 0.

#[global] Instance ordered_by_dec compar x y :
  Decision (ordered_by compar x y) := Z_le_dec (compar x y) 0.

Definition qsort (compar : Z -> Z -> Z) (a : list Z) : list Z :=
  merge_sort (ordered_by compar) a.

(** [array[i]] for a [uint64_t] array ([0] stands for a slot outside it;
    the bounds are a proof obligation). *)
Definition at_index (a : list Z) (i : Z) : Z :=
  default 0 (a !! Z.to_nat i).

(** [benchmark_compute_percentiles]. *)
Definition benchmark_compute_percentiles (metrics : benchmark_metrics_t)
  : benchmark_metrics_t :=
  if latency_sample_count metrics =? 0 then metrics
  else
    let n := Z.to_nat (latency_sample_count metrics) in
    let samples :=
      qsort compare_uint64 (take n (latency_samples metrics))
        ++ drop n (latency_samples metrics) in
    let p50_idx := Z.quot (size_t (latency_sample_count metrics * 50)) 100 in
    let p90_idx := Z.quot (size_t (latency_sample_count metrics * 90)) 100 in
    let p99_idx := Z.quot (size_t (latency_sample_count metrics * 99)) 100 in
    {| commands_processed := commands_processed metrics;
       bytes_processed := bytes_processed metrics;
       total_time_ns := total_time_ns metrics;
       cpu_time_us := cpu_time_us metrics;
       peak_memory_kb := peak_memory_kb metrics;
       latency_samples := samples;
       latency_sample_count := latency_sample_count metrics;
       total_latency_ns := total_latency_ns metrics;
       min_latency_ns := min_latency_ns metrics;
       max_latency_ns := max_latency_ns metrics;
       avg_latency_ns :=
         Z.quot (total_latency_ns metrics) (latency_sample_count metrics);
       p50_latency_ns := at_index samples p50_idx;
       p90_latency_ns := at_index samples p90_idx;
       p99_latency_ns := at_index samples p99_idx |}.

(** A sequence of [benchmark_record_latency] calls on an initialised
    record. *)
Definition record_all (latencies : list Z) : benchmark_metrics_t :=
  fold_left benchmark_record_latency latencies benchmark_metrics_init.

(** The samples the record holds: the first [latency_sample_count] slots. *)
Definition stored_samples (metrics : benchmark_metrics_t) : list Z :=
  take (Z.to_nat (latency_sample_count metrics)) (latency_samples metrics).

Definition sum_list (l : list Z) : Z := fold_right Z.add 0 l.

(** The guarded call of the two parsing loops of [benchmark.c]:
    [if (sample_latency &&
         metrics->latency_sample_count < MAX_LATENCY_SAMPLES)
       { ... benchmark_record_latency(metrics, latency_ns); }]
    where [latency_ns] is the difference of the two clock readings taken
    around the parse. *)
Definition sample_command (sample_latency : Z) (metrics : benchmark_metrics_t)
  (latency_ns : Z) : benchmark_metrics_t :=
  if negb (sample_latency =? 0)
     && (latency_sample_count metrics <? MAX_LATENCY_SAMPLES)
  then benchmark_record_latency metrics latency_ns
  else metrics.

(** The latencies of the commands of a run, sampled by a loop on an
    initialised record. *)
Definition sample_all (sample_latency : Z) (latencies : list Z)
  : benchmark_metrics_t :=
  fold_left (sample_command sample_latency) latencies benchmark_metrics_init.

(** What every sequence of [benchmark_record_latency] calls maintains. *)
Definition metrics_inv (m : benchmark_metrics_t) : Prop :=
  length (latency_samples m) = Z.to_nat MAX_LATENCY_SAMPLES /\
  0 <= latency_sample_count m <= MAX_LATENCY_SAMPLES /\
  Forall (fun x => min_latency_ns m <= x <= max_latency_ns m) (stored_samples m).

End Metrics.

(** ** The reference RESP parser: [valkey_resp_parser.c] *)

Module Resp.
Import CInt.

(** *** Constants *)

Definition PROTO_INLINE_MAX_SIZE : Z := 1024 * 64.
Definition PROTO_MBULK_BIG_ARG : Z := 1024 * 32.
Definition PROTO_REQ_MULTIBULK : Z := 2.
Definition PROTO_REQ_INLINE : Z := 1.
Definition OBJ_STRING : Z := 0.

Definition READ_FLAGS_ERROR_BIG_MULTIBULK : Z := Z.shiftl 1 2.
Definition READ_FLAGS_ERROR_INVALID_MULTIBULK_LEN : Z := Z.shiftl 1 3.
Definition READ_FLAGS_ERROR_UNAUTHENTICATED_MULTIBULK_LEN : Z := Z.shiftl 1 4.
Definition READ_FLAGS_ERROR_UNAUTHENTICATED_BULK_LEN : Z := Z.shiftl 1 5.
Definition READ_FLAGS_ERROR_BIG_BULK_COUNT : Z := Z.shiftl 1 6.
Definition READ_FLAGS_ERROR_MBULK_UNEXPECTED_CHARACTER : Z := Z.shiftl 1 7.
Definition READ_FLAGS_ERROR_MBULK_INVALID_BULK_LEN : Z := Z.shiftl 1 8.
Definition READ_FLAGS_PARSING_NEGATIVE_MBULK_LEN : Z := Z.shiftl 1 12.
Definition READ_FLAGS_PARSING_COMPLETED : Z := Z.shiftl 1 13.
Definition READ_FLAGS_REPLICATED : Z := Z.shiftl 1 14.
Definition READ_FLAGS_AUTH_REQUIRED : Z := Z.shiftl 1 16.

(** Character constants. *)
Definition CR : Z := 13.
Definition ch_star : Z := 42.
Definition ch_dollar : Z := 36.
Definition ch_minus : Z := 45.
Definition ch_plus : Z := 43.
Definition ch_0 : Z := 48.
Definition ch_1 : Z := 49.
Definition ch_9 : Z := 57.

(** *** The SDS and object shims

    An [sds] is modelled by its contents (its [len] bytes); the allocated
    capacity is not modelled, and allocations are assumed to succeed. *)

Abbreviation sds := (list byte).

Definition sdslen (s : sds) : Z := Z.of_nat (length s).

(** [sdsrange(s, start, end)]. *)
Definition sdsrange (s : sds) (start end_ : Z) : sds :=
  let len := sdslen s in
  if len =? 0 then s
  else
    let start := if start <? 0 then s64 (len + start) else start in
    let end_ := if end_ <? 0 then s64 (len + end_) else end_ in
    let start := if start <? 0 then 0 else start in
    let end_ := if end_ <? 0 then 0 else end_ in
    let end_ := if size_t end_ >=? len then s64 (len - 1) else end_ in
    let newlen := if start >? end_ then 0 else size_t (end_ - start + 1) in
    if newlen =? 0 then []
    else take (Z.to_nat newlen) (drop (Z.to_nat start) s).

(** [sdsMakeRoomForNonGreedy]: only the capacity changes. *)
Definition sdsMakeRoomForNonGreedy (s : sds) (addlen : Z) : sds := s.

(** [sdsIncrLen(s, incr)] for the negative increments used here: the
    length shrinks and the tail is cut off. *)
Definition sdsIncrLen (s : sds) (incr : Z) : sds :=
  take (Z.to_nat (size_t (sdslen s + incr))) s.

(** [sdsnewlen(NULL, n)] followed by [sdsclear]: an empty string. *)
Definition sdsclear (s : sds) : sds := [].

(** [robj]. *)
Record robj : Type := mk_robj {
  type : Z;
  encoding : Z;
  refcount : Z;
  ptr : sds
}.

Definition createObject (type : Z) (ptr : sds) : robj :=
  {| type := type; encoding := 0; refcount := 1; ptr := ptr |}.

Definition createStringObject (ptr : list byte) : robj :=
  createObject OBJ_STRING ptr.

(** *** [string2ll] *)

Definition is_digit_1_9 (c : Z) : bool := (c >=? ch_1) && (c <=? ch_9).
Definition is_digit (c : Z) : bool := (c >=? ch_0) && (c <=? ch_9).

(** The [while] loop of [string2ll].  [p] is the unread rest of the
    string ([plen < slen] exactly when it is not empty).  The result is
    [None] where the loop returns 0 on overflow, and the accumulator with
    the rest left unread where the loop exits. *)
Fixpoint string2ll_loop (p : list byte) (v : Z) : option (Z * list byte) :=
  match p with
  | [] => Some (v, [])
  | c :: p' =>
      if is_digit (byte_to_Z c) then
        if v >? Z.quot ULLONG_MAX 10 then None
        else
          let v := u64 (v * 10) in
          if v >? ULLONG_MAX - (byte_to_Z c - ch_0) then None
          else string2ll_loop p' (u64 (v + (byte_to_Z c - ch_0)))
      else Some (v, p)
  end.

(** [int string2ll(const char *s, size_t slen, long long *value)]:
    [Some value] when it returns 1, [None] when it returns 0. *)
Definition string2ll (s : list byte) : option Z :=
  match s with
  | [] => None
  | c0 :: _ =>
      if (Z.of_nat (length s) =? 1) && (byte_to_Z c0 =? ch_0) then Some 0
      else
        let negative := byte_to_Z c0 =? ch_minus in
        let p := if negative then drop 1 s else s in
        match p with
        | [] => None
        | c :: p' =>
            if is_digit_1_9 (byte_to_Z c) then
              match string2ll_loop p' (byte_to_Z c - ch_0) with
              | None => None
              | Some (v, rest) =>
                  match rest with
                  | _ :: _ => None
                  | [] =>
                      if negative then
                        if v >? u64 (u64 (- (LLONG_MIN + 1)) + 1) then None
                        else Some (s64 (u64 (- v)))
                      else
                        if v >? LLONG_MAX then None
                        else Some v
                  end
              end
            else if (byte_to_Z c =? ch_0) && (Z.of_nat (length s) =? 1)
                 then Some 0
                 else None
        end
  end.

(** *** The client record *)

Record valkey_client : Type := mk_client {
  querybuf : sds;
  qb_pos : Z;
  multibulklen : Z;
  bulklen : Z;
  reqtype : Z;
  read_flags : Z;
  argv : list (option robj);
  argc : Z;
  argv_len : Z;
  argv_len_sum : Z;
  querybuf_peak : Z;
  net_input_bytes_curr_cmd : Z
}.

(** [valkey_client_init]. *)
Definition valkey_client_init (buf : list byte) : valkey_client :=
  {| querybuf := buf; qb_pos := 0; multibulklen := 0; bulklen := -1;
     reqtype := 0; read_flags := 0; argv := []; argc := 0; argv_len := 0;
     argv_len_sum := 0; querybuf_peak := sdslen buf;
     net_input_bytes_curr_cmd := 0 |}.

(** What a call yields: the returned [int], a failed [assert], or
    undefined behaviour. *)
Inductive outcome : Type :=
| Returned (flag : Z)
| AssertFailed
| Undefined.

(** [memchr(c->querybuf + c->qb_pos, '\r', sdslen(c->querybuf) - c->qb_pos)]
    as the offset of the first ['\r'] from [qb_pos]. *)
Fixpoint memchr_from (p : list byte) (ch : Z) (i : Z) : option Z :=
  match p with
  | [] => None
  | b :: p' => if byte_to_Z b =? ch then Some i else memchr_from p' ch (i + 1)
  end.

Definition memchr (p : list byte) (ch : Z) : option Z := memchr_from p ch 0.

(** [c->querybuf[i]]. *)
Definition char_at (s : sds) (i : Z) : option Z :=
  if i <? 0 then None else byte_to_Z <$> s !! Z.to_nat i.

(** The [slen] bytes at [c->querybuf + from]. *)
Definition substring (s : sds) (from slen : Z) : list byte :=
  take (Z.to_nat slen) (drop (Z.to_nat from) s).

(** *** [parseMultibulk]

    The out-parameters [argc], [argv], [argv_len], [argv_len_sum] and
    [net_input_bytes_curr_cmd] are the fields of the client itself, as in
    the only call site. *)

(** The block under [if (c->multibulklen == 0)].  [inl] is an early
    return, [inr] falls through to the loop. *)
Definition read_multibulk_len (c : valkey_client)
  : (outcome * valkey_client) + valkey_client :=
  let auth_required := Z.land (read_flags c) READ_FLAGS_AUTH_REQUIRED in
  if negb (argc c =? 0) then inl (AssertFailed, c)
  else if qb_pos c >? sdslen (querybuf c) then inl (Undefined, c)
  else
    match memchr (drop (Z.to_nat (qb_pos c)) (querybuf c)) CR with
    | None =>
        if size_t (sdslen (querybuf c) - qb_pos c) >? PROTO_INLINE_MAX_SIZE
        then inl (Returned READ_FLAGS_ERROR_BIG_MULTIBULK, c)
        else inl (Returned 0, c)
    | Some nl =>
        if nl >? s64 (sdslen (querybuf c) - qb_pos c - 2)
        then inl (Returned 0, c)
        else
          match char_at (querybuf c) (qb_pos c) with
          | None => inl (Undefined, c)
          | Some ch =>
              if negb (ch =? ch_star) then inl (AssertFailed, c)
              else
                let multibulklen_slen := size_t (nl - 1) in
                match string2ll
                        (substring (querybuf c) (1 + qb_pos c)
                           multibulklen_slen) with
                | None =>
                    inl (Returned READ_FLAGS_ERROR_INVALID_MULTIBULK_LEN, c)
                | Some ll =>
                    if ll >? INT_MAX then
                      inl (Returned READ_FLAGS_ERROR_INVALID_MULTIBULK_LEN, c)
                    else if (ll >? 10) && negb (auth_required =? 0) then
                      inl (Returned
                             READ_FLAGS_ERROR_UNAUTHENTICATED_MULTIBULK_LEN, c)
                    else
                      let c1 :=
                        {| querybuf := querybuf c;
                           qb_pos := size_t (qb_pos c + nl + 2);
                           multibulklen := multibulklen c;
                           bulklen := bulklen c;
                           reqtype := reqtype c;
                           read_flags := read_flags c;
                           argv := argv c; argc := argc c;
                           argv_len := argv_len c;
                           argv_len_sum := argv_len_sum c;
                           querybuf_peak := querybuf_peak c;
                           net_input_bytes_curr_cmd :=
                             net_input_bytes_curr_cmd c |} in
                      if ll <=? 0 then
                        inl (Returned READ_FLAGS_PARSING_NEGATIVE_MBULK_LEN,
                             c1)
                      else
                        let len := if ll <? 1024 then ll else 1024 in
                        inr {| querybuf := querybuf c1;
                               qb_pos := qb_pos c1;
                               multibulklen := ll;
                               bulklen := -1;
                               reqtype := reqtype c1;
                               read_flags := read_flags c1;
                               argv := repeat None (Z.to_nat len);
                               argc := argc c1;
                               argv_len := len;
                               argv_len_sum := 0;
                               querybuf_peak := querybuf_peak c1;
                               net_input_bytes_curr_cmd :=
                                 u64 (net_input_bytes_curr_cmd c1
                                      + (multibulklen_slen + 3)) |}
                end
          end
    end.

(** Field updates of the client record. *)
Definition with_qb (c : valkey_client) (buf : sds) (p : Z) : valkey_client :=
  {| querybuf := buf; qb_pos := p; multibulklen := multibulklen c;
     bulklen := bulklen c; reqtype := reqtype c; read_flags := read_flags c;
     argv := argv c; argc := argc c; argv_len := argv_len c;
     argv_len_sum := argv_len_sum c; querybuf_peak := querybuf_peak c;
     net_input_bytes_curr_cmd := net_input_bytes_curr_cmd c |}.

Definition with_peak (c : valkey_client) (peak : Z) : valkey_client :=
  {| querybuf := querybuf c; qb_pos := qb_pos c;
     multibulklen := multibulklen c; bulklen := bulklen c;
     reqtype := reqtype c; read_flags := read_flags c;
     argv := argv c; argc := argc c; argv_len := argv_len c;
     argv_len_sum := argv_len_sum c; querybuf_peak := peak;
     net_input_bytes_curr_cmd := net_input_bytes_curr_cmd c |}.

Definition with_bulklen (c : valkey_client) (ll : Z) (net : Z)
  : valkey_client :=
  {| querybuf := querybuf c; qb_pos := qb_pos c;
     multibulklen := multibulklen c; bulklen := ll;
     reqtype := reqtype c; read_flags := read_flags c;
     argv := argv c; argc := argc c; argv_len := argv_len c;
     argv_len_sum := argv_len_sum c; querybuf_peak := querybuf_peak c;
     net_input_bytes_curr_cmd := net |}.

Definition with_argv (c : valkey_client) (v : list (option robj)) (n : Z)
  : valkey_client :=
  {| querybuf := querybuf c; qb_pos := qb_pos c;
     multibulklen := multibulklen c; bulklen := bulklen c;
     reqtype := reqtype c; read_flags := read_flags c;
     argv := v; argc := argc c; argv_len := n;
     argv_len_sum := argv_len_sum c; querybuf_peak := querybuf_peak c;
     net_input_bytes_curr_cmd := net_input_bytes_curr_cmd c |}.

(** How one round of [while (c->multibulklen)] ends. *)
Inductive round : Type :=
| Continue (c : valkey_client)
| Break (c : valkey_client)
| Return (o : outcome) (c : valkey_client).

(** The block under [if (c->bulklen == -1)]. *)
Definition read_bulk_len (c : valkey_client) : round :=
  let is_replicated := Z.land (read_flags c) READ_FLAGS_REPLICATED in
  let auth_required := Z.land (read_flags c) READ_FLAGS_AUTH_REQUIRED in
  if qb_pos c >? sdslen (querybuf c) then Return Undefined c
  else
    match memchr (drop (Z.to_nat (qb_pos c)) (querybuf c)) CR with
    | None =>
        if size_t (sdslen (querybuf c) - qb_pos c) >? PROTO_INLINE_MAX_SIZE
        then Return (Returned READ_FLAGS_ERROR_BIG_BULK_COUNT) c
        else Break c
    | Some nl =>
        if nl >? s64 (sdslen (querybuf c) - qb_pos c - 2)
        then Return (Returned 0) c
        else
          match char_at (querybuf c) (qb_pos c) with
          | None => Return Undefined c
          | Some ch =>
              if negb (ch =? ch_dollar) then
                Return (Returned READ_FLAGS_ERROR_MBULK_UNEXPECTED_CHARACTER) c
              else
                let bulklen_slen := size_t (nl - 1) in
                let ok_ll :=
                  string2ll (substring (querybuf c) (qb_pos c + 1)
                               bulklen_slen) in
                match ok_ll with
                | None =>
                    Return (Returned READ_FLAGS_ERROR_MBULK_INVALID_BULK_LEN) c
                | Some ll =>
                    if (ll <? 0)
                       || ((is_replicated =? 0) && (ll >? 512 * 1024 * 1024))
                    then
                      Return
                        (Returned READ_FLAGS_ERROR_MBULK_INVALID_BULK_LEN) c
                    else if (ll >? 16384) && negb (auth_required =? 0) then
                      Return
                        (Returned READ_FLAGS_ERROR_UNAUTHENTICATED_BULK_LEN) c
                    else
                      let c1 :=
                        with_qb c (querybuf c) (size_t (qb_pos c + nl + 2)) in
                      let c2 :=
                        if (is_replicated =? 0) && (ll >=? PROTO_MBULK_BIG_ARG)
                        then
                          if size_t (sdslen (querybuf c1) - qb_pos c1)
                             <=? size_t (ll + 2)
                          then
                            let buf := sdsrange (querybuf c1) (qb_pos c1) (-1) in
                            let buf :=
                              sdsMakeRoomForNonGreedy buf
                                (size_t (ll + 2 - sdslen buf)) in
                            let c' := with_qb c1 buf 0 in
                            if querybuf_peak c' <? size_t (ll + 2)
                            then with_peak c' (size_t (ll + 2))
                            else c'
                          else c1
                        else c1 in
                      Continue
                        (with_bulklen c2 ll
                           (u64 (net_input_bytes_curr_cmd c2
                                 + (bulklen_slen + 3))))
                end
          end
    end.

(** The [else] branch of "Read bulk argument": one argument is stored. *)
Definition store_argument (c : valkey_client) : round :=
  let is_replicated := Z.land (read_flags c) READ_FLAGS_REPLICATED in
  let c :=
    if argc c >=? argv_len c then
      let n := if argv_len c <? Z.quot INT_MAX 2 then argv_len c * 2
               else INT_MAX in
      let n := if n <? argc c + multibulklen c
               then argc c + multibulklen c else n in
      with_argv c (take (Z.to_nat n) (argv c)
                   ++ repeat None (Z.to_nat n - length (argv c))) n
    else c in
  if (argc c <? 0) || (Z.of_nat (length (argv c)) <=? argc c)
  then Return Undefined c
  else
    let shortcut :=
      (is_replicated =? 0) && (qb_pos c =? 0)
      && (bulklen c >=? PROTO_MBULK_BIG_ARG)
      && (sdslen (querybuf c) =? size_t (bulklen c + 2)) in
    let obj :=
      if shortcut
      then createObject OBJ_STRING (sdsIncrLen (querybuf c) (-2))
      else createStringObject
             (substring (querybuf c) (qb_pos c) (bulklen c)) in
    let buf := if shortcut then sdsclear (querybuf c) else querybuf c in
    let p := if shortcut then qb_pos c
             else size_t (qb_pos c + (bulklen c + 2)) in
    Continue
      {| querybuf := buf; qb_pos := p;
         multibulklen := multibulklen c - 1;
         bulklen := -1;
         reqtype := reqtype c; read_flags := read_flags c;
         argv := <[Z.to_nat (argc c) := Some obj]> (argv c);
         argc := argc c + 1;
         argv_len := argv_len c;
         argv_len_sum := size_t (argv_len_sum c + bulklen c);
         querybuf_peak := querybuf_peak c;
         net_input_bytes_curr_cmd := net_input_bytes_curr_cmd c |}.

(** One round of [while (c->multibulklen)]. *)
Definition multibulk_round (c : valkey_client) : round :=
  let r := if bulklen c =? -1 then read_bulk_len c else Continue c in
  match r with
  | Continue c =>
      if size_t (sdslen (querybuf c) - qb_pos c) <? size_t (bulklen c + 2)
      then Break c
      else store_argument c
  | other => other
  end.

(** [while (c->multibulklen) { ... }]: every round that does not leave the
    loop decrements the positive [multibulklen], so that many units of
    fuel suffice. *)
Fixpoint multibulk_loop (fuel : nat) (c : valkey_client)
  : (outcome * valkey_client) + valkey_client :=
  match fuel with
  | O => inr c
  | S fuel' =>
      if multibulklen c =? 0 then inr c
      else
        match multibulk_round c with
        | Continue c' => multibulk_loop fuel' c'
        | Break c' => inr c'
        | Return o c' => inl (o, c')
        end
  end.

(** [static int parseMultibulk(valkey_client *c, ...)]. *)
Definition parseMultibulk (c : valkey_client) : outcome * valkey_client :=
  let r := if multibulklen c =? 0 then read_multibulk_len c else inr c in
  match r with
  | inl early => early
  | inr c =>
      if negb (multibulklen c >? 0) then (AssertFailed, c)
      else
        match multibulk_loop (Z.to_nat (multibulklen c)) c with
        | inl ret => ret
        | inr c =>
            if multibulklen c =? 0 then
              (Returned READ_FLAGS_PARSING_COMPLETED,
               {| querybuf := querybuf c; qb_pos := qb_pos c;
                  multibulklen := multibulklen c; bulklen := bulklen c;
                  reqtype := 0; read_flags := read_flags c;
                  argv := argv c; argc := argc c; argv_len := argv_len c;
                  argv_len_sum := argv_len_sum c;
                  querybuf_peak := querybuf_peak c;
                  net_input_bytes_curr_cmd :=
                    u64 (net_input_bytes_curr_cmd c
                         + (argv_len_sum c + argc c * 2)) |})
            else (Returned 0, c)
        end
  end.

(** [int valkey_parse_command(valkey_client *c)]. *)
Definition valkey_parse_command (c : valkey_client)
  : outcome * valkey_client :=
  let set_reqtype (c : valkey_client) (t : Z) : valkey_client :=
    {| querybuf := querybuf c; qb_pos := qb_pos c;
       multibulklen := multibulklen c; bulklen := bulklen c;
       reqtype := t; read_flags := read_flags c;
       argv := argv c; argc := argc c; argv_len := argv_len c;
       argv_len_sum := argv_len_sum c; querybuf_peak := querybuf_peak c;
       net_input_bytes_curr_cmd := net_input_bytes_curr_cmd c |} in
  let set_flags (c : valkey_client) (f : Z) : valkey_client :=
    {| querybuf := querybuf c; qb_pos := qb_pos c;
       multibulklen := multibulklen c; bulklen := bulklen c;
       reqtype := reqtype c; read_flags := f;
       argv := argv c; argc := argc c; argv_len := argv_len c;
       argv_len_sum := argv_len_sum c; querybuf_peak := querybuf_peak c;
       net_input_bytes_curr_cmd := net_input_bytes_curr_cmd c |} in
  let errors :=
    Z.lor (Z.lor (Z.lor (Z.lor READ_FLAGS_ERROR_BIG_MULTIBULK
                               READ_FLAGS_ERROR_INVALID_MULTIBULK_LEN)
                        READ_FLAGS_ERROR_BIG_BULK_COUNT)
                 READ_FLAGS_ERROR_MBULK_UNEXPECTED_CHARACTER)
          READ_FLAGS_ERROR_MBULK_INVALID_BULK_LEN in
  let typed :=
    if reqtype c =? 0 then
      if qb_pos c >=? sdslen (querybuf c) then inl (Returned 0, c)
      else
        match char_at (querybuf c) (qb_pos c) with
        | None => inl (Undefined, c)
        | Some ch =>
            if ch =? ch_star then inr (set_reqtype c PROTO_REQ_MULTIBULK)
            else inr (set_reqtype c PROTO_REQ_INLINE)
        end
    else inr c in
  match typed with
  | inl early => early
  | inr c =>
      if reqtype c =? PROTO_REQ_MULTIBULK then
        match parseMultibulk c with
        | (Returned flag, c) =>
            let c := set_flags c (Z.lor (read_flags c) flag) in
            if negb (Z.land flag READ_FLAGS_PARSING_COMPLETED =? 0)
            then (Returned 1, c)
            else if negb (Z.land flag errors =? 0)
            then (Returned (-1), c)
            else (Returned 0, c)
        | other => other
        end
      else (Returned (-1), c)
  end.

(** *** Specification vocabulary for the RESP parser *)

Definition digit (b : byte) : bool := is_digit (byte_to_Z b).

Definition all_digits (ds : list byte) : bool := forallb digit ds.

(** The decimal value of a digit string. *)
Definition digit_value (c : byte) : Z := byte_to_Z c - ch_0.

Definition decimal_from (v : Z) (ds : list byte) : Z :=
  fold_left (fun v c => v * 10 + digit_value c) ds v.

Definition decimal_value (ds : list byte) : Z := decimal_from 0 ds.

(** Length tokens that are not canonical decimal numbers of the signed
    64-bit range: leading zeros (other than exactly "0"), a leading
    plus sign, a character that is not a digit (a leading minus sign
    apart), or a magnitude outside the range of [long long]. *)
Inductive non_canonical : list byte -> Prop :=
| nc_leading_zero b t :
    byte_to_Z b = ch_0 -> t <> [] -> non_canonical (b :: t)
| nc_minus_zero m b t :
    byte_to_Z m = ch_minus -> byte_to_Z b = ch_0 ->
    non_canonical (m :: b :: t)
| nc_leading_plus b t :
    byte_to_Z b = ch_plus -> non_canonical (b :: t)
| nc_non_digit pre b post :
    digit b = false -> ~ (pre = [] /\ byte_to_Z b = ch_minus) ->
    non_canonical (pre ++ b :: post)
| nc_too_large ds :
    all_digits ds = true -> decimal_value ds > LLONG_MAX ->
    non_canonical ds
| nc_too_small m ds :
    byte_to_Z m = ch_minus -> all_digits ds = true ->
    - decimal_value ds < LLONG_MIN ->
    non_canonical (m :: ds).

Definition no_cr (s : list byte) : Prop :=
  Forall (fun b => byte_to_Z b <> CR) s.

(** A query buffer holding, at offset [length pre], a length line: the
    lead character (['*'] or ['$']), the length token [s], a carriage
    return and at least one more byte. *)
Definition length_line (pre : list byte) (lead : Z) (s : list byte)
  (x : byte) (rest : list byte) : list byte :=
  pre ++ byte_of_Z lead :: s ++ byte_of_Z CR :: x :: rest.

(** A client in the middle of a multibulk command, about to read a bulk
    length from [buf] at offset 0. *)
Definition client_reading_bulk (buf : list byte) (flags : Z)
  : valkey_client :=
  {| querybuf := buf; qb_pos := 0; multibulklen := 1; bulklen := -1;
     reqtype := PROTO_REQ_MULTIBULK; read_flags := flags;
     argv := [None]; argc := 0; argv_len := 1; argv_len_sum := 0;
     querybuf_peak := sdslen buf; net_input_bytes_curr_cmd := 0 |}.

Definition is_replicated (c : valkey_client) : bool :=
  negb (Z.land (read_flags c) READ_FLAGS_REPLICATED =? 0).

Definition auth_required (c : valkey_client) : bool :=
  negb (Z.land (read_flags c) READ_FLAGS_AUTH_REQUIRED =? 0).

End Resp.
(** * Part II: verification *)

(** ** Facts on machine integers *)

Section CIntFacts.
Import CInt.

Lemma wrap_small bits z : 0 <= z < 2 ^ bits -> wrap bits z = z.
Proof. intros H. unfold wrap. apply Z.mod_small. exact H. Qed.

Lemma wrap_range bits z : 0 <= bits -> 0 <= wrap bits z < 2 ^ bits.
Proof. intros H. unfold wrap. apply Z.mod_pos_bound. apply Z.pow_pos_nonneg; lia. Qed.

Lemma size_t_small z : 0 <= z < 2 ^ 64 -> size_t z = z.
Proof. apply wrap_small. Qed.

Lemma u64_small z : 0 <= z < 2 ^ 64 -> u64 z = z.
Proof. apply wrap_small. Qed.

Lemma u16_small z : 0 <= z < 2 ^ 16 -> u16 z = z.
Proof. apply wrap_small. Qed.

Lemma u32_small z : 0 <= z < 2 ^ 32 -> u32 z = z.
Proof. apply wrap_small. Qed.

Lemma u16_range z : 0 <= u16 z < 2 ^ 16.
Proof. apply wrap_range. lia. Qed.

Lemma u32_range z : 0 <= u32 z < 2 ^ 32.
Proof. apply wrap_range. lia. Qed.

Lemma size_t_range z : 0 <= size_t z < 2 ^ 64.
Proof. apply wrap_range. lia. Qed.

Lemma byte_to_Z_range b : 0 <= byte_to_Z b < 256.
Proof.
  unfold byte_to_Z. pose proof (Byte.to_N_bounded b) as H.
  split; [apply N2Z.is_nonneg|].
  apply N2Z.inj_le in H. simpl in H. lia.
Qed.

End CIntFacts.

(** ** The RESPB parser: memory safety and cursor discipline *)

Section RespbSafety.
Import CInt Mem Respb.
Local Open Scope parse_scope.

Lemma ext_refl s : valid s -> ext s s.
Proof. unfold valid, ext. intuition lia. Qed.

Lemma ext_trans s1 s2 s3 : ext s1 s2 -> ext s2 s3 -> ext s1 s3.
Proof. unfold ext. intuition (try congruence); lia. Qed.

Lemma valid_ext s s' : valid s -> ext s s' -> valid s'.
Proof.
  unfold valid, ext. intros (H1 & H2 & H3) (E1 & E2 & E3 & _).
  rewrite E1, E2. intuition lia.
Qed.

Lemma post_trans {A} s s1 (Q : A -> pstate -> Prop) r :
  ext s s1 -> post s1 Q r -> post s Q r.
Proof.
  intros E. destruct r as [[a | c |] s']; simpl; [| |tauto].
  - intros [E' HQ]. split; [eapply ext_trans; eauto | exact HQ].
  - intros [-> E']. split; [reflexivity | eapply ext_trans; eauto].
Qed.

Lemma hoare_weaken {A} a a' (m : M A) Q :
  a' <= a -> hoare a' m Q -> hoare a m Q.
Proof. intros Ha H s V Hs. apply H; [exact V | lia]. Qed.

Lemma hoare_any {A} a (m : M A) Q : hoare a m Q -> hoare a m any.
Proof.
  intros H s V Hs. specialize (H s V Hs).
  destruct (m s) as [[x | c |] s']; simpl in *; unfold any; tauto.
Qed.

Lemma hoare_bind {A B} a b (m : M A) (k : A -> M B) Q :
  hoare a m any -> (forall x, hoare b (k x) Q) -> b <= 0 ->
  hoare a (x <- m;; k x) Q.
Proof.
  intros Hm Hk Hb s V Hs. unfold bind. specialize (Hm s V Hs).
  destruct (m s) as [[x | c |] s1]; simpl in *; [| exact Hm | exact Hm].
  destruct Hm as [E _]. eapply post_trans; [exact E|].
  apply Hk; [eapply valid_ext; eauto|].
  destruct E as (_ & E2 & E3 & _). lia.
Qed.

Lemma h_ret {A} a (x : A) : hoare a (ret x) any.
Proof. intros s V _. simpl. split; [apply ext_refl; exact V | exact I]. Qed.

Lemma h_check {A} a n (k : M A) Q :
  0 <= n <= 2 ^ 32 -> hoare n k Q -> hoare a (CHECK_AVAIL n;; k) Q.
Proof.
  intros Hn Hk s V Hs. unfold bind, CHECK_AVAIL.
  pose proof V as (V1 & V2 & V3). unfold PTRDIFF_MAX in V2.
  rewrite size_t_small by lia.
  destruct (Z.gtb_spec (pos (parser s) + n) (buffer_len (parser s))).
  - simpl. split; [reflexivity | apply ext_refl; exact V].
  - apply Hk; [exact V | lia].
Qed.

Lemma h_check_last a n : 0 <= n <= 2 ^ 32 -> hoare a (CHECK_AVAIL n) any.
Proof.
  intros Hn s V Hs. unfold CHECK_AVAIL.
  destruct (_ >? _); simpl; (split; [done | apply ext_refl; exact V]) ||
    (split; [apply ext_refl; exact V | exact I]).
Qed.

Lemma set_pos_ext s p :
  valid s -> pos (parser s) <= p <= buffer_len (parser s) ->
  ext s (set_pos s p) /\ valid (set_pos s p).
Proof.
  intros (V1 & V2 & V3) Hp. unfold ext, valid, set_pos. simpl.
  intuition lia.
Qed.

Lemma h_add {A} a n (k : M A) Q :
  0 <= n <= a -> hoare (a - n) k Q -> hoare a (pos_add n;; k) Q.
Proof.
  intros Hn Hk s V Hs. unfold bind, pos_add.
  pose proof V as (V1 & V2 & V3). unfold PTRDIFF_MAX in V2.
  rewrite size_t_small by lia.
  destruct (set_pos_ext s (pos (parser s) + n) V) as [E V']; [lia|].
  eapply post_trans; [exact E|].
  apply Hk; [exact V' | simpl; lia].
Qed.

Lemma h_add_last a n : 0 <= n <= a -> hoare a (pos_add n) any.
Proof.
  intros Hn s V Hs. unfold pos_add.
  pose proof V as (V1 & V2 & V3). unfold PTRDIFF_MAX in V2.
  rewrite size_t_small by lia.
  destruct (set_pos_ext s (pos (parser s) + n) V) as [E V']; [lia|].
  simpl. split; [exact E | exact I].
Qed.

Lemma load_some buf o i :
  0 <= o + i < Z.of_nat (length buf) ->
  exists b, load (mk_ptr buf o) i = Some b /\ 0 <= b < 256.
Proof.
  intros H. unfold load. simpl.
  destruct (Z.ltb_spec (o + i) 0); [lia|].
  destruct (lookup_lt_is_Some_2 buf (Z.to_nat (o + i))) as [b Hb]; [lia|].
  rewrite Hb. simpl. eexists; split; [reflexivity | apply byte_to_Z_range].
Qed.

Lemma read_u8_cursor s d :
  valid s -> 0 <= d -> pos (parser s) + d < buffer_len (parser s) ->
  exists b, (forall s', read_u8 (cursor s d) s' = (Next b, s')) /\ 0 <= b < 256.
Proof.
  intros (V1 & V2 & V3) Hd Hs. unfold read_u8, cursor.
  destruct (load_some (buffer (parser s)) (pos (parser s) + d) 0) as (b & Hb & Hr);
    [lia|].
  rewrite Hb. eauto.
Qed.

(** Reading a big-endian field at the cursor, when the bytes are there. *)
Lemma read_u16_be_cursor s d :
  valid s -> 0 <= d -> pos (parser s) + d + 2 <= buffer_len (parser s) ->
  exists x, (forall s', read_u16_be (cursor s d) s' = (Next x, s')) /\
            0 <= x < 2 ^ 16.
Proof.
  intros V Hd Hs.
  destruct (read_u8_cursor s d V Hd) as (b0 & E0 & R0); [lia|].
  destruct (read_u8_cursor s (d + 1) V) as (b1 & E1 & R1); [lia|lia|].
  exists (u16 (Z.lor (Z.shiftl (u16 b0) 8) b1)). split; [|apply u16_range].
  intros s'. unfold read_u16_be, bind. rewrite E0.
  replace (ptr_add (cursor s d) 1) with (cursor s (d + 1))
    by (unfold ptr_add, cursor; simpl; f_equal; lia).
  rewrite E1. reflexivity.
Qed.

Lemma read_u32_be_cursor s d :
  valid s -> 0 <= d -> pos (parser s) + d + 4 <= buffer_len (parser s) ->
  exists x, (forall s', read_u32_be (cursor s d) s' = (Next x, s')) /\
            0 <= x < 2 ^ 32.
Proof.
  intros V Hd Hs.
  destruct (read_u8_cursor s d V Hd) as (b0 & E0 & R0); [lia|].
  destruct (read_u8_cursor s (d + 1) V) as (b1 & E1 & R1); [lia|lia|].
  destruct (read_u8_cursor s (d + 2) V) as (b2 & E2 & R2); [lia|lia|].
  destruct (read_u8_cursor s (d + 3) V) as (b3 & E3 & R3); [lia|lia|].
  eexists. split; [|apply u32_range].
  intros s'. unfold read_u32_be, bind. rewrite E0.
  replace (ptr_add (cursor s d) 1) with (cursor s (d + 1))
    by (unfold ptr_add, cursor; simpl; f_equal; lia).
  replace (ptr_add (cursor s d) 2) with (cursor s (d + 2))
    by (unfold ptr_add, cursor; simpl; f_equal; lia).
  replace (ptr_add (cursor s d) 3) with (cursor s (d + 3))
    by (unfold ptr_add, cursor; simpl; f_equal; lia).
  rewrite E1, E2, E3. reflexivity.
Qed.

Lemma h_rd16 {A} a (k : Z -> M A) Q :
  2 <= a -> (forall x, 0 <= x < 2 ^ 16 -> hoare a (k x) Q) ->
  hoare a (x <- read_u16_be_pos;; k x) Q.
Proof.
  intros Ha Hk s V Hs.
  destruct (read_u16_be_cursor s 0 V) as (x & E & R); [lia|lia|].
  unfold read_u16_be_pos, bind, get. rewrite E. apply Hk; assumption.
Qed.

Lemma h_rd32 {A} a (k : Z -> M A) Q :
  4 <= a -> (forall x, 0 <= x < 2 ^ 32 -> hoare a (k x) Q) ->
  hoare a (x <- read_u32_be_pos;; k x) Q.
Proof.
  intros Ha Hk s V Hs.
  destruct (read_u32_be_cursor s 0 V) as (x & E & R); [lia|lia|].
  unfold read_u32_be_pos, bind, get. rewrite E. apply Hk; assumption.
Qed.

Lemma h_rd8 {A} a (k : Z -> M A) Q :
  1 <= a -> (forall x, 0 <= x < 256 -> hoare a (k x) Q) ->
  hoare a (x <- read_u8_pos;; k x) Q.
Proof.
  intros Ha Hk s V Hs.
  destruct (read_u8_cursor s 0 V) as (x & E & R); [lia|lia|].
  unfold read_u8_pos, bind, get. rewrite E. apply Hk; assumption.
Qed.

Lemma set_cmd_ext s c :
  valid s -> opcode c = opcode (cmd s) -> mux_id c = mux_id (cmd s) ->
  raw_payload c = raw_payload (cmd s) ->
  ext s (set_cmd s c) /\ valid (set_cmd s c).
Proof.
  intros (V1 & V2 & V3) H1 H2 H3. unfold ext, valid, set_cmd. simpl.
  intuition lia.
Qed.

Lemma h_set_arg a i x : 0 <= i < RESPB_MAX_ARGS -> hoare a (set_arg i x) any.
Proof.
  intros Hi s V Hs. unfold set_arg.
  destruct (Z.leb_spec 0 i); [|lia]. destruct (Z.ltb_spec i RESPB_MAX_ARGS); [|lia].
  simpl. split; [|exact I]. apply set_cmd_ext; auto.
Qed.

Lemma h_get {A} a (k : pstate -> M A) Q :
  (forall s0, hoare a (k s0) Q) -> hoare a (s <- get;; k s) Q.
Proof. intros Hk s V Hs. unfold bind, get. apply Hk; assumption. Qed.

Lemma h_modify {A} a f (k : M A) Q :
  (forall c, opcode (f c) = opcode c /\ mux_id (f c) = mux_id c /\
             raw_payload (f c) = raw_payload c) ->
  hoare a k Q -> hoare a (modify_cmd f;; k) Q.
Proof.
  intros Hf Hk s V Hs. unfold bind, modify_cmd.
  destruct (Hf (cmd s)) as (H1 & H2 & H3).
  destruct (set_cmd_ext s (f (cmd s)) V H1 H2 H3) as [E V'].
  eapply post_trans; [exact E|]. apply Hk; [exact V' | exact Hs].
Qed.

Lemma h_set_argc a n :
  0 <= n <= RESPB_MAX_ARGS -> hoare a (set_argc n) argc_ok.
Proof.
  intros Hn s V Hs. unfold set_argc, modify_cmd. simpl.
  split; [apply set_cmd_ext; auto|].
  unfold argc_ok. simpl. unfold RESPB_MAX_ARGS in *.
  rewrite size_t_small; lia.
Qed.

Lemma h_set_arg_k {A} a i x (k : M A) Q :
  0 <= i < RESPB_MAX_ARGS -> hoare a k Q -> hoare a (set_arg i x;; k) Q.
Proof.
  intros Hi Hk s V Hs. unfold bind, set_arg.
  destruct (Z.leb_spec 0 i); [|lia]. destruct (Z.ltb_spec i RESPB_MAX_ARGS); [|lia].
  simpl.
  destruct (set_cmd_ext s (with_args (cmd s) (<[Z.to_nat i:=x]> (args (cmd s)))) V)
    as [E V']; auto.
  eapply post_trans; [exact E|]. apply Hk; [exact V' | exact Hs].
Qed.

Lemma h_rs2b_last a i : 0 <= i < RESPB_MAX_ARGS -> hoare a (READ_STRING_2B i) any.
Proof.
  intros Hi. unfold READ_STRING_2B.
  apply h_check; [lia|]. apply h_rd16; [lia|]. intros len Hlen.
  apply h_add; [lia|]. apply h_check; [lia|]. apply h_get. intros s0.
  apply h_set_arg_k; [exact Hi|]. apply h_add_last. lia.
Qed.

Lemma h_rs4b_last a i : 0 <= i < RESPB_MAX_ARGS -> hoare a (READ_STRING_4B i) any.
Proof.
  intros Hi. unfold READ_STRING_4B.
  apply h_check; [lia|]. apply h_rd32; [lia|]. intros len Hlen.
  apply h_add; [lia|]. apply h_check; [lia|]. apply h_get. intros s0.
  apply h_set_arg_k; [exact Hi|]. apply h_add_last. lia.
Qed.

Lemma h_seq {A} a (m : M unit) (k : M A) Q :
  hoare a m any -> hoare 0 k Q -> hoare a (m;; k) Q.
Proof. intros Hm Hk. eapply hoare_bind; [exact Hm | intros _; exact Hk | lia]. Qed.

Lemma h_rs2b {A} a i (k : M A) Q :
  0 <= i < RESPB_MAX_ARGS -> hoare 0 k Q -> hoare a (READ_STRING_2B i;; k) Q.
Proof. intros Hi Hk. apply h_seq; [apply h_rs2b_last; exact Hi | exact Hk]. Qed.

Lemma h_rs4b {A} a i (k : M A) Q :
  0 <= i < RESPB_MAX_ARGS -> hoare 0 k Q -> hoare a (READ_STRING_4B i;; k) Q.
Proof. intros Hi Hk. apply h_seq; [apply h_rs4b_last; exact Hi | exact Hk]. Qed.

Lemma h_for_from fuel : forall i count cond body,
  0 <= i -> 0 <= count < 2 ^ 16 ->
  (forall j, 0 <= j < count -> cond j = true -> hoare 0 (body j) any) ->
  hoare 0 (for_u16_from fuel i count cond body) any.
Proof.
  induction fuel as [|fuel IH]; intros i count cond body Hi Hc Hb; simpl.
  - apply h_ret.
  - destruct (Z.ltb_spec i count); simpl; [|apply h_ret].
    destruct (cond i) eqn:Ec; [|apply h_ret].
    apply h_seq; [apply Hb; [lia | exact Ec]|].
    apply IH; [apply u16_range | exact Hc | exact Hb].
Qed.

Lemma h_for_last a count cond body :
  0 <= a -> 0 <= count < 2 ^ 16 ->
  (forall j, 0 <= j < count -> cond j = true -> hoare 0 (body j) any) ->
  hoare a (for_u16 count cond body) any.
Proof.
  intros Ha Hc Hb. apply hoare_weaken with 0; [exact Ha|].
  apply h_for_from; auto; lia.
Qed.

Lemma h_for {A} a count cond body (k : M A) Q :
  0 <= a -> 0 <= count < 2 ^ 16 ->
  (forall j, 0 <= j < count -> cond j = true -> hoare 0 (body j) any) ->
  hoare 0 k Q -> hoare a (for_u16 count cond body;; k) Q.
Proof. intros Ha Hc Hb Hk. apply h_seq; [apply h_for_last; auto | exact Hk]. Qed.

Lemma h_when_last a b m :
  0 <= a -> (b = true -> hoare a m any) -> hoare a (when_ b m) any.
Proof.
  intros Ha Hm. unfold when_. destruct b; [apply Hm; reflexivity | apply h_ret].
Qed.

Lemma h_when {A} a b m (k : M A) Q :
  0 <= a -> (b = true -> hoare a m any) -> hoare 0 k Q ->
  hoare a (when_ b m;; k) Q.
Proof. intros Ha Hm Hk. apply h_seq; [apply h_when_last; auto | exact Hk]. Qed.

(** Symbolic execution of a statement sequence. *)
Ltac hstep :=
  lazymatch goal with
  | |- hoare _ (bind (CHECK_AVAIL _) _) _ => apply h_check; [lia|]
  | |- hoare _ (bind (pos_add _) _) _ => apply h_add; [lia|]
  | |- hoare _ (bind read_u16_be_pos _) _ =>
      apply h_rd16; [lia|]; let x := fresh "n" in let H := fresh "Hn" in intros x H
  | |- hoare _ (bind read_u32_be_pos _) _ =>
      apply h_rd32; [lia|]; let x := fresh "n" in let H := fresh "Hn" in intros x H
  | |- hoare _ (bind read_u8_pos _) _ =>
      apply h_rd8; [lia|]; let x := fresh "n" in let H := fresh "Hn" in intros x H
  | |- hoare _ (bind (READ_STRING_2B _) _) _ => apply h_rs2b; [unfold RESPB_MAX_ARGS in *; lia|]
  | |- hoare _ (bind (READ_STRING_4B _) _) _ => apply h_rs4b; [unfold RESPB_MAX_ARGS in *; lia|]
  | |- hoare _ (bind get _) _ => apply h_get; intros ?
  | |- hoare _ (bind (for_u16 _ _ _) _) _ =>
      apply h_for; [lia | lia | let j := fresh "j" in let H1 := fresh "Hj" in
                                let H2 := fresh "Hc" in intros j H1 H2 | ]
  | |- hoare _ (bind (when_ _ _) _) _ =>
      apply h_when; [lia | let H := fresh "Hb" in intros H | ]
  | |- hoare _ (bind (modify_cmd _) _) _ =>
      apply h_modify; [intros ?; simpl; auto|]
  | |- hoare _ (READ_STRING_2B _) any => apply h_rs2b_last; unfold RESPB_MAX_ARGS in *; lia
  | |- hoare _ (READ_STRING_4B _) any => apply h_rs4b_last; unfold RESPB_MAX_ARGS in *; lia
  | |- hoare _ (pos_add _) any => apply h_add_last; lia
  | |- hoare _ (set_argc _) argc_ok => apply h_set_argc
  | |- hoare _ (if ?b then _ else _) _ => destruct b eqn:?
  end.

Ltac cond_facts :=
  repeat match goal with
  | H : (_ && _)%bool = true |- _ => apply andb_true_iff in H; destruct H
  | H : (_ <? _) = true |- _ => apply Z.ltb_lt in H
  | H : (_ >? _) = true |- _ => apply Z.gtb_lt in H
  end.

Ltac argc_bound :=
  unfold RESPB_MAX_ARGS in *;
  repeat match goal with
  | |- context [Z.quot ?a ?b] =>
      let v := eval vm_compute in (Z.quot a b) in change (Z.quot a b) with v
  end;
  repeat match goal with
  | |- context [if ?b then _ else _] =>
      match b with
      | (?x <? ?y) => destruct (Z.ltb_spec x y)
      | (?x >? ?y) => destruct (Z.gtb_spec x y)
      | _ => destruct b
      end
  end; lia.

Ltac hcase := repeat (hstep; cond_facts); try argc_bound.

(** Every case body of the switch is safe and leaves [argc] within the
    array. *)
Lemma case_GET_ok : hoare 0 case_GET argc_ok.
Proof. unfold case_GET. hcase. Qed.

Lemma case_SET_ok : hoare 0 case_SET argc_ok.
Proof. unfold case_SET. hcase. Qed.

Lemma case_APPEND_ok : hoare 0 case_APPEND argc_ok.
Proof. unfold case_APPEND. hcase. Qed.

Lemma case_INCRBY_ok : hoare 0 case_INCRBY argc_ok.
Proof. unfold case_INCRBY. hcase. Qed.

Lemma case_GETEX_ok : hoare 0 case_GETEX argc_ok.
Proof. unfold case_GETEX. hcase. Qed.

Lemma case_GETRANGE_ok : hoare 0 case_GETRANGE argc_ok.
Proof. unfold case_GETRANGE. hcase. Qed.

Lemma case_GETSET_ok : hoare 0 case_GETSET argc_ok.
Proof. unfold case_GETSET. hcase. Qed.

Lemma case_INCRBYFLOAT_ok : hoare 0 case_INCRBYFLOAT argc_ok.
Proof. unfold case_INCRBYFLOAT. hcase. Qed.

Lemma case_MSETNX_ok : hoare 0 case_MSETNX argc_ok.
Proof. unfold case_MSETNX. hcase. Qed.

Lemma case_PSETEX_ok : hoare 0 case_PSETEX argc_ok.
Proof. unfold case_PSETEX. hcase. Qed.

Lemma case_SETRANGE_ok : hoare 0 case_SETRANGE argc_ok.
Proof. unfold case_SETRANGE. hcase. Qed.

Lemma case_LCS_ok : hoare 0 case_LCS argc_ok.
Proof. unfold case_LCS. hcase. Qed.

Lemma case_DELIFEQ_ok : hoare 0 case_DELIFEQ argc_ok.
Proof. unfold case_DELIFEQ. hcase. Qed.

Lemma case_EXPIRE_ok : hoare 0 case_EXPIRE argc_ok.
Proof. unfold case_EXPIRE. hcase. Qed.

Lemma case_MGET_ok : hoare 0 case_MGET argc_ok.
Proof. unfold case_MGET. hcase. Qed.

Lemma case_MSET_ok : hoare 0 case_MSET argc_ok.
Proof. unfold case_MSET. hcase. Qed.

Lemma case_LPUSH_ok : hoare 0 case_LPUSH argc_ok.
Proof. unfold case_LPUSH. hcase. Qed.

Lemma case_LPOP_ok : hoare 0 case_LPOP argc_ok.
Proof. unfold case_LPOP. hcase. Qed.

Lemma case_LLEN_ok : hoare 0 case_LLEN argc_ok.
Proof. unfold case_LLEN. hcase. Qed.

Lemma case_LRANGE_ok : hoare 0 case_LRANGE argc_ok.
Proof. unfold case_LRANGE. hcase. Qed.

Lemma case_LINDEX_ok : hoare 0 case_LINDEX argc_ok.
Proof. unfold case_LINDEX. hcase. Qed.

Lemma case_LSET_ok : hoare 0 case_LSET argc_ok.
Proof. unfold case_LSET. hcase. Qed.

Lemma case_LREM_ok : hoare 0 case_LREM argc_ok.
Proof. unfold case_LREM. hcase. Qed.

Lemma case_LTRIM_ok : hoare 0 case_LTRIM argc_ok.
Proof. unfold case_LTRIM. hcase. Qed.

Lemma case_LINSERT_ok : hoare 0 case_LINSERT argc_ok.
Proof. unfold case_LINSERT. hcase. Qed.

Lemma case_LPUSHX_ok : hoare 0 case_LPUSHX argc_ok.
Proof. unfold case_LPUSHX. hcase. Qed.

Lemma case_RPOPLPUSH_ok : hoare 0 case_RPOPLPUSH argc_ok.
Proof. unfold case_RPOPLPUSH. hcase. Qed.

Lemma case_LMOVE_ok : hoare 0 case_LMOVE argc_ok.
Proof. unfold case_LMOVE. hcase. Qed.

Lemma case_BRPOPLPUSH_ok : hoare 0 case_BRPOPLPUSH argc_ok.
Proof. unfold case_BRPOPLPUSH. hcase. Qed.

Lemma case_BLMOVE_ok : hoare 0 case_BLMOVE argc_ok.
Proof. unfold case_BLMOVE. hcase. Qed.

Lemma case_BLMPOP_ok : hoare 0 case_BLMPOP argc_ok.
Proof. unfold case_BLMPOP. hcase. Qed.

Lemma case_LMPOP_ok : hoare 0 case_LMPOP argc_ok.
Proof. unfold case_LMPOP. hcase. Qed.

Lemma case_LPOS_ok : hoare 0 case_LPOS argc_ok.
Proof. unfold case_LPOS. hcase. Qed.

Lemma case_BLPOP_ok : hoare 0 case_BLPOP argc_ok.
Proof. unfold case_BLPOP. hcase. Qed.

Lemma case_SADD_ok : hoare 0 case_SADD argc_ok.
Proof. unfold case_SADD. hcase. Qed.

Lemma case_SREM_ok : hoare 0 case_SREM argc_ok.
Proof. unfold case_SREM. hcase. Qed.

Lemma case_SMEMBERS_ok : hoare 0 case_SMEMBERS argc_ok.
Proof. unfold case_SMEMBERS. hcase. Qed.

Lemma case_SISMEMBER_ok : hoare 0 case_SISMEMBER argc_ok.
Proof. unfold case_SISMEMBER. hcase. Qed.

Lemma case_SRANDMEMBER_ok : hoare 0 case_SRANDMEMBER argc_ok.
Proof. unfold case_SRANDMEMBER. hcase. Qed.

Lemma case_SINTER_ok : hoare 0 case_SINTER argc_ok.
Proof. unfold case_SINTER. hcase. Qed.

Lemma case_SINTERSTORE_ok : hoare 0 case_SINTERSTORE argc_ok.
Proof. unfold case_SINTERSTORE. hcase. Qed.

Lemma case_SMOVE_ok : hoare 0 case_SMOVE argc_ok.
Proof. unfold case_SMOVE. hcase. Qed.

Lemma case_SSCAN_ok : hoare 0 case_SSCAN argc_ok.
Proof. unfold case_SSCAN. hcase. Qed.

Lemma case_SMISMEMBER_ok : hoare 0 case_SMISMEMBER argc_ok.
Proof. unfold case_SMISMEMBER. hcase. Qed.

Lemma case_HSET_ok : hoare 0 case_HSET argc_ok.
Proof. unfold case_HSET. hcase. Qed.

Lemma case_HGET_ok : hoare 0 case_HGET argc_ok.
Proof. unfold case_HGET. hcase. Qed.

Lemma case_HMSET_ok : hoare 0 case_HMSET argc_ok.
Proof. unfold case_HMSET. hcase. Qed.

Lemma case_HMGET_ok : hoare 0 case_HMGET argc_ok.
Proof. unfold case_HMGET. hcase. Qed.

Lemma case_HDEL_ok : hoare 0 case_HDEL argc_ok.
Proof. unfold case_HDEL. hcase. Qed.

Lemma case_HGETALL_ok : hoare 0 case_HGETALL argc_ok.
Proof. unfold case_HGETALL. hcase. Qed.

Lemma case_HRANDFIELD_ok : hoare 0 case_HRANDFIELD argc_ok.
Proof. unfold case_HRANDFIELD. hcase. Qed.

Lemma case_HEXPIRE_ok : hoare 0 case_HEXPIRE argc_ok.
Proof. unfold case_HEXPIRE. hcase. Qed.

Lemma case_HEXPIRETIME_ok : hoare 0 case_HEXPIRETIME argc_ok.
Proof. unfold case_HEXPIRETIME. hcase. Qed.

Lemma case_HGETEX_ok : hoare 0 case_HGETEX argc_ok.
Proof. unfold case_HGETEX. hcase. Qed.

Lemma case_HSETEX_ok : hoare 0 case_HSETEX argc_ok.
Proof. unfold case_HSETEX. hcase. Qed.

Lemma case_HEXISTS_ok : hoare 0 case_HEXISTS argc_ok.
Proof. unfold case_HEXISTS. hcase. Qed.

Lemma case_HINCRBY_ok : hoare 0 case_HINCRBY argc_ok.
Proof. unfold case_HINCRBY. hcase. Qed.

Lemma case_HINCRBYFLOAT_ok : hoare 0 case_HINCRBYFLOAT argc_ok.
Proof. unfold case_HINCRBYFLOAT. hcase. Qed.

Lemma case_HSETNX_ok : hoare 0 case_HSETNX argc_ok.
Proof. unfold case_HSETNX. hcase. Qed.

Lemma case_HSCAN_ok : hoare 0 case_HSCAN argc_ok.
Proof. unfold case_HSCAN. hcase. Qed.

Lemma case_ZADD_ok : hoare 0 case_ZADD argc_ok.
Proof. unfold case_ZADD. hcase. Qed.

Lemma case_ZREM_ok : hoare 0 case_ZREM argc_ok.
Proof. unfold case_ZREM. hcase. Qed.

Lemma case_ZSCORE_ok : hoare 0 case_ZSCORE argc_ok.
Proof. unfold case_ZSCORE. hcase. Qed.

Lemma case_ZRANGE_ok : hoare 0 case_ZRANGE argc_ok.
Proof. unfold case_ZRANGE. hcase. Qed.

Lemma case_ZRANGEBYSCORE_ok : hoare 0 case_ZRANGEBYSCORE argc_ok.
Proof. unfold case_ZRANGEBYSCORE. hcase. Qed.

Lemma case_ZRANGEBYLEX_ok : hoare 0 case_ZRANGEBYLEX argc_ok.
Proof. unfold case_ZRANGEBYLEX. hcase. Qed.

Lemma case_ZREMRANGEBYLEX_ok : hoare 0 case_ZREMRANGEBYLEX argc_ok.
Proof. unfold case_ZREMRANGEBYLEX. hcase. Qed.

Lemma case_BZPOPMIN_ok : hoare 0 case_BZPOPMIN argc_ok.
Proof. unfold case_BZPOPMIN. hcase. Qed.

Lemma case_ZRANDMEMBER_ok : hoare 0 case_ZRANDMEMBER argc_ok.
Proof. unfold case_ZRANDMEMBER. hcase. Qed.

Lemma case_ZDIFF_ok : hoare 0 case_ZDIFF argc_ok.
Proof. unfold case_ZDIFF. hcase. Qed.

Lemma case_ZDIFFSTORE_ok : hoare 0 case_ZDIFFSTORE argc_ok.
Proof. unfold case_ZDIFFSTORE. hcase. Qed.

Lemma case_ZINTER_ok : hoare 0 case_ZINTER argc_ok.
Proof. unfold case_ZINTER. hcase. Qed.

Lemma case_ZINTERSTORE_ok : hoare 0 case_ZINTERSTORE argc_ok.
Proof. unfold case_ZINTERSTORE. hcase. Qed.

Lemma case_ZSCAN_ok : hoare 0 case_ZSCAN argc_ok.
Proof. unfold case_ZSCAN. hcase. Qed.

Lemma case_ZMPOP_ok : hoare 0 case_ZMPOP argc_ok.
Proof. unfold case_ZMPOP. hcase. Qed.

Lemma case_BZMPOP_ok : hoare 0 case_BZMPOP argc_ok.
Proof. unfold case_BZMPOP. hcase. Qed.

Lemma case_ZRANGESTORE_ok : hoare 0 case_ZRANGESTORE argc_ok.
Proof. unfold case_ZRANGESTORE. hcase. Qed.

Lemma case_ZINTERCARD_ok : hoare 0 case_ZINTERCARD argc_ok.
Proof. unfold case_ZINTERCARD. hcase. Qed.

Lemma case_ZCARD_ok : hoare 0 case_ZCARD argc_ok.
Proof. unfold case_ZCARD. hcase. Qed.

Lemma case_ZCOUNT_ok : hoare 0 case_ZCOUNT argc_ok.
Proof. unfold case_ZCOUNT. hcase. Qed.

Lemma case_ZINCRBY_ok : hoare 0 case_ZINCRBY argc_ok.
Proof. unfold case_ZINCRBY. hcase. Qed.

Lemma case_ZRANK_ok : hoare 0 case_ZRANK argc_ok.
Proof. unfold case_ZRANK. hcase. Qed.

Lemma case_ZMSCORE_ok : hoare 0 case_ZMSCORE argc_ok.
Proof. unfold case_ZMSCORE. hcase. Qed.

Lemma case_ZREMRANGEBYSCORE_ok : hoare 0 case_ZREMRANGEBYSCORE argc_ok.
Proof. unfold case_ZREMRANGEBYSCORE. hcase. Qed.

Lemma case_PING_ok : hoare 0 case_PING argc_ok.
Proof. unfold case_PING. hcase. Qed.

Lemma case_ECHO_ok : hoare 0 case_ECHO argc_ok.
Proof. unfold case_ECHO. hcase. Qed.

Lemma case_AUTH_ok : hoare 0 case_AUTH argc_ok.
Proof. unfold case_AUTH. hcase. Qed.

Lemma case_SELECT_ok : hoare 0 case_SELECT argc_ok.
Proof. unfold case_SELECT. hcase. Qed.

Lemma case_QUIT_ok : hoare 0 case_QUIT argc_ok.
Proof. unfold case_QUIT. hcase. Qed.

Lemma case_HELLO_ok : hoare 0 case_HELLO argc_ok.
Proof. unfold case_HELLO. hcase. Qed.

Lemma case_CLIENT_ok : hoare 0 case_CLIENT argc_ok.
Proof. unfold case_CLIENT. hcase. Qed.

Lemma case_CLUSTER_ok : hoare 0 case_CLUSTER argc_ok.
Proof. unfold case_CLUSTER. hcase. Qed.

Lemma case_READONLY_ok : hoare 0 case_READONLY argc_ok.
Proof. unfold case_READONLY. hcase. Qed.

Lemma case_DBSIZE_ok : hoare 0 case_DBSIZE argc_ok.
Proof. unfold case_DBSIZE. hcase. Qed.

Lemma case_FLUSHDB_ok : hoare 0 case_FLUSHDB argc_ok.
Proof. unfold case_FLUSHDB. hcase. Qed.

Lemma case_BGSAVE_ok : hoare 0 case_BGSAVE argc_ok.
Proof. unfold case_BGSAVE. hcase. Qed.

Lemma case_INFO_ok : hoare 0 case_INFO argc_ok.
Proof. unfold case_INFO. hcase. Qed.

Lemma case_CONFIG_ok : hoare 0 case_CONFIG argc_ok.
Proof. unfold case_CONFIG. hcase. Qed.

Lemma case_REPLICAOF_ok : hoare 0 case_REPLICAOF argc_ok.
Proof. unfold case_REPLICAOF. hcase. Qed.

Lemma case_PSYNC_ok : hoare 0 case_PSYNC argc_ok.
Proof. unfold case_PSYNC. hcase. Qed.

Lemma case_REPLCONF_ok : hoare 0 case_REPLCONF argc_ok.
Proof. unfold case_REPLCONF. hcase. Qed.

Lemma case_FAILOVER_ok : hoare 0 case_FAILOVER argc_ok.
Proof. unfold case_FAILOVER. hcase. Qed.

Lemma case_SWAPDB_ok : hoare 0 case_SWAPDB argc_ok.
Proof. unfold case_SWAPDB. hcase. Qed.

Lemma case_LOLWUT_ok : hoare 0 case_LOLWUT argc_ok.
Proof. unfold case_LOLWUT. hcase. Qed.

Lemma case_RESTORE_ASKING_ok : hoare 0 case_RESTORE_ASKING argc_ok.
Proof. unfold case_RESTORE_ASKING. hcase. Qed.

Lemma case_MULTI_ok : hoare 0 case_MULTI argc_ok.
Proof. unfold case_MULTI. hcase. Qed.

Lemma case_WATCH_ok : hoare 0 case_WATCH argc_ok.
Proof. unfold case_WATCH. hcase. Qed.

Lemma case_EVAL_ok : hoare 0 case_EVAL argc_ok.
Proof. unfold case_EVAL. hcase. Qed.

Lemma case_EVALSHA_ok : hoare 0 case_EVALSHA argc_ok.
Proof. unfold case_EVALSHA. hcase. Qed.

Lemma case_EVAL_RO_ok : hoare 0 case_EVAL_RO argc_ok.
Proof. unfold case_EVAL_RO. hcase. Qed.

Lemma case_EVALSHA_RO_ok : hoare 0 case_EVALSHA_RO argc_ok.
Proof. unfold case_EVALSHA_RO. hcase. Qed.

Lemma case_SCRIPT_ok : hoare 0 case_SCRIPT argc_ok.
Proof. unfold case_SCRIPT. hcase. Qed.

Lemma case_FCALL_ok : hoare 0 case_FCALL argc_ok.
Proof. unfold case_FCALL. hcase. Qed.

Lemma case_FCALL_RO_ok : hoare 0 case_FCALL_RO argc_ok.
Proof. unfold case_FCALL_RO. hcase. Qed.

Lemma case_FUNCTION_ok : hoare 0 case_FUNCTION argc_ok.
Proof. unfold case_FUNCTION. hcase. Qed.

Lemma case_TTL_ok : hoare 0 case_TTL argc_ok.
Proof. unfold case_TTL. hcase. Qed.

Lemma case_EXPIREAT_ok : hoare 0 case_EXPIREAT argc_ok.
Proof. unfold case_EXPIREAT. hcase. Qed.

Lemma case_RENAME_ok : hoare 0 case_RENAME argc_ok.
Proof. unfold case_RENAME. hcase. Qed.

Lemma case_RANDOMKEY_ok : hoare 0 case_RANDOMKEY argc_ok.
Proof. unfold case_RANDOMKEY. hcase. Qed.

Lemma case_SCAN_ok : hoare 0 case_SCAN argc_ok.
Proof. unfold case_SCAN. hcase. Qed.

Lemma case_RESTORE_ok : hoare 0 case_RESTORE argc_ok.
Proof. unfold case_RESTORE. hcase. Qed.

Lemma case_MIGRATE_ok : hoare 0 case_MIGRATE argc_ok.
Proof. unfold case_MIGRATE. hcase. Qed.

Lemma case_MOVE_ok : hoare 0 case_MOVE argc_ok.
Proof. unfold case_MOVE. hcase. Qed.

Lemma case_COPY_ok : hoare 0 case_COPY argc_ok.
Proof. unfold case_COPY. hcase. Qed.

Lemma case_SORT_ok : hoare 0 case_SORT argc_ok.
Proof. unfold case_SORT. hcase. Qed.

Lemma case_TOUCH_ok : hoare 0 case_TOUCH argc_ok.
Proof. unfold case_TOUCH. hcase. Qed.

Lemma case_OBJECT_ok : hoare 0 case_OBJECT argc_ok.
Proof. unfold case_OBJECT. hcase. Qed.

Lemma case_WAIT_ok : hoare 0 case_WAIT argc_ok.
Proof. unfold case_WAIT. hcase. Qed.

Lemma case_WAITAOF_ok : hoare 0 case_WAITAOF argc_ok.
Proof. unfold case_WAITAOF. hcase. Qed.

Lemma case_SETBIT_ok : hoare 0 case_SETBIT argc_ok.
Proof. unfold case_SETBIT. hcase. Qed.

Lemma case_GETBIT_ok : hoare 0 case_GETBIT argc_ok.
Proof. unfold case_GETBIT. hcase. Qed.

Lemma case_BITCOUNT_ok : hoare 0 case_BITCOUNT argc_ok.
Proof. unfold case_BITCOUNT. hcase. Qed.

Lemma case_BITPOS_ok : hoare 0 case_BITPOS argc_ok.
Proof. unfold case_BITPOS. hcase. Qed.

Lemma case_BITOP_ok : hoare 0 case_BITOP argc_ok.
Proof. unfold case_BITOP. hcase. Qed.

Lemma case_BITFIELD_ok : hoare 0 case_BITFIELD argc_ok.
Proof. unfold case_BITFIELD. hcase. Qed.

Lemma case_PFADD_ok : hoare 0 case_PFADD argc_ok.
Proof. unfold case_PFADD. hcase. Qed.

Lemma case_PFCOUNT_ok : hoare 0 case_PFCOUNT argc_ok.
Proof. unfold case_PFCOUNT. hcase. Qed.

Lemma case_PFMERGE_ok : hoare 0 case_PFMERGE argc_ok.
Proof. unfold case_PFMERGE. hcase. Qed.

Lemma case_PFDEBUG_ok : hoare 0 case_PFDEBUG argc_ok.
Proof. unfold case_PFDEBUG. hcase. Qed.

Lemma case_PFSELFTEST_ok : hoare 0 case_PFSELFTEST argc_ok.
Proof. unfold case_PFSELFTEST. hcase. Qed.

Lemma case_GEOADD_ok : hoare 0 case_GEOADD argc_ok.
Proof. unfold case_GEOADD. hcase. Qed.

Lemma case_GEODIST_ok : hoare 0 case_GEODIST argc_ok.
Proof. unfold case_GEODIST. hcase. Qed.

Lemma case_GEOHASH_ok : hoare 0 case_GEOHASH argc_ok.
Proof. unfold case_GEOHASH. hcase. Qed.

Lemma case_GEORADIUS_ok : hoare 0 case_GEORADIUS argc_ok.
Proof. unfold case_GEORADIUS. hcase. Qed.

Lemma case_GEORADIUSBYMEMBER_ok : hoare 0 case_GEORADIUSBYMEMBER argc_ok.
Proof. unfold case_GEORADIUSBYMEMBER. hcase. Qed.

Lemma case_GEOSEARCH_ok : hoare 0 case_GEOSEARCH argc_ok.
Proof. unfold case_GEOSEARCH. hcase. Qed.

Lemma case_GEOSEARCHSTORE_ok : hoare 0 case_GEOSEARCHSTORE argc_ok.
Proof. unfold case_GEOSEARCHSTORE. hcase. Qed.

Lemma case_XADD_ok : hoare 0 case_XADD argc_ok.
Proof. unfold case_XADD. hcase. Qed.

Lemma case_XLEN_ok : hoare 0 case_XLEN argc_ok.
Proof. unfold case_XLEN. hcase. Qed.

Lemma case_XRANGE_ok : hoare 0 case_XRANGE argc_ok.
Proof. unfold case_XRANGE. hcase. Qed.

Lemma case_XREAD_ok : hoare 0 case_XREAD argc_ok.
Proof. unfold case_XREAD. hcase. Qed.

Lemma case_XREADGROUP_ok : hoare 0 case_XREADGROUP argc_ok.
Proof. unfold case_XREADGROUP. hcase. Qed.

Lemma case_XDEL_ok : hoare 0 case_XDEL argc_ok.
Proof. unfold case_XDEL. hcase. Qed.

Lemma case_XTRIM_ok : hoare 0 case_XTRIM argc_ok.
Proof. unfold case_XTRIM. hcase. Qed.

Lemma case_XACK_ok : hoare 0 case_XACK argc_ok.
Proof. unfold case_XACK. hcase. Qed.

Lemma case_XPENDING_ok : hoare 0 case_XPENDING argc_ok.
Proof. unfold case_XPENDING. hcase. Qed.

Lemma case_XCLAIM_ok : hoare 0 case_XCLAIM argc_ok.
Proof. unfold case_XCLAIM. hcase. Qed.

Lemma case_XAUTOCLAIM_ok : hoare 0 case_XAUTOCLAIM argc_ok.
Proof. unfold case_XAUTOCLAIM. hcase. Qed.

Lemma case_XINFO_ok : hoare 0 case_XINFO argc_ok.
Proof. unfold case_XINFO. hcase. Qed.

Lemma case_XGROUP_ok : hoare 0 case_XGROUP argc_ok.
Proof. unfold case_XGROUP. hcase. Qed.

Lemma case_XSETID_ok : hoare 0 case_XSETID argc_ok.
Proof. unfold case_XSETID. hcase. Qed.

Lemma case_PUBLISH_ok : hoare 0 case_PUBLISH argc_ok.
Proof. unfold case_PUBLISH. hcase. Qed.

Lemma case_SPUBLISH_ok : hoare 0 case_SPUBLISH argc_ok.
Proof. unfold case_SPUBLISH. hcase. Qed.

Lemma case_SUBSCRIBE_ok : hoare 0 case_SUBSCRIBE argc_ok.
Proof. unfold case_SUBSCRIBE. hcase. Qed.

Lemma case_PSUBSCRIBE_ok : hoare 0 case_PSUBSCRIBE argc_ok.
Proof. unfold case_PSUBSCRIBE. hcase. Qed.

Lemma case_PUBSUB_ok : hoare 0 case_PUBSUB argc_ok.
Proof. unfold case_PUBSUB. hcase. Qed.

Lemma case_MODULE_ok : hoare 0 case_MODULE argc_ok.
Proof. unfold case_MODULE. hcase. Qed.

Lemma case_RESP_PASSTHROUGH_ok : hoare 0 case_RESP_PASSTHROUGH argc_ok.
Proof.
  unfold case_RESP_PASSTHROUGH. apply h_check; [lia|]. apply h_rd32; [lia|].
  intros n Hn s V Hs. pose proof V as (V1 & V2 & V3). unfold PTRDIFF_MAX in V2.
  unfold bind, modify_cmd, pos_add, get, CHECK_AVAIL, set_argc, modify_cmd. simpl.
  rewrite (size_t_small (pos (parser s) + 4)) by lia.
  rewrite (size_t_small (pos (parser s) + 4 + n)) by lia.
  destruct (Z.gtb_spec (pos (parser s) + 4 + n) (buffer_len (parser s))); simpl.
  - split; [reflexivity|]. unfold ext. simpl. intuition lia.
  - rewrite (size_t_small (pos (parser s) + 4 + n)) by lia.
    split; [unfold ext; simpl; intuition lia|].
    unfold argc_ok. simpl. rewrite size_t_small; unfold RESPB_MAX_ARGS; lia.
Qed.

Lemma case_of_true op l : case_of op l = true -> In op l.
Proof.
  unfold case_of. intros H. apply existsb_exists in H.
  destruct H as (x & Hx & E). apply Z.eqb_eq in E. subst. exact Hx.
Qed.

Lemma In_case_of op l : In op l -> case_of op l = true.
Proof.
  intros H. unfold case_of. apply existsb_exists. exists op.
  split; [exact H | apply Z.eqb_refl].
Qed.

Lemma case_of_app op l1 l2 : case_of op (l1 ++ l2) = case_of op l1 || case_of op l2.
Proof. apply existsb_app. Qed.

Lemma switch_on_default op cases d :
  case_of op (switch_labels cases) = false -> switch_on op cases d = d.
Proof.
  induction cases as [|[labels body] rest IH]; simpl; [reflexivity|].
  unfold switch_labels. simpl. rewrite case_of_app.
  intros H. apply orb_false_iff in H. destruct H as [H1 H2].
  rewrite H1. apply IH. exact H2.
Qed.

Lemma switch_on_hoare op cases d Q :
  Forall (fun c => hoare 0 (snd c) Q) cases ->
  case_of op (switch_labels cases) = true ->
  hoare 0 (switch_on op cases d) Q.
Proof.
  induction 1 as [|[labels body] rest Hb _ IH]; simpl; [discriminate|].
  unfold switch_labels. simpl. rewrite case_of_app.
  destruct (case_of op labels); simpl; [intros _; exact Hb | exact IH].
Qed.

Lemma case_of_incl op l1 l2 :
  forallb (fun x => case_of x l2) l1 = true ->
  case_of op l1 = true -> case_of op l2 = true.
Proof.
  intros H H1. apply case_of_true in H1.
  rewrite forallb_forall in H. apply H. exact H1.
Qed.

(** The switch handles exactly the opcodes of the catalogue. *)
Lemma catalogue_labels op :
  in_catalogue op = case_of op (switch_labels respb_cases).
Proof.
  unfold in_catalogue.
  destruct (case_of op catalogue) eqn:E1;
    destruct (case_of op (switch_labels respb_cases)) eqn:E2; try reflexivity.
  - rewrite <- E2. symmetry. eapply case_of_incl; [|exact E1]. vm_compute. reflexivity.
  - rewrite <- E1. eapply case_of_incl; [|exact E2]. vm_compute. reflexivity.
Qed.

Create HintDb respb_cases discriminated.
#[local] Hint Resolve case_GET_ok case_SET_ok case_APPEND_ok case_INCRBY_ok : respb_cases.
#[local] Hint Resolve case_GETEX_ok case_GETRANGE_ok case_GETSET_ok case_INCRBYFLOAT_ok : respb_cases.
#[local] Hint Resolve case_MSETNX_ok case_PSETEX_ok case_SETRANGE_ok case_LCS_ok : respb_cases.
#[local] Hint Resolve case_DELIFEQ_ok case_EXPIRE_ok case_MGET_ok case_MSET_ok : respb_cases.
#[local] Hint Resolve case_LPUSH_ok case_LPOP_ok case_LLEN_ok case_LRANGE_ok : respb_cases.
#[local] Hint Resolve case_LINDEX_ok case_LSET_ok case_LREM_ok case_LTRIM_ok : respb_cases.
#[local] Hint Resolve case_LINSERT_ok case_LPUSHX_ok case_RPOPLPUSH_ok case_LMOVE_ok : respb_cases.
#[local] Hint Resolve case_BRPOPLPUSH_ok case_BLMOVE_ok case_BLMPOP_ok case_LMPOP_ok : respb_cases.
#[local] Hint Resolve case_LPOS_ok case_BLPOP_ok case_SADD_ok case_SREM_ok : respb_cases.
#[local] Hint Resolve case_SMEMBERS_ok case_SISMEMBER_ok case_SRANDMEMBER_ok case_SINTER_ok : respb_cases.
#[local] Hint Resolve case_SINTERSTORE_ok case_SMOVE_ok case_SSCAN_ok case_SMISMEMBER_ok : respb_cases.
#[local] Hint Resolve case_HSET_ok case_HGET_ok case_HMSET_ok case_HMGET_ok : respb_cases.
#[local] Hint Resolve case_HDEL_ok case_HGETALL_ok case_HRANDFIELD_ok case_HEXPIRE_ok : respb_cases.
#[local] Hint Resolve case_HEXPIRETIME_ok case_HGETEX_ok case_HSETEX_ok case_HEXISTS_ok : respb_cases.
#[local] Hint Resolve case_HINCRBY_ok case_HINCRBYFLOAT_ok case_HSETNX_ok case_HSCAN_ok : respb_cases.
#[local] Hint Resolve case_ZADD_ok case_ZREM_ok case_ZSCORE_ok case_ZRANGE_ok : respb_cases.
#[local] Hint Resolve case_ZRANGEBYSCORE_ok case_ZRANGEBYLEX_ok case_ZREMRANGEBYLEX_ok case_BZPOPMIN_ok : respb_cases.
#[local] Hint Resolve case_ZRANDMEMBER_ok case_ZDIFF_ok case_ZDIFFSTORE_ok case_ZINTER_ok : respb_cases.
#[local] Hint Resolve case_ZINTERSTORE_ok case_ZSCAN_ok case_ZMPOP_ok case_BZMPOP_ok : respb_cases.
#[local] Hint Resolve case_ZRANGESTORE_ok case_ZINTERCARD_ok case_ZCARD_ok case_ZCOUNT_ok : respb_cases.
#[local] Hint Resolve case_ZINCRBY_ok case_ZRANK_ok case_ZMSCORE_ok case_ZREMRANGEBYSCORE_ok : respb_cases.
#[local] Hint Resolve case_PING_ok case_ECHO_ok case_AUTH_ok case_SELECT_ok : respb_cases.
#[local] Hint Resolve case_QUIT_ok case_HELLO_ok case_CLIENT_ok case_CLUSTER_ok : respb_cases.
#[local] Hint Resolve case_READONLY_ok case_DBSIZE_ok case_FLUSHDB_ok case_BGSAVE_ok : respb_cases.
#[local] Hint Resolve case_INFO_ok case_CONFIG_ok case_REPLICAOF_ok case_PSYNC_ok : respb_cases.
#[local] Hint Resolve case_REPLCONF_ok case_FAILOVER_ok case_SWAPDB_ok case_LOLWUT_ok : respb_cases.
#[local] Hint Resolve case_RESTORE_ASKING_ok case_MULTI_ok case_WATCH_ok case_EVAL_ok : respb_cases.
#[local] Hint Resolve case_EVALSHA_ok case_EVAL_RO_ok case_EVALSHA_RO_ok case_SCRIPT_ok : respb_cases.
#[local] Hint Resolve case_FCALL_ok case_FCALL_RO_ok case_FUNCTION_ok case_TTL_ok : respb_cases.
#[local] Hint Resolve case_EXPIREAT_ok case_RENAME_ok case_RANDOMKEY_ok case_SCAN_ok : respb_cases.
#[local] Hint Resolve case_RESTORE_ok case_MIGRATE_ok case_MOVE_ok case_COPY_ok : respb_cases.
#[local] Hint Resolve case_SORT_ok case_TOUCH_ok case_OBJECT_ok case_WAIT_ok : respb_cases.
#[local] Hint Resolve case_WAITAOF_ok case_SETBIT_ok case_GETBIT_ok case_BITCOUNT_ok : respb_cases.
#[local] Hint Resolve case_BITPOS_ok case_BITOP_ok case_BITFIELD_ok case_PFADD_ok : respb_cases.
#[local] Hint Resolve case_PFCOUNT_ok case_PFMERGE_ok case_PFDEBUG_ok case_PFSELFTEST_ok : respb_cases.
#[local] Hint Resolve case_GEOADD_ok case_GEODIST_ok case_GEOHASH_ok case_GEORADIUS_ok : respb_cases.
#[local] Hint Resolve case_GEORADIUSBYMEMBER_ok case_GEOSEARCH_ok case_GEOSEARCHSTORE_ok case_XADD_ok : respb_cases.
#[local] Hint Resolve case_XLEN_ok case_XRANGE_ok case_XREAD_ok case_XREADGROUP_ok : respb_cases.
#[local] Hint Resolve case_XDEL_ok case_XTRIM_ok case_XACK_ok case_XPENDING_ok : respb_cases.
#[local] Hint Resolve case_XCLAIM_ok case_XAUTOCLAIM_ok case_XINFO_ok case_XGROUP_ok : respb_cases.
#[local] Hint Resolve case_XSETID_ok case_PUBLISH_ok case_SPUBLISH_ok case_SUBSCRIBE_ok : respb_cases.
#[local] Hint Resolve case_PSUBSCRIBE_ok case_PUBSUB_ok case_MODULE_ok case_RESP_PASSTHROUGH_ok : respb_cases.

Lemma respb_cases_ok : Forall (fun c => hoare 0 (snd c) argc_ok) respb_cases.
Proof.
  unfold respb_cases.
  repeat (constructor; [cbv beta iota delta [snd]; solve [auto with respb_cases]|]).
  constructor.
Qed.

Lemma respb_switch_catalogue op :
  in_catalogue op = true -> hoare 0 (respb_switch op) argc_ok.
Proof.
  intros H. rewrite catalogue_labels in H.
  apply switch_on_hoare; [apply respb_cases_ok | exact H].
Qed.

Lemma respb_switch_default op :
  in_catalogue op = false -> respb_switch op = case_default.
Proof.
  intros H. rewrite catalogue_labels in H. apply switch_on_default. exact H.
Qed.

(** *** The specification of [respb_parse_command], proved *)

Lemma bind_next {A B} (m : M A) (k : A -> M B) s a s1 :
  m s = (Next a, s1) -> bind m k s = k a s1.
Proof. intros H. unfold bind. rewrite H. reflexivity. Qed.

Ltac psimpl :=
  cbn [parser cmd buffer buffer_len pos opcode mux_id argc args raw_payload
       raw_payload_len module_subcommand module_id command_id resp_length
       resp_data set_cmd set_pos with_opcode with_mux_id with_argc with_args
       with_raw_payload with_raw_payload_len with_module_subcommand
       with_module_id with_command_id with_resp_length with_resp_data].

Ltac bstep E1 E2 :=
  match goal with
  | |- context [bind ?m ?k ?s] =>
      erewrite (bind_next m k s) by (first [apply E1 | apply E2 | reflexivity]);
      cbv beta
  end.

Lemma body_spec s :
  valid s ->
  match respb_parse_command_body s with
  | (Ret code, s') => call_spec s code s'
  | (Next _, _) => False
  | (Fault, _) => False
  end.
Proof.
  intros V. pose proof V as (V1 & V2 & V3). unfold PTRDIFF_MAX in V2.
  unfold respb_parse_command_body.
  unfold bind at 1, CHECK_AVAIL. rewrite size_t_small by lia.
  destruct (Z.gtb_spec (pos (parser s) + 4) (buffer_len (parser s))) as [Hlt|Hge].
  { unfold call_spec. intuition lia. }
  destruct (read_u16_be_cursor s 0 V) as (op & Eop & Rop); [lia|lia|].
  destruct (read_u16_be_cursor s 2 V) as (mux & Emux & Rmux); [lia|lia|].
  do 10 bstep Eop Emux. cbv zeta.
  match goal with |- context [bind (respb_switch _) _ ?st] => set (s4 := st) end.
  assert (P4 : pos (parser s4) = pos (parser s) + 4).
  { subst s4. psimpl. apply size_t_small. lia. }
  assert (V4 : valid s4).
  { unfold valid, PTRDIFF_MAX. rewrite P4. subst s4. psimpl. lia. }
  assert (O4 : opcode (cmd s4) = op) by reflexivity.
  assert (B4 : buffer (parser s4) = buffer (parser s)) by reflexivity.
  assert (L4 : buffer_len (parser s4) = buffer_len (parser s)) by reflexivity.
  assert (R4 : raw_payload (cmd s4) = cursor s 4).
  { subst s4. unfold cursor. psimpl. rewrite size_t_small by lia. f_equal. lia. }
  rewrite O4. clearbody s4.
  destruct (in_catalogue op) eqn:Ecat.
  - pose proof (respb_switch_catalogue op Ecat s4 V4) as H.
    unfold bind at 1.
    destruct (respb_switch op s4) as [[[] | c |] s5]; simpl in H.
    + destruct H as [(E1 & E2 & E3 & E4 & E5 & E6) HA]; [lia|].
      unfold bind, get, modify_cmd, return_. unfold call_spec. psimpl.
      rewrite E1, E2, E4, E6, O4, B4, L4, R4, Ecat. unfold argc_ok in HA.
      rewrite (size_t_small (pos (parser s) + 4)) by lia.
      rewrite size_t_small by lia.
      split; [reflexivity|]. split; [reflexivity|]. right.
      split; [lia|]. split; [reflexivity|]. right. right. intuition lia.
    + destruct H as [-> (E1 & E2 & E3 & E4 & E5 & E6)]; [lia|].
      unfold call_spec. rewrite E1, E2, E4, E6, O4, B4, L4, R4, Ecat.
      split; [reflexivity|]. split; [reflexivity|]. right.
      split; [lia|]. split; [reflexivity|]. left. intuition lia.
    + apply H. lia.
  - rewrite (respb_switch_default op Ecat). unfold bind, case_default, return_.
    unfold call_spec. rewrite O4, B4, L4, R4, Ecat.
    split; [reflexivity|]. split; [reflexivity|]. right.
    split; [lia|]. split; [reflexivity|]. right. left. intuition lia.
Qed.

Lemma parse_command_spec p c :
  parser_ok p ->
  exists code p' c',
    respb_parse_command p c = (Returned code, p', c') /\
    call_spec {| parser := p; cmd := c |} code {| parser := p'; cmd := c' |}.
Proof.
  intros Hp. unfold respb_parse_command.
  pose proof (body_spec {| parser := p; cmd := c |} Hp) as H.
  destruct (respb_parse_command_body _) as [[[] | code |] [p' c']];
    [contradiction | | contradiction].
  exists code, p', c'. split; [reflexivity | exact H].
Qed.

(** C4: for every buffer and every cursor position inside it, a call of
    respb_parse_command never reads outside the buffer: it returns 1
    (success), 0 (incomplete) or -1 (error), and the parser it leaves is
    again well-formed, so the guarantee carries over to the next call. *)
Theorem C4_parse_command_bounds_safe (p : respb_parser_t) (c : respb_command_t) :
  parser_ok p ->
  exists code p' c',
    respb_parse_command p c = (Returned code, p', c') /\
    (code = 1 \/ code = 0 \/ code = -1) /\
    parser_ok p' /\ buffer p' = buffer p.
Proof.
  intros Hp. destruct (parse_command_spec p c Hp) as (code & p' & c' & E & S).
  exists code, p', c'. split; [exact E|].
  destruct Hp as (H1 & H2 & H3).
  destruct S as (B & L & S). simpl in B, L, S. unfold parser_ok.
  rewrite B, L.
  destruct S as [(-> & _ & Es) | (Hh & _ & [S | [S | S]])].
  - inversion Es; subst. intuition lia.
  - intuition lia.
  - intuition lia.
  - intuition lia.
Qed.

Lemma C4_parse_command_bounds_safe_witness :
  parser_ok (respb_parser_init (bytes [0; 0; 0; 0; 0; 5; 109; 121; 107; 101; 121]) 11) /\
  exists code p' c',
    respb_parse_command
      (respb_parser_init (bytes [0; 0; 0; 0; 0; 5; 109; 121; 107; 101; 121]) 11)
      zero_command = (Returned code, p', c') /\
    (code = 1 \/ code = 0 \/ code = -1) /\
    parser_ok p' /\
    buffer p' = buffer (respb_parser_init (bytes [0; 0; 0; 0; 0; 5; 109; 121; 107; 101; 121]) 11).
Proof.
  split.
  - unfold parser_ok, PTRDIFF_MAX. simpl. lia.
  - apply C4_parse_command_bounds_safe. unfold parser_ok, PTRDIFF_MAX. simpl. lia.
Defined.

(** C1 fails as stated: a GET frame cut right after its 4-byte header is
    reported incomplete, yet the cursor has moved from 0 to 4. *)
Lemma C1_incomplete_moves_cursor :
  let p := respb_parser_init (bytes [0; 0; 0; 0]) 4 in
  parser_ok p /\
  exists p' c',
    respb_parse_command p zero_command = (Returned 0, p', c') /\
    pos p = 0 /\ pos p' = 4.
Proof.
  split.
  - unfold parser_ok, PTRDIFF_MAX. simpl. lia.
  - eexists _, _. split; [vm_compute; reflexivity|]. split; reflexivity.
Qed.

(** C1, amended: when respb_parse_command reports incomplete because fewer
    than 4 bytes remain for the header, the cursor (and the whole parser)
    is unchanged; when it reports incomplete after the header, the cursor
    is not restored: it stays at least 4 bytes past its starting value,
    inside the buffer. *)
Theorem C1_incomplete_cursor (p : respb_parser_t) (c : respb_command_t)
  (p' : respb_parser_t) (c' : respb_command_t) :
  parser_ok p ->
  respb_parse_command p c = (Returned 0, p', c') ->
  (buffer_len p < pos p + 4 /\ p' = p) \/
  (pos p + 4 <= buffer_len p /\ pos p + 4 <= pos p' <= buffer_len p).
Proof.
  intros Hp E. destruct (parse_command_spec p c Hp) as (code & p1 & c1 & E1 & S).
  rewrite E in E1. inversion E1; subst code p1 c1. clear E1.
  destruct S as (_ & _ & S). simpl in S.
  destruct S as [(_ & Hh & Es) | (Hh & _ & [S | [S | S]])].
  - left. split; [exact Hh | congruence].
  - right. intuition lia.
  - destruct S as [S _]. discriminate S.
  - destruct S as [S _]. discriminate S.
Qed.

Lemma C1_incomplete_cursor_witness :
  let p := respb_parser_init (bytes [0; 0; 0; 0]) 4 in
  let r := respb_parse_command p zero_command in
  (buffer_len p < pos p + 4 /\ snd (fst r) = p) \/
  (pos p + 4 <= buffer_len p /\ pos p + 4 <= pos (snd (fst r)) <= buffer_len p).
Proof.
  apply (C1_incomplete_cursor _ zero_command _ (snd (respb_parse_command
           (respb_parser_init (bytes [0; 0; 0; 0]) 4) zero_command))).
  - unfold parser_ok, PTRDIFF_MAX. simpl. lia.
  - vm_compute. reflexivity.
Defined.

(** C6 fails as stated: an empty RESP-passthrough frame is parsed
    successfully with the cursor advanced by 8 while raw_payload_len is 4,
    so the advance is raw_payload_len + 4, not raw_payload_len + 8. *)
Lemma C6_passthrough_payload_from_basic_header :
  let p := respb_parser_init (bytes [255; 255; 0; 0; 0; 0; 0; 0]) 8 in
  exists p' c',
    respb_parse_command p zero_command = (Returned 1, p', c') /\
    opcode c' = RESPB_OP_RESP_PASSTHROUGH /\
    pos p' - pos p = 8 /\ raw_payload_len c' = 4 /\
    pos p' - pos p <> raw_payload_len c' + 8.
Proof.
  eexists _, _. split; [vm_compute; reflexivity|]. simpl.
  repeat split; try reflexivity. lia.
Qed.

(** C6, amended: on every successful call the cursor strictly advances and
    the advance equals raw_payload_len + 4 for every opcode, module
    (0xF000) and RESP-passthrough (0xFFFF) commands included: raw_payload
    starts right after the 4-byte basic header, so for those two it spans
    the 4-byte subcommand or length field as well. *)
Theorem C6_success_advance (p : respb_parser_t) (c : respb_command_t)
  (p' : respb_parser_t) (c' : respb_command_t) :
  parser_ok p ->
  respb_parse_command p c = (Returned 1, p', c') ->
  pos p < pos p' /\
  pos p' - pos p = raw_payload_len c' + 4 /\
  raw_payload c' = {| base := buffer p; off := pos p + 4 |}.
Proof.
  intros Hp E. destruct (parse_command_spec p c Hp) as (code & p1 & c1 & E1 & S).
  rewrite E in E1. inversion E1; subst code p1 c1. clear E1.
  destruct S as (_ & _ & S). simpl in S.
  destruct S as [(S & _) | (Hh & HR & [S | [S | S]])]; try (apply proj1 in S; discriminate S).
  - discriminate S.
  - destruct S as (_ & _ & S1 & S2 & _). repeat split; [lia | lia | exact HR].
Qed.

Lemma C6_success_advance_witness :
  let p := respb_parser_init (bytes [255; 255; 0; 0; 0; 0; 0; 0]) 8 in
  let r := respb_parse_command p zero_command in
  pos p < pos (snd (fst r)) /\
  pos (snd (fst r)) - pos p = raw_payload_len (snd r) + 4 /\
  raw_payload (snd r) = {| base := buffer p; off := pos p + 4 |}.
Proof.
  apply (C6_success_advance _ zero_command).
  - unfold parser_ok, PTRDIFF_MAX. simpl. lia.
  - vm_compute. reflexivity.
Defined.

(** C9: when respb_parse_command returns -1, the opcode it read is not in
    the catalogue and the cursor is exactly 4 bytes past where the call
    began: the header has been consumed and the cursor is not restored. *)
Theorem C9_unknown_opcode_cursor (p : respb_parser_t) (c : respb_command_t)
  (p' : respb_parser_t) (c' : respb_command_t) :
  parser_ok p ->
  respb_parse_command p c = (Returned (-1), p', c') ->
  in_catalogue (opcode c') = false /\ pos p' = pos p + 4.
Proof.
  intros Hp E. destruct (parse_command_spec p c Hp) as (code & p1 & c1 & E1 & S).
  rewrite E in E1. inversion E1; subst code p1 c1. clear E1.
  destruct S as (_ & _ & S). simpl in S.
  destruct S as [(S & _) | (Hh & HR & [S | [S | S]])]; try (apply proj1 in S; discriminate S).
  - discriminate S.
  - destruct S as (_ & S1 & S2). split; assumption.
Qed.

Lemma C9_unknown_opcode_cursor_witness :
  let p := respb_parser_init (bytes [190; 239; 0; 0]) 4 in
  let r := respb_parse_command p zero_command in
  in_catalogue (opcode (snd r)) = false /\ pos (snd (fst r)) = pos p + 4.
Proof.
  apply (C9_unknown_opcode_cursor _ zero_command).
  - unfold parser_ok, PTRDIFF_MAX. simpl. lia.
  - vm_compute. reflexivity.
Defined.

(** ** Repeated groups: where the parser stops *)


(** *** Big-endian fields *)

Lemma land_shifted_low a b n :
  0 <= n -> 0 <= b < 2 ^ n -> Z.land (a * 2 ^ n) b = 0.
Proof.
  intros Hn Hb.
  destruct (Z.eq_dec b 0) as [-> | Hnz]; [apply Z.land_0_r|].
  apply Z.bits_inj'. intros k Hk.
  rewrite Z.land_spec, Z.bits_0.
  destruct (Z.lt_ge_cases k n) as [Hlt | Hge].
  - rewrite Z.mul_pow2_bits_low by lia. reflexivity.
  - rewrite (Z.bits_above_log2 b k); [apply andb_false_r | lia |].
    apply Z.log2_lt_pow2; [lia|].
    apply Z.lt_le_trans with (2 ^ n); [lia|].
    apply Z.pow_le_mono_r; lia.
Qed.

Lemma lor_shifted_low a b n :
  0 <= n -> 0 <= b < 2 ^ n -> Z.lor (a * 2 ^ n) b = a * 2 ^ n + b.
Proof.
  intros Hn Hb. rewrite <- Z.add_lor_land.
  rewrite land_shifted_low by assumption. lia.
Qed.

Lemma be16_bits b0 b1 :
  0 <= b0 < 256 -> 0 <= b1 < 256 ->
  u16 (Z.lor (Z.shiftl (u16 b0) 8) b1) = b0 * 2 ^ 8 + b1.
Proof.
  intros H0 H1. rewrite (u16_small b0) by lia.
  rewrite Z.shiftl_mul_pow2 by lia.
  rewrite lor_shifted_low by lia. apply u16_small. lia.
Qed.

Lemma be32_bits b0 b1 b2 b3 :
  0 <= b0 < 256 -> 0 <= b1 < 256 -> 0 <= b2 < 256 -> 0 <= b3 < 256 ->
  u32 (Z.lor (Z.lor (Z.lor (u32 (Z.shiftl (u32 b0) 24))
                           (u32 (Z.shiftl (u32 b1) 16)))
                    (u32 (Z.shiftl (u32 b2) 8)))
             b3)
  = b0 * 2 ^ 24 + b1 * 2 ^ 16 + b2 * 2 ^ 8 + b3.
Proof.
  intros H0 H1 H2 H3.
  rewrite (u32_small b0), (u32_small b1), (u32_small b2) by lia.
  rewrite !Z.shiftl_mul_pow2 by lia.
  rewrite (u32_small (b0 * 2 ^ 24)), (u32_small (b1 * 2 ^ 16)),
    (u32_small (b2 * 2 ^ 8)) by lia.
  rewrite (lor_shifted_low b0 (b1 * 2 ^ 16) 24) by lia.
  replace (b0 * 2 ^ 24 + b1 * 2 ^ 16)
    with ((b0 * 2 ^ 8 + b1) * 2 ^ 16) by lia.
  rewrite (lor_shifted_low _ (b2 * 2 ^ 8) 16) by lia.
  replace ((b0 * 2 ^ 8 + b1) * 2 ^ 16 + b2 * 2 ^ 8)
    with ((b0 * 2 ^ 16 + b1 * 2 ^ 8 + b2) * 2 ^ 8) by lia.
  rewrite (lor_shifted_low _ b3 8) by lia.
  rewrite u32_small by lia. lia.
Qed.

Lemma load_byte_at b o :
  0 <= o < Z.of_nat (length b) ->
  load {| base := b; off := o |} 0 = Some (byte_at b o) /\
  0 <= byte_at b o < 256.
Proof.
  intros H. destruct (load_some b o 0) as (v & E & R); [lia|].
  unfold byte_at. rewrite E. split; [reflexivity | exact R].
Qed.

Lemma byte_at_range b o : 0 <= byte_at b o < 256.
Proof.
  unfold byte_at, load. cbn [off base].
  destruct (o + 0 <? 0); [lia|].
  destruct (b !! Z.to_nat (o + 0)) as [x|]; simpl; [apply byte_to_Z_range | lia].
Qed.

Lemma be16_at_range b o : 0 <= be16_at b o < 2 ^ 16.
Proof.
  unfold be16_at. pose proof (byte_at_range b o).
  pose proof (byte_at_range b (o + 1)). lia.
Qed.

Lemma be32_at_range b o : 0 <= be32_at b o < 2 ^ 32.
Proof.
  unfold be32_at. pose proof (byte_at_range b o).
  pose proof (byte_at_range b (o + 1)). pose proof (byte_at_range b (o + 2)).
  pose proof (byte_at_range b (o + 3)). lia.
Qed.

Lemma len_at_range w b o : 0 <= len_at w b o < 2 ^ 32.
Proof.
  unfold len_at. destruct (w =? 2).
  - pose proof (be16_at_range b o). lia.
  - apply be32_at_range.
Qed.

(** The readers of the parser compute these fields. *)
Lemma read_u16_be_at b o s :
  0 <= o -> o + 2 <= Z.of_nat (length b) ->
  read_u16_be {| base := b; off := o |} s = (Next (be16_at b o), s).
Proof.
  intros Ho Hl.
  destruct (load_byte_at b o) as [E0 R0]; [lia|].
  destruct (load_byte_at b (o + 1)) as [E1 R1]; [lia|].
  unfold read_u16_be, bind, read_u8, ptr_add, ret. cbn [base off].
  rewrite E0, E1. unfold be16_at. rewrite be16_bits by assumption.
  reflexivity.
Qed.

Lemma read_u32_be_at b o s :
  0 <= o -> o + 4 <= Z.of_nat (length b) ->
  read_u32_be {| base := b; off := o |} s = (Next (be32_at b o), s).
Proof.
  intros Ho Hl.
  destruct (load_byte_at b o) as [E0 R0]; [lia|].
  destruct (load_byte_at b (o + 1)) as [E1 R1]; [lia|].
  destruct (load_byte_at b (o + 2)) as [E2 R2]; [lia|].
  destruct (load_byte_at b (o + 3)) as [E3 R3]; [lia|].
  unfold read_u32_be, bind, read_u8, ptr_add, ret. cbn [base off].
  rewrite E0, E1, E2, E3. unfold be32_at. rewrite be32_bits by assumption.
  reflexivity.
Qed.

(** *** Layouts *)

Lemma layout_end_app b fs gs o :
  layout_end b (fs ++ gs) o = layout_end b gs (layout_end b fs o).
Proof.
  revert o. induction fs as [|[n|w] fs IH]; intros o; simpl;
    [reflexivity | apply IH | apply IH].
Qed.

Lemma layout_args_app b fs gs o :
  layout_args b (fs ++ gs) o =
  layout_args b fs o ++ layout_args b gs (layout_end b fs o).
Proof.
  revert o. induction fs as [|[n|w] fs IH]; intros o; simpl;
    [reflexivity | apply IH | f_equal; apply IH].
Qed.

Lemma strings_app fs gs : strings (fs ++ gs) = (strings fs + strings gs)%nat.
Proof.
  induction fs as [|[n|w] fs IH]; simpl; [reflexivity | exact IH | now f_equal].
Qed.

Lemma layout_args_length b fs o : length (layout_args b fs o) = strings fs.
Proof.
  revert o. induction fs as [|[n|w] fs IH]; intros o; simpl;
    [reflexivity | apply IH | f_equal; apply IH].
Qed.

Lemma least_size_app fs gs : least_size (fs ++ gs) = least_size fs + least_size gs.
Proof.
  induction fs as [|[n|w] fs IH]; simpl; lia.
Qed.

(** A layout is at least as long as its fixed parts. *)
Lemma layout_end_least b fs o : o + least_size fs <= layout_end b fs o.
Proof.
  revert o. induction fs as [|[n|w] fs IH]; intros o; simpl.
  - lia.
  - specialize (IH (o + n)). lia.
  - specialize (IH (o + w + len_at w b o)).
    pose proof (len_at_range w b o). lia.
Qed.

(** *** Reading strings: what [READ_STRING_2B] and [READ_STRING_4B] do *)

Lemma READ_STRING_2B_run i s :
  valid s ->
  READ_STRING_2B i s =
  let p := pos (parser s) in
  let l := be16_at (buffer (parser s)) p in
  if p + 2 >? buffer_len (parser s) then (Ret 0, s)
  else if p + 2 + l >? buffer_len (parser s) then (Ret 0, set_pos s (p + 2))
  else if (0 <=? i) && (i <? RESPB_MAX_ARGS) then
    (Next tt,
     {| parser := {| buffer := buffer (parser s);
                     buffer_len := buffer_len (parser s);
                     pos := p + 2 + l |};
        cmd := with_args (cmd s)
                 (<[Z.to_nat i := {| data := {| base := buffer (parser s);
                                              off := p + 2 |};
                                     len := l |}]> (args (cmd s))) |})
  else (Fault, set_pos s (p + 2)).
Proof.
  intros (V1 & V2 & V3). unfold PTRDIFF_MAX in V2. cbv zeta.
  pose proof (be16_at_range (buffer (parser s)) (pos (parser s))) as Hl.
  unfold READ_STRING_2B, bind at 1, CHECK_AVAIL.
  rewrite size_t_small by lia.
  destruct (Z.gtb_spec (pos (parser s) + 2) (buffer_len (parser s))) as [H1|H1];
    [reflexivity|].
  unfold bind at 1, read_u16_be_pos, bind at 1, get, cursor.
  rewrite read_u16_be_at by lia.
  unfold bind at 1, pos_add. rewrite size_t_small by lia.
  unfold bind at 1, CHECK_AVAIL. psimpl.
  replace (pos (parser s) + 0) with (pos (parser s)) by lia.
  rewrite size_t_small by lia.
  destruct (Z.gtb_spec (pos (parser s) + 2 + be16_at (buffer (parser s)) (pos (parser s)))
              (buffer_len (parser s))) as [H2|H2]; [reflexivity|].
  unfold bind, get, set_arg, pos_add. psimpl.
  destruct ((0 <=? i) && (i <? RESPB_MAX_ARGS)); [|reflexivity].
  psimpl. rewrite size_t_small by lia.
  unfold set_pos, set_cmd. psimpl.
  replace (pos (parser s) + 2 + 0) with (pos (parser s) + 2) by lia.
  reflexivity.
Qed.

Lemma READ_STRING_4B_run i s :
  valid s ->
  READ_STRING_4B i s =
  let p := pos (parser s) in
  let l := be32_at (buffer (parser s)) p in
  if p + 4 >? buffer_len (parser s) then (Ret 0, s)
  else if p + 4 + l >? buffer_len (parser s) then (Ret 0, set_pos s (p + 4))
  else if (0 <=? i) && (i <? RESPB_MAX_ARGS) then
    (Next tt,
     {| parser := {| buffer := buffer (parser s);
                     buffer_len := buffer_len (parser s);
                     pos := p + 4 + l |};
        cmd := with_args (cmd s)
                 (<[Z.to_nat i := {| data := {| base := buffer (parser s);
                                              off := p + 4 |};
                                     len := l |}]> (args (cmd s))) |})
  else (Fault, set_pos s (p + 4)).
Proof.
  intros (V1 & V2 & V3). unfold PTRDIFF_MAX in V2. cbv zeta.
  pose proof (be32_at_range (buffer (parser s)) (pos (parser s))) as Hl.
  unfold READ_STRING_4B, bind at 1, CHECK_AVAIL.
  rewrite size_t_small by lia.
  destruct (Z.gtb_spec (pos (parser s) + 4) (buffer_len (parser s))) as [H1|H1];
    [reflexivity|].
  unfold bind at 1, read_u32_be_pos, bind at 1, get, cursor.
  rewrite read_u32_be_at by lia.
  unfold bind at 1, pos_add. rewrite size_t_small by lia.
  unfold bind at 1, CHECK_AVAIL. psimpl.
  replace (pos (parser s) + 0) with (pos (parser s)) by lia.
  rewrite size_t_small by lia.
  destruct (Z.gtb_spec (pos (parser s) + 4 + be32_at (buffer (parser s)) (pos (parser s)))
              (buffer_len (parser s))) as [H2|H2]; [reflexivity|].
  unfold bind, get, set_arg, pos_add. psimpl.
  destruct ((0 <=? i) && (i <? RESPB_MAX_ARGS)); [|reflexivity].
  psimpl. rewrite size_t_small by lia.
  unfold set_pos, set_cmd. psimpl.
  replace (pos (parser s) + 4 + 0) with (pos (parser s) + 4) by lia.
  reflexivity.
Qed.

(** *** Rules for reading a payload field by field *)

Lemma at_layout_skip b o fs n s :
  at_layout b o fs s -> 0 <= n ->
  pos (parser s) + n <= buffer_len (parser s) ->
  at_layout b o (fs ++ [Skip n]) (set_pos s (pos (parser s) + n)).
Proof.
  intros ((V1 & V2 & V3) & B & L & P & T) Hn Hle.
  unfold at_layout, valid. psimpl.
  rewrite layout_end_app, layout_args_app, strings_app. simpl.
  rewrite app_nil_r, Nat.add_0_r, <- P.
  repeat split; try assumption; lia.
Qed.

Lemma at_layout_str b o fs w s :
  at_layout b o fs s ->
  pos (parser s) + w + len_at w b (pos (parser s)) <= buffer_len (parser s) ->
  0 <= w ->
  (strings fs < Z.to_nat RESPB_MAX_ARGS)%nat ->
  at_layout b o (fs ++ [Str w])
    {| parser := {| buffer := buffer (parser s);
                    buffer_len := buffer_len (parser s);
                    pos := pos (parser s) + w + len_at w b (pos (parser s)) |};
       cmd := with_args (cmd s)
                (<[strings fs := {| data := {| base := b;
                                               off := pos (parser s) + w |};
                                    len := len_at w b (pos (parser s)) |}]>
                   (args (cmd s))) |}.
Proof.
  intros ((V1 & V2 & V3) & B & L & P & T) Hle Hw Hk.
  pose proof (len_at_range w b (pos (parser s))) as Hl.
  unfold at_layout, valid. psimpl.
  rewrite layout_end_app, layout_args_app, strings_app. simpl.
  rewrite <- P, length_insert, Nat.add_1_r.
  repeat split; try assumption; try lia.
  rewrite (take_S_r _ _ {| data := {| base := b; off := pos (parser s) + w |};
                           len := len_at w b (pos (parser s)) |}).
  - rewrite take_insert_ge by lia. rewrite T. reflexivity.
  - apply list_lookup_insert_eq. lia.
Qed.

Lemma reads_bind {A B} b o fs gs (m : M A) (k : A -> M B) (P : A -> Prop) Q :
  reads b o fs m (fun a s' => P a /\ at_layout b o gs s') ->
  (forall a, P a -> reads b o gs (k a) Q) ->
  reads b o fs (bind m k) Q.
Proof.
  intros Hm Hk s AL. specialize (Hm s AL). unfold bind.
  destruct (m s) as [[a | c |] s1]; [|exact I|exact I].
  destruct Hm as [Pa AL1]. exact (Hk a Pa s1 AL1).
Qed.

Lemma reads_seq {B} b o fs gs (m : M unit) (k : M B) Q :
  reads b o fs m (fun _ s' => at_layout b o gs s') ->
  reads b o gs k Q ->
  reads b o fs (m;; k) Q.
Proof.
  intros Hm Hk.
  apply (reads_bind b o fs gs m (fun _ => k) (fun _ => True)).
  - intros s AL. specialize (Hm s AL).
    destruct (m s) as [[a | c |] s1]; [split; [exact I | exact Hm] | exact I | exact I].
  - intros _ _. exact Hk.
Qed.

Lemma reads_post {A} b o fs (m : M A) (Q Q' : A -> pstate -> Prop) :
  reads b o fs m Q -> (forall a s, Q a s -> Q' a s) -> reads b o fs m Q'.
Proof.
  intros Hm HQ s AL. specialize (Hm s AL).
  destruct (m s) as [[a | c |] s1]; [apply HQ; exact Hm | exact I | exact I].
Qed.

Lemma reads_layout_eq {A} b o fs gs (m : M A) Q :
  fs = gs -> reads b o gs m Q -> reads b o fs m Q.
Proof. intros ->. exact id. Qed.

(** [CHECK_AVAIL(n); pos += n]: a fixed-width field stepped over. *)
Lemma r_skip {A} b o fs n (k : M A) Q :
  0 <= n < 2 ^ 32 ->
  reads b o (fs ++ [Skip n]) k Q ->
  reads b o fs (CHECK_AVAIL n;; pos_add n;; k) Q.
Proof.
  intros Hn Hk s AL. pose proof AL as ((V1 & V2 & V3) & _).
  unfold PTRDIFF_MAX in V2.
  unfold bind at 1, CHECK_AVAIL. rewrite size_t_small by lia.
  destruct (Z.gtb_spec (pos (parser s) + n) (buffer_len (parser s))) as [H|H];
    [exact I|].
  unfold bind at 1, pos_add. rewrite size_t_small by lia.
  apply Hk. apply at_layout_skip; [exact AL | lia | lia].
Qed.

(** The 2-byte count of a group. *)
Lemma r_count {A} b o fs (k : Z -> M A) Q :
  reads b o (fs ++ [Skip 2]) (k (be16_at b (layout_end b fs o))) Q ->
  reads b o fs (CHECK_AVAIL 2;; v <- read_u16_be_pos;; pos_add 2;; k v) Q.
Proof.
  intros Hk s AL. pose proof AL as ((V1 & V2 & V3) & B & _ & P & _).
  unfold PTRDIFF_MAX in V2.
  unfold bind at 1, CHECK_AVAIL. rewrite size_t_small by lia.
  destruct (Z.gtb_spec (pos (parser s) + 2) (buffer_len (parser s))) as [H|H];
    [exact I|].
  unfold bind at 1, read_u16_be_pos, bind at 1, get, cursor.
  rewrite read_u16_be_at by lia.
  unfold bind at 1, pos_add. rewrite size_t_small by lia.
  replace (pos (parser s) + 0) with (pos (parser s)) by lia.
  replace (be16_at (buffer (parser s)) (pos (parser s)))
    with (be16_at b (layout_end b fs o)) by (rewrite B, P; reflexivity).
  apply Hk. apply at_layout_skip; [exact AL | lia | lia].
Qed.

(** A string stored in the next free slot. *)
Lemma r_str2_last b o fs i :
  i = Z.of_nat (strings fs) ->
  reads b o fs (READ_STRING_2B i)
        (fun _ s' => at_layout b o (fs ++ [Str 2]) s').
Proof.
  intros -> s AL. pose proof AL as (V & B & _). subst b.
  rewrite READ_STRING_2B_run by exact V. cbv zeta.
  destruct (_ >? _); [exact I|].
  destruct (_ >? _) eqn:E2; [exact I|].
  destruct (_ && _) eqn:E3; [|exact I].
  rewrite Nat2Z.id.
  apply andb_true_iff in E3. destruct E3 as [_ E3]. apply Z.ltb_lt in E3.
  rewrite Z.gtb_ltb in E2. apply Z.ltb_ge in E2.
  apply (at_layout_str (buffer (parser s)) o fs 2 s AL);
    [exact E2 | lia | unfold RESPB_MAX_ARGS in *; lia].
Qed.

Lemma r_str4_last b o fs i :
  i = Z.of_nat (strings fs) ->
  reads b o fs (READ_STRING_4B i)
        (fun _ s' => at_layout b o (fs ++ [Str 4]) s').
Proof.
  intros -> s AL. pose proof AL as (V & B & _). subst b.
  rewrite READ_STRING_4B_run by exact V. cbv zeta.
  destruct (_ >? _); [exact I|].
  destruct (_ >? _) eqn:E2; [exact I|].
  destruct (_ && _) eqn:E3; [|exact I].
  rewrite Nat2Z.id.
  apply andb_true_iff in E3. destruct E3 as [_ E3]. apply Z.ltb_lt in E3.
  rewrite Z.gtb_ltb in E2. apply Z.ltb_ge in E2.
  apply (at_layout_str (buffer (parser s)) o fs 4 s AL);
    [exact E2 | lia | unfold RESPB_MAX_ARGS in *; lia].
Qed.

Lemma r_str2 {A} b o fs i (k : M A) Q :
  i = Z.of_nat (strings fs) ->
  reads b o (fs ++ [Str 2]) k Q ->
  reads b o fs (READ_STRING_2B i;; k) Q.
Proof.
  intros Hi Hk. eapply reads_seq; [apply r_str2_last; exact Hi | exact Hk].
Qed.

Lemma r_str4 {A} b o fs i (k : M A) Q :
  i = Z.of_nat (strings fs) ->
  reads b o (fs ++ [Str 4]) k Q ->
  reads b o fs (READ_STRING_4B i;; k) Q.
Proof.
  intros Hi Hk. eapply reads_seq; [apply r_str4_last; exact Hi | exact Hk].
Qed.

Lemma strings_map_Str ws : strings (map Str ws) = length ws.
Proof. induction ws as [|w ws IH]; simpl; [reflexivity | now f_equal]. Qed.

(** The loop over a group whose declared count exceeds the cap: the
    guard stops it after [cap] elements. *)
Lemma r_loop_from b o fs ws count cap cond body :
  0 <= cap < count -> count < 2 ^ 16 ->
  (forall i, 0 <= i -> cond i = (i <? cap)) ->
  (forall i gs, 0 <= i < cap ->
     Z.of_nat (strings gs) = Z.of_nat (strings fs) + i * Z.of_nat (length ws) ->
     reads b o gs (body i)
           (fun _ s' => at_layout b o (gs ++ map Str ws) s')) ->
  forall fuel i gs,
    0 <= i <= cap -> cap - i < Z.of_nat fuel ->
    Z.of_nat (strings gs) = Z.of_nat (strings fs) + i * Z.of_nat (length ws) ->
    reads b o gs (for_u16_from fuel i count cond body)
          (fun _ s' =>
             at_layout b o
               (gs ++ concat (repeat (map Str ws) (Z.to_nat (cap - i)))) s').
Proof.
  intros Hcap Hcount Hcond Hbody.
  induction fuel as [|fuel IH]; intros i gs Hi Hfuel Hgs; [simpl in Hfuel; lia|].
  cbn [for_u16_from].
  replace (i <? count) with true by (symmetry; apply Z.ltb_lt; lia).
  rewrite Hcond by lia. cbn [andb].
  destruct (Z.ltb_spec i cap) as [Hlt | Hge].
  - eapply reads_seq; [apply Hbody; [lia | exact Hgs] |].
    rewrite u16_small by lia.
    eapply reads_post.
    + apply IH; [lia | lia |].
      rewrite strings_app, strings_map_Str. lia.
    + cbv beta. intros _ s' AL.
      replace (Z.to_nat (cap - i)) with (S (Z.to_nat (cap - (i + 1)))) by lia.
      cbn [repeat concat]. rewrite app_assoc. exact AL.
  - intros s AL. unfold ret.
    replace (cap - i) with 0 by lia. simpl. rewrite app_nil_r. exact AL.
Qed.

Lemma r_loop {A} b o fs ws count cap cond body (k : M A) Q :
  0 <= cap < count -> count < 2 ^ 16 ->
  (forall i, 0 <= i -> cond i = (i <? cap)) ->
  (forall i gs, 0 <= i < cap ->
     Z.of_nat (strings gs) = Z.of_nat (strings fs) + i * Z.of_nat (length ws) ->
     reads b o gs (body i)
           (fun _ s' => at_layout b o (gs ++ map Str ws) s')) ->
  reads b o (fs ++ concat (repeat (map Str ws) (Z.to_nat cap))) k Q ->
  reads b o fs (for_u16 count cond body;; k) Q.
Proof.
  intros Hcap Hcount Hcond Hbody Hk.
  eapply reads_seq; [|exact Hk].
  unfold for_u16. eapply reads_post.
  - apply (r_loop_from b o fs ws count cap cond body Hcap Hcount Hcond Hbody);
      [lia | lia | lia].
  - cbv beta. intros _ s' AL. rewrite Z.sub_0_r in AL. exact AL.
Qed.

(** [if (false) { ... }]. *)
Lemma r_when_false {A} b o fs c m (k : M A) Q :
  c = false -> reads b o fs k Q -> reads b o fs (when_ c m;; k) Q.
Proof.
  intros -> Hk s AL. unfold bind at 1, when_, ret. apply Hk. exact AL.
Qed.

(** [cmd->argc = n], the last statement of a case. *)
Lemma r_set_argc b o fs n :
  reads b o fs (set_argc n)
        (fun _ s' => at_layout b o fs s' /\ argc (cmd s') = size_t n).
Proof.
  intros s AL. unfold set_argc, modify_cmd. split; [|reflexivity].
  exact AL.
Qed.

Lemma r_set_argc_cap b o fs gs n :
  fs = gs -> n = RESPB_MAX_ARGS ->
  reads b o fs (set_argc n)
        (fun _ s' => at_layout b o gs s' /\ argc (cmd s') = RESPB_MAX_ARGS).
Proof.
  intros <- ->. eapply reads_post; [apply r_set_argc|].
  cbv beta. intros _ s' [AL E]. split; [exact AL|]. rewrite E. reflexivity.
Qed.

(** A field of no bytes changes nothing. *)
Lemma at_layout_skip_0 b o fs s :
  at_layout b o fs s -> at_layout b o (fs ++ [Skip 0]) s.
Proof.
  intros (V & B & L & P & T). unfold at_layout.
  rewrite layout_end_app, layout_args_app, strings_app. simpl.
  rewrite app_nil_r, Nat.add_0_r, Z.add_0_r. tauto.
Qed.

Lemma r_set_argc_cap0 b o fs gs n :
  fs ++ [Skip 0] = gs -> n = RESPB_MAX_ARGS ->
  reads b o fs (set_argc n)
        (fun _ s' => at_layout b o gs s' /\ argc (cmd s') = RESPB_MAX_ARGS).
Proof.
  intros <- ->. eapply reads_post; [apply r_set_argc|].
  cbv beta. intros _ s' [AL E].
  split; [apply at_layout_skip_0; exact AL|]. rewrite E. reflexivity.
Qed.

Lemma group_spec_of_reads sh m :
  (forall b o,
     g_cap sh < declared_count b sh o ->
     reads b o [] m
           (fun _ s' => at_layout b o (group_layout sh (g_cap sh)) s' /\
                        argc (cmd s') = RESPB_MAX_ARGS)) ->
  group_spec sh m.
Proof.
  intros H s s' AL E Hc. specialize (H _ _ Hc s AL). rewrite E in H. exact H.
Qed.

(** *** The cases, shape by shape *)

Ltac split_ifs :=
  repeat match goal with
  | |- context [?a <? ?b] => destruct (Z.ltb_spec a b)
  | |- context [?a >? ?b] => destruct (Z.gtb_spec a b)
  end.

Ltac slot_index :=
  rewrite ?strings_app; cbn [strings]; lia.

Ltac group_body :=
  let i := fresh "i" in
  let gs := fresh "gs" in
  let Hi := fresh "Hi" in
  let Hgs := fresh "Hgs" in
  intros i gs Hi Hgs; cbn [strings app length] in Hgs;
  first
    [ apply r_str2_last; slot_index
    | eapply reads_post;
      [ apply r_str2; [slot_index|];
        first [apply r_str4_last | apply r_str2_last]; slot_index
      | cbv beta; intros _ ? AL; rewrite <- app_assoc in AL; exact AL ] ].

Ltac group_argc :=
  unfold RESPB_MAX_ARGS in *;
  repeat match goal with
  | |- context [Z.quot ?a ?b] =>
      let v := eval vm_compute in (Z.quot a b) in
      change (Z.quot a b) with v
  end;
  split_ifs; lia.

Ltac group_step sh :=
  lazymatch goal with
  | |- reads _ _ _ (for_u16 _ _ _;; _) _ =>
      let c := eval vm_compute in (g_cap sh) in
      let ws := eval vm_compute in (g_elem sh) in
      apply (r_loop _ _ _ ws _ c);
      [ lia | lia
      | intros; unfold RESPB_MAX_ARGS; split_ifs; first [reflexivity | lia]
      | group_body
      | ]
  | |- reads _ _ _ (when_ _ _;; _) _ =>
      apply r_when_false;
      [ apply andb_false_iff; right; apply Z.ltb_ge;
        unfold RESPB_MAX_ARGS; lia |]
  | |- reads _ _ _ (CHECK_AVAIL 2;; _ <- read_u16_be_pos;; _) _ =>
      apply r_count
  | |- reads _ _ _ (CHECK_AVAIL _;; pos_add _;; _) _ =>
      apply r_skip; [lia|]
  | |- reads _ _ _ (READ_STRING_2B _;; _) _ =>
      apply r_str2; [slot_index|]
  | |- reads _ _ _ (READ_STRING_4B _;; _) _ =>
      apply r_str4; [slot_index|]
  | |- reads _ _ _ (set_argc _) _ =>
      first [ apply r_set_argc_cap; [reflexivity | group_argc]
            | apply r_set_argc_cap0; [reflexivity | group_argc] ]
  end.

Ltac group_run sh b o Hc :=
  let Hr := fresh "Hr" in
  let c := eval vm_compute in (g_cap sh) in
  change (g_cap sh) with c in Hc;
  pose proof (be16_at_range b (layout_end b (g_pre sh) o)) as Hr;
  change (be16_at b (layout_end b (g_pre sh) o))
    with (declared_count b sh o) in Hr;
  repeat (group_step sh;
          try change (be16_at b (layout_end b _ o))
                with (declared_count b sh o)).

Ltac group_steps sh :=
  let b := fresh "b" in
  let o := fresh "o" in
  let Hc := fresh "Hc" in
  intros b o Hc; group_run sh b o Hc.

Lemma case_MGET_group : group_spec (mk_shape [] [2] 0) case_MGET.
Proof.
  apply group_spec_of_reads. unfold case_MGET.
  group_steps (mk_shape [] [2] 0).
Qed.

Lemma case_MSET_group : group_spec (mk_shape [] [2; 4] 0) case_MSET.
Proof.
  apply group_spec_of_reads. unfold case_MSET.
  group_steps (mk_shape [] [2; 4] 0).
Qed.

Lemma case_LPUSH_group : group_spec (mk_shape [Str 2] [2] 0) case_LPUSH.
Proof.
  apply group_spec_of_reads. unfold case_LPUSH.
  group_steps (mk_shape [Str 2] [2] 0).
Qed.

Lemma case_BLMPOP_group : group_spec (mk_shape [Skip 8] [2] 1) case_BLMPOP.
Proof.
  apply group_spec_of_reads. unfold case_BLMPOP.
  group_steps (mk_shape [Skip 8] [2] 1).
Qed.

Lemma case_LMPOP_group : group_spec (mk_shape [] [2] 1) case_LMPOP.
Proof.
  apply group_spec_of_reads. unfold case_LMPOP.
  group_steps (mk_shape [] [2] 1).
Qed.

Lemma case_BLPOP_group : group_spec (mk_shape [] [2] 8) case_BLPOP.
Proof.
  apply group_spec_of_reads. unfold case_BLPOP.
  group_steps (mk_shape [] [2] 8).
Qed.

Lemma case_HSET_group : group_spec (mk_shape [Str 2] [2; 4] 0) case_HSET.
Proof.
  apply group_spec_of_reads. unfold case_HSET.
  group_steps (mk_shape [Str 2] [2; 4] 0).
Qed.

Lemma case_ZINTERSTORE_group : group_spec (mk_shape [Str 2] [2] 1) case_ZINTERSTORE.
Proof.
  apply group_spec_of_reads. unfold case_ZINTERSTORE.
  group_steps (mk_shape [Str 2] [2] 1).
Qed.

Lemma case_EVAL_group : group_spec (mk_shape [Str 4] [2] 2) case_EVAL.
Proof.
  apply group_spec_of_reads. unfold case_EVAL.
  group_steps (mk_shape [Str 4] [2] 2).
Qed.

Lemma case_EVALSHA_group : group_spec (mk_shape [Str 2] [2] 2) case_EVALSHA.
Proof.
  apply group_spec_of_reads. unfold case_EVALSHA.
  group_steps (mk_shape [Str 2] [2] 2).
Qed.

Lemma case_BITOP_group : group_spec (mk_shape [Skip 1; Str 2] [2] 0) case_BITOP.
Proof.
  apply group_spec_of_reads. unfold case_BITOP.
  group_steps (mk_shape [Skip 1; Str 2] [2] 0).
Qed.

Lemma case_XREAD_group : group_spec (mk_shape [] [2; 2] 0) case_XREAD.
Proof.
  apply group_spec_of_reads. unfold case_XREAD.
  group_steps (mk_shape [] [2; 2] 0).
Qed.

Lemma case_XREADGROUP_group : group_spec (mk_shape [Str 2; Str 2] [2; 2] 0) case_XREADGROUP.
Proof.
  apply group_spec_of_reads. unfold case_XREADGROUP.
  group_steps (mk_shape [Str 2; Str 2] [2; 2] 0).
Qed.

(** [at_layout] only looks at the parser and at [args]. *)
Lemma at_layout_same b o fs s s' :
  at_layout b o fs s -> parser s' = parser s ->
  args (cmd s') = args (cmd s) -> at_layout b o fs s'.
Proof.
  unfold at_layout, valid. intros H -> ->. exact H.
Qed.

(** [JSON.GET]: the module case, when the subcommand word selects it. *)
Lemma case_MODULE_json_get b o :
  u16 (Z.land (Z.shiftr (be32_at b o) 16) 0xFFFF) = RESPB_MODULE_JSON ->
  u16 (Z.land (be32_at b o) 0xFFFF) = 0x0001 ->
  g_cap json_get_shape < declared_count b json_get_shape o ->
  reads b o [] case_MODULE
        (fun _ s' =>
           at_layout b o (group_layout json_get_shape (g_cap json_get_shape)) s' /\
           argc (cmd s') = RESPB_MAX_ARGS).
Proof.
  intros Hm Hc Hn s AL.
  pose proof AL as ((V1 & V2 & V3) & B & _ & P & _).
  unfold PTRDIFF_MAX in V2. simpl in P.
  unfold case_MODULE.
  unfold bind at 1, CHECK_AVAIL at 1. rewrite size_t_small by lia.
  destruct (Z.gtb_spec (pos (parser s) + 4) (buffer_len (parser s))) as [H|H];
    [exact I|].
  unfold bind at 1, read_u32_be_pos, bind at 1, get at 1, cursor.
  rewrite read_u32_be_at by lia.
  replace (pos (parser s) + 0) with o by lia. rewrite B.
  unfold bind at 1, modify_cmd at 1.
  unfold bind at 1, pos_add at 1.
  unfold bind at 1, modify_cmd at 1.
  unfold bind at 1, modify_cmd at 1.
  unfold bind at 1, get at 1. psimpl.
  rewrite Hm, Hc. rewrite Z.eqb_refl.
  change (1 =? 0) with false. change (1 =? 1) with true. cbv iota.
  rewrite size_t_small by lia.
  match goal with |- match ?m ?st with _ => _ end =>
    assert (AL1 : at_layout b o ([] ++ [Skip 4]) st)
  end.
  { eapply at_layout_same;
      [apply (at_layout_skip b o [] 4 s AL); lia | reflexivity | reflexivity]. }
  revert AL1.
  match goal with |- at_layout _ _ _ ?st -> match ?m ?st with _ => _ end =>
    generalize st; change (reads b o ([] ++ [Skip 4]) m
      (fun _ s' => at_layout b o (group_layout json_get_shape (g_cap json_get_shape)) s' /\
                   argc (cmd s') = RESPB_MAX_ARGS))
  end.
  unfold json_get_shape in *.
  group_run (mk_shape [Skip 4; Str 2] [2] 0) b o Hn.
Qed.

(** *** Every repeated-group opcode *)

Ltac group_lookup :=
  first [ exact case_MGET_group | exact case_LPUSH_group
        | exact case_MSET_group | exact case_HSET_group
        | exact case_BLMPOP_group | exact case_LMPOP_group
        | exact case_BLPOP_group | exact case_ZINTERSTORE_group
        | exact case_EVAL_group | exact case_EVALSHA_group
        | exact case_BITOP_group | exact case_XREAD_group
        | exact case_XREADGROUP_group ].

Ltac group_entry :=
  let op := fresh "op" in
  let H := fresh "H" in
  cbn [fst snd]; intros op H; apply case_of_true in H; cbn [In] in H;
  repeat (destruct H as [<- | H]; [group_lookup|]);
  contradiction.

Lemma repeated_groups_spec :
  Forall (fun g => forall op, case_of op (fst g) = true ->
                              group_spec (snd g) (respb_switch op))
         repeated_groups.
Proof.
  unfold repeated_groups.
  repeat (apply List.Forall_cons; [group_entry|]).
  apply List.Forall_nil.
Qed.

(** A successful call went through the [switch]: the case of the opcode
    in the header ran from the first payload byte and fell through. *)
Lemma body_success s s' :
  valid s ->
  respb_parse_command_body s = (Ret 1, s') ->
  exists s4 s5,
    pos (parser s) + 4 <= buffer_len (parser s) /\
    valid s4 /\
    buffer (parser s4) = buffer (parser s) /\
    pos (parser s4) = pos (parser s) + 4 /\
    args (cmd s4) = args (cmd s) /\
    respb_switch (be16_at (buffer (parser s)) (pos (parser s))) s4
      = (Next tt, s5) /\
    parser s' = parser s5 /\
    args (cmd s') = args (cmd s5) /\
    argc (cmd s') = argc (cmd s5).
Proof.
  intros V. pose proof V as (V1 & V2 & V3). unfold PTRDIFF_MAX in V2.
  unfold respb_parse_command_body.
  unfold bind at 1, CHECK_AVAIL. rewrite size_t_small by lia.
  destruct (Z.gtb_spec (pos (parser s) + 4) (buffer_len (parser s))) as [Hlt|Hge];
    [discriminate|].
  assert (Eop : forall st, read_u16_be (cursor s 0) st =
            (Next (be16_at (buffer (parser s)) (pos (parser s))), st)).
  { intros st. unfold cursor. rewrite read_u16_be_at by lia.
    replace (pos (parser s) + 0) with (pos (parser s)) by lia. reflexivity. }
  destruct (read_u16_be_cursor s 2 V) as (mux & Emux & Rmux); [lia|lia|].
  do 10 bstep Eop Emux. cbv zeta.
  match goal with |- context [bind (respb_switch _) _ ?st] => set (s4 := st) end.
  assert (P4 : pos (parser s4) = pos (parser s) + 4).
  { subst s4. psimpl. apply size_t_small. lia. }
  assert (V4 : valid s4).
  { unfold valid, PTRDIFF_MAX. rewrite P4. subst s4. psimpl. lia. }
  assert (O4 : opcode (cmd s4) = be16_at (buffer (parser s)) (pos (parser s)))
    by reflexivity.
  assert (B4 : buffer (parser s4) = buffer (parser s)) by reflexivity.
  assert (A4 : args (cmd s4) = args (cmd s)) by reflexivity.
  assert (L4 : buffer_len (parser s4) = buffer_len (parser s)) by reflexivity.
  rewrite O4. clearbody s4.
  set (op := be16_at (buffer (parser s)) (pos (parser s))).
  destruct (in_catalogue op) eqn:Ecat.
  - pose proof (respb_switch_catalogue op Ecat s4 V4) as H.
    unfold bind at 1.
    destruct (respb_switch op s4) as [[[] | c |] s5] eqn:Esw; simpl in H.
    + unfold bind, get, modify_cmd, return_. intros E.
      inversion E; subst s'. clear E.
      exists s4, s5. psimpl.
      split; [lia|]. split; [exact V4|]. split; [exact B4|].
      split; [exact P4|]. split; [exact A4|].
      split; [exact Esw|]. split; [reflexivity|].
      split; reflexivity.
    + destruct H as [-> _]; [lia|]. discriminate.
    + exfalso. apply H. lia.
  - rewrite (respb_switch_default op Ecat). unfold bind, case_default, return_.
    discriminate.
Qed.

Lemma group_at_cases b o sh :
  group_at b o = Some sh ->
  (be16_at b o = RESPB_OP_MODULE /\ sh = json_get_shape /\
   u16 (Z.land (Z.shiftr (be32_at b (o + 4)) 16) 0xFFFF) = RESPB_MODULE_JSON /\
   u16 (Z.land (be32_at b (o + 4)) 0xFFFF) = 0x0001) \/
  (exists labels, In (labels, sh) repeated_groups /\
                  case_of (be16_at b o) labels = true).
Proof.
  unfold group_at. cbv zeta.
  destruct (Z.eqb_spec (be16_at b o) RESPB_OP_MODULE) as [Eop | Nop].
  - destruct (Z.eqb_spec (u16 (Z.land (Z.shiftr (be32_at b (o + 4)) 16) 0xFFFF))
                RESPB_MODULE_JSON) as [Em | Nm]; [|discriminate].
    destruct (Z.eqb_spec (u16 (Z.land (be32_at b (o + 4)) 0xFFFF)) 0x0001)
      as [Ec | Nc]; [|discriminate].
    simpl. intros E. inversion E. left. auto.
  - destruct (find _ repeated_groups) as [[labels sh']|] eqn:Ef; [|discriminate].
    simpl. intros E. inversion E; subst sh'. right. exists labels.
    apply find_some in Ef. exact Ef.
Qed.

Lemma repeated_groups_elems :
  Forall (fun g => 0 < least_size (map Str (g_elem (snd g)))) repeated_groups.
Proof.
  unfold repeated_groups.
  repeat (apply List.Forall_cons; [reflexivity|]). apply List.Forall_nil.
Qed.

Lemma least_size_repeat fs k :
  0 <= least_size fs -> 0 <= least_size (concat (repeat fs k)).
Proof.
  intros H. induction k as [|k IH]; simpl; [lia|].
  rewrite least_size_app. lia.
Qed.

(** With more elements the payload ends later. *)
Lemma group_layout_longer b sh o n m :
  0 < least_size (map Str (g_elem sh)) -> 0 <= n < m ->
  layout_end b (group_layout sh n) o < layout_end b (group_layout sh m) o.
Proof.
  intros He Hnm. unfold group_layout.
  rewrite !layout_end_app.
  change (Skip 2 :: ?l) with ([Skip 2] ++ l).
  rewrite !layout_end_app.
  set (q := layout_end b [Skip 2] (layout_end b (g_pre sh) o)).
  replace (Z.to_nat m) with (Z.to_nat n + Z.to_nat (m - n))%nat by lia.
  rewrite repeat_app, concat_app, layout_end_app.
  set (r := layout_end b (concat (repeat (map Str (g_elem sh)) (Z.to_nat n))) q).
  simpl. apply Z.add_lt_mono_r.
  replace (Z.to_nat (m - n)) with (S (Z.to_nat (m - n - 1))) by lia.
  cbn [repeat concat]. rewrite layout_end_app.
  pose proof (layout_end_least b (map Str (g_elem sh)) r) as H1.
  pose proof (layout_end_least b
    (concat (repeat (map Str (g_elem sh)) (Z.to_nat (m - n - 1))))
    (layout_end b (map Str (g_elem sh)) r)) as H2.
  pose proof (least_size_repeat (map Str (g_elem sh))
                (Z.to_nat (m - n - 1)) ltac:(lia)) as H3.
  lia.
Qed.

(** What the case of a repeated-group command does when the declared
    count exceeds the cap, whatever the opcode. *)
Lemma group_at_spec b o sh s4 s5 :
  group_at b o = Some sh ->
  at_layout b (o + 4) [] s4 ->
  respb_switch (be16_at b o) s4 = (Next tt, s5) ->
  g_cap sh < declared_count b sh (o + 4) ->
  0 < least_size (map Str (g_elem sh)) /\
  at_layout b (o + 4) (group_layout sh (g_cap sh)) s5 /\
  argc (cmd s5) = RESPB_MAX_ARGS.
Proof.
  intros Hg AL Esw Hc. pose proof AL as (_ & B & _ & P & _). simpl in P.
  destruct (group_at_cases b o sh Hg) as [(Eop & -> & Em & Ec) | (labels & Hin & Hop)].
  - split; [reflexivity|].
    rewrite Eop in Esw. change (respb_switch RESPB_OP_MODULE) with case_MODULE in Esw.
    pose proof (case_MODULE_json_get b (o + 4) Em Ec Hc s4 AL) as H.
    rewrite Esw in H. exact H.
  - split.
    + pose proof repeated_groups_elems as F.
      rewrite List.Forall_forall in F. exact (F _ Hin).
    + pose proof repeated_groups_spec as F.
      rewrite List.Forall_forall in F.
      specialize (F _ Hin (be16_at b o) Hop). cbn [snd] in F.
      unfold group_spec in F. specialize (F s4 s5).
      rewrite B, P in F. exact (F AL Esw Hc).
Qed.

(** C2, the claim as written fails: an MGET header declaring 65 keys,
    followed by 65 empty keys, parses successfully with argc = 64, but
    the cursor stops at offset 134, before the 65th declared key, which
    ends at offset 136: the declared elements are not all consumed. *)
Lemma C2_declared_key_left_unread :
  let b := bytes ([0; 12; 0; 0; 0; 65] ++ repeat 0 130) in
  let r := respb_parse_command (respb_parser_init b 136) zero_command in
  fst (fst r) = Returned 1 /\
  argc (snd r) = RESPB_MAX_ARGS /\
  pos (snd (fst r)) = 134 /\
  declared_count b (mk_shape [] [2] 0) 4 = 65 /\
  layout_end b (group_layout (mk_shape [] [2] 0) 65) 4 = 136.
Proof. vm_compute. repeat split; reflexivity. Qed.

(** C2 (amended): for every command whose repeated group
    respb_parse_command reads in a loop (the 63 opcodes of the table
    repeated_groups and JSON.GET of the module opcode) and whose encoded
    element count exceeds the cap of that loop (RESPB_MAX_ARGS less the
    leading arguments, divided by the number of strings of an element), a
    successful call reads only the first cap elements: the cursor ends
    right after them and the fixed trailing field, before the end of the
    declared elements, which are left in the stream; the strings read, at
    most RESPB_MAX_ARGS of them, fill the first slots of args[] in order,
    and argc does not exceed RESPB_MAX_ARGS. *)
Theorem C2_group_stops_at_cap (p p' : respb_parser_t) (c c' : respb_command_t)
  (sh : group_shape) :
  parser_ok p ->
  length (args c) = Z.to_nat RESPB_MAX_ARGS ->
  respb_parse_command p c = (Returned 1, p', c') ->
  group_at (buffer p) (pos p) = Some sh ->
  g_cap sh < declared_count (buffer p) sh (pos p + 4) ->
  pos p' = layout_end (buffer p) (group_layout sh (g_cap sh)) (pos p + 4) /\
  take (strings (group_layout sh (g_cap sh))) (args c') =
    layout_args (buffer p) (group_layout sh (g_cap sh)) (pos p + 4) /\
  (strings (group_layout sh (g_cap sh)) <= Z.to_nat RESPB_MAX_ARGS)%nat /\
  argc c' <= RESPB_MAX_ARGS /\
  pos p' < layout_end (buffer p)
             (group_layout sh (declared_count (buffer p) sh (pos p + 4)))
             (pos p + 4).
Proof.
  intros Hp Hlen E Hg Hc. unfold respb_parse_command in E.
  destruct (respb_parse_command_body {| parser := p; cmd := c |})
    as [[[] | code |] s'] eqn:Eb; try discriminate E.
  inversion E; subst code p' c'. clear E.
  destruct (body_success {| parser := p; cmd := c |} s' Hp Eb)
    as (s4 & s5 & Hh & V4 & B4 & P4 & A4 & Esw & Ep & Ea & Ec).
  cbn [parser cmd buffer pos args] in *.
  assert (AL : at_layout (buffer p) (pos p + 4) [] s4).
  { unfold at_layout. simpl. rewrite A4. auto. }
  destruct (group_at_spec _ _ _ _ _ Hg AL Esw Hc)
    as (He & (_ & _ & L5 & P5 & T5) & C5).
  assert (Hcap : 0 <= g_cap sh).
  { unfold g_cap. apply Z.quot_pos;
      [|destruct (g_elem sh); [simpl in He; lia | simpl length; lia]].
    pose proof AL as (_ & _ & L & _).
    destruct (group_at_cases _ _ _ Hg) as [(_ & -> & _) | (labels & Hin & _)];
      [vm_compute; discriminate|].
    assert (F : Forall (fun g => 0 <= RESPB_MAX_ARGS -
                  Z.of_nat (strings (g_pre (snd g)))) repeated_groups).
    { unfold repeated_groups.
      repeat (apply List.Forall_cons; [vm_compute; discriminate|]).
      apply List.Forall_nil. }
    rewrite List.Forall_forall in F. exact (F _ Hin). }
  rewrite Ep, Ea, Ec.
  split; [exact P5|]. split; [exact T5|].
  split.
  { pose proof (f_equal length T5) as Hl.
    rewrite length_take, layout_args_length, L5 in Hl. lia. }
  split; [rewrite C5; lia|].
  rewrite P5. apply group_layout_longer; [exact He | lia].
Qed.

Lemma C2_group_stops_at_cap_witness :
  let b := bytes ([0; 12; 0; 0; 0; 65] ++ repeat 0 130) in
  let p := respb_parser_init b 136 in
  let r := respb_parse_command p zero_command in
  pos (snd (fst r)) =
    layout_end b (group_layout (mk_shape [] [2] 0) 64) 4 /\
  argc (snd r) <= RESPB_MAX_ARGS.
Proof.
  intros b p r.
  destruct (C2_group_stops_at_cap p (snd (fst r)) zero_command (snd r)
              (mk_shape [] [2] 0)) as (H1 & _ & _ & H3 & _).
  - unfold parser_ok, PTRDIFF_MAX. vm_compute. repeat split; discriminate.
  - reflexivity.
  - vm_compute. reflexivity.
  - vm_compute. reflexivity.
  - vm_compute. reflexivity.
  - split; [exact H1 | exact H3].
Defined.

(** *** Commands with a fixed sequence of fields: exact decoding *)

Lemma at_layout_fits b o fs s :
  at_layout b o fs s -> layout_end b fs o <= buffer_len (parser s).
Proof. intros ((_ & _ & V3) & _ & _ & P & _). lia. Qed.

Lemma layout_end_mono b fs gs o :
  Forall field_ok gs -> layout_end b fs o <= layout_end b (fs ++ gs) o.
Proof.
  intros Hok. rewrite layout_end_app. generalize (layout_end b fs o). clear fs.
  induction Hok as [|[n|w] gs Hf _ IH]; intros q; simpl.
  - lia.
  - simpl in Hf. specialize (IH (q + n)). lia.
  - simpl in Hf. specialize (IH (q + w + len_at w b q)).
    pose proof (len_at_range w b q). lia.
Qed.

Lemma d_skip {A} b o fs gs n (k : M A) Q :
  0 <= n < 2 ^ 32 -> Forall field_ok gs ->
  decodes b o (fs ++ [Skip n]) gs k Q ->
  decodes b o fs (Skip n :: gs) (CHECK_AVAIL n;; pos_add n;; k) Q.
Proof.
  intros Hn Hok Hk s AL. pose proof AL as ((V1 & V2 & V3) & _ & _ & P & _).
  unfold PTRDIFF_MAX in V2.
  pose proof (layout_end_mono b (fs ++ [Skip n]) gs o Hok) as Hm.
  rewrite <- app_assoc in Hm. cbn [app] in Hm.
  rewrite (layout_end_app b fs [Skip n]) in Hm. simpl in Hm. rewrite <- P in Hm.
  assert (E : (CHECK_AVAIL n;; pos_add n;; k) s =
              if pos (parser s) + n >? buffer_len (parser s) then (Ret 0, s)
              else k (set_pos s (pos (parser s) + n))).
  { unfold bind at 1, CHECK_AVAIL. rewrite size_t_small by lia.
    destruct (_ >? _); [reflexivity|].
    unfold bind at 1, pos_add. rewrite size_t_small by lia. reflexivity. }
  rewrite E. clear E.
  destruct (Z.gtb_spec (pos (parser s) + n) (buffer_len (parser s))) as [H|H].
  - split; [lia | intros _; eexists; reflexivity].
  - specialize (Hk _ (at_layout_skip b o fs n s AL ltac:(lia) H)).
    rewrite <- app_assoc in Hk. cbn [app] in Hk. exact Hk.
Qed.

Lemma d_str2 {A} b o fs gs i (k : M A) Q :
  i = Z.of_nat (strings fs) -> (strings fs < Z.to_nat RESPB_MAX_ARGS)%nat ->
  Forall field_ok gs ->
  decodes b o (fs ++ [Str 2]) gs k Q ->
  decodes b o fs (Str 2 :: gs) (READ_STRING_2B i;; k) Q.
Proof.
  intros -> Hlt Hok Hk s AL. pose proof AL as (V & B & _ & P & _).
  pose proof V as (V1 & V2 & V3). unfold PTRDIFF_MAX in V2. subst b.
  pose proof (layout_end_mono (buffer (parser s)) (fs ++ [Str 2]) gs o Hok) as Hm.
  rewrite <- app_assoc in Hm. cbn [app] in Hm.
  rewrite (layout_end_app _ fs [Str 2]) in Hm. simpl in Hm. rewrite <- P in Hm.
  change (len_at 2 ?b ?q) with (be16_at b q) in Hm.
  pose proof (be16_at_range (buffer (parser s)) (pos (parser s))) as Hl.
  unfold bind. rewrite READ_STRING_2B_run by exact V. cbv zeta.
  destruct (Z.gtb_spec (pos (parser s) + 2) (buffer_len (parser s))) as [H1|H1];
    [split; [lia | intros _; eexists; reflexivity]|].
  destruct (Z.gtb_spec (pos (parser s) + 2 + be16_at (buffer (parser s)) (pos (parser s)))
              (buffer_len (parser s))) as [H2|H2];
    [split; [lia | intros _; eexists; reflexivity]|].
  replace ((0 <=? Z.of_nat (strings fs)) && (Z.of_nat (strings fs) <? RESPB_MAX_ARGS))
    with true
    by (symmetry; apply andb_true_iff; split;
        [apply Z.leb_le | apply Z.ltb_lt]; unfold RESPB_MAX_ARGS in *; lia).
  rewrite Nat2Z.id.
  pose proof (at_layout_str (buffer (parser s)) o fs 2 s AL H2 ltac:(lia) Hlt) as AL'.
  specialize (Hk _ AL').
  rewrite <- app_assoc in Hk. cbn [app] in Hk. exact Hk.
Qed.

Lemma d_str4 {A} b o fs gs i (k : M A) Q :
  i = Z.of_nat (strings fs) -> (strings fs < Z.to_nat RESPB_MAX_ARGS)%nat ->
  Forall field_ok gs ->
  decodes b o (fs ++ [Str 4]) gs k Q ->
  decodes b o fs (Str 4 :: gs) (READ_STRING_4B i;; k) Q.
Proof.
  intros -> Hlt Hok Hk s AL. pose proof AL as (V & B & _ & P & _).
  pose proof V as (V1 & V2 & V3). unfold PTRDIFF_MAX in V2. subst b.
  pose proof (layout_end_mono (buffer (parser s)) (fs ++ [Str 4]) gs o Hok) as Hm.
  rewrite <- app_assoc in Hm. cbn [app] in Hm.
  rewrite (layout_end_app _ fs [Str 4]) in Hm. simpl in Hm. rewrite <- P in Hm.
  change (len_at 4 ?b ?q) with (be32_at b q) in Hm.
  pose proof (be32_at_range (buffer (parser s)) (pos (parser s))) as Hl.
  unfold bind. rewrite READ_STRING_4B_run by exact V. cbv zeta.
  destruct (Z.gtb_spec (pos (parser s) + 4) (buffer_len (parser s))) as [H1|H1];
    [split; [lia | intros _; eexists; reflexivity]|].
  destruct (Z.gtb_spec (pos (parser s) + 4 + be32_at (buffer (parser s)) (pos (parser s)))
              (buffer_len (parser s))) as [H2|H2];
    [split; [lia | intros _; eexists; reflexivity]|].
  replace ((0 <=? Z.of_nat (strings fs)) && (Z.of_nat (strings fs) <? RESPB_MAX_ARGS))
    with true
    by (symmetry; apply andb_true_iff; split;
        [apply Z.leb_le | apply Z.ltb_lt]; unfold RESPB_MAX_ARGS in *; lia).
  rewrite Nat2Z.id.
  pose proof (at_layout_str (buffer (parser s)) o fs 4 s AL H2 ltac:(lia) Hlt) as AL'.
  specialize (Hk _ AL').
  rewrite <- app_assoc in Hk. cbn [app] in Hk. exact Hk.
Qed.

Lemma d_set_argc b o fs n :
  decodes b o fs [] (set_argc n)
          (fun _ s' => at_layout b o fs s' /\ argc (cmd s') = size_t n).
Proof.
  intros s AL. rewrite app_nil_r. split.
  - intros _. eexists tt, _. split; [reflexivity|]. split; [exact AL | reflexivity].
  - intros H. pose proof (at_layout_fits b o fs s AL). lia.
Qed.

(** The straight-line reader decodes its layout exactly. *)
Lemma read_fields_decodes b o gs : forall fs,
  Forall field_ok gs ->
  (strings (fs ++ gs) <= Z.to_nat RESPB_MAX_ARGS)%nat ->
  decodes b o fs gs (read_fields gs (Z.of_nat (strings fs)))
          (fun _ s' => at_layout b o (fs ++ gs) s' /\
                       argc (cmd s') = Z.of_nat (strings (fs ++ gs))).
Proof.
  induction gs as [|[n|w] gs IH]; intros fs Hok Hn.
  - cbn [read_fields]. intros s AL.
    destruct (d_set_argc b o fs (Z.of_nat (strings fs)) s AL) as [H1 H2].
    split; [|exact H2]. intros Hf. destruct (H1 Hf) as (a & s' & E & AL' & Ea).
    exists a, s'. split; [exact E|]. rewrite app_nil_r. split; [exact AL'|].
    rewrite Ea. apply size_t_small. unfold RESPB_MAX_ARGS in Hn.
    rewrite app_nil_r in Hn. lia.
  - cbn [read_fields]. inversion Hok as [|? ? Hf Hok']; subst. simpl in Hf.
    apply d_skip; [exact Hf | exact Hok'|].
    specialize (IH (fs ++ [Skip n]) Hok').
    replace (strings (fs ++ [Skip n])) with (strings fs) in IH
      by (rewrite strings_app; cbn [strings]; lia).
    rewrite <- app_assoc in IH. cbn [app] in IH.
    apply IH. exact Hn.
  - cbn [read_fields]. inversion Hok as [|? ? Hf Hok']; subst. simpl in Hf.
    assert (Hlt : (strings fs < Z.to_nat RESPB_MAX_ARGS)%nat).
    { rewrite strings_app in Hn. cbn [strings] in Hn. lia. }
    specialize (IH (fs ++ [Str w]) Hok').
    replace (Z.of_nat (strings (fs ++ [Str w]))) with (Z.of_nat (strings fs) + 1) in IH
      by (rewrite strings_app; cbn [strings]; lia).
    rewrite <- app_assoc in IH. cbn [app] in IH.
    destruct Hf as [-> | ->].
    + change (2 =? 2) with true. cbv iota.
      apply d_str2; [reflexivity | exact Hlt | exact Hok' | apply IH; exact Hn].
    + change (4 =? 2) with false. cbv iota.
      apply d_str4; [reflexivity | exact Hlt | exact Hok' | apply IH; exact Hn].
Qed.

(** What a call does once the header is there, in terms of the case of
    the opcode. *)
Lemma body_run s :
  valid s -> pos (parser s) + 4 <= buffer_len (parser s) ->
  respb_parse_command_body s =
  match respb_switch (be16_at (buffer (parser s)) (pos (parser s)))
                     (after_header (parser s) (cmd s)) with
  | (Next _, s5) =>
      (Ret 1,
       set_cmd s5 (with_raw_payload_len (cmd s5)
                     (size_t (pos (parser s5) - (pos (parser s) + 4)))))
  | (Ret c, s5) => (Ret c, s5)
  | (Fault, s5) => (Fault, s5)
  end.
Proof.
  intros V Hge. pose proof V as (V1 & V2 & V3). unfold PTRDIFF_MAX in V2.
  unfold respb_parse_command_body.
  unfold bind at 1, CHECK_AVAIL. rewrite size_t_small by lia.
  destruct (Z.gtb_spec (pos (parser s) + 4) (buffer_len (parser s))) as [Hlt|_];
    [lia|].
  assert (Eop : forall st, read_u16_be (cursor s 0) st =
            (Next (be16_at (buffer (parser s)) (pos (parser s))), st)).
  { intros st. unfold cursor. rewrite read_u16_be_at by lia.
    replace (pos (parser s) + 0) with (pos (parser s)) by lia. reflexivity. }
  assert (Emux : forall st, read_u16_be (cursor s 2) st =
            (Next (be16_at (buffer (parser s)) (pos (parser s) + 2)), st)).
  { intros st. unfold cursor. rewrite read_u16_be_at by lia. reflexivity. }
  do 10 bstep Eop Emux. cbv zeta.
  match goal with |- context [bind (respb_switch _) _ ?st] =>
    replace st with (after_header (parser s) (cmd s))
  end.
  2:{ unfold after_header, set_pos, set_cmd, cursor. psimpl.
      rewrite size_t_small by lia.
      replace (pos (parser s) + 4 + 0) with (pos (parser s) + 4) by lia.
      reflexivity. }
  change (opcode (cmd (after_header (parser s) (cmd s))))
    with (be16_at (buffer (parser s)) (pos (parser s))).
  change (pos (parser (after_header (parser s) (cmd s))))
    with (pos (parser s) + 4).
  unfold bind at 1.
  destruct (respb_switch (be16_at (buffer (parser s)) (pos (parser s)))
              (after_header (parser s) (cmd s))) as [[[] | c |] s5];
    [|reflexivity|reflexivity].
  unfold bind, get, modify_cmd, return_, set_pos, set_cmd. psimpl.
  rewrite (size_t_small (pos (parser s) + 4)) by lia. reflexivity.
Qed.

Lemma fixed_layouts_ok :
  Forall (fun g =>
            Forall field_ok (snd g) /\
            (strings (snd g) <= Z.to_nat RESPB_MAX_ARGS)%nat /\
            forall op, In op (fst g) -> respb_switch op = read_fields (snd g) 0)
         fixed_layouts.
Proof.
  unfold fixed_layouts.
  repeat (apply List.Forall_cons;
          [ cbn [fst snd]; split;
            [ repeat constructor; cbn [field_ok]; lia
            | split;
              [ vm_compute; lia
              | let op := fresh "op" in
                let H := fresh "H" in
                intros op H; cbn [In] in H;
                repeat (destruct H as [<- | H]; [reflexivity|]);
                contradiction ] ] |]).
  apply List.Forall_nil.
Qed.

Lemma at_layout_after_header p c :
  parser_ok p -> length (args c) = Z.to_nat RESPB_MAX_ARGS ->
  pos p + 4 <= buffer_len p ->
  at_layout (buffer p) (pos p + 4) [] (after_header p c).
Proof.
  intros (H1 & H2 & H3) Hlen Hh. unfold at_layout, valid, after_header. psimpl.
  simpl. repeat split; try assumption; lia.
Qed.

Lemma fixed_layout_run (p : respb_parser_t) (c : respb_command_t)
  (fs : list field) :
  parser_ok p ->
  length (args c) = Z.to_nat RESPB_MAX_ARGS ->
  pos p + 4 <= buffer_len p ->
  fixed_layout_at (buffer p) (pos p) = Some fs ->
  let e := layout_end (buffer p) fs (pos p + 4) in
  (e <= buffer_len p ->
   exists p' c',
     respb_parse_command p c = (Returned 1, p', c') /\
     pos p' = e /\
     take (strings fs) (args c') = layout_args (buffer p) fs (pos p + 4) /\
     argc c' = Z.of_nat (strings fs) /\
     raw_payload_len c' = e - (pos p + 4)) /\
  (buffer_len p < e ->
   exists p' c', respb_parse_command p c = (Returned 0, p', c')).
Proof.
  intros Hp Hlen Hh Hf e.
  unfold fixed_layout_at in Hf.
  destruct (find _ fixed_layouts) as [[labels fs']|] eqn:Ef; [|discriminate].
  simpl in Hf. inversion Hf; subst fs'. clear Hf.
  apply find_some in Ef. destruct Ef as [Hin Hop]. cbn [fst] in Hop.
  apply case_of_true in Hop.
  pose proof fixed_layouts_ok as F. rewrite List.Forall_forall in F.
  destruct (F _ Hin) as (Hok & Hn & Hsw). cbn [fst snd] in *.
  specialize (Hsw _ Hop).
  pose proof (at_layout_after_header p c Hp Hlen Hh) as AL.
  pose proof (read_fields_decodes (buffer p) (pos p + 4) fs [] Hok Hn
                (after_header p c) AL) as [D1 D2].
  cbn [app strings] in D1, D2. change (Z.of_nat 0) with 0 in D1, D2.
  unfold respb_parse_command.
  rewrite (body_run {| parser := p; cmd := c |} Hp Hh). cbn [parser cmd].
  rewrite Hsw. split.
  - intros He. destruct (D1 He) as ([] & s' & E & (V' & _ & _ & P' & T') & A').
    rewrite E. eexists _, _. split; [reflexivity|]. psimpl.
    split; [exact P'|]. split; [exact T'|]. split; [exact A'|].
    rewrite P'. apply size_t_small.
    destruct Hp as (_ & H2 & H3). unfold PTRDIFF_MAX in H2.
    pose proof (layout_end_least (buffer p) fs (pos p + 4)).
    assert (0 <= least_size fs).
    { clear -Hok. induction Hok as [|[n|w] l Hf _ IH]; simpl in *; lia. }
    fold e. lia.
  - intros He. destruct (D2 He) as (s' & E). rewrite E.
    eexists _, _. reflexivity.
Qed.

(** For the 172 opcodes whose payload is a fixed sequence of fields,
    respb_parse_command decodes exactly that sequence: once the 4-byte
    header is there, the call succeeds if and only if the fields lie inside
    the buffer; then the cursor is at their end, their strings are the
    first slots of args[] in order, argc is their number and
    raw_payload_len is the size of the payload.  When the buffer ends
    before the fields do, the call reports incomplete. *)
Theorem fixed_layout_decoded (p : respb_parser_t) (c : respb_command_t)
  (fs : list field) :
  parser_ok p ->
  length (args c) = Z.to_nat RESPB_MAX_ARGS ->
  pos p + 4 <= buffer_len p ->
  fixed_layout_at (buffer p) (pos p) = Some fs ->
  let e := layout_end (buffer p) fs (pos p + 4) in
  (e <= buffer_len p ->
   exists p' c',
     respb_parse_command p c = (Returned 1, p', c') /\
     pos p' = e /\
     take (strings fs) (args c') = layout_args (buffer p) fs (pos p + 4) /\
     argc c' = Z.of_nat (strings fs) /\
     raw_payload_len c' = e - (pos p + 4)) /\
  (buffer_len p < e ->
   exists p' c', respb_parse_command p c = (Returned 0, p', c')).
Proof. exact (fixed_layout_run p c fs). Qed.

Lemma fixed_layout_decoded_witness :
  let b := bytes [0; 1; 0; 7; 0; 1; 107; 0; 0; 0; 2; 118; 119;
                  0; 0; 0; 0; 0; 0; 0; 0; 0] in
  exists p' c',
    respb_parse_command (respb_parser_init b 22) zero_command
      = (Returned 1, p', c') /\
    pos p' = 22 /\ argc c' = 2.
Proof.
  intros b.
  destruct (fixed_layout_decoded (respb_parser_init b 22) zero_command
              [Str 2; Str 4; Skip 9]) as [H _].
  - unfold parser_ok, PTRDIFF_MAX. vm_compute. repeat split; discriminate.
  - reflexivity.
  - vm_compute. discriminate.
  - vm_compute. reflexivity.
  - destruct H as (p' & c' & E & P & _ & A & _).
    + vm_compute. discriminate.
    + exists p', c'. split; [exact E|]. split; [exact P | exact A].
Defined.

(** *** Repeated groups within the cap: exact decoding *)

Lemma bind_assoc {A B C} (m : M A) (f : A -> M B) (g : B -> M C) s :
  bind (bind m f) g s = bind m (fun a => bind (f a) g) s.
Proof. unfold bind. destruct (m s) as [[a | c |] s1]; reflexivity. Qed.

Lemma decodes_ext {A} b o fs gs (m m' : M A) Q :
  (forall s, m' s = m s) -> decodes b o fs gs m Q -> decodes b o fs gs m' Q.
Proof. intros E H s AL. rewrite E. exact (H s AL). Qed.

Lemma decodes_post {A} b o fs gs (m : M A) (Q Q' : A -> pstate -> Prop) :
  decodes b o fs gs m Q -> (forall a s, Q a s -> Q' a s) ->
  decodes b o fs gs m Q'.
Proof.
  intros H HQ s AL. destruct (H s AL) as [H1 H2]. split; [|exact H2].
  intros Hf. destruct (H1 Hf) as (a & s' & E & Qa). exists a, s'. auto.
Qed.

Lemma d_skip0 {A} b o fs gs (k : M A) Q :
  decodes b o (fs ++ [Skip 0]) gs k Q -> decodes b o fs (Skip 0 :: gs) k Q.
Proof.
  intros Hk s AL. specialize (Hk s (at_layout_skip_0 b o fs s AL)).
  rewrite <- app_assoc in Hk. exact Hk.
Qed.

Lemma d_count {A} b o fs gs (k : Z -> M A) Q :
  Forall field_ok gs ->
  decodes b o (fs ++ [Skip 2]) gs (k (be16_at b (layout_end b fs o))) Q ->
  decodes b o fs (Skip 2 :: gs)
          (CHECK_AVAIL 2;; v <- read_u16_be_pos;; pos_add 2;; k v) Q.
Proof.
  intros Hok Hk s AL. pose proof AL as ((V1 & V2 & V3) & B & _ & P & _).
  unfold PTRDIFF_MAX in V2.
  pose proof (layout_end_mono b (fs ++ [Skip 2]) gs o Hok) as Hm.
  rewrite <- app_assoc in Hm. cbn [app] in Hm.
  rewrite (layout_end_app b fs [Skip 2]) in Hm. simpl in Hm. rewrite <- P in Hm.
  assert (E : (CHECK_AVAIL 2;; v <- read_u16_be_pos;; pos_add 2;; k v) s =
              if pos (parser s) + 2 >? buffer_len (parser s) then (Ret 0, s)
              else k (be16_at b (layout_end b fs o))
                     (set_pos s (pos (parser s) + 2))).
  { unfold bind at 1, CHECK_AVAIL. rewrite size_t_small by lia.
    destruct (Z.gtb_spec (pos (parser s) + 2) (buffer_len (parser s))) as [H|H];
      [reflexivity|].
    unfold bind at 1, read_u16_be_pos, bind at 1, get, cursor.
    rewrite read_u16_be_at by lia.
    unfold bind at 1, pos_add. rewrite size_t_small by lia.
    replace (pos (parser s) + 0) with (pos (parser s)) by lia.
    rewrite B, P. reflexivity. }
  rewrite E. clear E.
  destruct (Z.gtb_spec (pos (parser s) + 2) (buffer_len (parser s))) as [H|H].
  - split; [lia | intros _; eexists; reflexivity].
  - specialize (Hk _ (at_layout_skip b o fs 2 s AL ltac:(lia) H)).
    rewrite <- app_assoc in Hk. cbn [app] in Hk. exact Hk.
Qed.

Lemma field_ok_elems ws k :
  Forall (fun w => w = 2 \/ w = 4) ws ->
  Forall field_ok (concat (repeat (map Str ws) k)).
Proof.
  intros H. induction k as [|k IH]; simpl; [constructor|].
  apply Forall_app. split; [|exact IH].
  clear IH. induction H; simpl; constructor; assumption.
Qed.

Lemma elems_snoc (E : list field) k :
  concat (repeat E (S k)) = concat (repeat E k) ++ E.
Proof.
  induction k as [|k IH]; [simpl; rewrite app_nil_r; reflexivity|].
  change (concat (repeat E (S (S k)))) with (E ++ concat (repeat E (S k))).
  rewrite IH at 1. cbn [repeat concat]. rewrite app_assoc. reflexivity.
Qed.

Lemma strings_elems ws k :
  strings (concat (repeat (map Str ws) k)) = (k * length ws)%nat.
Proof.
  induction k as [|k IH]; [reflexivity|].
  cbn [repeat concat]. rewrite strings_app, strings_map_Str, IH. lia.
Qed.

(** The loop over a group whose declared count is within the cap reads
    every declared element. *)
Lemma d_loop_from {A} b o fs0 ws rest count cap cond body (k : M A) Q :
  0 <= count <= cap -> count < 2 ^ 16 ->
  (forall i, 0 <= i -> cond i = (i <? cap)) ->
  Forall field_ok rest -> Forall (fun w => w = 2 \/ w = 4) ws ->
  (forall i fs gs (k' : M A) Q',
     0 <= i < count ->
     Z.of_nat (strings fs) = Z.of_nat (strings fs0) + i * Z.of_nat (length ws) ->
     Forall field_ok gs ->
     decodes b o (fs ++ map Str ws) gs k' Q' ->
     decodes b o fs (map Str ws ++ gs) (body i;; k') Q') ->
  decodes b o (fs0 ++ concat (repeat (map Str ws) (Z.to_nat count))) rest k Q ->
  forall fuel i,
    0 <= i <= count -> count - i <= Z.of_nat fuel ->
    decodes b o (fs0 ++ concat (repeat (map Str ws) (Z.to_nat i)))
      (concat (repeat (map Str ws) (Z.to_nat (count - i))) ++ rest)
      (for_u16_from fuel i count cond body;; k) Q.
Proof.
  intros Hc Hc16 Hcond Hrest Hws Hbody Hk.
  induction fuel as [|fuel IH]; intros i Hi Hfuel.
  - replace (count - i) with 0 by lia. replace i with count by lia.
    cbn [Z.to_nat repeat concat app for_u16_from].
    apply (decodes_ext _ _ _ _ k); [reflexivity|]. exact Hk.
  - cbn [for_u16_from]. destruct (Z.ltb_spec i count) as [Hlt | Hge].
    + rewrite Hcond by lia.
      replace (i <? cap) with true by (symmetry; apply Z.ltb_lt; lia).
      cbn [andb].
      replace (Z.to_nat (count - i)) with (S (Z.to_nat (count - (i + 1)))) by lia.
      cbn [repeat concat]. rewrite <- app_assoc.
      apply (decodes_ext b o _ _
               (body i;; (for_u16_from fuel (u16 (i + 1)) count cond body;; k)));
        [intros s; apply bind_assoc|].
      apply Hbody; [lia | | |].
      * rewrite strings_app, strings_elems. lia.
      * apply Forall_app. split; [apply field_ok_elems; exact Hws | exact Hrest].
      * rewrite u16_small by lia. rewrite <- app_assoc, <- elems_snoc.
        replace (S (Z.to_nat i)) with (Z.to_nat (i + 1)) by lia.
        apply IH; lia.
    + cbn [andb]. replace (count - i) with 0 by lia. replace i with count by lia.
      cbn [Z.to_nat repeat concat app].
      apply (decodes_ext _ _ _ _ k); [reflexivity|]. exact Hk.
Qed.

Lemma d_loop {A} b o fs0 ws rest count cap cond body (k : M A) Q :
  0 <= count <= cap -> count < 2 ^ 16 ->
  (forall i, 0 <= i -> cond i = (i <? cap)) ->
  Forall field_ok rest -> Forall (fun w => w = 2 \/ w = 4) ws ->
  (forall i fs gs (k' : M A) Q',
     0 <= i < count ->
     Z.of_nat (strings fs) = Z.of_nat (strings fs0) + i * Z.of_nat (length ws) ->
     Forall field_ok gs ->
     decodes b o (fs ++ map Str ws) gs k' Q' ->
     decodes b o fs (map Str ws ++ gs) (body i;; k') Q') ->
  decodes b o (fs0 ++ concat (repeat (map Str ws) (Z.to_nat count))) rest k Q ->
  decodes b o fs0 (concat (repeat (map Str ws) (Z.to_nat count)) ++ rest)
          (for_u16 count cond body;; k) Q.
Proof.
  intros Hc Hc16 Hcond Hrest Hws Hbody Hk. unfold for_u16.
  pose proof (d_loop_from b o fs0 ws rest count cap cond body k Q
                Hc Hc16 Hcond Hrest Hws Hbody Hk (Z.to_nat count) 0) as H.
  rewrite Z.sub_0_r in H. cbn [Z.to_nat repeat concat] in H.
  rewrite app_nil_r in H. apply H; lia.
Qed.

Lemma strings_group_layout sh n :
  0 <= n ->
  Z.of_nat (strings (group_layout sh n))
  = Z.of_nat (strings (g_pre sh)) + n * Z.of_nat (length (g_elem sh)).
Proof.
  intros Hn. unfold group_layout.
  rewrite strings_app. cbn [strings]. rewrite strings_app, strings_elems.
  cbn [strings]. lia.
Qed.

Lemma at_layout_eq b o fs gs s : fs = gs -> at_layout b o fs s -> at_layout b o gs s.
Proof. intros ->. exact id. Qed.

Ltac widths_ok :=
  repeat (apply List.Forall_cons; [lia|]); apply List.Forall_nil.

Ltac fok :=
  repeat first
    [ apply List.Forall_nil
    | apply List.Forall_cons; [cbn [field_ok]; first [lia | auto]|]
    | apply Forall_app; split
    | apply field_ok_elems; widths_ok ].

Ltac slots_lt := rewrite ?strings_app, ?strings_elems; cbn [strings length]; unfold RESPB_MAX_ARGS; lia.

Ltac exact_body :=
  let i := fresh "i" in
  let fs := fresh "fs" in
  let gs := fresh "gs" in
  let k' := fresh "k'" in
  let Q' := fresh "Q'" in
  let Hi := fresh "Hi" in
  let Hfs := fresh "Hfs" in
  let Hgs := fresh "Hgs" in
  let H := fresh "H" in
  intros i fs gs k' Q' Hi Hfs Hgs H;
  rewrite ?strings_app, ?strings_elems in Hfs; cbn [strings length] in Hfs;
  cbn [map app];
  first
    [ apply d_str2; [lia | unfold RESPB_MAX_ARGS; lia | exact Hgs | exact H]
    | lazymatch goal with
      | |- decodes ?b ?o ?fs ?gs (bind (bind ?m ?f) ?g) ?Q =>
          apply (decodes_ext b o fs gs (bind m (fun a => bind (f a) g)));
          [intros ?; apply bind_assoc | cbv beta]
      end;
      apply d_str2; [lia | unfold RESPB_MAX_ARGS; lia | fok; exact Hgs |];
      first [apply d_str4 | apply d_str2];
        [ rewrite strings_app; cbn [strings]; lia
        | rewrite strings_app; cbn [strings]; unfold RESPB_MAX_ARGS; lia
        | exact Hgs
        | rewrite <- app_assoc; exact H ] ].

Ltac exact_final sh n :=
  eapply decodes_post; [apply d_set_argc|];
  let s' := fresh "s'" in
  let AL := fresh "AL" in
  let Ea := fresh "Ea" in
  cbv beta; intros _ s' [AL Ea]; split;
  [ eapply at_layout_eq; [|exact AL];
    unfold group_layout; cbn [g_pre g_elem g_trail];
    rewrite <- ?app_assoc; reflexivity
  | split;
    [ intros ?; rewrite Ea, strings_group_layout by lia;
      cbn [g_pre g_elem strings length]
    | intros ?; rewrite Ea ];
    unfold RESPB_MAX_ARGS in *;
    repeat match goal with
    | |- context [Z.quot ?a ?b] =>
        let v := eval vm_compute in (Z.quot a b) in
        change (Z.quot a b) with v
    end;
    split_ifs; rewrite ?size_t_small by lia; lia ].

Ltac exact_step sh n :=
  lazymatch goal with
  | |- decodes _ _ _ _ (for_u16 _ _ _;; _) _ =>
      let c := eval vm_compute in (g_cap sh) in
      let ws := eval vm_compute in (g_elem sh) in
      apply (d_loop _ _ _ ws _ n c);
      [ lia | lia
      | intros; unfold RESPB_MAX_ARGS; split_ifs; first [reflexivity | lia]
      | fok
      | widths_ok
      | exact_body
      | ]
  | |- decodes _ _ _ _ (CHECK_AVAIL 2;; _ <- read_u16_be_pos;; _) _ =>
      apply d_count; [fok|]
  | |- decodes _ _ _ _ (CHECK_AVAIL _;; pos_add _;; _) _ =>
      apply d_skip; [lia | fok |]
  | |- decodes _ _ _ _ (READ_STRING_2B _;; _) _ =>
      apply d_str2; [slots_lt | slots_lt | fok |]
  | |- decodes _ _ _ _ (READ_STRING_4B _;; _) _ =>
      apply d_str4; [slots_lt | slots_lt | fok |]
  | |- decodes _ _ _ (Skip 0 :: _) (set_argc _) _ =>
      apply d_skip0; exact_final sh n
  | |- decodes _ _ _ [] (set_argc _) _ =>
      exact_final sh n
  end.

Ltac exact_steps sh :=
  let b := fresh "b" in
  let o := fresh "o" in
  let Hn := fresh "Hn" in
  let Hr := fresh "Hr" in
  let n := fresh "n" in
  intros b o Hn;
  pose proof (be16_at_range b (layout_end b (g_pre sh) o)) as Hr;
  change (be16_at b (layout_end b (g_pre sh) o))
    with (declared_count b sh o) in Hr;
  let c := eval vm_compute in (g_cap sh) in
  change (g_cap sh) with c in *;
  set (n := declared_count b sh o) in *;
  unfold group_layout at 1; cbn [g_pre g_elem g_trail app];
  repeat (exact_step sh n;
          try change (be16_at b (layout_end b _ o)) with n).

Lemma case_MGET_exact : group_exact (mk_shape [] [2] 0) case_MGET.
Proof.
  unfold group_exact, case_MGET.
  exact_steps (mk_shape [] [2] 0).
Qed.

Lemma case_MSET_exact : group_exact (mk_shape [] [2; 4] 0) case_MSET.
Proof.
  unfold group_exact, case_MSET.
  exact_steps (mk_shape [] [2; 4] 0).
Qed.

Lemma case_LPUSH_exact : group_exact (mk_shape [Str 2] [2] 0) case_LPUSH.
Proof.
  unfold group_exact, case_LPUSH.
  exact_steps (mk_shape [Str 2] [2] 0).
Qed.

Lemma case_BLMPOP_exact : group_exact (mk_shape [Skip 8] [2] 1) case_BLMPOP.
Proof.
  unfold group_exact, case_BLMPOP.
  exact_steps (mk_shape [Skip 8] [2] 1).
Qed.

Lemma case_LMPOP_exact : group_exact (mk_shape [] [2] 1) case_LMPOP.
Proof.
  unfold group_exact, case_LMPOP.
  exact_steps (mk_shape [] [2] 1).
Qed.

Lemma case_BLPOP_exact : group_exact (mk_shape [] [2] 8) case_BLPOP.
Proof.
  unfold group_exact, case_BLPOP.
  exact_steps (mk_shape [] [2] 8).
Qed.

Lemma case_HSET_exact : group_exact (mk_shape [Str 2] [2; 4] 0) case_HSET.
Proof.
  unfold group_exact, case_HSET.
  exact_steps (mk_shape [Str 2] [2; 4] 0).
Qed.

Lemma case_ZINTERSTORE_exact : group_exact (mk_shape [Str 2] [2] 1) case_ZINTERSTORE.
Proof.
  unfold group_exact, case_ZINTERSTORE.
  exact_steps (mk_shape [Str 2] [2] 1).
Qed.

Lemma case_BITOP_exact : group_exact (mk_shape [Skip 1; Str 2] [2] 0) case_BITOP.
Proof.
  unfold group_exact, case_BITOP.
  exact_steps (mk_shape [Skip 1; Str 2] [2] 0).
Qed.

Lemma case_XREAD_exact : group_exact (mk_shape [] [2; 2] 0) case_XREAD.
Proof.
  unfold group_exact, case_XREAD.
  exact_steps (mk_shape [] [2; 2] 0).
Qed.

Lemma case_XREADGROUP_exact : group_exact (mk_shape [Str 2; Str 2] [2; 2] 0) case_XREADGROUP.
Proof.
  unfold group_exact, case_XREADGROUP.
  exact_steps (mk_shape [Str 2; Str 2] [2; 2] 0).
Qed.

Ltac exact_lookup :=
  first [ exact case_MGET_exact | exact case_LPUSH_exact
        | exact case_MSET_exact | exact case_HSET_exact
        | exact case_BLMPOP_exact | exact case_LMPOP_exact
        | exact case_BLPOP_exact | exact case_ZINTERSTORE_exact
        | exact case_BITOP_exact | exact case_XREAD_exact
        | exact case_XREADGROUP_exact ].

Lemma plain_groups_spec :
  Forall (fun g =>
            0 < g_cap (snd g) /\
            forall op, In op (fst g) -> group_exact (snd g) (respb_switch op))
         plain_groups.
Proof.
  unfold plain_groups, repeated_groups.
  cbn [filter snd g_trail negb Z.eqb Pos.eqb].
  repeat (apply List.Forall_cons;
          [ cbn [fst snd]; split;
            [ reflexivity
            | let op := fresh "op" in
              let H := fresh "H" in
              intros op H; cbn [In] in H;
              repeat (destruct H as [<- | H]; [exact_lookup|]);
              contradiction ] |]).
  apply List.Forall_nil.
Qed.

Lemma group_within_cap_run (p : respb_parser_t) (c : respb_command_t)
  (sh : group_shape) :
  parser_ok p ->
  length (args c) = Z.to_nat RESPB_MAX_ARGS ->
  pos p + 4 <= buffer_len p ->
  plain_group_at (buffer p) (pos p) = Some sh ->
  let n := declared_count (buffer p) sh (pos p + 4) in
  let fs := group_layout sh n in
  let e := layout_end (buffer p) fs (pos p + 4) in
  n <= g_cap sh ->
  (e <= buffer_len p ->
   exists p' c',
     respb_parse_command p c = (Returned 1, p', c') /\
     pos p' = e /\
     take (strings fs) (args c') = layout_args (buffer p) fs (pos p + 4) /\
     (n < g_cap sh -> argc c' = Z.of_nat (strings fs)) /\
     (n = g_cap sh -> argc c' = RESPB_MAX_ARGS)) /\
  (buffer_len p < e ->
   exists p' c', respb_parse_command p c = (Returned 0, p', c')).
Proof.
  intros Hp Hlen Hh Hf n fs e Hn.
  unfold plain_group_at in Hf.
  destruct (find _ plain_groups) as [[labels sh']|] eqn:Ef; [|discriminate].
  simpl in Hf. inversion Hf; subst sh'. clear Hf.
  apply find_some in Ef. destruct Ef as [Hin Hop]. cbn [fst] in Hop.
  apply case_of_true in Hop.
  pose proof plain_groups_spec as F. rewrite List.Forall_forall in F.
  destruct (F _ Hin) as (_ & Hsw). cbn [fst snd] in Hsw.
  specialize (Hsw _ Hop (buffer p) (pos p + 4) Hn).
  pose proof (at_layout_after_header p c Hp Hlen Hh) as AL.
  destruct (Hsw _ AL) as [D1 D2]. cbn [app] in D1, D2.
  fold n fs e in D1, D2.
  unfold respb_parse_command.
  rewrite (body_run {| parser := p; cmd := c |} Hp Hh). cbn [parser cmd].
  split.
  - intros He. destruct (D1 He) as ([] & s' & E & (V' & _ & _ & P' & T') & A').
    rewrite E. eexists _, _. split; [reflexivity|]. psimpl.
    split; [exact P'|]. split; [exact T' | exact A'].
  - intros He. destruct (D2 He) as (s' & E). rewrite E.
    eexists _, _. reflexivity.
Qed.

(** For the repeated-group commands (the EVAL family apart) with a
    declared count within the cap of the loop, respb_parse_command reads
    all the declared elements: once the header is there, the call succeeds
    if and only if the leading fields, the count, the declared elements and
    the trailing field lie inside the buffer; then the cursor is at their
    end and their strings are the first slots of args[] in order, and
    argc is their number when the count is below the cap.  When the buffer
    ends before the payload does, the call reports incomplete. *)
Theorem group_within_cap_decoded (p : respb_parser_t) (c : respb_command_t)
  (sh : group_shape) :
  parser_ok p ->
  length (args c) = Z.to_nat RESPB_MAX_ARGS ->
  pos p + 4 <= buffer_len p ->
  plain_group_at (buffer p) (pos p) = Some sh ->
  let n := declared_count (buffer p) sh (pos p + 4) in
  let fs := group_layout sh n in
  let e := layout_end (buffer p) fs (pos p + 4) in
  n <= g_cap sh ->
  (e <= buffer_len p ->
   exists p' c',
     respb_parse_command p c = (Returned 1, p', c') /\
     pos p' = e /\
     take (strings fs) (args c') = layout_args (buffer p) fs (pos p + 4) /\
     (n < g_cap sh -> argc c' = Z.of_nat (strings fs))) /\
  (buffer_len p < e ->
   exists p' c', respb_parse_command p c = (Returned 0, p', c')).
Proof.
  intros Hp Hlen Hh Hf n fs e Hn.
  destruct (group_within_cap_run p c sh Hp Hlen Hh Hf Hn) as [H1 H2].
  split; [|exact H2].
  intros He. destruct (H1 He) as (p' & c' & E & P & T & A & _).
  exists p', c'. repeat split; assumption.
Qed.

Lemma group_within_cap_decoded_witness :
  let b := bytes [0; 12; 0; 0; 0; 2; 0; 1; 97; 0; 2; 98; 99] in
  exists p' c',
    respb_parse_command (respb_parser_init b 13) zero_command
      = (Returned 1, p', c') /\
    pos p' = 13 /\ argc c' = 2.
Proof.
  intros b.
  destruct (group_within_cap_decoded (respb_parser_init b 13) zero_command
              (mk_shape [] [2] 0)) as [H _].
  - unfold parser_ok, PTRDIFF_MAX. vm_compute. repeat split; discriminate.
  - reflexivity.
  - vm_compute. discriminate.
  - vm_compute. reflexivity.
  - vm_compute. discriminate.
  - destruct H as (p' & c' & E & P & _ & A).
    + vm_compute. discriminate.
    + exists p', c'. split; [exact E|]. split; [exact P|]. apply A.
      vm_compute. reflexivity.
Defined.

(** *** The header *)

Lemma header_fields_run (p p' : respb_parser_t)
  (c c' : respb_command_t) (code : Z) :
  parser_ok p ->
  pos p + 4 <= buffer_len p ->
  respb_parse_command p c = (Returned code, p', c') ->
  opcode c' = be16_at (buffer p) (pos p) /\
  mux_id c' = be16_at (buffer p) (pos p + 2) /\
  raw_payload c' = {| base := buffer p; off := pos p + 4 |}.
Proof.
  intros Hp Hh. unfold respb_parse_command.
  rewrite (body_run {| parser := p; cmd := c |} Hp Hh). cbn [parser cmd].
  set (op := be16_at (buffer p) (pos p)).
  assert (V4 : valid (after_header p c)).
  { destruct Hp as (H1 & H2 & H3). unfold valid, after_header. psimpl. lia. }
  destruct (in_catalogue op) eqn:Ecat.
  - pose proof (respb_switch_catalogue op Ecat (after_header p c) V4) as H.
    destruct (respb_switch op (after_header p c)) as [[[] | k |] s5];
      simpl in H.
    + destruct H as [(_ & _ & _ & E4 & E5 & E6) _];
        [unfold after_header; psimpl; lia|].
      intros E. inversion E; subst. psimpl. rewrite E4, E5, E6.
      repeat split.
    + destruct H as [_ (_ & _ & _ & E4 & E5 & E6)];
        [unfold after_header; psimpl; lia|].
      intros E. inversion E; subst. rewrite E4, E5, E6. repeat split.
    + intros E. discriminate E.
  - rewrite (respb_switch_default op Ecat). unfold case_default, return_.
    intros E. inversion E; subst. repeat split.
Qed.

(** Whatever respb_parse_command returns once the 4-byte header is there
    (success, incomplete or error), the record holds the decoded header:
    opcode and mux_id are the two big-endian 16-bit fields at the cursor
    and raw_payload points right after them. *)
Theorem header_decoded_whatever_the_result (p p' : respb_parser_t)
  (c c' : respb_command_t) (code : Z) :
  parser_ok p ->
  pos p + 4 <= buffer_len p ->
  respb_parse_command p c = (Returned code, p', c') ->
  opcode c' = be16_at (buffer p) (pos p) /\
  mux_id c' = be16_at (buffer p) (pos p + 2) /\
  raw_payload c' = {| base := buffer p; off := pos p + 4 |}.
Proof. exact (header_fields_run p p' c c' code). Qed.

Lemma header_decoded_whatever_the_result_witness :
  let p := respb_parser_init (bytes [190; 239; 0; 7]) 4 in
  opcode (snd (respb_parse_command p zero_command)) = 0xBEEF /\
  mux_id (snd (respb_parse_command p zero_command)) = 7.
Proof.
  intros p.
  destruct (header_decoded_whatever_the_result p
              (snd (fst (respb_parse_command p zero_command)))
              zero_command (snd (respb_parse_command p zero_command)) (-1))
    as (H1 & H2 & _).
  - unfold parser_ok, PTRDIFF_MAX. vm_compute. repeat split; discriminate.
  - vm_compute. discriminate.
  - vm_compute. reflexivity.
  - split; [exact H1 | exact H2].
Defined.

(** respb_parse_header only peeks: it returns 0 and leaves the
    out-parameters alone when fewer than 4 bytes remain, and otherwise
    returns 1 with the two big-endian header fields; in both cases the
    parser, its cursor included, is left as it was. *)
Theorem parse_header_peeks (p : respb_parser_t) (opcode0 mux0 : Z) :
  parser_ok p ->
  respb_parse_header p opcode0 mux0 =
  if buffer_len p <? pos p + 4
  then (Returned 0, p, opcode0, mux0)
  else (Returned 1, p, be16_at (buffer p) (pos p),
        be16_at (buffer p) (pos p + 2)).
Proof.
  intros (H1 & H2 & H3). unfold PTRDIFF_MAX in H2.
  unfold respb_parse_header. cbv zeta.
  unfold bind at 1, CHECK_AVAIL. psimpl. rewrite size_t_small by lia.
  rewrite Z.gtb_ltb.
  destruct (Z.ltb_spec (buffer_len p) (pos p + 4)) as [Hlt | Hge];
    [destruct p; reflexivity|].
  unfold bind, get, cursor, ret. psimpl.
  rewrite !read_u16_be_at by lia.
  replace (pos p + 0) with (pos p) by lia. destruct p; reflexivity.
Qed.

Lemma parse_header_peeks_witness :
  respb_parse_header (respb_parser_init (bytes [0; 12; 0; 3; 0; 0]) 6) 0 0
  = (Returned 1, respb_parser_init (bytes [0; 12; 0; 3; 0; 0]) 6, 12, 3).
Proof.
  rewrite parse_header_peeks.
  - reflexivity.
  - unfold parser_ok, PTRDIFF_MAX. vm_compute. repeat split; discriminate.
Defined.

(** *** RESP passthrough *)

Lemma case_RESP_PASSTHROUGH_run s :
  valid s ->
  let p := pos (parser s) in
  let n := be32_at (buffer (parser s)) p in
  case_RESP_PASSTHROUGH s =
  if p + 4 >? buffer_len (parser s) then (Ret 0, s)
  else if p + 4 + n >? buffer_len (parser s) then
    (Ret 0, set_cmd (set_pos s (p + 4)) (with_resp_length (cmd s) n))
  else
    (Next tt,
     {| parser := {| buffer := buffer (parser s);
                     buffer_len := buffer_len (parser s);
                     pos := p + 4 + n |};
        cmd := with_argc
                 (with_resp_data (with_resp_length (cmd s) n)
                    {| base := buffer (parser s); off := p + 4 |})
                 0 |}).
Proof.
  intros (V1 & V2 & V3). unfold PTRDIFF_MAX in V2. cbv zeta.
  pose proof (be32_at_range (buffer (parser s)) (pos (parser s))) as Hn.
  unfold case_RESP_PASSTHROUGH.
  unfold bind at 1, CHECK_AVAIL at 1. rewrite size_t_small by lia.
  destruct (Z.gtb_spec (pos (parser s) + 4) (buffer_len (parser s))) as [H1|H1];
    [reflexivity|].
  unfold bind at 1, read_u32_be_pos, bind at 1, get at 1, cursor at 1.
  rewrite read_u32_be_at by lia.
  replace (pos (parser s) + 0) with (pos (parser s)) by lia.
  unfold bind at 1, modify_cmd at 1.
  unfold bind at 1, pos_add at 1.
  unfold bind at 1, get at 1.
  unfold bind at 1, CHECK_AVAIL at 1. psimpl.
  rewrite (size_t_small (pos (parser s) + 4)) by lia.
  rewrite size_t_small by lia.
  destruct (Z.gtb_spec (pos (parser s) + 4 + be32_at (buffer (parser s)) (pos (parser s)))
              (buffer_len (parser s))) as [H2|H2]; [reflexivity|].
  unfold bind, get, set_argc, modify_cmd, pos_add, cursor, set_cmd, set_pos.
  psimpl. rewrite !size_t_small by lia.
  replace (pos (parser s) + 4 + 0) with (pos (parser s) + 4) by lia.
  reflexivity.
Qed.

(** A RESP-passthrough frame (opcode 0xFFFF) is decoded exactly: once the
    8 bytes of header and length are there, the call succeeds if and only
    if the declared RESP text lies inside the buffer; then resp_length is
    the big-endian 32-bit length, resp_data points at the text right
    after it, the cursor ends after the text and argc is 0.  Otherwise the
    call reports incomplete. *)
Theorem passthrough_decoded (p : respb_parser_t) (c : respb_command_t) :
  parser_ok p ->
  pos p + 4 <= buffer_len p ->
  be16_at (buffer p) (pos p) = RESPB_OP_RESP_PASSTHROUGH ->
  let n := be32_at (buffer p) (pos p + 4) in
  (pos p + 8 + n <= buffer_len p ->
   exists p' c',
     respb_parse_command p c = (Returned 1, p', c') /\
     pos p' = pos p + 8 + n /\
     resp_length c' = n /\
     resp_data c' = {| base := buffer p; off := pos p + 8 |} /\
     arg_bytes {| data := resp_data c'; len := resp_length c' |}
       = Some (take (Z.to_nat n) (drop (Z.to_nat (pos p + 8)) (buffer p))) /\
     argc c' = 0) /\
  (buffer_len p < pos p + 8 + n ->
   exists p' c', respb_parse_command p c = (Returned 0, p', c')).
Proof.
  intros Hp Hh Hop n. pose proof Hp as (H1 & H2 & H3). unfold PTRDIFF_MAX in H2.
  pose proof (be32_at_range (buffer p) (pos p + 4)) as Hn. fold n in Hn.
  assert (V4 : valid (after_header p c)).
  { unfold valid, after_header, PTRDIFF_MAX. psimpl. lia. }
  unfold respb_parse_command.
  rewrite (body_run {| parser := p; cmd := c |} Hp Hh). cbn [parser cmd].
  rewrite Hop.
  change (respb_switch RESPB_OP_RESP_PASSTHROUGH) with case_RESP_PASSTHROUGH.
  rewrite (case_RESP_PASSTHROUGH_run _ V4). cbv zeta.
  change (pos (parser (after_header p c))) with (pos p + 4).
  change (buffer (parser (after_header p c))) with (buffer p).
  change (buffer_len (parser (after_header p c))) with (buffer_len p).
  fold n.
  split.
  - intros Hfit.
    destruct (Z.gtb_spec (pos p + 4 + 4) (buffer_len p)) as [|_]; [lia|].
    destruct (Z.gtb_spec (pos p + 4 + 4 + n) (buffer_len p)) as [|_]; [lia|].
    eexists _, _. split; [reflexivity|]. psimpl.
    split; [lia|]. split; [reflexivity|].
    split; [f_equal; lia|]. split; [|reflexivity].
    unfold arg_bytes, load_bytes. cbn [data len base off].
    replace ((pos p + 4 + 4 <? 0) || (n <? 0)
             || (Z.of_nat (length (buffer p)) <? pos p + 4 + 4 + n)) with false.
    + do 3 f_equal. lia.
    + symmetry. apply orb_false_iff. split; [apply orb_false_iff; split|];
        apply Z.ltb_ge; lia.
  - intros Hshort.
    destruct (Z.gtb_spec (pos p + 4 + 4) (buffer_len p)) as [|_];
      [eexists _, _; reflexivity|].
    destruct (Z.gtb_spec (pos p + 4 + 4 + n) (buffer_len p)) as [|]; [|lia].
    eexists _, _. reflexivity.
Qed.

Lemma passthrough_decoded_witness :
  let b := bytes [255; 255; 0; 0; 0; 0; 0; 3; 43; 79; 75] in
  exists p' c',
    respb_parse_command (respb_parser_init b 11) zero_command
      = (Returned 1, p', c') /\
    pos p' = 11 /\ resp_length c' = 3.
Proof.
  intros b.
  destruct (passthrough_decoded (respb_parser_init b 11) zero_command) as [H _].
  - unfold parser_ok, PTRDIFF_MAX. vm_compute. repeat split; discriminate.
  - vm_compute. discriminate.
  - vm_compute. reflexivity.
  - destruct H as (p' & c' & E & P & L & _).
    + vm_compute. discriminate.
    + exists p', c'. split; [exact E|]. split; [exact P | exact L].
Defined.

End RespbSafety.

(** ** The latency metrics *)

Section MetricsFacts.
Import CInt Metrics.

Lemma compare_uint64_le x y : ordered_by compare_uint64 x y <-> x <= y.
Proof.
  unfold ordered_by, compare_uint64.
  destruct (Z.ltb_spec x y); [lia|]. destruct (Z.gtb_spec x y); lia.
Qed.

#[local] Instance compare_uint64_total : Total (ordered_by compare_uint64).
Proof. intros x y. rewrite !compare_uint64_le. lia. Qed.

#[local] Instance compare_uint64_trans : Transitive (ordered_by compare_uint64).
Proof. intros x y z. rewrite !compare_uint64_le. lia. Qed.

Lemma strongly_sorted_weaken (R1 R2 : relation Z) l :
  (forall x y, R1 x y -> R2 x y) ->
  StronglySorted R1 l -> StronglySorted R2 l.
Proof.
  intros HR. induction 1 as [|a l Hs IH Ha]; constructor; [exact IH|].
  eapply Forall_impl; [exact Ha|]. intros y. apply HR.
Qed.

Lemma qsort_sorted a : StronglySorted Z.le (qsort compare_uint64 a).
Proof.
  unfold qsort.
  eapply strongly_sorted_weaken; [|apply StronglySorted_merge_sort; apply _].
  intros x y. apply compare_uint64_le.
Qed.

Lemma qsort_perm a : qsort compare_uint64 a ≡ₚ a.
Proof. apply merge_sort_Permutation. Qed.

Lemma sorted_lookup_le (l : list Z) i j x y :
  StronglySorted Z.le l -> (i <= j)%nat ->
  l !! i = Some x -> l !! j = Some y -> x <= y.
Proof.
  intros Hs. revert i j. induction Hs as [|a l Hs IH Ha]; intros i j Hij Hi Hj.
  - rewrite lookup_nil in Hi. discriminate.
  - destruct i as [|i], j as [|j]; simpl in *.
    + injection Hi as <-. injection Hj as <-. lia.
    + injection Hi as <-. rewrite Forall_forall in Ha. apply Ha.
      eapply list_elem_of_lookup_2. exact Hj.
    + lia.
    + eapply IH; [|exact Hi|exact Hj]. lia.
Qed.

Ltac msimpl :=
  cbn [latency_samples latency_sample_count min_latency_ns max_latency_ns
       total_latency_ns avg_latency_ns p50_latency_ns p90_latency_ns
       p99_latency_ns].

Lemma metrics_inv_init : metrics_inv benchmark_metrics_init.
Proof.
  unfold metrics_inv, stored_samples, benchmark_metrics_init. msimpl.
  split; [apply repeat_length|]. split; [unfold MAX_LATENCY_SAMPLES; lia|].
  change (Z.to_nat 0) with 0%nat. rewrite take_0. constructor.
Qed.

Lemma metrics_inv_record m l :
  metrics_inv m -> metrics_inv (benchmark_record_latency m l).
Proof.
  intros (HL & HC & HF). unfold metrics_inv, stored_samples in *.
  unfold benchmark_record_latency. msimpl.
  unfold MAX_LATENCY_SAMPLES in *.
  set (mn := if l <? min_latency_ns m then l else min_latency_ns m).
  set (mx := if l >? max_latency_ns m then l else max_latency_ns m).
  assert (Hmn : mn <= l /\ mn <= min_latency_ns m).
  { subst mn. destruct (Z.ltb_spec l (min_latency_ns m)); lia. }
  assert (Hmx : l <= mx /\ max_latency_ns m <= mx).
  { subst mx. destruct (Z.gtb_spec l (max_latency_ns m)); lia. }
  assert (HF' : Forall (fun x => mn <= x <= mx)
                  (take (Z.to_nat (latency_sample_count m)) (latency_samples m))).
  { eapply Forall_impl; [exact HF|]. cbv beta. intros x Hx. lia. }
  destruct (Z.ltb_spec (latency_sample_count m) 10000) as [Hlt|Hge].
  - rewrite length_insert. rewrite size_t_small by lia.
    split; [exact HL|]. split; [lia|].
    replace (Z.to_nat (latency_sample_count m + 1))
      with (S (Z.to_nat (latency_sample_count m))) by lia.
    erewrite take_S_r; [|apply list_lookup_insert_eq; lia].
    rewrite take_insert_ge by lia.
    apply Forall_app. split; [exact HF'|]. constructor; [lia|constructor].
  - split; [exact HL|]. split; [lia|]. exact HF'.
Qed.

Lemma metrics_inv_fold ls m :
  metrics_inv m -> metrics_inv (fold_left benchmark_record_latency ls m).
Proof.
  revert m. induction ls as [|l ls IH]; intros m Hm; simpl; [exact Hm|].
  apply IH. apply metrics_inv_record. exact Hm.
Qed.

Lemma metrics_inv_record_all ls : metrics_inv (record_all ls).
Proof. apply metrics_inv_fold. apply metrics_inv_init. Qed.

Lemma percentile_index n k :
  0 < n <= MAX_LATENCY_SAMPLES -> 0 <= k < 100 ->
  0 <= Z.quot (size_t (n * k)) 100 < n.
Proof.
  unfold MAX_LATENCY_SAMPLES. intros Hn Hk.
  rewrite size_t_small by nia.
  rewrite Z.quot_div_nonneg by nia.
  split; [apply Z.div_pos; nia|].
  apply Z.div_lt_upper_bound; nia.
Qed.

Lemma percentile_index_mono n j k :
  0 < n <= MAX_LATENCY_SAMPLES -> 0 <= j <= k -> k < 100 ->
  Z.quot (size_t (n * j)) 100 <= Z.quot (size_t (n * k)) 100.
Proof.
  unfold MAX_LATENCY_SAMPLES. intros Hn Hj Hk.
  rewrite !size_t_small by nia.
  rewrite !Z.quot_div_nonneg by nia.
  apply Z.div_le_mono; nia.
Qed.

(** The sorted prefix of the array after [benchmark_compute_percentiles]. *)
Lemma compute_percentiles_samples m :
  metrics_inv m -> 0 < latency_sample_count m ->
  stored_samples (benchmark_compute_percentiles m)
  = qsort compare_uint64 (stored_samples m).
Proof.
  intros (HL & HC & HF) Hn. unfold benchmark_compute_percentiles, stored_samples.
  destruct (Z.eqb_spec (latency_sample_count m) 0); [lia|]. msimpl.
  rewrite take_app_length'; [reflexivity|].
  rewrite (Permutation_length (qsort_perm _)).
  rewrite length_take. unfold MAX_LATENCY_SAMPLES in *. lia.
Qed.

Lemma at_index_sorted_prefix (a rest : list Z) i :
  0 <= i < Z.of_nat (length a) ->
  exists x, a !! Z.to_nat i = Some x /\ at_index (a ++ rest) i = x.
Proof.
  intros Hi. destruct (lookup_lt_is_Some_2 a (Z.to_nat i)) as [x Hx]; [lia|].
  exists x. split; [exact Hx|]. unfold at_index.
  rewrite lookup_app_l by lia. rewrite Hx. reflexivity.
Qed.

(** The record keeps the first [MAX_LATENCY_SAMPLES] latencies it was
    given, in order, and counts them. *)
Lemma stored_fold ls m :
  metrics_inv m ->
  latency_sample_count (fold_left benchmark_record_latency ls m)
  = Z.min (latency_sample_count m + Z.of_nat (length ls)) MAX_LATENCY_SAMPLES /\
  stored_samples (fold_left benchmark_record_latency ls m)
  = take (Z.to_nat MAX_LATENCY_SAMPLES) (stored_samples m ++ ls).
Proof.
  revert m. induction ls as [|l ls IH]; intros m Hm.
  - destruct Hm as (HL & HC & _). cbn [fold_left length].
    rewrite app_nil_r. split; [lia|].
    unfold stored_samples. rewrite take_take. f_equal. lia.
  - cbn [fold_left length].
    destruct (IH _ (metrics_inv_record m l Hm)) as [IHc IHs].
    rewrite IHc, IHs. clear IH IHc IHs.
    destruct Hm as (HL & HC & _).
    unfold stored_samples, benchmark_record_latency. msimpl.
    unfold MAX_LATENCY_SAMPLES in *.
    destruct (Z.ltb_spec (latency_sample_count m) 10000) as [Hlt|Hge].
    + rewrite size_t_small by lia. split; [lia|].
      replace (Z.to_nat (latency_sample_count m + 1))
        with (S (Z.to_nat (latency_sample_count m))) by lia.
      erewrite take_S_r; [|apply list_lookup_insert_eq; lia].
      rewrite take_insert_ge by lia. rewrite <- app_assoc. reflexivity.
    + split; [lia|].
      replace (latency_sample_count m) with 10000 by lia.
      rewrite !take_app_le by (rewrite length_take; lia). reflexivity.
Qed.

Lemma sample_count_all latencies :
  latency_sample_count (record_all latencies)
  = Z.min (Z.of_nat (length latencies)) MAX_LATENCY_SAMPLES.
Proof.
  unfold record_all.
  destruct (stored_fold latencies _ metrics_inv_init) as [H _].
  rewrite H. reflexivity.
Qed.

Lemma stored_samples_all latencies :
  stored_samples (record_all latencies)
  = take (Z.to_nat MAX_LATENCY_SAMPLES) latencies.
Proof.
  unfold record_all.
  destruct (stored_fold latencies _ metrics_inv_init) as [_ H].
  rewrite H. reflexivity.
Qed.

(** C7: after any sequence of benchmark_record_latency calls that leaves
    at least 100 samples in the record, benchmark_compute_percentiles sorts
    the stored samples ascending (keeping them as a multiset), picks
    samples[count*P/100] for P in 50, 90, 99, and the results satisfy
    min_latency_ns <= p50 <= p90 <= p99 <= max_latency_ns. *)
Theorem C7_percentiles_ordered (latencies : list Z) :
  let m := record_all latencies in
  let m' := benchmark_compute_percentiles m in
  100 <= latency_sample_count m ->
  StronglySorted Z.le (stored_samples m') /\
  stored_samples m' ≡ₚ stored_samples m /\
  p50_latency_ns m' =
    at_index (latency_samples m') (Z.quot (latency_sample_count m * 50) 100) /\
  p90_latency_ns m' =
    at_index (latency_samples m') (Z.quot (latency_sample_count m * 90) 100) /\
  p99_latency_ns m' =
    at_index (latency_samples m') (Z.quot (latency_sample_count m * 99) 100) /\
  min_latency_ns m' <= p50_latency_ns m' /\
  p50_latency_ns m' <= p90_latency_ns m' /\
  p90_latency_ns m' <= p99_latency_ns m' /\
  p99_latency_ns m' <= max_latency_ns m'.
Proof.
  intros m m' Hn.
  pose proof (metrics_inv_record_all latencies) as Hinv. fold m in Hinv.
  pose proof Hinv as (HL & HC & HF).
  assert (Hs : stored_samples m' = qsort compare_uint64 (stored_samples m)).
  { apply compute_percentiles_samples; [exact Hinv | lia]. }
  split; [rewrite Hs; apply qsort_sorted|].
  split; [rewrite Hs; apply qsort_perm|].
  subst m'. unfold benchmark_compute_percentiles in *.
  destruct (Z.eqb_spec (latency_sample_count m) 0) as [|Hnz]; [lia|]. msimpl.
  cbv zeta. set (cnt := latency_sample_count m) in *.
  set (sorted := qsort compare_uint64 (take (Z.to_nat cnt) (latency_samples m))) in *.
  clear Hs. set (rest := drop (Z.to_nat cnt) (latency_samples m)).
  assert (Hlen : Z.of_nat (length sorted) = cnt).
  { subst sorted. rewrite (Permutation_length (qsort_perm _)).
    rewrite length_take. unfold MAX_LATENCY_SAMPLES in *. lia. }
  assert (Hsorted : StronglySorted Z.le sorted) by apply qsort_sorted.
  assert (Hbound : Forall (fun x => min_latency_ns m <= x <= max_latency_ns m) sorted).
  { subst sorted. rewrite qsort_perm. exact HF. }
  rewrite Forall_forall in Hbound.
  assert (Hsz : forall k, 0 <= k < 100 -> size_t (cnt * k) = cnt * k).
  { intros k Hk. apply size_t_small. unfold MAX_LATENCY_SAMPLES in *. nia. }
  pose proof (percentile_index cnt 50 ltac:(lia) ltac:(lia)) as H50.
  pose proof (percentile_index cnt 90 ltac:(lia) ltac:(lia)) as H90.
  pose proof (percentile_index cnt 99 ltac:(lia) ltac:(lia)) as H99.
  pose proof (percentile_index_mono cnt 50 90 ltac:(lia) ltac:(lia) ltac:(lia)) as M1.
  pose proof (percentile_index_mono cnt 90 99 ltac:(lia) ltac:(lia) ltac:(lia)) as M2.
  rewrite (Hsz 50), (Hsz 90), (Hsz 99) in * by lia.
  destruct (at_index_sorted_prefix sorted rest (Z.quot (cnt * 50) 100))
    as (x50 & L50 & E50); [lia|].
  destruct (at_index_sorted_prefix sorted rest (Z.quot (cnt * 90) 100))
    as (x90 & L90 & E90); [lia|].
  destruct (at_index_sorted_prefix sorted rest (Z.quot (cnt * 99) 100))
    as (x99 & L99 & E99); [lia|].
  rewrite E50, E90, E99.
  repeat split.
  - apply Hbound. eapply list_elem_of_lookup_2. exact L50.
  - eapply sorted_lookup_le; [exact Hsorted| |exact L50|exact L90]. lia.
  - eapply sorted_lookup_le; [exact Hsorted| |exact L90|exact L99]. lia.
  - apply Hbound. eapply list_elem_of_lookup_2. exact L99.
Qed.

Lemma C7_percentiles_ordered_witness :
  let m := record_all (map Z.of_nat (seq 1 120)) in
  let m' := benchmark_compute_percentiles m in
  100 <= latency_sample_count m /\
  min_latency_ns m' <= p50_latency_ns m' /\
  p50_latency_ns m' <= p90_latency_ns m' /\
  p90_latency_ns m' <= p99_latency_ns m' /\
  p99_latency_ns m' <= max_latency_ns m'.
Proof.
  assert (H : 100 <= latency_sample_count (record_all (map Z.of_nat (seq 1 120)))).
  { rewrite sample_count_all, length_map, length_seq.
    unfold MAX_LATENCY_SAMPLES. lia. }
  split; [exact H|].
  apply (C7_percentiles_ordered (map Z.of_nat (seq 1 120))). exact H.
Defined.

(** The part of C5 the code keeps: the sample count never exceeds the
    cap, and the running total is the sum of every latency passed in
    (in [uint64_t] arithmetic), stored or not. *)
Lemma sample_count_capped latencies :
  0 <= latency_sample_count (record_all latencies) <= MAX_LATENCY_SAMPLES.
Proof. apply (metrics_inv_record_all latencies). Qed.

Lemma u64_idem z : u64 (u64 z) = u64 z.
Proof. unfold u64, wrap. apply Z.mod_mod. lia. Qed.

Lemma total_latency_fold ls m :
  u64 (total_latency_ns m) = total_latency_ns m ->
  total_latency_ns (fold_left benchmark_record_latency ls m)
  = u64 (total_latency_ns m + sum_list ls).
Proof.
  revert m. induction ls as [|l ls IH]; intros m Hm; simpl.
  - rewrite Z.add_0_r. symmetry. exact Hm.
  - rewrite IH by (unfold benchmark_record_latency; msimpl; apply u64_idem).
    unfold benchmark_record_latency. msimpl.
    unfold u64, wrap. rewrite Zplus_mod_idemp_l. f_equal. lia.
Qed.

Lemma total_latency_all latencies :
  total_latency_ns (record_all latencies) = u64 (sum_list latencies).
Proof. unfold record_all. rewrite total_latency_fold; reflexivity. Qed.

(** C5, the claim as written fails for sequences of calls that go past
    the cap: after MAX_LATENCY_SAMPLES + 1 calls with latency 1 the record
    stores 10000 samples whose sum is 10000, the last sample is dropped,
    yet total_latency_ns is 10001: benchmark_record_latency adds every
    latency to the running total, outside the guard of the store. *)
Theorem C5_total_counts_dropped_sample :
  let m := record_all (repeat 1 (Z.to_nat (MAX_LATENCY_SAMPLES + 1))) in
  latency_sample_count m = MAX_LATENCY_SAMPLES /\
  sum_list (stored_samples m) = 10000 /\
  total_latency_ns m = 10001 /\
  total_latency_ns m <> sum_list (stored_samples m).
Proof.
  cbv zeta. rewrite sample_count_all, stored_samples_all, total_latency_all.
  rewrite repeat_length.
  assert (E1 : sum_list (take (Z.to_nat MAX_LATENCY_SAMPLES)
                 (repeat 1 (Z.to_nat (MAX_LATENCY_SAMPLES + 1)))) = 10000)
    by (vm_compute; reflexivity).
  assert (E2 : u64 (sum_list (repeat 1 (Z.to_nat (MAX_LATENCY_SAMPLES + 1))))
               = 10001) by (vm_compute; reflexivity).
  rewrite E1, E2. unfold MAX_LATENCY_SAMPLES.
  split; [lia|]. split; [reflexivity|]. split; [reflexivity|]. discriminate.
Qed.

(** *** The guarded calls of the benchmark loops *)

Lemma sample_command_on flag m l :
  flag <> 0 ->
  sample_command flag m l
  = if latency_sample_count m <? MAX_LATENCY_SAMPLES
    then benchmark_record_latency m l else m.
Proof.
  intros Hf. unfold sample_command.
  replace (flag =? 0) with false by (symmetry; apply Z.eqb_neq; exact Hf).
  reflexivity.
Qed.

Lemma sample_off ls : forall m, fold_left (sample_command 0) ls m = m.
Proof. induction ls as [|l ls IH]; intros m; [reflexivity | apply IH]. Qed.

(** With sampling on, the loops make the calls for the first commands
    only, until the cap is reached. *)
Lemma sample_fold flag ls : forall m,
  flag <> 0 -> metrics_inv m ->
  fold_left (sample_command flag) ls m
  = fold_left benchmark_record_latency
      (take (Z.to_nat (MAX_LATENCY_SAMPLES - latency_sample_count m)) ls) m.
Proof.
  induction ls as [|l ls IH]; intros m Hf Hm.
  - rewrite take_nil. reflexivity.
  - pose proof Hm as (HL & HC & _).
    change (fold_left (sample_command flag) (l :: ls) m)
      with (fold_left (sample_command flag) ls (sample_command flag m l)).
    rewrite (sample_command_on flag m l Hf).
    destruct (Z.ltb_spec (latency_sample_count m) MAX_LATENCY_SAMPLES)
      as [Hlt | Hge].
    + rewrite IH by (try exact Hf; apply metrics_inv_record; exact Hm).
      assert (Ec : latency_sample_count (benchmark_record_latency m l)
                   = latency_sample_count m + 1).
      { unfold benchmark_record_latency. msimpl.
        replace (latency_sample_count m <? MAX_LATENCY_SAMPLES) with true
          by (symmetry; apply Z.ltb_lt; exact Hlt).
        apply size_t_small. unfold MAX_LATENCY_SAMPLES in *. lia. }
      rewrite Ec.
      replace (Z.to_nat (MAX_LATENCY_SAMPLES - latency_sample_count m))
        with (S (Z.to_nat (MAX_LATENCY_SAMPLES
                           - (latency_sample_count m + 1)))) by lia.
      reflexivity.
    + rewrite IH by assumption.
      replace (Z.to_nat (MAX_LATENCY_SAMPLES - latency_sample_count m))
        with 0%nat by lia.
      reflexivity.
Qed.

Lemma sample_all_on flag latencies :
  flag <> 0 ->
  sample_all flag latencies
  = record_all (take (Z.to_nat MAX_LATENCY_SAMPLES) latencies).
Proof.
  intros Hf. unfold sample_all, record_all.
  rewrite (sample_fold flag latencies _ Hf metrics_inv_init).
  reflexivity.
Qed.

(** C5 (amended): for every sequence of benchmark_record_latency calls on
    an initialised record, latency_sample_count never exceeds
    MAX_LATENCY_SAMPLES and total_latency_ns is the sum, in 64-bit
    arithmetic, of all the latencies passed in, those whose sample is
    dropped included.  Under the guard the two benchmark loops put before
    the call (sampling enabled and latency_sample_count below
    MAX_LATENCY_SAMPLES) no call is made once the cap is reached: the
    record then stores the latencies of the first MAX_LATENCY_SAMPLES
    commands and total_latency_ns is the sum, in 64-bit arithmetic, of the
    latencies stored in latency_samples. *)
Theorem C5_total_is_sum_of_stored (sample_latency : Z) (latencies : list Z) :
  (0 <= latency_sample_count (record_all latencies) <= MAX_LATENCY_SAMPLES /\
   total_latency_ns (record_all latencies) = u64 (sum_list latencies)) /\
  (let m := sample_all sample_latency latencies in
   0 <= latency_sample_count m <= MAX_LATENCY_SAMPLES /\
   stored_samples m
   = (if sample_latency =? 0 then []
      else take (Z.to_nat MAX_LATENCY_SAMPLES) latencies) /\
   total_latency_ns m = u64 (sum_list (stored_samples m))).
Proof.
  split; [split; [apply sample_count_capped | apply total_latency_all]|].
  cbv zeta. destruct (Z.eqb_spec sample_latency 0) as [-> | Hf].
  - unfold sample_all. rewrite sample_off.
    split; [apply (sample_count_capped [])|]. split; reflexivity.
  - rewrite (sample_all_on _ _ Hf).
    split; [apply sample_count_capped|].
    rewrite stored_samples_all, take_take, Nat.min_id.
    split; [reflexivity | apply total_latency_all].
Qed.

(** *** Further properties of the latency record *)

(** The record keeps the first MAX_LATENCY_SAMPLES latencies passed to
    benchmark_record_latency, in the order of the calls, and
    latency_sample_count is their number; later samples are dropped. *)
Theorem record_keeps_first_samples (latencies : list Z) :
  latency_sample_count (record_all latencies)
  = Z.min (Z.of_nat (length latencies)) MAX_LATENCY_SAMPLES /\
  stored_samples (record_all latencies)
  = take (Z.to_nat MAX_LATENCY_SAMPLES) latencies.
Proof. split; [apply sample_count_all | apply stored_samples_all]. Qed.

Lemma sum_list_nonneg (l : list Z) : Forall (fun x => 0 <= x) l -> 0 <= sum_list l.
Proof. induction 1; simpl; lia. Qed.

(** total_latency_ns accumulates every latency passed in, whether its
    sample was stored or dropped: as long as the sum fits 64 bits it is the
    sum over all calls. *)
Theorem total_latency_sums_all_calls (latencies : list Z) :
  Forall (fun x => 0 <= x) latencies ->
  sum_list latencies < 2 ^ 64 ->
  total_latency_ns (record_all latencies) = sum_list latencies.
Proof.
  intros Hpos Hsum. rewrite total_latency_all. apply u64_small.
  split; [apply sum_list_nonneg; exact Hpos | exact Hsum].
Qed.

Lemma total_latency_sums_all_calls_witness :
  total_latency_ns (record_all [3; 5; 7]) = sum_list [3; 5; 7].
Proof.
  apply total_latency_sums_all_calls.
  - repeat constructor; lia.
  - simpl. lia.
Defined.

Lemma min_max_fold ls m :
  min_latency_ns (fold_left benchmark_record_latency ls m)
  = fold_left Z.min ls (min_latency_ns m) /\
  max_latency_ns (fold_left benchmark_record_latency ls m)
  = fold_left Z.max ls (max_latency_ns m).
Proof.
  revert m. induction ls as [|l ls IH]; intros m; [split; reflexivity|].
  cbn [fold_left]. destruct (IH (benchmark_record_latency m l)) as [-> ->].
  unfold benchmark_record_latency. msimpl. split; f_equal.
  - destruct (Z.ltb_spec l (min_latency_ns m)); lia.
  - destruct (Z.gtb_spec l (max_latency_ns m)); lia.
Qed.

Lemma fold_min_spec ls a :
  Forall (fun x => fold_left Z.min ls a <= x) ls /\
  fold_left Z.min ls a <= a /\
  (fold_left Z.min ls a = a \/ In (fold_left Z.min ls a) ls).
Proof.
  revert a. induction ls as [|l ls IH]; intros a; simpl.
  - split; [constructor|]. split; [lia | left; reflexivity].
  - destruct (IH (Z.min a l)) as (H1 & H2 & H3).
    split; [constructor; [lia | exact H1]|]. split; [lia|].
    destruct H3 as [H3 | H3]; [|right; right; exact H3].
    rewrite H3.
    destruct (Z.min_spec a l) as [[_ E] | [_ E]];
      [left; exact E | right; left; symmetry; exact E].
Qed.

Lemma fold_max_spec ls a :
  Forall (fun x => x <= fold_left Z.max ls a) ls /\
  a <= fold_left Z.max ls a /\
  (fold_left Z.max ls a = a \/ In (fold_left Z.max ls a) ls).
Proof.
  revert a. induction ls as [|l ls IH]; intros a; simpl.
  - split; [constructor|]. split; [lia | left; reflexivity].
  - destruct (IH (Z.max a l)) as (H1 & H2 & H3).
    split; [constructor; [lia | exact H1]|]. split; [lia|].
    destruct H3 as [H3 | H3]; [|right; right; exact H3].
    rewrite H3.
    destruct (Z.max_spec a l) as [[_ E] | [_ E]];
      [right; left; symmetry; exact E | left; exact E].
Qed.

(** min_latency_ns and max_latency_ns are the least and the greatest of
    all the latencies passed in (dropped samples included), whenever at
    least one 64-bit latency was recorded. *)
Theorem min_max_over_all_calls (l : Z) (latencies : list Z) :
  Forall (fun x => 0 <= x <= UINT64_MAX) (l :: latencies) ->
  let m := record_all (l :: latencies) in
  In (min_latency_ns m) (l :: latencies) /\
  In (max_latency_ns m) (l :: latencies) /\
  Forall (fun x => min_latency_ns m <= x <= max_latency_ns m) (l :: latencies).
Proof.
  intros Hr m. subst m. unfold record_all.
  destruct (min_max_fold (l :: latencies) benchmark_metrics_init) as [-> ->].
  change (min_latency_ns benchmark_metrics_init) with UINT64_MAX.
  change (max_latency_ns benchmark_metrics_init) with 0.
  inversion Hr as [|? ? Hl Hls]; subst.
  cbn [fold_left].
  replace (Z.min UINT64_MAX l) with l by lia.
  replace (Z.max 0 l) with l by lia.
  destruct (fold_min_spec latencies l) as (A1 & A2 & A3).
  destruct (fold_max_spec latencies l) as (B1 & B2 & B3).
  split; [destruct A3 as [-> | A3]; [left; reflexivity | right; exact A3]|].
  split; [destruct B3 as [-> | B3]; [left; reflexivity | right; exact B3]|].
  constructor; [lia|].
  rewrite List.Forall_forall in *. intros x Hx.
  specialize (A1 x Hx). specialize (B1 x Hx). lia.
Qed.

Lemma min_max_over_all_calls_witness :
  let m := record_all [5; 3; 9] in
  In (min_latency_ns m) [5; 3; 9] /\ In (max_latency_ns m) [5; 3; 9] /\
  Forall (fun x => min_latency_ns m <= x <= max_latency_ns m) [5; 3; 9].
Proof.
  apply (min_max_over_all_calls 5 [3; 9]).
  repeat constructor; unfold UINT64_MAX; lia.
Defined.

(** The three percentiles are entries of the sorted samples, at the
    indices the code computes. *)
Lemma percentiles_lookup m :
  metrics_inv m -> 0 < latency_sample_count m ->
  let m' := benchmark_compute_percentiles m in
  let sorted := qsort compare_uint64 (stored_samples m) in
  let idx k := Z.to_nat (Z.quot (latency_sample_count m * k) 100) in
  sorted !! idx 50 = Some (p50_latency_ns m') /\
  sorted !! idx 90 = Some (p90_latency_ns m') /\
  sorted !! idx 99 = Some (p99_latency_ns m') /\
  (idx 50%Z <= idx 90%Z)%nat /\ (idx 90%Z <= idx 99%Z)%nat.
Proof.
  intros (HL & HC & HF) Hn. cbv zeta.
  unfold benchmark_compute_percentiles, stored_samples.
  destruct (Z.eqb_spec (latency_sample_count m) 0) as [|Hnz]; [lia|]. msimpl.
  set (cnt := latency_sample_count m) in *.
  set (sorted := qsort compare_uint64 (take (Z.to_nat cnt) (latency_samples m))).
  set (rest := drop (Z.to_nat cnt) (latency_samples m)).
  assert (Hlen : Z.of_nat (length sorted) = cnt).
  { subst sorted. rewrite (Permutation_length (qsort_perm _)).
    rewrite length_take. unfold MAX_LATENCY_SAMPLES in *. lia. }
  assert (Hsz : forall k, 0 <= k < 100 -> size_t (cnt * k) = cnt * k).
  { intros k Hk. apply size_t_small. unfold MAX_LATENCY_SAMPLES in *. nia. }
  pose proof (percentile_index cnt 50 ltac:(lia) ltac:(lia)) as H50.
  pose proof (percentile_index cnt 90 ltac:(lia) ltac:(lia)) as H90.
  pose proof (percentile_index cnt 99 ltac:(lia) ltac:(lia)) as H99.
  pose proof (percentile_index_mono cnt 50 90 ltac:(lia) ltac:(lia) ltac:(lia)) as M1.
  pose proof (percentile_index_mono cnt 90 99 ltac:(lia) ltac:(lia) ltac:(lia)) as M2.
  rewrite (Hsz 50), (Hsz 90), (Hsz 99) in * by lia.
  destruct (at_index_sorted_prefix sorted rest (Z.quot (cnt * 50) 100))
    as (x50 & L50 & E50); [lia|].
  destruct (at_index_sorted_prefix sorted rest (Z.quot (cnt * 90) 100))
    as (x90 & L90 & E90); [lia|].
  destruct (at_index_sorted_prefix sorted rest (Z.quot (cnt * 99) 100))
    as (x99 & L99 & E99); [lia|].
  rewrite E50, E90, E99. repeat split; try assumption; lia.
Qed.

(** Whatever the number of samples, as soon as there is one: the three
    percentiles benchmark_compute_percentiles reports are samples that
    were recorded, and min <= p50 <= p90 <= p99 <= max. *)
Theorem percentiles_are_recorded_samples (latencies : list Z) :
  let m := record_all latencies in
  let m' := benchmark_compute_percentiles m in
  latencies <> [] ->
  In (p50_latency_ns m') (stored_samples m) /\
  In (p90_latency_ns m') (stored_samples m) /\
  In (p99_latency_ns m') (stored_samples m) /\
  min_latency_ns m' <= p50_latency_ns m' /\
  p50_latency_ns m' <= p90_latency_ns m' /\
  p90_latency_ns m' <= p99_latency_ns m' /\
  p99_latency_ns m' <= max_latency_ns m'.
Proof.
  intros m m' Hne.
  pose proof (metrics_inv_record_all latencies) as Hinv. fold m in Hinv.
  assert (Hn : 0 < latency_sample_count m).
  { subst m. rewrite sample_count_all. unfold MAX_LATENCY_SAMPLES.
    destruct latencies; [contradiction | simpl length; lia]. }
  destruct (percentiles_lookup m Hinv Hn) as (L50 & L90 & L99 & Hi1 & Hi2).
  fold m' in L50, L90, L99.
  pose proof (qsort_sorted (stored_samples m)) as Hs.
  assert (Hin : forall i x, qsort compare_uint64 (stored_samples m) !! i = Some x ->
                            In x (stored_samples m)).
  { intros i x Hx. apply list_elem_of_lookup_2 in Hx.
    rewrite qsort_perm in Hx. apply list_elem_of_In. exact Hx. }
  destruct Hinv as (_ & _ & HF). rewrite List.Forall_forall in HF.
  assert (Emin : min_latency_ns m' = min_latency_ns m).
  { subst m'. unfold benchmark_compute_percentiles.
    destruct (latency_sample_count m =? 0); reflexivity. }
  assert (Emax : max_latency_ns m' = max_latency_ns m).
  { subst m'. unfold benchmark_compute_percentiles.
    destruct (latency_sample_count m =? 0); reflexivity. }
  rewrite Emin, Emax.
  split; [eapply Hin; exact L50|]. split; [eapply Hin; exact L90|].
  split; [eapply Hin; exact L99|].
  split; [apply (HF _ (Hin _ _ L50))|].
  split; [eapply sorted_lookup_le; [exact Hs| |exact L50|exact L90]; lia|].
  split; [eapply sorted_lookup_le; [exact Hs| |exact L90|exact L99]; lia|].
  apply (HF _ (Hin _ _ L99)).
Qed.

Lemma percentiles_are_recorded_samples_witness :
  let m := record_all [7; 2; 5] in
  let m' := benchmark_compute_percentiles m in
  In (p50_latency_ns m') (stored_samples m) /\
  p50_latency_ns m' <= p99_latency_ns m'.
Proof.
  intros m m'.
  destruct (percentiles_are_recorded_samples [7; 2; 5])
    as (H1 & _ & _ & _ & H2 & H3 & _); [discriminate|].
  split; [exact H1|]. fold m m' in H2, H3. lia.
Defined.

(** Computing the percentiles twice changes nothing: the second call
    finds the samples sorted and recomputes the same figures. *)
Theorem compute_percentiles_idempotent (latencies : list Z) :
  let m' := benchmark_compute_percentiles (record_all latencies) in
  benchmark_compute_percentiles m' = m'.
Proof.
  cbv zeta.
  pose proof (metrics_inv_record_all latencies) as Hinv.
  set (m := record_all latencies) in *.
  pose proof Hinv as (HL & HC & HF).
  unfold benchmark_compute_percentiles at 2 3.
  destruct (Z.eqb_spec (latency_sample_count m) 0) as [E0 | Hnz].
  { unfold benchmark_compute_percentiles. rewrite E0. reflexivity. }
  unfold benchmark_compute_percentiles at 1. msimpl.
  destruct (Z.eqb_spec (latency_sample_count m) 0) as [|_]; [contradiction|].
  set (n := Z.to_nat (latency_sample_count m)).
  set (sorted := qsort compare_uint64 (take n (latency_samples m))).
  assert (Hlen : length sorted = n).
  { subst sorted. rewrite (Permutation_length (qsort_perm _)).
    rewrite length_take. unfold MAX_LATENCY_SAMPLES in *. lia. }
  assert (Es : qsort compare_uint64 (take n (sorted ++ drop n (latency_samples m)))
               ++ drop n (sorted ++ drop n (latency_samples m))
               = sorted ++ drop n (latency_samples m)).
  { rewrite take_app_length' by (symmetry; exact Hlen).
    rewrite drop_app_length' by (symmetry; exact Hlen). f_equal.
    apply (StronglySorted_unique Z.le).
    - apply qsort_sorted.
    - subst sorted. apply qsort_sorted.
    - apply qsort_perm. }
  rewrite Es. reflexivity.
Qed.

Lemma sum_list_bounds (l : list Z) a b :
  Forall (fun x => a <= x <= b) l ->
  Z.of_nat (length l) * a <= sum_list l <= Z.of_nat (length l) * b.
Proof.
  induction 1 as [|x l Hx _ IH]; [simpl; lia|].
  cbn [sum_list fold_right length]. change (fold_right Z.add 0 l) with (sum_list l).
  lia.
Qed.

(** As long as no sample was dropped and the total did not overflow, the
    average benchmark_compute_percentiles reports lies between the
    minimum and the maximum. *)
Theorem average_between_min_and_max (l : Z) (latencies : list Z) :
  Forall (fun x => 0 <= x <= UINT64_MAX) (l :: latencies) ->
  Z.of_nat (length (l :: latencies)) <= MAX_LATENCY_SAMPLES ->
  sum_list (l :: latencies) < 2 ^ 64 ->
  let m' := benchmark_compute_percentiles (record_all (l :: latencies)) in
  min_latency_ns m' <= avg_latency_ns m' <= max_latency_ns m'.
Proof.
  intros Hr Hlen Hsum. cbv zeta.
  set (ls := l :: latencies) in *.
  destruct (min_max_fold ls benchmark_metrics_init) as [Emin Emax].
  assert (Hb : Forall (fun x => min_latency_ns (record_all ls) <= x
                                <= max_latency_ns (record_all ls)) ls).
  { unfold record_all. rewrite Emin, Emax.
    change (min_latency_ns benchmark_metrics_init) with UINT64_MAX.
    change (max_latency_ns benchmark_metrics_init) with 0.
    subst ls. inversion Hr as [|? ? Hl Hls]; subst. cbn [fold_left].
    replace (Z.min UINT64_MAX l) with l by lia.
    replace (Z.max 0 l) with l by lia.
    destruct (fold_min_spec latencies l) as (A1 & A2 & _).
    destruct (fold_max_spec latencies l) as (B1 & B2 & _).
    constructor; [lia|].
    rewrite List.Forall_forall in *. intros x Hx.
    specialize (A1 x Hx). specialize (B1 x Hx). lia. }
  pose proof (sum_list_bounds ls _ _ Hb) as Hs.
  assert (Hc : latency_sample_count (record_all ls) = Z.of_nat (length ls)).
  { rewrite sample_count_all. lia. }
  assert (Ht : total_latency_ns (record_all ls) = sum_list ls).
  { rewrite total_latency_all. apply u64_small. split; [|exact Hsum].
    apply sum_list_nonneg. eapply Forall_impl; [exact Hr|].
    cbv beta. intros; lia. }
  assert (Hpos : 0 < Z.of_nat (length ls)) by (subst ls; simpl length; lia).
  unfold benchmark_compute_percentiles.
  destruct (Z.eqb_spec (latency_sample_count (record_all ls)) 0); [lia|].
  msimpl. rewrite Ht, Hc.
  assert (H0 : 0 <= sum_list ls).
  { apply sum_list_nonneg. eapply Forall_impl; [exact Hr|]. cbv beta. intros; lia. }
  rewrite Z.quot_div_nonneg by lia.
  split.
  - apply Z.div_le_lower_bound; lia.
  - apply Z.div_le_upper_bound; lia.
Qed.

Lemma average_between_min_and_max_witness :
  let m' := benchmark_compute_percentiles (record_all [4; 8; 9]) in
  min_latency_ns m' <= avg_latency_ns m' <= max_latency_ns m'.
Proof.
  apply (average_between_min_and_max 4 [8; 9]).
  - repeat constructor; unfold UINT64_MAX; lia.
  - unfold MAX_LATENCY_SAMPLES. simpl. lia.
  - simpl. lia.
Defined.

End MetricsFacts.

(** ** The reference RESP parser *)

Section RespFacts.
Import CInt Resp.

Lemma digit_range b : digit b = true -> 0 <= digit_value b <= 9.
Proof.
  unfold digit, is_digit, digit_value, ch_0, ch_9. intros H.
  apply andb_true_iff in H. destruct H as [H1 H2].
  apply Z.geb_le in H1. apply Z.leb_le in H2. lia.
Qed.

Lemma decimal_from_ge v ds :
  all_digits ds = true -> 0 <= v -> v <= decimal_from v ds.
Proof.
  revert v. induction ds as [|c ds IH]; intros v Hd Hv; simpl; [lia|].
  simpl in Hd. apply andb_true_iff in Hd. destruct Hd as [Hc Hd].
  pose proof (digit_range c Hc).
  etransitivity; [|apply IH; [exact Hd | lia]]. lia.
Qed.

(** On a string of digits the loop of [string2ll] computes the decimal
    value exactly, and gives up exactly when it exceeds [ULLONG_MAX]. *)
Lemma string2ll_loop_digits ds : forall v,
  all_digits ds = true -> 0 <= v <= ULLONG_MAX ->
  match string2ll_loop ds v with
  | Some (v', rest) => rest = [] /\ v' = decimal_from v ds /\ v' <= ULLONG_MAX
  | None => decimal_from v ds > ULLONG_MAX
  end.
Proof.
  induction ds as [|c ds IH]; intros v Hd Hv; simpl.
  - split; [reflexivity|]. split; [reflexivity | lia].
  - simpl in Hd. apply andb_true_iff in Hd. destruct Hd as [Hc Hd].
    pose proof (digit_range c Hc) as Hr. unfold digit in Hc. rewrite Hc.
    fold (digit_value c). unfold ULLONG_MAX in *.
    change (Z.quot (2 ^ 64 - 1) 10) with 1844674407370955161.
    destruct (Z.gtb_spec v 1844674407370955161) as [Hbig|Hsmall].
    { pose proof (decimal_from_ge (v * 10 + digit_value c) ds Hd ltac:(lia)). lia. }
    rewrite u64_small by lia.
    destruct (Z.gtb_spec (v * 10) (2 ^ 64 - 1 - digit_value c)) as [Hbig|Hsmall2].
    { pose proof (decimal_from_ge (v * 10 + digit_value c) ds Hd ltac:(lia)). lia. }
    rewrite u64_small by lia.
    apply IH; [exact Hd | lia].
Qed.

(** If a character that is not a digit is ahead, the loop either gives up
    or stops with input left over. *)
Lemma string2ll_loop_non_digit pre b post : forall v,
  digit b = false ->
  match string2ll_loop (pre ++ b :: post) v with
  | Some (_, rest) => rest <> []
  | None => True
  end.
Proof.
  induction pre as [|c pre IH]; intros v Hb; simpl.
  - unfold digit in Hb. rewrite Hb. discriminate.
  - destruct (is_digit (byte_to_Z c)); [|discriminate].
    destruct (_ >? _); [exact I|]. destruct (_ >? _); [exact I|].
    apply IH. exact Hb.
Qed.

Lemma length_not_1 {A} (b : A) t :
  t <> [] -> (Z.of_nat (length (b :: t)) =? 1) = false.
Proof.
  intros Ht. destruct t; [contradiction|]. simpl length.
  apply Z.eqb_neq. lia.
Qed.

Lemma digit_cases b :
  digit b = true ->
  (byte_to_Z b = ch_0 /\ is_digit_1_9 (byte_to_Z b) = false) \/
  (byte_to_Z b <> ch_0 /\ is_digit_1_9 (byte_to_Z b) = true).
Proof.
  unfold digit, is_digit, is_digit_1_9, ch_0, ch_1, ch_9. intros H.
  apply andb_true_iff in H. destruct H as [H1 H2].
  apply Z.geb_le in H1. apply Z.leb_le in H2.
  destruct (Z.eq_dec (byte_to_Z b) 48) as [E|E].
  - left. split; [exact E|]. rewrite E. reflexivity.
  - right. split; [exact E|]. apply andb_true_iff.
    split; [apply Z.geb_le | apply Z.leb_le]; lia.
Qed.

Lemma not_digit_not_1_9 b : digit b = false -> is_digit_1_9 (byte_to_Z b) = false.
Proof.
  unfold digit, is_digit, is_digit_1_9, ch_0, ch_1, ch_9.
  rewrite !Z.geb_leb. intros H.
  destruct (Z.leb_spec 49 (byte_to_Z b)); [|reflexivity].
  destruct (Z.leb_spec (byte_to_Z b) 57); [|reflexivity].
  destruct (Z.leb_spec 48 (byte_to_Z b)); [discriminate | lia].
Qed.

Lemma not_digit_not_0 b : digit b = false -> (byte_to_Z b =? ch_0) = false.
Proof.
  unfold digit, is_digit, ch_0, ch_9. intros H. apply Z.eqb_neq. intros E.
  rewrite E in H. discriminate.
Qed.

Lemma digit_not_minus b : digit b = true -> (byte_to_Z b =? ch_minus) = false.
Proof.
  unfold digit, is_digit, ch_0, ch_9, ch_minus. intros H.
  apply andb_true_iff in H. destruct H as [H1 H2]. apply Z.geb_le in H1.
  apply Z.eqb_neq. lia.
Qed.

(** The unsigned part of a token: a first character that is not 1-9
    fails unless the whole string is "0"; otherwise the digits are
    accumulated and anything left over fails. *)
Lemma string2ll_leading_zero b t :
  byte_to_Z b = ch_0 -> t <> [] -> string2ll (b :: t) = None.
Proof.
  intros Hb Ht. unfold string2ll. rewrite (length_not_1 b t Ht).
  rewrite andb_false_l. cbv zeta. rewrite Hb.
  change (ch_0 =? ch_minus) with false. cbv iota. rewrite Hb.
  reflexivity.
Qed.

Lemma string2ll_fails_non_digit_tail c p' pre b post (neg : bool) :
  p' = pre ++ b :: post -> digit b = false ->
  match string2ll_loop p' (byte_to_Z c - ch_0) with
  | Some (v, rest) =>
      match rest with
      | [] => if neg then (if v >? u64 (u64 (- (LLONG_MIN + 1)) + 1) then None
                           else Some (s64 (u64 (- v))))
              else (if v >? LLONG_MAX then None else Some v)
      | _ :: _ => None
      end
  | None => None
  end = None.
Proof.
  intros -> Hb.
  pose proof (string2ll_loop_non_digit pre b post (byte_to_Z c - ch_0) Hb) as H.
  destruct (string2ll_loop _ _) as [[v rest]|]; [|reflexivity].
  destruct rest; [contradiction | reflexivity].
Qed.

Lemma string2ll_non_digit pre b post :
  digit b = false -> ~ (pre = [] /\ byte_to_Z b = ch_minus) ->
  string2ll (pre ++ b :: post) = None.
Proof.
  intros Hb Hm. pose proof (not_digit_not_1_9 b Hb) as H19.
  pose proof (not_digit_not_0 b Hb) as H0.
  destruct pre as [|c pre].
  - (* the offending character comes first and is not a minus sign *)
    change ([] ++ b :: post) with (b :: post). unfold string2ll.
    rewrite H0, andb_false_r. cbv zeta.
    destruct (Z.eqb_spec (byte_to_Z b) ch_minus) as [E|_]; [tauto|].
    cbv iota. rewrite H19, H0, andb_false_l. reflexivity.
  - rewrite <- app_comm_cons. unfold string2ll.
    rewrite (length_not_1 c (pre ++ b :: post)) by (destruct pre; discriminate).
    rewrite andb_false_l. cbv zeta.
    destruct (byte_to_Z c =? ch_minus) eqn:Eneg; cbv iota.
    + (* after a minus sign *)
      change (drop 1 (c :: pre ++ b :: post)) with (pre ++ b :: post).
      destruct pre as [|d pre].
      * change ([] ++ b :: post) with (b :: post). cbv iota.
        rewrite H19, H0, andb_false_l. reflexivity.
      * rewrite <- app_comm_cons. cbv iota.
        destruct (is_digit_1_9 (byte_to_Z d)).
        -- apply (string2ll_fails_non_digit_tail d _ pre b post true);
             [reflexivity | exact Hb].
        -- rewrite andb_false_r. reflexivity.
    + destruct (is_digit_1_9 (byte_to_Z c)).
      * apply (string2ll_fails_non_digit_tail c _ pre b post false);
          [reflexivity | exact Hb].
      * rewrite andb_false_r. reflexivity.
Qed.

Lemma decimal_value_cons c ds :
  decimal_value (c :: ds) = decimal_from (byte_to_Z c - ch_0) ds.
Proof. unfold decimal_value, decimal_from. simpl. reflexivity. Qed.

Lemma string2ll_digits neg c ds :
  all_digits (c :: ds) = true -> byte_to_Z c <> ch_0 ->
  match string2ll_loop ds (byte_to_Z c - ch_0) with
  | Some (v, rest) =>
      match rest with
      | [] => if neg : bool
              then (if v >? u64 (u64 (- (LLONG_MIN + 1)) + 1) then None
                    else Some (s64 (u64 (- v))))
              else (if v >? LLONG_MAX then None else Some v)
      | _ :: _ => None
      end
  | None => None
  end =
  if decimal_value (c :: ds) >? (if neg then 2 ^ 63 else LLONG_MAX) then None
  else Some (if neg then - decimal_value (c :: ds) else decimal_value (c :: ds)).
Proof.
  intros Hd Hc. simpl in Hd. apply andb_true_iff in Hd. destruct Hd as [Hc' Hd].
  pose proof (digit_range c Hc') as Hr. unfold digit_value in Hr.
  pose proof (string2ll_loop_digits ds (byte_to_Z c - ch_0) Hd) as H.
  rewrite decimal_value_cons.
  set (n := decimal_from (byte_to_Z c - ch_0) ds) in *.
  unfold ULLONG_MAX, LLONG_MAX, LLONG_MIN in *.
  change (u64 (u64 (- (- 2 ^ 63 + 1)) + 1)) with (2 ^ 63).
  destruct (string2ll_loop ds (byte_to_Z c - ch_0)) as [[v rest]|].
  - destruct H as (-> & -> & Hn); [lia|].
    pose proof (decimal_from_ge (byte_to_Z c - ch_0) ds Hd ltac:(lia)) as Hge.
    fold n in Hge. destruct neg.
    + destruct (Z.gtb_spec n (2 ^ 63)); [reflexivity|].
      f_equal. unfold s64.
      destruct (Z.eq_dec n 0) as [E0|E0]; [lia|].
      assert (E : u64 (- n) = 2 ^ 64 - n).
      { unfold u64, wrap. symmetry. apply (Z.mod_unique_pos _ _ (-1)); lia. }
      rewrite E. rewrite u64_small by lia.
      destruct (Z.ltb_spec (2 ^ 64 - n) (2 ^ 63)); lia.
    + destruct (Z.gtb_spec n (2 ^ 63 - 1)); reflexivity.
  - specialize (H ltac:(lia)).
    destruct neg; cbv iota;
      [destruct (Z.gtb_spec n (2 ^ 63)) | destruct (Z.gtb_spec n (2 ^ 63 - 1))];
      try reflexivity; lia.
Qed.

(** [string2ll] rejects every token that is not a canonical decimal number
    of the signed 64-bit range. *)
Lemma string2ll_non_canonical s : non_canonical s -> string2ll s = None.
Proof.
  intros H. destruct H as [b t Hb Ht | m b t Hm Hb | b t Hb | pre b post Hb Hm
                          | ds Hd Hv | m ds Hm Hd Hv].
  - apply string2ll_leading_zero; assumption.
  - unfold string2ll. rewrite (length_not_1 m (b :: t)) by discriminate.
    rewrite andb_false_l. cbv zeta. rewrite Hm.
    change (ch_minus =? ch_minus) with true. cbv iota.
    change (drop 1 (m :: b :: t)) with (b :: t). cbv iota.
    rewrite Hb. reflexivity.
  - apply (string2ll_non_digit [] b t).
    + unfold digit. rewrite Hb. reflexivity.
    + rewrite Hb. intros [_ E]. discriminate E.
  - apply string2ll_non_digit; assumption.
  - destruct ds as [|c ds]; [unfold decimal_value, decimal_from, LLONG_MAX in Hv; simpl in Hv; lia|].
    pose proof Hd as Hd'. simpl in Hd'. apply andb_true_iff in Hd'.
    destruct Hd' as [Hc Hds].
    destruct (digit_cases c Hc) as [[E0 E19] | [E0 E19]].
    + destruct ds as [|d ds].
      * unfold decimal_value, decimal_from, digit_value, LLONG_MAX in Hv. simpl in Hv.
        rewrite E0 in Hv. unfold ch_0 in Hv. lia.
      * apply string2ll_leading_zero; [exact E0 | discriminate].
    + unfold string2ll.
      replace (byte_to_Z c =? ch_0) with false by (symmetry; apply Z.eqb_neq; exact E0).
      rewrite andb_false_r. cbv zeta. rewrite (digit_not_minus c Hc). cbv iota.
      rewrite E19. rewrite (string2ll_digits false c ds Hd E0).
      destruct (Z.gtb_spec (decimal_value (c :: ds)) LLONG_MAX); [reflexivity | lia].
  - destruct ds as [|c ds]; [unfold decimal_value, decimal_from, LLONG_MIN in Hv; simpl in Hv; lia|].
    pose proof Hd as Hd'. simpl in Hd'. apply andb_true_iff in Hd'.
    destruct Hd' as [Hc Hds].
    unfold string2ll. rewrite (length_not_1 m (c :: ds)) by discriminate.
    rewrite andb_false_l. cbv zeta. rewrite Hm.
    change (ch_minus =? ch_minus) with true.
    cbv iota. change (drop 1 (m :: c :: ds)) with (c :: ds). cbv iota.
    destruct (digit_cases c Hc) as [[E0 E19] | [E0 E19]].
    + rewrite E19. rewrite andb_false_r. reflexivity.
    + rewrite E19. rewrite (string2ll_digits true c ds Hd E0).
      unfold LLONG_MIN in Hv.
      destruct (Z.gtb_spec (decimal_value (c :: ds)) (2 ^ 63)); [reflexivity | lia].
Qed.

(** Conversely, canonical tokens are accepted with their value. *)
Lemma string2ll_canonical c ds :
  all_digits (c :: ds) = true -> byte_to_Z c <> ch_0 ->
  decimal_value (c :: ds) <= LLONG_MAX ->
  string2ll (c :: ds) = Some (decimal_value (c :: ds)).
Proof.
  intros Hd Hc Hv. pose proof Hd as Hd'. simpl in Hd'.
  apply andb_true_iff in Hd'. destruct Hd' as [Hc' _].
  destruct (digit_cases c Hc') as [[E0 _] | [_ E19]]; [contradiction|].
  unfold string2ll.
  replace (byte_to_Z c =? ch_0) with false by (symmetry; apply Z.eqb_neq; exact Hc).
  rewrite andb_false_r. cbv zeta. rewrite (digit_not_minus c Hc'). cbv iota.
  rewrite E19. rewrite (string2ll_digits false c ds Hd Hc).
  destruct (Z.gtb_spec (decimal_value (c :: ds)) LLONG_MAX); [lia | reflexivity].
Qed.

(** *** Length lines in the query buffer *)

Lemma memchr_from_no_cr l r i :
  no_cr l ->
  memchr_from (l ++ byte_of_Z CR :: r) CR i = Some (i + Z.of_nat (length l)).
Proof.
  intros H. revert i. induction H as [|b l Hb _ IH]; intros i; simpl.
  - f_equal. lia.
  - destruct (Z.eqb_spec (byte_to_Z b) CR) as [E|_]; [contradiction|].
    rewrite IH. f_equal. lia.
Qed.

Section Line.
Variables (c : valkey_client) (pre : list byte) (lead : Z) (s : list byte)
          (x : byte) (rest : list byte).
Hypothesis Hbuf : querybuf c = length_line pre lead s x rest.
Hypothesis Hpos : qb_pos c = Z.of_nat (length pre).
Hypothesis Hcr : no_cr s.
Hypothesis Hlead : byte_to_Z (byte_of_Z lead) = lead.
Hypothesis Hlead_cr : lead <> CR.
Hypothesis Hsize : sdslen (querybuf c) < 2 ^ 63.

Let nl : Z := 1 + Z.of_nat (length s).

Lemma line_length :
  sdslen (querybuf c)
  = Z.of_nat (length pre) + nl + 2 + Z.of_nat (length rest).
Proof.
  unfold sdslen, nl. rewrite Hbuf. unfold length_line.
  rewrite length_app. simpl length. rewrite length_app. simpl length. lia.
Qed.

Lemma line_in_buffer : (qb_pos c >? sdslen (querybuf c)) = false.
Proof.
  pose proof line_length. unfold nl in *.
  destruct (Z.gtb_spec (qb_pos c) (sdslen (querybuf c))); [lia | reflexivity].
Qed.

Lemma line_memchr :
  memchr (drop (Z.to_nat (qb_pos c)) (querybuf c)) CR = Some nl.
Proof.
  rewrite Hbuf, Hpos, Nat2Z.id. unfold length_line.
  rewrite drop_app_length. unfold memchr.
  change (byte_of_Z lead :: s ++ byte_of_Z CR :: x :: rest)
    with ((byte_of_Z lead :: s) ++ byte_of_Z CR :: x :: rest).
  rewrite memchr_from_no_cr.
  - f_equal. unfold nl. simpl length. lia.
  - constructor; [rewrite Hlead; exact Hlead_cr | exact Hcr].
Qed.

Lemma line_has_lf : (nl >? s64 (sdslen (querybuf c) - qb_pos c - 2)) = false.
Proof.
  pose proof line_length as HL. rewrite Hpos, HL. unfold nl in *.
  unfold s64. rewrite u64_small by lia.
  destruct (Z.ltb_spec (Z.of_nat (length pre) + (1 + Z.of_nat (length s)) + 2
                        + Z.of_nat (length rest) - Z.of_nat (length pre) - 2)
                       (2 ^ 63)); [|lia].
  rewrite Z.gtb_ltb. apply Z.ltb_ge. lia.
Qed.

Lemma line_lead : char_at (querybuf c) (qb_pos c) = Some lead.
Proof.
  unfold char_at. rewrite Hpos, Hbuf.
  destruct (Z.ltb_spec (Z.of_nat (length pre)) 0); [lia|].
  rewrite Nat2Z.id. unfold length_line.
  rewrite lookup_app_r by lia. rewrite Nat.sub_diag. simpl.
  rewrite Hlead. reflexivity.
Qed.

Lemma line_token from :
  from = qb_pos c + 1 ->
  substring (querybuf c) from (size_t (nl - 1)) = s.
Proof.
  intros ->. pose proof line_length as HL. unfold substring, nl in *.
  rewrite size_t_small by lia. rewrite Hpos, Hbuf. unfold length_line.
  replace (Z.to_nat (Z.of_nat (length pre) + 1)) with (length pre + 1)%nat by lia.
  rewrite <- drop_drop. rewrite drop_app_length. simpl drop.
  replace (Z.to_nat (1 + Z.of_nat (length s) - 1)) with (length s) by lia.
  apply take_app_length.
Qed.

End Line.

(** A bulk length line in the loop of [parseMultibulk]. *)
Section BulkLine.
Variables (c : valkey_client) (pre s : list byte) (x : byte) (rest : list byte).
Hypothesis Hbuf : querybuf c = length_line pre ch_dollar s x rest.
Hypothesis Hpos : qb_pos c = Z.of_nat (length pre).
Hypothesis Hcr : no_cr s.
Hypothesis Hsize : sdslen (querybuf c) < 2 ^ 63.

Ltac resolve_bulk_line :=
  unfold read_bulk_len;
  rewrite (line_in_buffer c pre ch_dollar s x rest Hbuf Hpos);
  rewrite (line_memchr c pre ch_dollar s x rest Hbuf Hpos Hcr eq_refl ltac:(discriminate));
  rewrite (line_has_lf c pre ch_dollar s x rest Hbuf Hpos Hsize);
  rewrite (line_lead c pre ch_dollar s x rest Hbuf Hpos eq_refl);
  change (negb (ch_dollar =? ch_dollar)) with false; cbv iota; cbv zeta;
  rewrite (line_token c pre ch_dollar s x rest Hbuf Hpos Hsize _ eq_refl).

Lemma read_bulk_len_malformed :
  string2ll s = None ->
  read_bulk_len c = Return (Returned READ_FLAGS_ERROR_MBULK_INVALID_BULK_LEN) c.
Proof. intros H. resolve_bulk_line. rewrite H. reflexivity. Qed.

Lemma read_bulk_len_out_of_range ll :
  string2ll s = Some ll ->
  ll < 0 \/ (is_replicated c = false /\ ll > 512 * 1024 * 1024) ->
  read_bulk_len c = Return (Returned READ_FLAGS_ERROR_MBULK_INVALID_BULK_LEN) c.
Proof.
  intros H Hll. resolve_bulk_line. rewrite H.
  replace ((ll <? 0)
           || (Z.land (read_flags c) READ_FLAGS_REPLICATED =? 0)
              && (ll >? 512 * 1024 * 1024)) with true; [reflexivity|].
  symmetry. apply orb_true_iff. destruct Hll as [Hneg | [Hrep Hbig]].
  - left. apply Z.ltb_lt. exact Hneg.
  - right. apply andb_true_iff. split.
    + unfold is_replicated in Hrep. apply negb_false_iff in Hrep. exact Hrep.
    + rewrite Z.gtb_ltb. apply Z.ltb_lt. lia.
Qed.

Lemma read_bulk_len_unauthenticated ll :
  string2ll s = Some ll -> 0 <= ll ->
  is_replicated c = true \/ ll <= 512 * 1024 * 1024 ->
  ll > 16384 -> auth_required c = true ->
  read_bulk_len c = Return (Returned READ_FLAGS_ERROR_UNAUTHENTICATED_BULK_LEN) c.
Proof.
  intros H Hpos' Hrange Hbig Hauth. resolve_bulk_line. rewrite H.
  replace ((ll <? 0)
           || (Z.land (read_flags c) READ_FLAGS_REPLICATED =? 0)
              && (ll >? 512 * 1024 * 1024)) with false.
  - replace ((ll >? 16384)
             && negb (Z.land (read_flags c) READ_FLAGS_AUTH_REQUIRED =? 0))
      with true; [reflexivity|].
    symmetry. apply andb_true_iff. split; [|exact Hauth].
    rewrite Z.gtb_ltb. apply Z.ltb_lt. lia.
  - symmetry. apply orb_false_iff. split; [apply Z.ltb_ge; lia|].
    apply andb_false_iff. destruct Hrange as [Hrep | Hle].
    + left. unfold is_replicated in Hrep. apply negb_true_iff in Hrep. exact Hrep.
    + right. rewrite Z.gtb_ltb. apply Z.ltb_ge. lia.
Qed.

End BulkLine.

(** An early return of the first round is the result of [parseMultibulk]. *)
Lemma parseMultibulk_bulk_return c o :
  multibulklen c > 0 -> bulklen c = -1 ->
  read_bulk_len c = Return o c ->
  parseMultibulk c = (o, c).
Proof.
  intros Hm Hb Hr. unfold parseMultibulk.
  destruct (Z.eqb_spec (multibulklen c) 0) as [E|_]; [lia|].
  destruct (Z.gtb_spec (multibulklen c) 0) as [_|E]; [|lia]. cbv iota. simpl negb. cbv iota.
  destruct (Z.to_nat (multibulklen c)) as [|fuel] eqn:Ef; [lia|].
  simpl multibulk_loop.
  destruct (Z.eqb_spec (multibulklen c) 0) as [E|_]; [lia|].
  unfold multibulk_round. rewrite Hb. change (-1 =? -1) with true. cbv iota.
  rewrite Hr. reflexivity.
Qed.

(** A multibulk count line at the start of a command. *)
Lemma read_multibulk_len_malformed c pre s x rest :
  argc c = 0 ->
  querybuf c = length_line pre ch_star s x rest ->
  qb_pos c = Z.of_nat (length pre) -> no_cr s ->
  sdslen (querybuf c) < 2 ^ 63 ->
  string2ll s = None ->
  read_multibulk_len c
  = inl (Returned READ_FLAGS_ERROR_INVALID_MULTIBULK_LEN, c).
Proof.
  intros Ha Hbuf Hpos Hcr Hsize Hs. unfold read_multibulk_len.
  rewrite Ha. change (negb (0 =? 0)) with false. cbv iota. cbv zeta.
  rewrite (line_in_buffer c pre ch_star s x rest Hbuf Hpos).
  rewrite (line_memchr c pre ch_star s x rest Hbuf Hpos Hcr eq_refl ltac:(discriminate)).
  rewrite (line_has_lf c pre ch_star s x rest Hbuf Hpos Hsize).
  rewrite (line_lead c pre ch_star s x rest Hbuf Hpos eq_refl).
  change (negb (ch_star =? ch_star)) with false. cbv iota.
  rewrite (line_token c pre ch_star s x rest Hbuf Hpos Hsize (1 + qb_pos c) ltac:(lia)).
  rewrite Hs. reflexivity.
Qed.

Lemma parseMultibulk_header_return c o :
  multibulklen c = 0 -> read_multibulk_len c = inl o ->
  parseMultibulk c = o.
Proof.
  intros Hm Hr. unfold parseMultibulk. rewrite Hm.
  change (0 =? 0) with true. cbv iota. rewrite Hr. reflexivity.
Qed.

(** C8 fails as stated: for a client flagged as replicated, a declared
    bulk length of 512 MiB + 1 is accepted; parseMultibulk stores it as the
    pending bulk length and returns 0 (more data needed), not the
    invalid-bulk-length flag. *)
Lemma C8_replicated_client_exceeds_512MiB :
  let c := client_reading_bulk
             (bytes [36; 53; 51; 54; 56; 55; 48; 57; 49; 51; 13; 10])
             READ_FLAGS_REPLICATED in
  string2ll (bytes [53; 51; 54; 56; 55; 48; 57; 49; 51]) = Some 536870913 /\
  536870913 > 512 * 1024 * 1024 /\
  fst (parseMultibulk c) = Returned 0 /\
  bulklen (snd (parseMultibulk c)) = 536870913.
Proof. vm_compute. repeat split; reflexivity. Qed.

(** C8, amended: when parseMultibulk reads a bulk length line "$<token>\r",
    a token that string2ll rejects, a negative length, or, for a client not
    flagged as replicated, a length above 512 MiB makes it return the
    invalid-bulk-length flag; otherwise a length above 16384 makes it
    return the unauthenticated-bulk-length flag when authentication is
    required.  For a client flagged as replicated the 512 MiB bound is not
    enforced.  The client record is left untouched in both cases. *)
Theorem C8_bulk_length_bounds (c : valkey_client) (pre s : list byte)
  (x : byte) (rest : list byte) :
  multibulklen c > 0 -> bulklen c = -1 ->
  querybuf c = length_line pre ch_dollar s x rest ->
  qb_pos c = Z.of_nat (length pre) -> no_cr s ->
  sdslen (querybuf c) < 2 ^ 63 ->
  ((string2ll s = None \/
    exists ll, string2ll s = Some ll /\
               (ll < 0 \/ (is_replicated c = false /\ ll > 512 * 1024 * 1024))) ->
   parseMultibulk c = (Returned READ_FLAGS_ERROR_MBULK_INVALID_BULK_LEN, c)) /\
  (forall ll, string2ll s = Some ll -> 0 <= ll ->
              is_replicated c = true \/ ll <= 512 * 1024 * 1024 ->
              ll > 16384 -> auth_required c = true ->
   parseMultibulk c = (Returned READ_FLAGS_ERROR_UNAUTHENTICATED_BULK_LEN, c)).
Proof.
  intros Hm Hb Hbuf Hpos Hcr Hsize. split.
  - intros [Hs | (ll & Hs & Hll)]; apply parseMultibulk_bulk_return; auto.
    + eapply read_bulk_len_malformed; eauto.
    + eapply read_bulk_len_out_of_range; eauto.
  - intros ll Hs H0 Hr H1 Ha. apply parseMultibulk_bulk_return; auto.
    eapply read_bulk_len_unauthenticated; eauto.
Qed.

Lemma C8_bulk_length_bounds_witness :
  let c := client_reading_bulk
             (bytes [36; 53; 51; 54; 56; 55; 48; 57; 49; 51; 13; 10]) 0 in
  parseMultibulk c = (Returned READ_FLAGS_ERROR_MBULK_INVALID_BULK_LEN, c).
Proof.
  intros c.
  apply (C8_bulk_length_bounds c [] (bytes [53; 51; 54; 56; 55; 48; 57; 49; 51])
           (byte_of_Z 10) []).
  - vm_compute. reflexivity.
  - reflexivity.
  - reflexivity.
  - reflexivity.
  - unfold no_cr. repeat constructor; vm_compute; discriminate.
  - vm_compute. reflexivity.
  - right. exists 536870913. split; [vm_compute; reflexivity|].
    right. split; [reflexivity | lia].
Defined.

(** C10: string2ll rejects every length token that is not a canonical
    decimal number of the signed 64-bit range: leading zeros (other than
    exactly "0"), a leading plus sign, a character that is not a digit
    (a leading minus sign apart), or a magnitude outside the range; and
    parseMultibulk, reading such a token in a multibulk count line
    "*<token>\r" or in a bulk length line "$<token>\r", returns the
    invalid-multibulk-length flag, respectively the invalid-bulk-length
    flag, leaving the client record untouched. *)
Theorem C10_non_canonical_length_rejected (s : list byte) :
  non_canonical s ->
  string2ll s = None /\
  (forall c pre x rest,
     multibulklen c = 0 -> argc c = 0 ->
     querybuf c = length_line pre ch_star s x rest ->
     qb_pos c = Z.of_nat (length pre) -> no_cr s ->
     sdslen (querybuf c) < 2 ^ 63 ->
     parseMultibulk c
     = (Returned READ_FLAGS_ERROR_INVALID_MULTIBULK_LEN, c)) /\
  (forall c pre x rest,
     multibulklen c > 0 -> bulklen c = -1 ->
     querybuf c = length_line pre ch_dollar s x rest ->
     qb_pos c = Z.of_nat (length pre) -> no_cr s ->
     sdslen (querybuf c) < 2 ^ 63 ->
     parseMultibulk c
     = (Returned READ_FLAGS_ERROR_MBULK_INVALID_BULK_LEN, c)).
Proof.
  intros Hs. pose proof (string2ll_non_canonical s Hs) as Hnone.
  split; [exact Hnone|]. split.
  - intros c pre x rest Hm Ha Hbuf Hpos Hcr Hsize.
    apply parseMultibulk_header_return; [exact Hm|].
    eapply read_multibulk_len_malformed; eauto.
  - intros c pre x rest Hm Hb Hbuf Hpos Hcr Hsize.
    apply parseMultibulk_bulk_return; auto.
    eapply read_bulk_len_malformed; eauto.
Qed.

Lemma C10_non_canonical_length_rejected_witness :
  let s := bytes [48; 48; 55] in
  let c := valkey_client_init (bytes [42; 48; 48; 55; 13; 10]) in
  non_canonical s /\
  string2ll s = None /\
  parseMultibulk c = (Returned READ_FLAGS_ERROR_INVALID_MULTIBULK_LEN, c).
Proof.
  intros s c.
  assert (H : non_canonical s).
  { apply nc_leading_zero; [reflexivity | discriminate]. }
  split; [exact H|].
  destruct (C10_non_canonical_length_rejected s H) as (H1 & H2 & _).
  split; [exact H1|].
  apply (H2 c [] (byte_of_Z 10) []).
  - reflexivity.
  - reflexivity.
  - reflexivity.
  - reflexivity.
  - unfold no_cr. repeat constructor; vm_compute; discriminate.
  - vm_compute. reflexivity.
Defined.

(** The driver-facing wrapper turns the invalid-bulk-length flag into an
    error return and records the flag. *)
Lemma valkey_parse_command_invalid_bulk_len c :
  reqtype c = PROTO_REQ_MULTIBULK ->
  parseMultibulk c = (Returned READ_FLAGS_ERROR_MBULK_INVALID_BULK_LEN, c) ->
  fst (valkey_parse_command c) = Returned (-1) /\
  read_flags (snd (valkey_parse_command c))
  = Z.lor (read_flags c) READ_FLAGS_ERROR_MBULK_INVALID_BULK_LEN.
Proof.
  intros Hr Hp. unfold valkey_parse_command. rewrite Hr.
  change (PROTO_REQ_MULTIBULK =? 0) with false. cbv iota. cbv zeta.
  rewrite Hr. change (PROTO_REQ_MULTIBULK =? PROTO_REQ_MULTIBULK) with true.
  cbv iota. rewrite Hp. split; reflexivity.
Qed.

End RespFacts.

(** ** The serializer against the parser *)

Section SerializerFacts.
Import CInt Mem Respb Serializer.

(** C3: the round trip fails for the module opcode.  The record of
    [JSON.GET profile .name] (opcode 0xF000, module id 0, command id 1,
    argc 2) is serialised by the generic branch as two length-prefixed
    strings, 24 bytes in all, without the 2-byte number of paths the
    parser reads after the key: parsing these bytes takes the length
    prefix of the path for the count and returns 0 (incomplete), not a
    record equal to the one serialised.  The layout the parser accepts is
    two bytes longer. *)
Theorem C3_json_get_round_trip_fails :
  argc json_get_profile = 2 /\
  length (args json_get_profile) = Z.to_nat RESPB_MAX_ARGS /\
  respb_serialize_command (repeat x00 64) 64 json_get_profile =
    (Returned 24,
     bytes [240; 0; 0; 0; 0; 0; 0; 1;
            0; 7; 112; 114; 111; 102; 105; 108; 101;
            0; 5; 46; 110; 97; 109; 101] ++ repeat x00 40) /\
  fst (round_trip 64 json_get_profile) = (Returned 24, Returned 0) /\
  (let '(r, _, c') :=
     respb_parse_command (respb_parser_init json_get_profile_wire 26)
                         zero_command in
   r = Returned 1 /\ argc c' = 2 /\
   arg_strings c' = arg_strings json_get_profile).
Proof. vm_compute. repeat split; reflexivity. Qed.

(** *** Big-endian bytes, written and read back *)

Lemma byte_to_of z : byte_to_Z (byte_of_Z z) = u8 z.
Proof.
  unfold byte_to_Z, byte_of_Z.
  pose proof (wrap_range 8 z ltac:(lia)) as R. fold (u8 z) in R.
  destruct (Byte.of_N (Z.to_N (u8 z))) as [b|] eqn:E.
  - apply Byte.to_of_N in E. rewrite E. apply Z2N.id. lia.
  - apply Byte.of_N_None_iff in E. lia.
Qed.

Lemma byte_of_low z : byte_of_Z (Z.land z 0xFF) = byte_of_Z z.
Proof.
  unfold byte_of_Z. replace (u8 (Z.land z 0xFF)) with (u8 z); [reflexivity|].
  change 0xFF with (Z.ones 8). rewrite Z.land_ones by lia.
  unfold u8, wrap. symmetry. apply Z.mod_mod. lia.
Qed.

Lemma byte_of_shifted z k :
  0 <= k -> byte_of_Z (Z.land (Z.shiftr z k) 0xFF) = byte_of_Z (z / 2 ^ k).
Proof. intros Hk. rewrite byte_of_low, Z.shiftr_div_pow2 by lia. reflexivity. Qed.

Lemma byte_at_app pre l i :
  0 <= i -> byte_at (pre ++ l) (Z.of_nat (length pre) + i) = byte_at l i.
Proof.
  intros Hi. unfold byte_at, load. cbn [base off].
  destruct (Z.ltb_spec (Z.of_nat (length pre) + i + 0) 0); [lia|].
  destruct (Z.ltb_spec (i + 0) 0); [lia|].
  rewrite lookup_app_r by lia.
  replace (Z.to_nat (Z.of_nat (length pre) + i + 0) - length pre)%nat
    with (Z.to_nat (i + 0)) by lia.
  reflexivity.
Qed.

Lemma byte_at_0 x l : byte_at (x :: l) 0 = byte_to_Z x.
Proof. reflexivity. Qed.

Lemma byte_at_S x l i : 0 <= i -> byte_at (x :: l) (i + 1) = byte_at l i.
Proof.
  intros Hi. change (x :: l) with ([x] ++ l).
  replace (i + 1) with (Z.of_nat (length [x]) + i) by (simpl; lia).
  apply byte_at_app. exact Hi.
Qed.

Lemma be16_at_bytes v rest :
  0 <= v < 2 ^ 16 -> be16_at (be16_bytes v ++ rest) 0 = v.
Proof.
  intros Hv. unfold be16_at, be16_bytes. cbn [app].
  rewrite byte_at_0. rewrite (byte_at_S _ _ 0) by lia. rewrite byte_at_0.
  rewrite !byte_to_of. unfold u8, wrap.
  rewrite (Z.mod_small (v / 2 ^ 8)).
  - pose proof (Z.div_mod v (2 ^ 8) ltac:(lia)). lia.
  - split; [apply Z.div_pos; lia | apply Z.div_lt_upper_bound; lia].
Qed.

Lemma be32_at_cons a b c d rest :
  be32_at (a :: b :: c :: d :: rest) 0
  = byte_to_Z a * 2 ^ 24 + byte_to_Z b * 2 ^ 16 + byte_to_Z c * 2 ^ 8
    + byte_to_Z d.
Proof. reflexivity. Qed.

Lemma be32_at_bytes v rest :
  0 <= v < 2 ^ 32 -> be32_at (be32_bytes v ++ rest) 0 = v.
Proof.
  intros Hv. unfold be32_bytes. cbn [app]. rewrite be32_at_cons.
  rewrite !byte_to_of. unfold u8, wrap.
  rewrite (Z.mod_small (v / 2 ^ 24))
    by (split; [apply Z.div_pos; lia | apply Z.div_lt_upper_bound; lia]).
  pose proof (Z.div_mod v (2 ^ 8) ltac:(lia)) as E1.
  pose proof (Z.div_mod (v / 2 ^ 8) (2 ^ 8) ltac:(lia)) as E2.
  pose proof (Z.div_mod (v / 2 ^ 16) (2 ^ 8) ltac:(lia)) as E3.
  rewrite Z.div_div in E2 by lia. rewrite Z.div_div in E3 by lia.
  change (2 ^ 8 * 2 ^ 8) with (2 ^ 16) in E2.
  change (2 ^ 16 * 2 ^ 8) with (2 ^ 24) in E3.
  lia.
Qed.

Lemma len_bytes_length w n : w = 2 \/ w = 4 -> Z.of_nat (length (len_bytes w n)) = w.
Proof. intros [-> | ->]; reflexivity. Qed.

Lemma byte_at_app0 pre l :
  byte_at (pre ++ l) (Z.of_nat (length pre)) = byte_at l 0.
Proof.
  rewrite <- (byte_at_app pre l 0) by lia. f_equal. lia.
Qed.

Lemma be16_at_app pre l :
  be16_at (pre ++ l) (Z.of_nat (length pre)) = be16_at l 0.
Proof.
  unfold be16_at. rewrite !(byte_at_app pre l) by lia.
  rewrite byte_at_app0. reflexivity.
Qed.

Lemma be32_at_app pre l :
  be32_at (pre ++ l) (Z.of_nat (length pre)) = be32_at l 0.
Proof.
  unfold be32_at. rewrite !(byte_at_app pre l) by lia.
  rewrite byte_at_app0. reflexivity.
Qed.

Lemma len_at_bytes w n pre rest :
  w = 2 \/ w = 4 -> 0 <= n < 2 ^ (8 * w) ->
  len_at w (pre ++ len_bytes w n ++ rest) (Z.of_nat (length pre)) = n.
Proof.
  intros [-> | ->] Hn; unfold len_at, len_bytes; simpl Z.eqb; cbv iota.
  - rewrite be16_at_app. apply be16_at_bytes. exact Hn.
  - rewrite be32_at_app. apply be32_at_bytes. exact Hn.
Qed.

(** *** Reading a written payload

    The layout of the fields of an encoded payload ends where the
    encoding ends, and its strings are the strings encoded. *)

Lemma encode_fields_cons f ws :
  encode_fields (f :: ws) = encode_field f ++ encode_fields ws.
Proof. reflexivity. Qed.

Lemma encode_fields_app ws ws' :
  encode_fields (ws ++ ws') = encode_fields ws ++ encode_fields ws'.
Proof. unfold encode_fields. rewrite map_app, concat_app. reflexivity. Qed.

Lemma layout_of_encoded b : forall ws pre post,
  Forall width_ok ws -> Forall prefix_fits ws ->
  b = pre ++ encode_fields ws ++ post ->
  layout_end b (map shape ws) (Z.of_nat (length pre))
    = Z.of_nat (length pre) + Z.of_nat (length (encode_fields ws)) /\
  map arg_bytes (layout_args b (map shape ws) (Z.of_nat (length pre)))
    = map Some (wire_strings ws).
Proof.
  induction ws as [|f ws IH]; intros pre post Hw Hf Hb.
  - simpl. split; [lia | reflexivity].
  - apply Forall_cons in Hw as [Hw1 Hw2]. apply Forall_cons in Hf as [Hf1 Hf2].
    rewrite encode_fields_cons in Hb. rewrite encode_fields_cons.
    destruct f as [l | w d]; cbn [map shape layout_end layout_args wire_strings prefix_fits width_ok
                                   encode_field] in *;
      rewrite <- ?app_assoc in Hb.
    + specialize (IH (pre ++ l) post Hw2 Hf2).
      rewrite length_app, Nat2Z.inj_add in IH.
      destruct IH as [E1 E2]; [rewrite Hb, <- !app_assoc; reflexivity|].
      rewrite E1, E2, length_app. split; [lia | reflexivity].
    + set (n := Z.of_nat (length d)) in *.
      assert (L : len_at w b (Z.of_nat (length pre)) = n).
      { rewrite Hb. apply len_at_bytes; [exact Hw1 | lia]. }
      rewrite L.
      pose proof (len_bytes_length w n Hw1) as LB.
      specialize (IH (pre ++ len_bytes w n ++ d) post Hw2 Hf2).
      rewrite !length_app, !Nat2Z.inj_add, LB in IH. fold n in IH.
      destruct IH as [E1 E2]; [rewrite Hb, <- !app_assoc; reflexivity|].
      replace (Z.of_nat (length pre) + w + n)
        with (Z.of_nat (length pre) + (w + n)) by lia.
      rewrite E1, E2. rewrite !length_app, !Nat2Z.inj_add, LB. fold n.
      split; [lia|]. cbn [map]. f_equal.
      unfold arg_bytes, load_bytes. cbn [data len base off].
      assert (Lb : Z.of_nat (length b) =
                   Z.of_nat (length pre) + w + n +
                   Z.of_nat (length (encode_fields ws ++ post))).
      { rewrite Hb, !length_app, !Nat2Z.inj_add, LB. fold n. lia. }
      replace ((Z.of_nat (length pre) + w <? 0) || (n <? 0)
               || (Z.of_nat (length b) <? Z.of_nat (length pre) + w + n))
        with false.
      * f_equal.
        replace (Z.to_nat (Z.of_nat (length pre) + w))
          with (length (pre ++ len_bytes w n))
          by (rewrite length_app; lia).
        rewrite Hb. rewrite (app_assoc pre).
        rewrite drop_app_length. unfold n. rewrite Nat2Z.id.
        rewrite take_app_length. reflexivity.
      * symmetry. apply orb_false_iff. split; [apply orb_false_iff; split|];
          apply Z.ltb_ge; lia.
Qed.


(** *** The stores of the serializer *)

Lemma store_app w x rest v s :
  out s = w ++ x :: rest ->
  store (Z.of_nat (length w)) v s
  = (Next tt, {| out := w ++ byte_of_Z v :: rest; wpos := wpos s |}).
Proof.
  intros E. unfold store. rewrite E, length_app. cbn [length].
  replace ((0 <=? Z.of_nat (length w)) &&
           (Z.of_nat (length w) <? Z.of_nat (length w + S (length rest))))
    with true.
  - rewrite Nat2Z.id. rewrite insert_app_r_alt by lia.
    rewrite Nat.sub_diag. reflexivity.
  - symmetry. apply andb_true_iff. split; [apply Z.leb_le | apply Z.ltb_lt]; lia.
Qed.

Lemma store_next w x rest v s i :
  out s = w ++ x :: rest -> i = Z.of_nat (length w) ->
  store i v s
  = (Next tt, {| out := (w ++ [byte_of_Z v]) ++ rest; wpos := wpos s |}).
Proof.
  intros E ->. rewrite (store_app w x rest v s E), <- app_assoc. reflexivity.
Qed.

Ltac store_step :=
  lazymatch goal with
  | |- context [store ?i ?v ?s] =>
      erewrite (store_next _ _ _ v s i);
      [ | cbn [out]; reflexivity
        | rewrite ?length_app; cbn [length]; lia ]
  end.

Lemma write_u16_run w old rest v s :
  out s = w ++ old ++ rest -> length old = 2%nat ->
  respb_write_u16 (Z.of_nat (length w)) v s
  = (Next tt, {| out := w ++ be16_bytes (u16 v) ++ rest; wpos := wpos s |}).
Proof.
  intros E Hl. destruct old as [|x0 [|x1 [|]]]; try discriminate Hl.
  cbn [app] in E. unfold respb_write_u16. cbv zeta.
  unfold wbind. rewrite (store_next w x0 (x1 :: rest) _ s _ E eq_refl).
  cbv beta iota. store_step. cbn [wpos].
  rewrite byte_of_shifted by lia. rewrite byte_of_low.
  rewrite <- !app_assoc. reflexivity.
Qed.

Lemma write_u32_run w old rest v s :
  out s = w ++ old ++ rest -> length old = 4%nat ->
  respb_write_u32 (Z.of_nat (length w)) v s
  = (Next tt, {| out := w ++ be32_bytes (u32 v) ++ rest; wpos := wpos s |}).
Proof.
  intros E Hl. destruct old as [|x0 [|x1 [|x2 [|x3 [|]]]]]; try discriminate Hl.
  cbn [app] in E. unfold respb_write_u32. cbv zeta.
  unfold wbind. rewrite (store_next w x0 _ _ s _ E eq_refl).
  do 3 (cbv beta iota; store_step). cbn [wpos].
  rewrite !byte_of_shifted by lia. rewrite byte_of_low.
  rewrite <- !app_assoc. reflexivity.
Qed.

Lemma write_u64_run w old rest v s :
  out s = w ++ old ++ rest -> length old = 8%nat ->
  respb_write_u64 (Z.of_nat (length w)) v s
  = (Next tt, {| out := w ++ be64_bytes (u64 v) ++ rest; wpos := wpos s |}).
Proof.
  intros E Hl.
  destruct old as [|x0 [|x1 [|x2 [|x3 [|x4 [|x5 [|x6 [|x7 [|]]]]]]]]];
    try discriminate Hl.
  cbn [app] in E. unfold respb_write_u64. cbv zeta.
  unfold wbind. rewrite (store_next w x0 _ _ s _ E eq_refl).
  do 7 (cbv beta iota; store_step). cbn [wpos].
  rewrite !byte_of_shifted by lia. rewrite byte_of_low.
  rewrite <- !app_assoc. reflexivity.
Qed.

Lemma load_bytes_length p n d :
  load_bytes p n = Some d -> Z.of_nat (length d) = n /\ 0 <= n.
Proof.
  unfold load_bytes.
  destruct ((off p <? 0) || (n <? 0) || (Z.of_nat (length (base p)) <? off p + n))
    eqn:C; [discriminate|].
  apply orb_false_iff in C as [C C3]. apply orb_false_iff in C as [C1 C2].
  apply Z.ltb_ge in C1, C2, C3.
  intros E. inversion E; subst d.
  rewrite length_take, length_drop. lia.
Qed.

Lemma memcpy_run w old rest src n d s :
  out s = w ++ old ++ rest -> load_bytes src n = Some d ->
  length old = length d ->
  memcpy (Z.of_nat (length w)) src n s
  = (Next tt, {| out := w ++ d ++ rest; wpos := wpos s |}).
Proof.
  intros E Hd Hl. destruct (load_bytes_length _ _ _ Hd) as [Hn Hn0].
  unfold memcpy. rewrite Hd, E, !length_app.
  replace ((0 <=? Z.of_nat (length w)) &&
           (Z.of_nat (length w) + n
            <=? Z.of_nat (length w + (length old + length rest))))
    with true
    by (symmetry; apply andb_true_iff; split; apply Z.leb_le; lia).
  rewrite Nat2Z.id, take_app_length.
  replace (Z.to_nat (Z.of_nat (length w) + n))
    with (length w + length old)%nat by lia.
  rewrite <- drop_drop, drop_app_length, drop_app_length. reflexivity.
Qed.

(** *** What has been written so far *)

Lemma wrote_length buf w s : wrote buf w s -> length (out s) = length buf.
Proof.
  intros (E & _ & H). rewrite E, length_app, length_drop. lia.
Qed.

Lemma wrote_split buf w s k :
  wrote buf w s -> (length w + k <= length buf)%nat ->
  out s = w ++ take k (drop (length w) buf) ++ drop (length w + k) buf /\
  length (take k (drop (length w) buf)) = k.
Proof.
  intros (E & _ & H) Hk. split.
  - rewrite E. f_equal. rewrite <- drop_drop. symmetry. apply take_drop.
  - rewrite length_take, length_drop. lia.
Qed.

Lemma wrote_extend buf w new o p :
  o = w ++ new ++ drop (length w + length new) buf ->
  p = Z.of_nat (length w) + Z.of_nat (length new) ->
  (length w + length new <= length buf)%nat ->
  wrote buf (w ++ new) {| out := o; wpos := p |}.
Proof.
  intros -> -> H. unfold wrote. cbn [out wpos].
  rewrite length_app, <- app_assoc. repeat split; [lia | exact H].
Qed.


(** *** Records and encodings *)

Lemma enc_len_cons f ws :
  length (encode_fields (f :: ws))
  = (length (encode_field f) + length (encode_fields ws))%nat.
Proof. rewrite encode_fields_cons. apply length_app. Qed.

Lemma enc_len_2 d : length (encode_field (Pre 2 d)) = (2 + length d)%nat.
Proof. cbn [encode_field]. rewrite length_app. reflexivity. Qed.

Lemma enc_len_4 d : length (encode_field (Pre 4 d)) = (4 + length d)%nat.
Proof. cbn [encode_field]. rewrite length_app. reflexivity. Qed.

Lemma enc_len_nil : length (encode_fields []) = 0%nat.
Proof. reflexivity. Qed.

Lemma even_mod2 n : Nat.even n = true -> Z.of_nat n mod 2 = 0.
Proof.
  intros H. apply Nat.even_spec in H. destruct H as [m ->].
  rewrite Nat2Z.inj_mul, Z.mul_comm. apply Z_mod_mult.
Qed.

Lemma even_half n : Nat.even n = true -> exists m, n = (2 * m)%nat.
Proof. intros H. apply Nat.even_spec in H. exact H. Qed.

Lemma designates_lookup c ds j d :
  designates c ds -> ds !! j = Some d ->
  exists a, args c !! j = Some a /\ arg_bytes a = Some d.
Proof.
  intros (Hl & Ha & F & _) Hj.
  destruct (Forall2_lookup_r _ _ _ _ _ F Hj) as (a & Ea & Pa).
  exists a. split; [|exact Pa]. apply lookup_take_Some in Ea. tauto.
Qed.

Lemma designates_argc c ds :
  designates c ds -> argc c = Z.of_nat (length ds) /\ argc c <= RESPB_MAX_ARGS.
Proof.
  intros (Hl & Ha & F & _). split; [exact Ha|].
  apply Forall2_length in F. rewrite length_take in F.
  rewrite Ha. unfold RESPB_MAX_ARGS in Hl |- *. lia.
Qed.

Lemma arg_at_run cmd i a s :
  0 <= i < RESPB_MAX_ARGS -> args cmd !! Z.to_nat i = Some a ->
  arg_at cmd i s = (Next a, s).
Proof.
  intros Hi E. unfold arg_at.
  replace ((0 <=? i) && (i <? RESPB_MAX_ARGS)) with true
    by (symmetry; apply andb_true_iff; split;
        [apply Z.leb_le | apply Z.ltb_lt]; lia).
  rewrite E. reflexivity.
Qed.

(** *** A logic of the serializer: what is written, and when it fits *)

Section Emit.
Local Open Scope ser_scope.
Variable buf : list byte.
Hypothesis buf_small : Z.of_nat (length buf) <= PTRDIFF_MAX.

Lemma wbind_assoc {A B C} (m : W A) (f : A -> W B) (g : B -> W C) s :
  wbind (wbind m f) g s = wbind m (fun a => wbind (f a) g) s.
Proof. unfold wbind. destruct (m s) as [[a | c |] s1]; reflexivity. Qed.

Lemma wbind_ret (m : W unit) s : wbind m (fun _ => wret tt) s = m s.
Proof. unfold wbind, wret. destruct (m s) as [[[] | c |] s1]; reflexivity. Qed.

Lemma emits_ext {A} r w ws (m m' : W A) Q :
  (forall s, m' s = m s) -> emits buf r w ws m Q -> emits buf r w ws m' Q.
Proof. intros E H s. rewrite E. apply H. Qed.

Lemma emits_fields {A} r w ws ws' (m : W A) Q :
  encode_fields ws = encode_fields ws' ->
  emits buf r w ws m Q -> emits buf r w ws' m Q.
Proof. intros E H s. rewrite <- E. apply H. Qed.

Lemma emits_room {A} r r' w ws (m : W A) Q :
  r' <= r -> emits buf r' w ws m Q -> emits buf r w ws m Q.
Proof. intros Hr H s Hs Hroom. apply H; [exact Hs | lia]. Qed.

Lemma e_done r w : emits buf r w [] (wret tt) (fun _ s => wrote buf w s).
Proof.
  intros s Hs _. split.
  - intros _. exists tt, s. split; [reflexivity | exact Hs].
  - destruct Hs as (_ & _ & H). cbn [encode_fields map concat length]. lia.
Qed.

Lemma e_last r w ws (m : W unit) Q :
  emits buf r w ws (m;; wret tt) Q -> emits buf r w ws m Q.
Proof. apply emits_ext. intros s. symmetry. apply wbind_ret. Qed.

Lemma e_fail_if {A} r w ws (b : bool) (k : W A) Q :
  b = false -> emits buf r w ws k Q -> emits buf r w ws (fail_if b;; k) Q.
Proof. intros ->. exact id. Qed.

Lemma e_len {A} r w ws cmd i a (k : Z -> W A) Q :
  0 <= i < RESPB_MAX_ARGS -> args cmd !! Z.to_nat i = Some a ->
  emits buf r w ws (k (len a)) Q ->
  emits buf r w ws (l <- arg_len cmd i;; k l) Q.
Proof.
  intros Hi E H s. unfold arg_len, wbind. rewrite (arg_at_run _ _ _ _ Hi E).
  unfold wret. apply H.
Qed.

Lemma e_check {A} r n w ws (k : W A) Q :
  0 <= n <= Z.of_nat (length (encode_fields ws)) -> n < 2 ^ 62 ->
  emits buf n w ws k Q ->
  emits buf r w ws (check_room (Z.of_nat (length buf)) n;; k) Q.
Proof.
  intros Hn Hn' Hk s Hs Hr. pose proof Hs as (E & P & Hl).
  unfold wbind, check_room. unfold PTRDIFF_MAX in buf_small.
  rewrite P, size_t_small by lia.
  destruct (Z.gtb_spec (Z.of_nat (length w) + n) (Z.of_nat (length buf)))
    as [Hgt | Hle].
  - split; [lia|]. intros _. exists s.
    split; [reflexivity | apply (wrote_length _ _ _ Hs)].
  - apply Hk; [exact Hs | lia].
Qed.

Lemma e_step {A} r w f ws (m : W unit) (k : W A) Q :
  Z.of_nat (length (encode_field f)) <= r ->
  (forall s, wrote buf w s ->
     Z.of_nat (length w) + Z.of_nat (length (encode_field f))
       <= Z.of_nat (length buf) ->
     exists s', m s = (Next tt, s') /\ wrote buf (w ++ encode_field f) s') ->
  emits buf (r - Z.of_nat (length (encode_field f))) (w ++ encode_field f) ws k Q ->
  emits buf r w (f :: ws) (m;; k) Q.
Proof.
  intros Hr Hm Hk s Hs Hroom.
  destruct (Hm s Hs) as (s' & E & Hs'); [lia|].
  unfold wbind. rewrite E.
  specialize (Hk s' Hs'). rewrite length_app, Nat2Z.inj_add in Hk.
  rewrite encode_fields_cons, length_app, Nat2Z.inj_add.
  destruct Hk as [H1 H2]; [lia|].
  split; intros H; [apply H1 | apply H2]; lia.
Qed.

Lemma emit_u16_run w v s :
  wrote buf w s -> Z.of_nat (length w) + 2 <= Z.of_nat (length buf) ->
  0 <= v < 2 ^ 16 ->
  exists s', emit_u16 v s = (Next tt, s') /\ wrote buf (w ++ be16_bytes v) s'.
Proof.
  intros Hs Hroom Hv. pose proof Hs as (_ & P & _).
  destruct (wrote_split buf w s 2 Hs) as [E Hl]; [lia|].
  unfold PTRDIFF_MAX in buf_small.
  unfold emit_u16, wbind, wget, wpos_add. rewrite P.
  rewrite (write_u16_run w _ _ v s E Hl). cbn [out wpos].
  eexists. split; [reflexivity|]. rewrite u16_small by exact Hv.
  apply wrote_extend; [reflexivity | | cbn [length be16_bytes]; lia].
  rewrite P, size_t_small by lia. reflexivity.
Qed.

Lemma copy_run w src n d s :
  wrote buf w s -> load_bytes src n = Some d ->
  Z.of_nat (length w) + Z.of_nat (length d) <= Z.of_nat (length buf) ->
  exists s',
    (s0 <- wget;; memcpy (wpos s0) src n;; wpos_add n) s = (Next tt, s') /\
    wrote buf (w ++ d) s'.
Proof.
  intros Hs Hd Hroom. pose proof Hs as (_ & P & _).
  destruct (load_bytes_length _ _ _ Hd) as [Hn Hn0].
  destruct (wrote_split buf w s (length d) Hs) as [E Hl]; [lia|].
  unfold PTRDIFF_MAX in buf_small.
  unfold wbind, wget, wpos_add. rewrite P.
  rewrite (memcpy_run w _ _ src n d s E Hd Hl). cbn [out wpos].
  eexists. split; [reflexivity|].
  apply wrote_extend; [reflexivity | | lia].
  rewrite P, size_t_small by lia. lia.
Qed.

Lemma emit_string_2B_run w cmd i a d s :
  wrote buf w s ->
  0 <= i < RESPB_MAX_ARGS -> args cmd !! Z.to_nat i = Some a ->
  arg_bytes a = Some d -> Z.of_nat (length d) < 2 ^ 16 ->
  Z.of_nat (length w) + Z.of_nat (length (encode_field (Pre 2 d)))
    <= Z.of_nat (length buf) ->
  exists s', emit_string_2B cmd i s = (Next tt, s') /\
             wrote buf (w ++ encode_field (Pre 2 d)) s'.
Proof.
  intros Hs Hi Ea Hd Hd16 Hroom.
  destruct (load_bytes_length _ _ _ Hd) as [Hn Hn0].
  cbn [encode_field] in *. rewrite length_app in Hroom.
  change (len_bytes 2 (Z.of_nat (length d))) with
    (be16_bytes (Z.of_nat (length d))) in *.
  cbn [length be16_bytes] in Hroom.
  destruct (emit_u16_run w (len a) s Hs) as (s1 & E1 & Hs1); [lia | lia |].
  destruct (copy_run (w ++ be16_bytes (len a)) (data a) (len a) d s1 Hs1 Hd)
    as (s2 & E2 & Hs2); [rewrite length_app; cbn [length be16_bytes]; lia|].
  exists s2. split.
  - transitivity ((a0 <- arg_at cmd i;; emit_u16 (len a0);;
                   s0 <- wget;; memcpy (wpos s0) (data a0) (len a0);;
                   wpos_add (len a0)) s).
    + unfold emit_string_2B, emit_u16, wbind.
      destruct (arg_at cmd i s) as [[a0 | c |] s0]; try reflexivity.
      unfold wget.
      destruct (respb_write_u16 (wpos s0) (len a0) s0) as [[[] | c |] s3];
        reflexivity.
    + unfold wbind at 1. rewrite (arg_at_run _ _ _ _ Hi Ea).
      unfold wbind at 1. rewrite E1. exact E2.
  - rewrite <- Hn, <- app_assoc in *. exact Hs2.
Qed.

Lemma emit_string_4B_run w cmd i a d s :
  wrote buf w s ->
  0 <= i < RESPB_MAX_ARGS -> args cmd !! Z.to_nat i = Some a ->
  arg_bytes a = Some d -> Z.of_nat (length d) < 2 ^ 32 ->
  Z.of_nat (length w) + Z.of_nat (length (encode_field (Pre 4 d)))
    <= Z.of_nat (length buf) ->
  exists s', emit_string_4B cmd i s = (Next tt, s') /\
             wrote buf (w ++ encode_field (Pre 4 d)) s'.
Proof.
  intros Hs Hi Ea Hd Hd32 Hroom. pose proof Hs as (_ & P & _).
  destruct (load_bytes_length _ _ _ Hd) as [Hn Hn0].
  cbn [encode_field] in *. rewrite length_app in Hroom.
  change (len_bytes 4 (Z.of_nat (length d))) with
    (be32_bytes (Z.of_nat (length d))) in *.
  cbn [length be32_bytes] in Hroom.
  unfold PTRDIFF_MAX in buf_small.
  destruct (wrote_split buf w s 4 Hs) as [E Hl]; [lia|].
  assert (Hs1 : wrote buf (w ++ be32_bytes (len a))
                  {| out := w ++ be32_bytes (u32 (len a)) ++
                            drop (length w + 4) buf;
                     wpos := size_t (wpos s + 4) |}).
  { rewrite u32_small by lia.
    apply wrote_extend; [reflexivity | | cbn [length be32_bytes]; lia].
    rewrite P, size_t_small by lia. reflexivity. }
  destruct (copy_run (w ++ be32_bytes (len a)) (data a) (len a) d _ Hs1 Hd)
    as (s2 & E2 & Hs2); [rewrite length_app; cbn [length be32_bytes]; lia|].
  exists s2. split.
  - unfold emit_string_4B. unfold wbind at 1.
    rewrite (arg_at_run _ _ _ _ Hi Ea).
    unfold wbind at 1, wget at 1. unfold wbind at 1. rewrite P.
    rewrite (write_u32_run w _ _ (len a) s E Hl).
    unfold wbind at 1, wpos_add at 1. cbn [out wpos].
    exact E2.
  - rewrite <- Hn, <- app_assoc in *. exact Hs2.
Qed.

Lemma e_str2 {A} r w ws cmd i a d (k : W A) Q :
  0 <= i < RESPB_MAX_ARGS -> args cmd !! Z.to_nat i = Some a ->
  arg_bytes a = Some d -> Z.of_nat (length d) < 2 ^ 16 ->
  2 + Z.of_nat (length d) <= r ->
  emits buf (r - (2 + Z.of_nat (length d))) (w ++ encode_field (Pre 2 d)) ws k Q ->
  emits buf r w (Pre 2 d :: ws) (emit_string_2B cmd i;; k) Q.
Proof.
  intros Hi Ea Hd Hd16 Hr Hk.
  assert (El : Z.of_nat (length (encode_field (Pre 2 d)))
               = 2 + Z.of_nat (length d)).
  { cbn [encode_field]. rewrite length_app. cbn. lia. }
  apply e_step.
  - rewrite El. exact Hr.
  - intros s Hs Hroom. apply (emit_string_2B_run w cmd i a d s); assumption.
  - rewrite El. exact Hk.
Qed.

Lemma e_str4 {A} r w ws cmd i a d (k : W A) Q :
  0 <= i < RESPB_MAX_ARGS -> args cmd !! Z.to_nat i = Some a ->
  arg_bytes a = Some d -> Z.of_nat (length d) < 2 ^ 32 ->
  4 + Z.of_nat (length d) <= r ->
  emits buf (r - (4 + Z.of_nat (length d))) (w ++ encode_field (Pre 4 d)) ws k Q ->
  emits buf r w (Pre 4 d :: ws) (emit_string_4B cmd i;; k) Q.
Proof.
  intros Hi Ea Hd Hd32 Hr Hk.
  assert (El : Z.of_nat (length (encode_field (Pre 4 d)))
               = 4 + Z.of_nat (length d)).
  { cbn [encode_field]. rewrite length_app. cbn. lia. }
  apply e_step.
  - rewrite El. exact Hr.
  - intros s Hs Hroom. apply (emit_string_4B_run w cmd i a d s); assumption.
  - rewrite El. exact Hk.
Qed.

Lemma e_u16 {A} r w ws v (k : W A) Q :
  0 <= v < 2 ^ 16 -> 2 <= r ->
  emits buf (r - 2) (w ++ be16_bytes v) ws k Q ->
  emits buf r w (Raw (be16_bytes v) :: ws) (emit_u16 v;; k) Q.
Proof.
  intros Hv Hr Hk. apply e_step.
  - cbn. lia.
  - intros s Hs Hroom. apply emit_u16_run; [exact Hs | cbn in Hroom; lia | exact Hv].
  - exact Hk.
Qed.

Lemma emits_post {A} r w ws (m : W A) (Q Q' : A -> sstate -> Prop) :
  (forall a s, Q a s -> Q' a s) ->
  emits buf r w ws m Q -> emits buf r w ws m Q'.
Proof.
  intros HQ H s Hs Hr. destruct (H s Hs Hr) as [H1 H2]. split; [|exact H2].
  intros Hfit. destruct (H1 Hfit) as (a & s' & E & Hq).
  exists a, s'. split; [exact E | apply HQ; exact Hq].
Qed.

Lemma e_done_eq r w w' :
  w = w' -> emits buf r w [] (wret tt) (fun _ s => wrote buf w' s).
Proof. intros ->. apply e_done. Qed.

Lemma e_step_last r w w' f (m : W unit) :
  Z.of_nat (length (encode_field f)) <= r ->
  (forall s, wrote buf w s ->
     Z.of_nat (length w) + Z.of_nat (length (encode_field f))
       <= Z.of_nat (length buf) ->
     exists s', m s = (Next tt, s') /\ wrote buf (w ++ encode_field f) s') ->
  w ++ encode_field f = w' ->
  emits buf r w [f] m (fun _ s => wrote buf w' s).
Proof.
  intros Hr Hm Hw. apply e_last. apply e_step; [exact Hr | exact Hm |].
  apply e_done_eq. exact Hw.
Qed.

Ltac wassoc :=
  lazymatch goal with
  | |- emits ?b ?r ?w ?ws (wbind (wbind ?m ?f) ?g) ?Q =>
      apply (emits_ext r w ws (wbind m (fun a => wbind (f a) g)));
      [intros ?; apply wbind_assoc | cbv beta]
  end.

Lemma u64_run w v s :
  wrote buf w s -> Z.of_nat (length w) + 8 <= Z.of_nat (length buf) ->
  exists s',
    (s0 <- wget;; respb_write_u64 (wpos s0) v;; wpos_add 8) s = (Next tt, s') /\
    wrote buf (w ++ be64_bytes (u64 v)) s'.
Proof.
  intros Hs Hroom. pose proof Hs as (_ & P & _).
  destruct (wrote_split buf w s 8 Hs) as [E Hl]; [lia|].
  unfold PTRDIFF_MAX in buf_small.
  unfold wbind, wget, wpos_add. rewrite P.
  rewrite (write_u64_run w _ _ v s E Hl). cbn [out wpos].
  eexists. split; [reflexivity|].
  apply wrote_extend; [reflexivity | | cbn [length be64_bytes]; lia].
  rewrite P, size_t_small by lia. reflexivity.
Qed.

Lemma byte_run w v s :
  wrote buf w s -> Z.of_nat (length w) + 1 <= Z.of_nat (length buf) ->
  exists s',
    (s0 <- wget;; store (wpos s0) v;; wpos_add 1) s = (Next tt, s') /\
    wrote buf (w ++ [byte_of_Z v]) s'.
Proof.
  intros Hs Hroom. pose proof Hs as (_ & P & _).
  destruct (wrote_split buf w s 1 Hs) as [E Hl]; [lia|].
  destruct (take 1 (drop (length w) buf)) as [|x [|]]; try discriminate Hl.
  cbn [app] in E.
  unfold PTRDIFF_MAX in buf_small.
  unfold wbind, wget, wpos_add. rewrite P.
  rewrite (store_app w x _ v s E). cbn [out wpos].
  eexists. split; [reflexivity|].
  apply wrote_extend; [reflexivity | | cbn [length]; lia].
  rewrite P, size_t_small by lia. reflexivity.
Qed.

(** The flags byte and the 8-byte expiry at the end of a [SET]. *)
Lemma set_tail_run w s :
  wrote buf w s -> Z.of_nat (length w) + 9 <= Z.of_nat (length buf) ->
  exists s',
    (s0 <- wget;; store (wpos s0) 0;; wpos_add 1;;
     s1 <- wget;; respb_write_u64 (wpos s1) 0;; wpos_add 8) s = (Next tt, s') /\
    wrote buf (w ++ repeat x00 9) s'.
Proof.
  intros Hs Hroom.
  destruct (byte_run w 0 s Hs) as (s1 & E1 & Hs1); [lia|].
  destruct (u64_run (w ++ [byte_of_Z 0]) 0 s1 Hs1) as (s2 & E2 & Hs2);
    [rewrite length_app; cbn [length]; lia|].
  exists s2. split.
  - rewrite <- E2.
    transitivity (((s0 <- wget;; store (wpos s0) 0;; wpos_add 1);;
                   (s0 <- wget;; respb_write_u64 (wpos s0) 0;; wpos_add 8)) s).
    + symmetry. rewrite wbind_assoc. unfold wbind at 1. unfold wget at 1.
      cbv beta iota. rewrite wbind_assoc. reflexivity.
    + unfold wbind at 1. rewrite E1. reflexivity.
  - rewrite <- app_assoc in Hs2. exact Hs2.
Qed.

(** The loop of the serialisation of a list of strings. *)
Lemma e_strings {A} cmd ws (k : W A) Q : forall ds fuel i w r,
  0 <= i -> 0 <= r ->
  argc cmd = i + Z.of_nat (length ds) -> argc cmd <= RESPB_MAX_ARGS ->
  (length ds <= fuel)%nat ->
  (forall j d, ds !! j = Some d ->
     exists a, args cmd !! (Z.to_nat i + j)%nat = Some a /\
               arg_bytes a = Some d) ->
  Forall prefix_fits (map (Pre 2) ds) ->
  emits buf 0 (w ++ encode_fields (map (Pre 2) ds)) ws k Q ->
  emits buf r w (map (Pre 2) ds ++ ws)
    (for_size_t_from fuel i (argc cmd) 1
       (fun i => l <- arg_len cmd i;;
                 check_room (Z.of_nat (length buf)) (2 + l);;
                 emit_string_2B cmd i);; k) Q.
Proof.
  induction ds as [|d ds IH];
    intros fuel i w r Hi Hr Hargc Hmax Hfuel Hargs Hfit Hk.
  - cbn [length] in Hargc. cbn [map app encode_fields concat] in *.
    rewrite app_nil_r in Hk.
    apply (emits_ext _ _ _ k).
    + intros s. destruct fuel; cbn [for_size_t_from]; [reflexivity|].
      replace (i <? argc cmd) with false by (symmetry; apply Z.ltb_ge; lia).
      reflexivity.
    + apply (emits_room r 0); [lia | exact Hk].
  - destruct fuel as [|fuel]; [cbn in Hfuel; lia|].
    cbn [length] in *. cbn [for_size_t_from].
    replace (i <? argc cmd) with true by (symmetry; apply Z.ltb_lt; lia).
    destruct (Hargs 0%nat d eq_refl) as (a & Ea & Ba).
    rewrite Nat.add_0_r in Ea.
    destruct (load_bytes_length _ _ _ Ba) as [Hn _].
    cbn [map] in Hfit. apply Forall_cons in Hfit as [Hd Hfit].
    cbn [prefix_fits] in Hd. change (2 ^ (8 * 2)) with (2 ^ 16) in Hd.
    unfold RESPB_MAX_ARGS in *.
    cbn [map app]. wassoc. wassoc.
    apply (e_len _ _ _ cmd i a); [unfold RESPB_MAX_ARGS; lia | exact Ea |].
    wassoc. apply e_check.
    { rewrite encode_fields_cons, length_app. cbn [encode_field].
      rewrite length_app. change (len_bytes 2 (Z.of_nat (length d)))
        with (be16_bytes (Z.of_nat (length d))). cbn [length be16_bytes]. lia. }
    { lia. }
    apply (e_str2 _ _ _ cmd i a d);
      [unfold RESPB_MAX_ARGS; lia | exact Ea | exact Ba | exact Hd | lia |].
    rewrite size_t_small by lia.
    apply IH; [lia | lia | lia | unfold RESPB_MAX_ARGS; lia | lia | | exact Hfit |].
    + intros j d' Hj. destruct (Hargs (S j) d' Hj) as (a' & Ea' & Ba').
      exists a'. split; [|exact Ba'].
      replace (Z.to_nat (i + 1) + j)%nat with (Z.to_nat i + S j)%nat by lia.
      exact Ea'.
    + cbn [map] in Hk. rewrite encode_fields_cons, app_assoc in Hk. exact Hk.
Qed.

(** The loop of the serialisation of key/value pairs. *)
Lemma e_pairs {A} cmd ws (k : W A) Q : forall n ds fuel i w r,
  length ds = (2 * n)%nat ->
  0 <= i -> 0 <= r ->
  argc cmd = i + Z.of_nat (length ds) -> argc cmd <= RESPB_MAX_ARGS ->
  (n <= fuel)%nat ->
  (forall j d, ds !! j = Some d ->
     exists a, args cmd !! (Z.to_nat i + j)%nat = Some a /\
               arg_bytes a = Some d) ->
  Forall prefix_fits (pair_fields ds) ->
  emits buf 0 (w ++ encode_fields (pair_fields ds)) ws k Q ->
  emits buf r w (pair_fields ds ++ ws)
    (for_size_t_from fuel i (argc cmd) 2
       (fun i => l0 <- arg_len cmd i;;
                 l1 <- arg_len cmd (size_t (i + 1));;
                 check_room (Z.of_nat (length buf)) (2 + l0 + 4 + l1);;
                 emit_string_2B cmd i;;
                 emit_string_4B cmd (size_t (i + 1)));; k) Q.
Proof.
  induction n as [|n IH];
    intros ds fuel i w r Hlen Hi Hr Hargc Hmax Hfuel Hargs Hfit Hk.
  - destruct ds; [|discriminate Hlen].
    cbn [length] in Hargc. cbn [pair_fields app encode_fields map concat] in *.
    rewrite app_nil_r in Hk.
    apply (emits_ext _ _ _ k).
    + intros s. destruct fuel; cbn [for_size_t_from]; [reflexivity|].
      replace (i <? argc cmd) with false by (symmetry; apply Z.ltb_ge; lia).
      reflexivity.
    + apply (emits_room r 0); [lia | exact Hk].
  - destruct ds as [|d0 [|d1 ds]]; try (cbn in Hlen; lia).
    destruct fuel as [|fuel]; [lia|].
    cbn [length] in *. cbn [for_size_t_from].
    replace (i <? argc cmd) with true by (symmetry; apply Z.ltb_lt; lia).
    destruct (Hargs 0%nat d0 eq_refl) as (a0 & Ea0 & Ba0).
    destruct (Hargs 1%nat d1 eq_refl) as (a1 & Ea1 & Ba1).
    rewrite Nat.add_0_r in Ea0.
    replace (Z.to_nat i + 1)%nat with (Z.to_nat (i + 1)) in Ea1 by lia.
    destruct (load_bytes_length _ _ _ Ba0) as [Hn0 _].
    destruct (load_bytes_length _ _ _ Ba1) as [Hn1 _].
    cbn [pair_fields] in Hfit. apply Forall_cons in Hfit as [Hd0 Hfit].
    apply Forall_cons in Hfit as [Hd1 Hfit].
    cbn [prefix_fits] in Hd0, Hd1.
    change (2 ^ (8 * 2)) with (2 ^ 16) in Hd0.
    change (2 ^ (8 * 4)) with (2 ^ 32) in Hd1.
    unfold RESPB_MAX_ARGS in *.
    rewrite (size_t_small (i + 1)) by lia.
    cbn [pair_fields app]. wassoc. wassoc.
    apply (e_len _ _ _ cmd i a0); [unfold RESPB_MAX_ARGS; lia | exact Ea0 |].
    wassoc.
    apply (e_len _ _ _ cmd (i + 1) a1); [unfold RESPB_MAX_ARGS; lia | exact Ea1 |].
    wassoc. apply e_check.
    { rewrite !encode_fields_cons, !length_app. cbn [encode_field].
      rewrite !length_app.
      change (len_bytes 2 (Z.of_nat (length d0)))
        with (be16_bytes (Z.of_nat (length d0))).
      change (len_bytes 4 (Z.of_nat (length d1)))
        with (be32_bytes (Z.of_nat (length d1))).
      cbn [length be16_bytes be32_bytes]. lia. }
    { lia. }
    wassoc.
    apply (e_str2 _ _ _ cmd i a0 d0);
      [unfold RESPB_MAX_ARGS; lia | exact Ea0 | exact Ba0 | exact Hd0 | lia |].
    apply (e_str4 _ _ _ cmd (i + 1) a1 d1);
      [unfold RESPB_MAX_ARGS; lia | exact Ea1 | exact Ba1 | exact Hd1 | lia |].
    rewrite size_t_small by lia.
    apply IH; [lia | lia | lia | lia | unfold RESPB_MAX_ARGS; lia | lia | |
               exact Hfit |].
    + intros j d' Hj. destruct (Hargs (S (S j)) d' Hj) as (a' & Ea' & Ba').
      exists a'. split; [|exact Ba'].
      replace (Z.to_nat (i + 2) + j)%nat with (Z.to_nat i + S (S j))%nat by lia.
      exact Ea'.
    + cbn [pair_fields] in Hk. rewrite !encode_fields_cons in Hk.
      rewrite <- !app_assoc. rewrite <- ?app_assoc in Hk. exact Hk.
Qed.

Lemma e_u16_eq {A} r w ws v v' (k : W A) Q :
  v' = v -> 0 <= v < 2 ^ 16 -> 2 <= r ->
  emits buf (r - 2) (w ++ be16_bytes v) ws k Q ->
  emits buf r w (Raw (be16_bytes v) :: ws) (emit_u16 v';; k) Q.
Proof. intros ->. apply e_u16. Qed.

Ltac enc_len :=
  rewrite ?enc_len_cons, ?enc_len_2, ?enc_len_4, ?enc_len_nil;
  cbn [encode_field length be16_bytes be64_bytes repeat]; lia.

Ltac enc_eq :=
  rewrite ?encode_fields_cons; unfold encode_fields;
  cbn [map concat encode_field];
  rewrite ?app_nil_r, <- ?app_assoc; reflexivity.

Ltac arg_slot Hargs j d a Ea Ba Hn :=
  destruct (Hargs j d eq_refl) as (a & Ea & Ba);
  destruct (load_bytes_length _ _ _ Ba) as [Hn _].

Ltac fits_cons Hf H :=
  apply Forall_cons in Hf as [H Hf]; cbn [prefix_fits] in H;
  try change (2 ^ (8 * 2)) with (2 ^ 16) in H;
  try change (2 ^ (8 * 4)) with (2 ^ 32) in H.

Ltac no_fail :=
  apply e_fail_if;
  [ rewrite ?orb_false_iff, ?negb_false_iff;
    repeat split; first [apply Z.ltb_ge; lia | apply Z.eqb_eq; assumption] | ].

(** The loop over a list of strings at the end of a case. *)
Lemma e_strings_last c ds0 ds w w' r :
  designates c (ds0 ++ ds) ->
  0 <= r ->
  Forall prefix_fits (map (Pre 2) ds) ->
  w ++ encode_fields (map (Pre 2) ds) = w' ->
  emits buf r w (map (Pre 2) ds)
    (emit_strings_from (Z.of_nat (length buf)) c (Z.of_nat (length ds0)))
    (fun _ s => wrote buf w' s).
Proof.
  intros Hd Hr Hf Hw. destruct (designates_argc _ _ Hd) as [Ha Hmax].
  rewrite length_app in Ha.
  apply e_last. unfold emit_strings_from, for_size_t.
  rewrite <- (app_nil_r (map (Pre 2) ds)).
  apply e_strings; [lia | exact Hr | lia | exact Hmax | lia | | exact Hf |].
  - intros j d Hj. apply (designates_lookup c (ds0 ++ ds)); [exact Hd|].
    rewrite Nat2Z.id, lookup_app_r by lia.
    replace (length ds0 + j - length ds0)%nat with j by lia. exact Hj.
  - apply e_done_eq. exact Hw.
Qed.

(** The loop over key/value pairs at the end of a case. *)
Lemma e_pairs_last c ds0 ds w w' r :
  designates c (ds0 ++ ds) ->
  Nat.even (length ds) = true ->
  0 <= r ->
  Forall prefix_fits (pair_fields ds) ->
  w ++ encode_fields (pair_fields ds) = w' ->
  emits buf r w (pair_fields ds)
    (emit_pairs_from (Z.of_nat (length buf)) c (Z.of_nat (length ds0)))
    (fun _ s => wrote buf w' s).
Proof.
  intros Hd He Hr Hf Hw. destruct (designates_argc _ _ Hd) as [Ha Hmax].
  rewrite length_app in Ha. destruct (even_half _ He) as [m Hm].
  apply e_last. unfold emit_pairs_from, for_size_t.
  rewrite <- (app_nil_r (pair_fields ds)).
  apply (e_pairs c [] (wret tt) _ m);
    [exact Hm | lia | exact Hr | lia | exact Hmax | lia | | exact Hf |].
  - intros j d Hj. apply (designates_lookup c (ds0 ++ ds)); [exact Hd|].
    rewrite Nat2Z.id, lookup_app_r by lia.
    replace (length ds0 + j - length ds0)%nat with j by lia. exact Hj.
  - apply e_done_eq. exact Hw.
Qed.

(** Every case of the switch writes the payload of its opcode. *)
Lemma serialize_switch_emits c ds ws w :
  designates c ds ->
  payload_fields (opcode c) ds = Some ws ->
  Forall prefix_fits ws ->
  emits buf 0 w ws (serialize_switch (Z.of_nat (length buf)) c)
    (fun _ s => wrote buf (w ++ encode_fields ws) s).
Proof.
  intros Hd Hp Hf.
  pose proof (fun j d => designates_lookup c ds j d Hd) as Hargs.
  destruct (designates_argc _ _ Hd) as [Ha Hmax].
  unfold RESPB_MAX_ARGS in Hmax.
  revert Hp. unfold serialize_switch, payload_fields. cbv zeta.
  destruct (case_of _ _).
  { (* GET and the other single-key commands *)
    destruct ds as [|k ds]; [discriminate|]. intros Hp.
    inversion Hp; subst ws. clear Hp. cbn [length] in Ha.
    fits_cons Hf Hk. arg_slot Hargs 0%nat k a0 E0 B0 L0.
    no_fail.
    apply (e_len _ _ _ c 0 a0); [unfold RESPB_MAX_ARGS; lia | exact E0 |].
    apply e_check; [enc_len | lia |].
    apply e_last.
    apply (e_str2 _ _ _ c 0 a0 k);
      [unfold RESPB_MAX_ARGS; lia | exact E0 | exact B0 | exact Hk | lia |].
    apply e_done_eq. enc_eq. }
  destruct (case_of _ _).
  { (* SET *)
    destruct ds as [|k [|v ds]]; try discriminate. intros Hp.
    inversion Hp; subst ws. clear Hp. cbn [length] in Ha.
    fits_cons Hf Hk. fits_cons Hf Hv.
    arg_slot Hargs 0%nat k a0 E0 B0 L0. arg_slot Hargs 1%nat v a1 E1 B1 L1.
    no_fail.
    apply (e_len _ _ _ c 0 a0); [unfold RESPB_MAX_ARGS; lia | exact E0 |].
    apply (e_len _ _ _ c 1 a1); [unfold RESPB_MAX_ARGS; lia | exact E1 |].
    apply e_check; [enc_len | lia |].
    apply (e_str2 _ _ _ c 0 a0 k);
      [unfold RESPB_MAX_ARGS; lia | exact E0 | exact B0 | exact Hk | lia |].
    apply (e_str4 _ _ _ c 1 a1 v);
      [unfold RESPB_MAX_ARGS; lia | exact E1 | exact B1 | exact Hv | lia |].
    apply e_step_last; [cbn [encode_field length repeat be64_bytes]; lia | | enc_eq].
    intros s Hs Hroom. apply set_tail_run; [exact Hs | exact Hroom]. }
  destruct (case_of _ _).
  { (* APPEND *)
    destruct ds as [|k [|v ds]]; try discriminate. intros Hp.
    inversion Hp; subst ws. clear Hp. cbn [length] in Ha.
    fits_cons Hf Hk. fits_cons Hf Hv.
    arg_slot Hargs 0%nat k a0 E0 B0 L0. arg_slot Hargs 1%nat v a1 E1 B1 L1.
    no_fail.
    apply (e_len _ _ _ c 0 a0); [unfold RESPB_MAX_ARGS; lia | exact E0 |].
    apply (e_len _ _ _ c 1 a1); [unfold RESPB_MAX_ARGS; lia | exact E1 |].
    apply e_check; [enc_len | lia |].
    apply (e_str2 _ _ _ c 0 a0 k);
      [unfold RESPB_MAX_ARGS; lia | exact E0 | exact B0 | exact Hk | lia |].
    apply e_last.
    apply (e_str4 _ _ _ c 1 a1 v);
      [unfold RESPB_MAX_ARGS; lia | exact E1 | exact B1 | exact Hv | lia |].
    apply e_done_eq. enc_eq. }
  destruct (case_of _ _).
  { (* INCRBY, DECRBY *)
    destruct ds as [|k ds]; [discriminate|]. intros Hp.
    inversion Hp; subst ws. clear Hp. cbn [length] in Ha.
    fits_cons Hf Hk. arg_slot Hargs 0%nat k a0 E0 B0 L0.
    no_fail.
    apply (e_len _ _ _ c 0 a0); [unfold RESPB_MAX_ARGS; lia | exact E0 |].
    apply e_check; [enc_len | lia |].
    apply (e_str2 _ _ _ c 0 a0 k);
      [unfold RESPB_MAX_ARGS; lia | exact E0 | exact B0 | exact Hk | lia |].
    apply e_step_last; [cbn [encode_field length repeat be64_bytes]; lia | | enc_eq].
    intros s Hs Hroom. apply (u64_run _ 1); [exact Hs | exact Hroom]. }
  destruct (case_of _ _).
  { (* MGET, DEL, EXISTS *)
    intros Hp. inversion Hp; subst ws. clear Hp.
    apply Forall_cons in Hf as [_ Hf].
    apply e_check; [enc_len | lia |].
    apply (e_u16_eq _ _ _ (Z.of_nat (length ds))); [exact Ha | lia | lia |].
    apply (e_strings_last c [] ds); [exact Hd | lia | exact Hf | enc_eq]. }
  destruct (case_of _ _).
  { (* MSET *)
    destruct ((2 <=? length ds)%nat && Nat.even (length ds)) eqn:C;
      [|discriminate].
    apply andb_true_iff in C as [C2 Ce]. apply Nat.leb_le in C2.
    pose proof (even_mod2 _ Ce) as Cm. rewrite <- Ha in Cm.
    intros Hp. inversion Hp; subst ws. clear Hp.
    apply Forall_cons in Hf as [_ Hf].
    no_fail.
    apply e_check; [enc_len | lia |].
    apply (e_u16_eq _ _ _ (Z.of_nat (length ds) / 2));
      [rewrite Ha; reflexivity
      | split; [apply Z.div_pos; lia | apply Z.div_lt_upper_bound; lia]
      | lia |].
    apply (e_pairs_last c [] ds); [exact Hd | exact Ce | lia | exact Hf | enc_eq]. }
  destruct (case_of _ _).
  { (* LPUSH, RPUSH *)
    destruct ds as [|k ds]; [discriminate|]. intros Hp.
    inversion Hp; subst ws. clear Hp. cbn [length] in Ha.
    fits_cons Hf Hk. apply Forall_cons in Hf as [_ Hf].
    arg_slot Hargs 0%nat k a0 E0 B0 L0.
    no_fail.
    apply (e_len _ _ _ c 0 a0); [unfold RESPB_MAX_ARGS; lia | exact E0 |].
    apply e_check; [enc_len | lia |].
    apply (e_str2 _ _ _ c 0 a0 k);
      [unfold RESPB_MAX_ARGS; lia | exact E0 | exact B0 | exact Hk | lia |].
    apply (e_u16_eq _ _ _ (Z.of_nat (length ds)));
      [rewrite size_t_small by lia; lia | lia | lia |].
    apply (e_strings_last c [k] ds); [exact Hd | lia | exact Hf | enc_eq]. }
  destruct (case_of _ _).
  { (* SADD *)
    destruct ds as [|k ds]; [discriminate|]. intros Hp.
    inversion Hp; subst ws. clear Hp. cbn [length] in Ha.
    fits_cons Hf Hk. apply Forall_cons in Hf as [_ Hf].
    arg_slot Hargs 0%nat k a0 E0 B0 L0.
    no_fail.
    apply (e_len _ _ _ c 0 a0); [unfold RESPB_MAX_ARGS; lia | exact E0 |].
    apply e_check; [enc_len | lia |].
    apply (e_str2 _ _ _ c 0 a0 k);
      [unfold RESPB_MAX_ARGS; lia | exact E0 | exact B0 | exact Hk | lia |].
    apply (e_u16_eq _ _ _ (Z.of_nat (length ds)));
      [rewrite size_t_small by lia; lia | lia | lia |].
    apply (e_strings_last c [k] ds); [exact Hd | lia | exact Hf | enc_eq]. }
  destruct (case_of _ _).
  { (* HSET *)
    destruct ds as [|k ds]; [discriminate|].
    destruct (Nat.even (length ds)) eqn:Ce; [|discriminate].
    pose proof (even_mod2 _ Ce) as Cm.
    intros Hp. inversion Hp; subst ws. clear Hp. cbn [length] in Ha.
    fits_cons Hf Hk. apply Forall_cons in Hf as [_ Hf].
    arg_slot Hargs 0%nat k a0 E0 B0 L0.
    assert (Es : size_t (argc c - 1) = Z.of_nat (length ds))
      by (rewrite size_t_small by lia; lia).
    rewrite Es. no_fail.
    apply (e_len _ _ _ c 0 a0); [unfold RESPB_MAX_ARGS; lia | exact E0 |].
    apply e_check; [enc_len | lia |].
    apply (e_str2 _ _ _ c 0 a0 k);
      [unfold RESPB_MAX_ARGS; lia | exact E0 | exact B0 | exact Hk | lia |].
    apply (e_u16_eq _ _ _ (Z.of_nat (length ds) / 2));
      [reflexivity
      | split; [apply Z.div_pos; lia | apply Z.div_lt_upper_bound; lia]
      | lia |].
    apply (e_pairs_last c [k] ds); [exact Hd | exact Ce | lia | exact Hf | enc_eq]. }
  destruct (case_of _ _).
  { (* HGET *)
    destruct ds as [|k [|v ds]]; try discriminate. intros Hp.
    inversion Hp; subst ws. clear Hp. cbn [length] in Ha.
    fits_cons Hf Hk. fits_cons Hf Hv.
    arg_slot Hargs 0%nat k a0 E0 B0 L0. arg_slot Hargs 1%nat v a1 E1 B1 L1.
    no_fail.
    apply (e_len _ _ _ c 0 a0); [unfold RESPB_MAX_ARGS; lia | exact E0 |].
    apply (e_len _ _ _ c 1 a1); [unfold RESPB_MAX_ARGS; lia | exact E1 |].
    apply e_check; [enc_len | lia |].
    apply (e_str2 _ _ _ c 0 a0 k);
      [unfold RESPB_MAX_ARGS; lia | exact E0 | exact B0 | exact Hk | lia |].
    apply e_last.
    apply (e_str2 _ _ _ c 1 a1 v);
      [unfold RESPB_MAX_ARGS; lia | exact E1 | exact B1 | exact Hv | lia |].
    apply e_done_eq. enc_eq. }
  destruct (case_of _ _).
  { (* PING, MULTI, EXEC *)
    intros Hp. inversion Hp; subst ws. apply e_done_eq. enc_eq. }
  destruct (case_of _ _); [discriminate|].
  destruct (case_of _ _); [discriminate|].
  (* any other opcode *)
  intros Hp. inversion Hp; subst ws. clear Hp.
  apply Forall_cons in Hf as [_ Hf].
  apply e_check; [enc_len | lia |].
  apply (e_u16_eq _ _ _ (Z.of_nat (length ds))); [exact Ha | lia | lia |].
  apply (e_strings_last c [] ds); [exact Hd | lia | exact Hf | enc_eq].
Qed.

(** The header is written first. *)
Lemma header_run op mux s :
  out s = buf -> 4 <= Z.of_nat (length buf) ->
  respb_serialize_header 0 op mux s
  = (Next 4, {| out := be16_bytes (u16 op) ++ be16_bytes (u16 mux)
                       ++ drop 4 buf;
                wpos := wpos s |}).
Proof.
  intros E Hl. unfold respb_serialize_header.
  assert (E0 : out s = [] ++ take 2 buf ++ drop 2 buf)
    by (rewrite E; cbn [app]; symmetry; apply take_drop).
  unfold wbind at 1.
  change 0 with (Z.of_nat (length (@nil byte))) at 1.
  rewrite (write_u16_run [] _ _ op s E0)
    by (rewrite length_take; lia).
  cbn [app].
  set (s1 := {| out := be16_bytes (u16 op) ++ drop 2 buf; wpos := wpos s |}).
  assert (E1 : out s1 = be16_bytes (u16 op) ++ take 2 (drop 2 buf)
                        ++ drop 4 buf).
  { unfold s1. cbn [out]. f_equal.
    change 4%nat with (2 + 2)%nat. rewrite <- drop_drop.
    symmetry. apply take_drop. }
  unfold wbind at 1.
  change (0 + 2) with (Z.of_nat (length (be16_bytes (u16 op)))).
  rewrite (write_u16_run _ _ _ mux s1 E1)
    by (rewrite length_take, length_drop; lia).
  unfold wret, s1. cbn [wpos]. reflexivity.
Qed.

Lemma body_after_header c :
  4 <= Z.of_nat (length buf) ->
  0 <= opcode c < 2 ^ 16 -> 0 <= mux_id c < 2 ^ 16 ->
  respb_serialize_command_body (Z.of_nat (length buf)) c
    {| out := buf; wpos := 0 |}
  = (serialize_switch (Z.of_nat (length buf)) c;;
     s <- wget;; wreturn (wpos s))
      {| out := be16_bytes (opcode c) ++ be16_bytes (mux_id c) ++ drop 4 buf;
         wpos := 4 |}.
Proof.
  intros Hge Hop Hmux. unfold respb_serialize_command_body.
  unfold wbind at 1.
  replace (Z.of_nat (length buf) <? 4) with false
    by (symmetry; apply Z.ltb_ge; lia).
  cbn [fail_if wret].
  unfold wbind at 1, set_wpos at 1. cbn [out wpos].
  unfold wbind at 1, wget at 1. cbn [wpos].
  unfold wbind at 1.
  rewrite (header_run (opcode c) (mux_id c) {| out := buf; wpos := 0 |}
             eq_refl Hge).
  unfold wbind at 1, wpos_add at 1. cbn [out wpos].
  rewrite !u16_small by assumption. reflexivity.
Qed.

(** What [respb_serialize_command] returns and leaves in [buf]: the
    frame when it fits, and 0 otherwise. *)
Lemma serialize_spec c ds ws :
  designates c ds ->
  payload_fields (opcode c) ds = Some ws ->
  Forall prefix_fits ws ->
  let fr := frame (opcode c) (mux_id c) ws in
  ((length fr <= length buf)%nat ->
   respb_serialize_command buf (Z.of_nat (length buf)) c
   = (Returned (Z.of_nat (length fr)), fr ++ drop (length fr) buf)) /\
  ((length buf < length fr)%nat ->
   exists o,
     respb_serialize_command buf (Z.of_nat (length buf)) c = (Returned 0, o) /\
     length o = length buf).
Proof.
  intros Hd Hp Hf fr.
  pose proof Hd as (_ & _ & _ & Hop & Hmux).
  assert (Lfr : length fr = (4 + length (encode_fields ws))%nat).
  { unfold fr, frame. rewrite !length_app. reflexivity. }
  unfold respb_serialize_command.
  destruct (Z.ltb_spec (Z.of_nat (length buf)) 4) as [Hlt | Hge].
  { unfold respb_serialize_command_body. unfold wbind at 1.
    replace (Z.of_nat (length buf) <? 4) with true
      by (symmetry; apply Z.ltb_lt; lia).
    cbn [fail_if wreturn out]. split; [lia|].
    intros _. exists buf. split; reflexivity. }
  rewrite (body_after_header c Hge Hop Hmux).
  set (hdr := be16_bytes (opcode c) ++ be16_bytes (mux_id c)).
  set (s1 := {| out := _; wpos := 4 |}).
  assert (Hs1 : wrote buf hdr s1).
  { unfold s1, hdr, wrote. cbn [out wpos]. rewrite <- app_assoc.
    rewrite length_app. cbn [length be16_bytes Nat.add].
    repeat split. lia. }
  assert (Lh : length hdr = 4%nat) by reflexivity.
  destruct (serialize_switch_emits c ds ws hdr Hd Hp Hf s1 Hs1) as [H1 H2];
    [rewrite Lh; lia|].
  rewrite Lh in H1, H2.
  assert (Efr : hdr ++ encode_fields ws = fr).
  { unfold fr, frame, hdr. rewrite <- app_assoc. reflexivity. }
  split.
  - intros Hfit. destruct H1 as ([] & s2 & E & Hs2); [lia|].
    unfold wbind at 1. rewrite E.
    unfold wbind, wget, wreturn. rewrite Efr in Hs2.
    destruct Hs2 as (O2 & P2 & _). rewrite O2, P2. reflexivity.
  - intros Hno. destruct H2 as (s2 & E & Hl); [lia|].
    unfold wbind at 1. rewrite E.
    exists (out s2). split; [reflexivity | exact Hl].
Qed.

End Emit.

(** *** Parsing a frame *)

Lemma strings_shape ws : strings (map shape ws) = length (wire_strings ws).
Proof.
  induction ws as [|[l | w d] ws IH]; cbn [map shape strings wire_strings length];
    [reflexivity | exact IH | rewrite IH; reflexivity].
Qed.

Lemma shape_strings ds :
  map shape (map (Pre 2) ds) = concat (repeat [Str 2] (length ds)).
Proof.
  induction ds as [|d ds IH]; [reflexivity|].
  cbn [map shape length repeat concat app]. rewrite IH. reflexivity.
Qed.

Lemma shape_pairs : forall m ds,
  length ds = (2 * m)%nat ->
  map shape (pair_fields ds) = concat (repeat [Str 2; Str 4] m).
Proof.
  induction m as [|m IH]; intros ds Hl.
  - destruct ds; [reflexivity | discriminate Hl].
  - destruct ds as [|d0 [|d1 ds]]; try (cbn in Hl; lia).
    cbn [pair_fields map shape repeat concat app].
    rewrite IH by (cbn [length] in Hl; lia). reflexivity.
Qed.

Lemma strings_wire ds : wire_strings (map (Pre 2) ds) = ds.
Proof.
  induction ds as [|d ds IH]; [reflexivity|].
  cbn [map wire_strings]. rewrite IH. reflexivity.
Qed.

Lemma pairs_wire : forall m ds,
  length ds = (2 * m)%nat -> wire_strings (pair_fields ds) = ds.
Proof.
  induction m as [|m IH]; intros ds Hl.
  - destruct ds; [reflexivity | discriminate Hl].
  - destruct ds as [|d0 [|d1 ds]]; try (cbn in Hl; lia).
    cbn [pair_fields wire_strings].
    rewrite IH by (cbn [length] in Hl; lia). reflexivity.
Qed.

Lemma widths_strings ds : Forall width_ok (map (Pre 2) ds).
Proof.
  induction ds as [|d ds IH]; [constructor|].
  cbn [map]. constructor; [left; reflexivity | exact IH].
Qed.

Lemma widths_pairs : forall m ds,
  length ds = (2 * m)%nat -> Forall width_ok (pair_fields ds).
Proof.
  induction m as [|m IH]; intros ds Hl.
  - destruct ds; [constructor | discriminate Hl].
  - destruct ds as [|d0 [|d1 ds]]; try (cbn in Hl; lia).
    cbn [pair_fields].
    constructor; [left; reflexivity|].
    constructor; [right; reflexivity|].
    apply IH. cbn [length] in Hl. lia.
Qed.

Lemma frame_header op mux ws post :
  0 <= op < 2 ^ 16 -> 0 <= mux < 2 ^ 16 ->
  be16_at (frame op mux ws ++ post) 0 = op /\
  be16_at (frame op mux ws ++ post) 2 = mux.
Proof.
  intros Hop Hmux. unfold frame. rewrite <- !app_assoc. split.
  - apply be16_at_bytes. exact Hop.
  - change 2 with (Z.of_nat (length (be16_bytes op))).
    rewrite be16_at_app. apply be16_at_bytes. exact Hmux.
Qed.

(** A frame whose layout the parser reads is parsed back: the call
    succeeds, consumes the frame, and finds the header fields and the
    strings. *)
Lemma parse_frame op mux ws a post :
  0 <= op < 2 ^ 16 -> 0 <= mux < 2 ^ 16 ->
  Forall width_ok ws -> Forall prefix_fits ws ->
  Z.of_nat (length (frame op mux ws ++ post)) <= PTRDIFF_MAX ->
  read_as op mux ws a ->
  exists p' c',
    respb_parse_command
      (respb_parser_init (frame op mux ws ++ post)
                         (Z.of_nat (length (frame op mux ws ++ post))))
      zero_command
    = (Returned 1, p', c') /\
    pos p' = Z.of_nat (length (frame op mux ws)) /\
    opcode c' = op /\ mux_id c' = mux /\ argc c' = a /\
    map arg_bytes (take (length (wire_strings ws)) (args c'))
    = map Some (wire_strings ws).
Proof.
  intros Hop Hmux Hw Hf Hsmall Hread.
  specialize (Hread post). cbv zeta in Hread.
  destruct (frame_header op mux ws post Hop Hmux) as [Eop Emux].
  assert (Lfr : Z.of_nat (length (frame op mux ws))
                = 4 + Z.of_nat (length (encode_fields ws))).
  { unfold frame. rewrite !length_app. cbn [length be16_bytes]. lia. }
  set (b := frame op mux ws ++ post) in *.
  assert (Lb : Z.of_nat (length b)
               = Z.of_nat (length (frame op mux ws)) + Z.of_nat (length post)).
  { unfold b. rewrite length_app. lia. }
  set (p := respb_parser_init b (Z.of_nat (length b))).
  assert (Hp : parser_ok p).
  { unfold parser_ok, p, respb_parser_init. cbn [buffer buffer_len pos].
    repeat split; [exact Hsmall | lia | lia]. }
  assert (H4 : pos p + 4 <= buffer_len p).
  { unfold p, respb_parser_init. cbn [buffer_len pos]. lia. }
  assert (Hz : length (args zero_command) = Z.to_nat RESPB_MAX_ARGS)
    by reflexivity.
  destruct (layout_of_encoded b ws
              (be16_bytes op ++ be16_bytes mux) post Hw Hf) as [Eend Eargs].
  { unfold b, frame. rewrite <- !app_assoc. reflexivity. }
  change (Z.of_nat (length (be16_bytes op ++ be16_bytes mux))) with 4
    in Eend, Eargs.
  assert (Hhdr : forall p' c',
            respb_parse_command p zero_command = (Returned 1, p', c') ->
            opcode c' = op /\ mux_id c' = mux).
  { intros p' c' E.
    destruct (header_fields_run p p' zero_command c' 1 Hp H4 E) as (E1 & E2 & _).
    change (buffer p) with b in E1, E2. change (pos p) with 0 in E1, E2.
    rewrite E1, E2. split; [exact Eop | exact Emux]. }
  destruct Hread as [[Hfix Ha] | (sh & Hg & Hcap & Hlay & Ha1 & Ha2)].
  - destruct (fixed_layout_run p zero_command (map shape ws) Hp Hz H4 Hfix)
      as [H _].
    change (buffer p) with b in H. change (pos p + 4) with 4 in H.
    change (buffer_len p) with (Z.of_nat (length b)) in H.
    cbv zeta in H. rewrite Eend in H.
    destruct H as (p' & c' & E & P & T & A & _); [lia|].
    exists p', c'. destruct (Hhdr p' c' E) as [E1 E2].
    split; [exact E|]. split; [lia|]. split; [exact E1|]. split; [exact E2|].
    split; [rewrite A, strings_shape, Ha; reflexivity|].
    rewrite <- strings_shape, T. exact Eargs.
  - destruct (group_within_cap_run p zero_command sh Hp Hz H4 Hg) as [H _].
    { exact Hcap. }
    change (buffer p) with b in *. change (pos p + 4) with 4 in *.
    change (buffer_len p) with (Z.of_nat (length b)) in H.
    cbv zeta in H. rewrite Hlay in H.
    rewrite layout_end_app, layout_args_app, Eend in H.
    cbn [layout_end layout_args] in H. rewrite app_nil_r in H.
    rewrite strings_app in H. cbn [strings] in H. rewrite Nat.add_0_r in H.
    destruct H as (p' & c' & E & P & T & A1 & A2); [lia|].
    exists p', c'. destruct (Hhdr p' c' E) as [E1 E2].
    split; [exact E|]. split; [lia|]. split; [exact E1|]. split; [exact E2|].
    split.
    { destruct (Z.eq_dec (declared_count b sh 4) (g_cap sh)) as [Ec | Ec].
      - rewrite (A2 Ec), (Ha2 Ec). reflexivity.
      - rewrite A1 by lia. rewrite strings_shape. symmetry. apply Ha1. lia. }
    rewrite <- strings_shape, T. exact Eargs.
Qed.


(** The frame of a repeated group, as the parser sees it. *)
Lemma group_frame op mux pre_ws n body_ws sh post :
  g_pre sh = map shape pre_ws -> g_trail sh = 0 ->
  Forall width_ok pre_ws -> Forall prefix_fits pre_ws ->
  0 <= n < 2 ^ 16 ->
  map shape body_ws = concat (repeat (map Str (g_elem sh)) (Z.to_nat n)) ->
  let ws := pre_ws ++ Raw (be16_bytes n) :: body_ws in
  declared_count (frame op mux ws ++ post) sh 4 = n /\
  group_layout sh n = map shape ws ++ [Skip 0].
Proof.
  intros Hpre Htr Hw Hf Hn Hbody ws. split.
  - unfold declared_count. rewrite Hpre.
    destruct (layout_of_encoded (frame op mux ws ++ post) pre_ws
                (be16_bytes op ++ be16_bytes mux)
                (encode_fields (Raw (be16_bytes n) :: body_ws) ++ post) Hw Hf)
      as [E _].
    { unfold frame, ws. rewrite encode_fields_app, <- !app_assoc. reflexivity. }
    change (Z.of_nat (length (be16_bytes op ++ be16_bytes mux))) with 4 in E.
    rewrite E.
    assert (Efr : frame op mux ws ++ post =
                  (be16_bytes op ++ be16_bytes mux ++ encode_fields pre_ws)
                  ++ be16_bytes n ++ encode_fields body_ws ++ post).
    { unfold frame, ws. rewrite encode_fields_app, encode_fields_cons.
      cbn [encode_field]. rewrite <- !app_assoc. reflexivity. }
    rewrite Efr.
    replace (4 + Z.of_nat (length (encode_fields pre_ws)))
      with (Z.of_nat (length (be16_bytes op ++ be16_bytes mux
                              ++ encode_fields pre_ws)))
      by (rewrite !length_app; cbn [length be16_bytes]; lia).
    rewrite be16_at_app. apply be16_at_bytes. exact Hn.
  - unfold group_layout, ws. rewrite Hpre, Htr, map_app. cbn [map shape].
    rewrite Hbody. change (Z.of_nat (length (be16_bytes n))) with 2.
    rewrite <- app_assoc. reflexivity.
Qed.

Ltac by_opcode C tac :=
  apply case_of_true in C; cbn [In] in C;
  repeat (destruct C as [<- | C]; [tac|]); destruct C.

Ltac wok :=
  repeat (apply List.Forall_cons;
          [first [exact I | left; reflexivity | right; reflexivity]|]);
  apply List.Forall_nil.

Ltac fixed_family C Hop Hmux :=
  split;
  [ intros post; cbv zeta;
    by_opcode C ltac:(left; split; [|reflexivity];
                      unfold fixed_layout_at;
                      rewrite (proj1 (frame_header _ _ _ _ Hop Hmux));
                      reflexivity)
  | split; [wok | eexists; reflexivity] ].

Ltac group_at C Hop Hmux :=
  by_opcode C ltac:(unfold plain_group_at;
                    rewrite (proj1 (frame_header _ _ _ _ Hop Hmux));
                    reflexivity).

(** The opcodes the serializer has a case for are written in a layout the
    parser reads, which carries the first arguments of the command. *)
Lemma native_read_as op mux ds ws :
  0 <= op < 2 ^ 16 -> 0 <= mux < 2 ^ 16 ->
  case_of op native_opcodes = true ->
  (length ds <= Z.to_nat RESPB_MAX_ARGS)%nat ->
  payload_fields op ds = Some ws ->
  Forall prefix_fits ws ->
  read_as op mux ws (parsed_argc op ws) /\ Forall width_ok ws /\
  exists rest, ds = wire_strings ws ++ rest.
Proof.
  intros Hop Hmux Hnat Hlen. unfold RESPB_MAX_ARGS in Hlen.
  unfold payload_fields.
  destruct (case_of op [RESPB_OP_GET; _; _; _; _; _]) eqn:C1.
  { destruct ds as [|k ds]; [discriminate|]. intros Hp Hf.
    inversion Hp; subst ws. clear Hp. fixed_family C1 Hop Hmux. }
  destruct (case_of op [RESPB_OP_SET]) eqn:C2.
  { destruct ds as [|k [|v ds]]; try discriminate. intros Hp Hf.
    inversion Hp; subst ws. clear Hp. fixed_family C2 Hop Hmux. }
  destruct (case_of op [RESPB_OP_APPEND]) eqn:C3.
  { destruct ds as [|k [|v ds]]; try discriminate. intros Hp Hf.
    inversion Hp; subst ws. clear Hp. fixed_family C3 Hop Hmux. }
  destruct (case_of op [RESPB_OP_INCRBY; _]) eqn:C4.
  { destruct ds as [|k ds]; [discriminate|]. intros Hp Hf.
    inversion Hp; subst ws. clear Hp. fixed_family C4 Hop Hmux. }
  destruct (case_of op [RESPB_OP_MGET; _; _]) eqn:C5.
  { 
    intros Hp Hf. inversion Hp; subst ws. clear Hp. cbn [length] in Hlen.
    set (sh := mk_shape [] [2] 0).
    split; [|split].
    - intros post. cbv zeta.
      destruct (group_frame op mux [] (Z.of_nat (length ds)) (map (Pre 2) ds) sh post)
        as [Ec El];
        [reflexivity | reflexivity | wok | constructor | lia
        | rewrite Nat2Z.id; apply shape_strings |].
      cbn [app] in Ec, El. right. exists sh. rewrite Ec.
      change (g_cap sh) with 64.
      split; [group_at C5 Hop Hmux|].
      split; [lia|]. split; [exact El|].
      assert (Hne : (op =? RESPB_OP_HSET) = false).
      { destruct (Z.eqb_spec op RESPB_OP_HSET) as [-> | _];
          [discriminate C5 | reflexivity]. }
      unfold parsed_argc. rewrite Hne. cbn [andb wire_strings].
      rewrite strings_wire.
      split; intros Hc; [reflexivity|].
      unfold RESPB_MAX_ARGS. cbn [length]. lia.
    - constructor; [exact I | apply widths_strings].
    - exists []. cbn [wire_strings]. rewrite strings_wire.
      rewrite app_nil_r. reflexivity. }
  destruct (case_of op [RESPB_OP_MSET]) eqn:C6.
  { 
    destruct ((2 <=? length ds)%nat && Nat.even (length ds)) eqn:C;
      [|discriminate].
    apply andb_true_iff in C as [_ Ce]. destruct (even_half _ Ce) as [m Hm].
    assert (En : Z.of_nat (length ds) / 2 = Z.of_nat m).
    { rewrite Hm, Nat2Z.inj_mul, Z.mul_comm. apply Z_div_mult. lia. }
    rewrite En.
    intros Hp Hf. inversion Hp; subst ws. clear Hp. cbn [length] in Hlen.
    set (sh := mk_shape [] [2; 4] 0).
    split; [|split].
    - intros post. cbv zeta.
      destruct (group_frame op mux [] (Z.of_nat m) (pair_fields ds) sh post)
        as [Ec El];
        [reflexivity | reflexivity | wok | constructor | lia
        | rewrite Nat2Z.id; apply shape_pairs; exact Hm |].
      cbn [app] in Ec, El. right. exists sh. rewrite Ec.
      change (g_cap sh) with 32.
      split; [group_at C6 Hop Hmux|].
      split; [lia|]. split; [exact El|].
      assert (Hne : (op =? RESPB_OP_HSET) = false).
      { destruct (Z.eqb_spec op RESPB_OP_HSET) as [-> | _];
          [discriminate C6 | reflexivity]. }
      unfold parsed_argc. rewrite Hne. cbn [andb wire_strings].
      rewrite (pairs_wire m) by exact Hm.
      split; intros Hc; [reflexivity|].
      unfold RESPB_MAX_ARGS. cbn [length]. lia.
    - constructor; [exact I | apply (widths_pairs m); exact Hm].
    - exists []. cbn [wire_strings]. rewrite (pairs_wire m) by exact Hm.
      rewrite app_nil_r. reflexivity. }
  destruct (case_of op [RESPB_OP_LPUSH; _]) eqn:C7.
  { destruct ds as [|k ds]; [discriminate|].
    intros Hp Hf. inversion Hp; subst ws. clear Hp. cbn [length] in Hlen.
    apply Forall_cons in Hf as [Hk _].
    set (sh := mk_shape [Str 2] [2] 0).
    split; [|split].
    - intros post. cbv zeta.
      destruct (group_frame op mux [Pre 2 k] (Z.of_nat (length ds)) (map (Pre 2) ds) sh post)
        as [Ec El];
        [reflexivity | reflexivity | wok | constructor; [exact Hk | constructor] | lia
        | rewrite Nat2Z.id; apply shape_strings |].
      cbn [app] in Ec, El. right. exists sh. rewrite Ec.
      change (g_cap sh) with 63.
      split; [group_at C7 Hop Hmux|].
      split; [lia|]. split; [exact El|].
      assert (Hne : (op =? RESPB_OP_HSET) = false).
      { destruct (Z.eqb_spec op RESPB_OP_HSET) as [-> | _];
          [discriminate C7 | reflexivity]. }
      unfold parsed_argc. rewrite Hne. cbn [andb wire_strings].
      rewrite strings_wire.
      split; intros Hc; [reflexivity|].
      unfold RESPB_MAX_ARGS. cbn [length]. lia.
    - constructor; [left; reflexivity|].
      constructor; [exact I | apply widths_strings].
    - exists []. cbn [wire_strings]. rewrite strings_wire.
      rewrite app_nil_r. reflexivity. }
  destruct (case_of op [RESPB_OP_SADD]) eqn:C8.
  { destruct ds as [|k ds]; [discriminate|].
    intros Hp Hf. inversion Hp; subst ws. clear Hp. cbn [length] in Hlen.
    apply Forall_cons in Hf as [Hk _].
    set (sh := mk_shape [Str 2] [2] 0).
    split; [|split].
    - intros post. cbv zeta.
      destruct (group_frame op mux [Pre 2 k] (Z.of_nat (length ds)) (map (Pre 2) ds) sh post)
        as [Ec El];
        [reflexivity | reflexivity | wok | constructor; [exact Hk | constructor] | lia
        | rewrite Nat2Z.id; apply shape_strings |].
      cbn [app] in Ec, El. right. exists sh. rewrite Ec.
      change (g_cap sh) with 63.
      split; [group_at C8 Hop Hmux|].
      split; [lia|]. split; [exact El|].
      assert (Hne : (op =? RESPB_OP_HSET) = false).
      { destruct (Z.eqb_spec op RESPB_OP_HSET) as [-> | _];
          [discriminate C8 | reflexivity]. }
      unfold parsed_argc. rewrite Hne. cbn [andb wire_strings].
      rewrite strings_wire.
      split; intros Hc; [reflexivity|].
      unfold RESPB_MAX_ARGS. cbn [length]. lia.
    - constructor; [left; reflexivity|].
      constructor; [exact I | apply widths_strings].
    - exists []. cbn [wire_strings]. rewrite strings_wire.
      rewrite app_nil_r. reflexivity. }
  destruct (case_of op [RESPB_OP_HSET]) eqn:C9.
  { destruct ds as [|k ds]; [discriminate|].
    destruct (Nat.even (length ds)) eqn:Ce; [|discriminate].
    destruct (even_half _ Ce) as [m Hm].
    assert (En : Z.of_nat (length ds) / 2 = Z.of_nat m).
    { rewrite Hm, Nat2Z.inj_mul, Z.mul_comm. apply Z_div_mult. lia. }
    rewrite En.
    intros Hp Hf. inversion Hp; subst ws. clear Hp. cbn [length] in Hlen.
    apply Forall_cons in Hf as [Hk _].
    set (sh := mk_shape [Str 2] [2; 4] 0).
    split; [|split].
    - intros post. cbv zeta.
      destruct (group_frame op mux [Pre 2 k] (Z.of_nat m) (pair_fields ds) sh post)
        as [Ec El];
        [reflexivity | reflexivity | wok | constructor; [exact Hk | constructor] | lia
        | rewrite Nat2Z.id; apply shape_pairs; exact Hm |].
      cbn [app] in Ec, El. right. exists sh. rewrite Ec.
      change (g_cap sh) with 31.
      split; [group_at C9 Hop Hmux|].
      split; [lia|]. split; [exact El|].
      assert (Hop' : op = RESPB_OP_HSET).
      { apply case_of_true in C9. cbn [In] in C9.
        destruct C9 as [<- | []]. reflexivity. }
      unfold parsed_argc. rewrite Hop'.
      change (RESPB_OP_HSET =? RESPB_OP_HSET) with true.
      cbn [andb wire_strings]. rewrite (pairs_wire m) by exact Hm.
      cbn [length]. rewrite Hm.
      split; intros Hc.
      + replace (S (2 * m) =? 63)%nat with false
          by (symmetry; apply Nat.eqb_neq; lia).
        reflexivity.
      + replace (S (2 * m) =? 63)%nat with true
          by (symmetry; apply Nat.eqb_eq; lia).
        reflexivity.
    - constructor; [left; reflexivity|].
      constructor; [exact I | apply (widths_pairs m); exact Hm].
    - exists []. cbn [wire_strings]. rewrite (pairs_wire m) by exact Hm.
      rewrite app_nil_r. reflexivity. }
  destruct (case_of op [RESPB_OP_HGET]) eqn:C10.
  { destruct ds as [|k [|v ds]]; try discriminate. intros Hp Hf.
    inversion Hp; subst ws. clear Hp. fixed_family C10 Hop Hmux. }
  destruct (case_of op [RESPB_OP_PING; _; _]) eqn:C11.
  { intros Hp Hf.
    inversion Hp; subst ws. clear Hp. fixed_family C11 Hop Hmux. }
  destruct (case_of op [RESPB_OP_MODULE]); [discriminate|].
  destruct (case_of op [RESPB_OP_RESP_PASSTHROUGH]); [discriminate|].
  exfalso. apply case_of_true in Hnat. unfold native_opcodes in Hnat.
  cbn [In] in Hnat.
  repeat (destruct Hnat as [<- | Hnat]; [discriminate|]). destruct Hnat.
Qed.


(** *** The serializer meets the wire format *)





(** A frame is read back whatever follows it.  Take one of the 22
    opcodes the serializer has a case for, 16-bit header fields, at most
    64 argument strings ds for which the opcode has a payload, each
    string of the frame shorter than 2^16 bytes under a 2-byte prefix and
    than 2^32 bytes under a 4-byte prefix, and any bytes after the frame,
    the whole buffer being of at most PTRDIFF_MAX bytes.  Then
    respb_parse_command on that buffer returns 1 with the cursor at the
    end of the frame, not further, and yields the opcode, the channel, the
    strings of the frame in order, and for argc their number (64 for HSET
    with 31 pairs). *)
Theorem frame_parsed_whatever_follows (op mux : Z) (ds : list (list byte))
  (ws : list wfield) (post : list byte) :
  0 <= op < 2 ^ 16 -> 0 <= mux < 2 ^ 16 ->
  case_of op native_opcodes = true ->
  (length ds <= Z.to_nat RESPB_MAX_ARGS)%nat ->
  payload_fields op ds = Some ws ->
  Forall prefix_fits ws ->
  Z.of_nat (length (frame op mux ws ++ post)) <= PTRDIFF_MAX ->
  exists p' c',
    respb_parse_command
      (respb_parser_init (frame op mux ws ++ post)
                         (Z.of_nat (length (frame op mux ws ++ post))))
      zero_command
    = (Returned 1, p', c') /\
    pos p' = Z.of_nat (length (frame op mux ws)) /\
    opcode c' = op /\ mux_id c' = mux /\ argc c' = parsed_argc op ws /\
    map arg_bytes (take (length (wire_strings ws)) (args c'))
    = map Some (wire_strings ws).
Proof.
  intros Hop Hmux Hnat Hlen Hp Hf Hsmall.
  destruct (native_read_as op mux ds ws Hop Hmux Hnat Hlen Hp Hf)
    as (Hread & Hw & _).
  exact (parse_frame op mux ws (parsed_argc op ws) post
           Hop Hmux Hw Hf Hsmall Hread).
Qed.

Lemma frame_parsed_whatever_follows_witness :
  exists p' c',
    respb_parse_command
      (respb_parser_init
         (bytes [0; 0; 0; 5; 0; 2; 107; 108; 255; 254; 253]) 11)
      zero_command
    = (Returned 1, p', c') /\
    pos p' = 8 /\ opcode c' = RESPB_OP_GET /\ mux_id c' = 5 /\ argc c' = 1.
Proof.
  destruct (frame_parsed_whatever_follows RESPB_OP_GET 5
              [bytes [107; 108]] [Pre 2 (bytes [107; 108])]
              (bytes [255; 254; 253]))
    as (p' & c' & E & P & E1 & E2 & Ec & _).
  - vm_compute. split; congruence.
  - vm_compute. split; congruence.
  - reflexivity.
  - vm_compute. lia.
  - reflexivity.
  - repeat constructor.
  - vm_compute. discriminate.
  - exists p', c'. repeat split; assumption.
Defined.

End SerializerFacts.
